(* ===== verification/_CoqProject ===== *)
-Q . S2P
Prelude.v
Config.v
Page.v
LockManager.v
DiskManager.v
Transaction.v
BufferPool.v
HeapFile.v
BTreeNode.v
BTree.v
BTreeSpec.v
BTreeReads.v
BTreeValid.v
BTreeInsert.v
BTreeDelete.v
BTreeContract.v
LockDiscipline.v
LogManager.v
Recovery.v
TransactionManager.v
CrashSafety.v
TxnSystem.v
Isolation.v
Repeatable.v
Text.v
Catalog.v
Ast.v
RowCodec.v
Lexer.v
Parser.v
SqlPrint.v
Planner.v
Storage.v
Executor.v
Query.v
Tables.v
Statements.v
Update.v
Select.v
WorldStorage.v
People.v
Database.v
Session.v
WorldTables.v
Autocommit.v
Reopen.v
Durability.v
PeopleSessions.v
Json.v
Shell.v
Ddl.v
Cycle.v
Lifetime.v
Typing.v
PeopleLife.v
