(* ===== verification/Prelude.v ===== *)
(** * FlintDB: verification development

    FlintDB is an embedded SQL database in C++ (src/src): a page-based storage
    engine with heap files and B+ trees, strict two-phase locking, a
    write-ahead log with redo recovery, and a small SQL layer. This library is
    a shallow embedding of that program with the theorems that make it
    correct. Its top, [Lifetime], says: for a client that checkpoints once after
    every restart, before its first statement, from the creation of a database
    on, whatever statements, schema changes and transactions it runs and
    wherever its processes die between calls or during a commit, every answer
    and every restart are those of an abstract SQL machine; a transaction does
    all of its statements or none. What this assumes of crashes is listed below.

    ** The program and the files

    Every method becomes a function in the monad [M W A] of this file: it maps
    a state to an outcome with a new state. It returns ([Ret]), throws
    ([Throw e]), stops because its thread has to wait for a page lock, or is
    undefined, which includes running out of stack frames.
    Buffers are lists of bytes; machine integers are [Z] with the wrap-around
    written out ([u32], [u64]).

    - [Config]: common/config.h, page and object ids, record ids.
    - [Page]: storage/page.{h,cpp}, the slotted page, against its live slots.
    - [DiskManager]: storage/disk_manager.{h,cpp}, a file of pages, with the
      loops around [pread] and [pwrite] under partial results and [EINTR].
    - [LockManager]: txn/lock_manager.{h,cpp}, wait-die two-phase locking as a
      step relation of threads that request, sleep, wake and release.
    - [Transaction], [BufferPool]: txn/transaction.{h,cpp} and
      storage/buffer_pool.{h,cpp}. A [View] is what one storage operation
      sees: its pool, its page ids, the locks and the dirtied pages of the
      running transactions. [frame] is what every operation keeps.
    - [HeapFile]: storage/heap_file.{h,cpp}, against the list of its rows.
    - [BTreeNode], [BTree]: index/btree.{h,cpp}, nodes and their page images,
      and the recursive operations. [BTreeSpec] states the tree as a predicate
      over pages ([subtree]) and its entries; [BTreeReads], [BTreeInsert] and
      [BTreeDelete] prove the operations against it, [BTreeValid] describes
      height and validity page by page, [BTreeContract] states the results.
    - [LockDiscipline]: every one of these operations, whatever it meets,
      writes only pages its transaction has locked exclusively.
    - [LogManager]: wal/log_manager.{h,cpp} and wal/log_record.h, records with
      their checksum, the torn tail, group commit as a step relation.
    - [Recovery]: wal/recovery.{h,cpp}.
    - [TransactionManager]: txn/transaction_manager.{h,cpp}. A [World] is the
      log, the locks, the pool of every object and the running transactions.
      [CrashSafety] takes [Commit] apart into its steps and crashes it between
      any two; [TxnSystem] has the system as a step relation and its invariant,
      [Isolation] the same for operations that wait or fail, and two-phase
      locking as its invariant; [Repeatable] relates a read to itself run later.
    - [Text], [Catalog]: catalog/catalog.{h,cpp}, the schema, its text file
      (through the stream extraction of [Text]) and its replacement.
    - [Ast], [RowCodec], [Lexer], [Parser], [Planner]: the files of these
      names in sql/, with sql_semantics and token. [SqlPrint] writes
      statements out again.
    - [Storage]: what the executor asks of storage, as a class of operations
      and a class of laws. [Executor] is sql/executor.cpp over it; [Query] is
      the reference semantics of a query; [Tables], [Statements], [Update] and
      [Select] prove each statement against the laws.
    - [WorldStorage]: heap files and trees in a [World] satisfy the laws.
      [People] runs the statements on a concrete database.
    - [Database], [Session]: db/database.{h,cpp}, sql/session.{h,cpp} and the
      DDL statements of sql/executor.cpp.
    - [WorldTables], [Autocommit], [Reopen], [Durability]: the tables a world
      holds; one statement in its own transaction; what the constructor finds
      after a crash; and the two together. [PeopleSessions] is the concrete
      database of these theorems, made by the DDL statements.
    - [Ddl], [Cycle], [Typing]: CREATE TABLE and CREATE INDEX on a database
      [at_rest], with the back-fill; [Checkpoint] and the next start; the
      types of a query's rows. [Lifetime] is the abstract machine, the events
      of a client with its processes, and the simulation over any number of
      them. [PeopleLife] runs them.
    - [Json], [Shell]: tools/flintdb_cli.cpp, the line-by-line driver and the
      JSON it answers with; the text of exceptions is a parameter.

    ** What the theorems show

    - The whole program ([Lifetime]): it refines a machine whose state is the
      schema and the rows of each table. A commit cut off while it logs pages
      has not happened, one cut off after the log was synced has, and only in
      between may it be either ([phase], [may_find] of [CrashSafety]).
    - Whole sessions ([Durability]): a transaction of any statements is all or
      nothing under COMMIT, ROLLBACK, a crash after either and a crash during
      the COMMIT; a single statement is too, and is durable once answered.
    - The life of a database ([Ddl], [Cycle]): tables and indexes are created,
      filled and served; a crash after the answer reopens to the new schema if
      the renamed catalog.meta survives, and opens with the old schema and rows
      if it does not; when a call of [Persist] fails nothing has changed on
      disk. A checkpoint writes every page in memory to its file and empties
      the log, and after an exit the directory opens again with the same rows.
      The driver answers every line
      with one reply, and replies can be read back.
    - Transactions on pages ([TxnSystem]): the committed state is recovered
      from every reachable state; [Commit] is atomic step by step; [Abort]
      reverts. In [Isolation], with failing and waiting operations, what a
      transaction has locked no other changes until it ends, and what it has
      dirtied no other has locked; so reads are repeatable ([Repeatable]),
      except where they lock nothing: the pages after a row that [Find] stops
      at, a row id on a page the file does not have, and, against the
      documents, a scan of an empty table (lemma [empty_scan_phantom]).
    - Log, recovery and locks: a crash keeps a prefix of the records that holds
      every synced one; damaged records are rejected; group commit loses
      nothing and strands no thread; recovery redoes exactly the committed
      images and is idempotent; exclusive locks exclude; every sleeping request
      has a younger holder of its page in its way, and the chain of such
      holders ends at one that is awake, so there is no global deadlock.
    - Storage: pages, heap files and trees refine lists of slots, rows and
      entries, errors included; nodes survive their page image; the structural
      check of a tree decides a declarative predicate on any pages.
    - SQL: every statement against the reference semantics, whatever the plan;
      the rows of a SELECT have its column types; parsing
      terminates (and with it the target of the fuzzer, sql/fuzz_parser.cpp)
      and inverts printing; rows and the schema survive
      their encodings; the schema file is replaced atomically.
    - Flaws the code has, as lemmas named in the findings: reused transaction
      ids, a failed commit that comes back, duplicates stranded by a leaf
      split, an index that a crash leaves without entries, a database that a
      lost rename makes impossible to open, and others.

    ** Bounds and fuel

    - Recursion on the tree takes the stack frames left as an argument; six
      are enough for any tree of 2^32 pages, since nodes are at least half
      full. Chain walks have the code's own [kMaxTraversalSteps].
    - Loops of the lexer and parser run on the number of characters or tokens
      left; [Parse_total] shows that this never runs out.
    - An insertion takes at most seven new pages per index, so the theorems ask
      for room below 2^32 pages; transaction ids and log sequence numbers stay
      below 2^64 ([counters_ok]).
    - A key may have no more rows in an index than one leaf holds: beyond
      that the code itself loses rows (lemma [Insert_strands_duplicates]).
    - In [Isolation] page ids are unsigned, an operation has room for the pages
      it may allocate, and no other transaction has locked a page of the
      object that does not exist (as a caller could with a made-up row id).

    ** Assumptions

    - [open], [fstat] and [ftruncate] succeed and memory suffices; what [write],
      [fsync], [rename], [pread] and [pwrite] answer is a parameter.
    - Each method under a mutex is one step, and a storage operation of one
      thread is one; an operation that waits for a lock ends there, and its
      continuation after the wake-up is not followed. The session theorems have one
      session running; the page-level theorems have any number of threads.
    - A crash keeps of [wal.log], and of the bytes of [catalog.meta], every
      byte the last [fsync] covered and any prefix of those after it.
    - The object files, which the code never syncs, keep what was written,
      except for one page that may be torn ([crash_of], [crash_files]). This is
      the death of the process, not a loss of power: the latter can lose
      written pages, which matters after a checkpoint has emptied the log
      (finding at database.cpp:128).
    - A [rename] of catalog.meta that returned survives a crash ([crash_dir]).
      The directory is never synced, so a loss of power can undo it (finding at
      catalog.cpp:211, lemma [lost_rename_unopenable]). Every theorem about a
      crash after a schema change rests on this, except the part of
      [ddl_serves] that is about the loss.
    - The constructor takes the bytes of wal.log it finds as synced: a second
      crash loses none of them.
    - In [Lifetime] the client, not the program, checkpoints after a restart:
      neither the constructor nor flintdb_cli.cpp does. Without it the flaw of
      the reused transaction ids can strike, and with it at other times that of
      the log that is no longer synced. Its process does not die inside CREATE
      TABLE or CREATE INDEX, where lemma [interrupted_create_index] shows that
      rows can be missed, nor between the writes of a statement that has not
      begun to commit, and no call of [Persist] fails.
    - [DiskManager.ReadPage] and [WritePage] transfer whole pages; the loops
      that make them do so are modelled beside them ([FullPRead],
      [FullPWrite]), and a page transfer that fails is not.
    - A driver command of a length the memory does not hold is a
      [runtime_error] in [ReadExactBytes] as any short read is; in the code the
      string's constructor throws first. Neither is caught.
    - The JSON reader of [replies_roundtrip] accepts more than RFC 8259: any
      bytes from 0x80 on, and leading zeros.
    - Iteration over an [unordered_map] follows the order of [gmap]; the code's
      results do not depend on it. [std::upper_bound] is on a sorted range.
    - Stream extraction is libstdc++'s in the C locale. Exception messages are
      not modelled, the exception's type is.
    - When the list of answers a system call is to give ends, further calls
      transfer all that is left.
    - UPDATE decodes and filters its candidate rows in passes without effects.
    - The current transaction, a thread-local variable in the code, is kept per
      [World] and thread.

    ** Not modelled

    - bench/, tests/, scripts/ and docs/: drivers and text.
    - The text of exceptions, destructors, and move semantics. *)
From stdpp Require Export base tactics option list numbers gmap sets fin_maps.
From Stdlib Require Export ZArith Lia.
From Stdlib.Strings Require Export Byte.

#[global] Open Scope Z_scope.

Declare Scope flint_scope.
Delimit Scope flint_scope with flint.

(** ** Bytes and byte strings *)

(** A [char] buffer or a [std::string]: a list of bytes. *)
Abbreviation bytes := (list byte).

Definition Z_of_byte (b : byte) : Z := Z.of_N (Byte.to_N b).

Definition byte_of_Z (z : Z) : byte := default x00 (Byte.of_N (Z.to_N (z mod 256))).

#[global] Instance byte_eq_dec : EqDecision byte := Byte.byte_eq_dec.

(** Length of a buffer as a machine integer. *)
Definition zlen {A} (l : list A) : Z := Z.of_nat (length l).

(** [memcpy] out of and into a buffer, at byte offsets. *)
Definition slice {A} (off len : Z) (buf : list A) : list A :=
  take (Z.to_nat len) (drop (Z.to_nat off) buf).

Definition splice {A} (off : Z) (bs buf : list A) : list A :=
  take (Z.to_nat off) buf ++ bs ++ drop (Z.to_nat off + length bs) buf.

(** Little-endian machine integers of [n] bytes. *)
Fixpoint le_encode (n : nat) (z : Z) : bytes :=
  match n with
  | O => []
  | S n' => byte_of_Z z :: le_encode n' (z / 256)
  end.

Fixpoint le_decode (bs : bytes) : Z :=
  match bs with
  | [] => 0
  | b :: bs' => Z_of_byte b + 256 * le_decode bs'
  end.

(** [ReadAt<T>] / [WriteAt<T>] for a [T] of [w] bytes (the memcpy-based
    accessors that page.cpp, btree.cpp and log_manager.cpp each define). *)
Definition read_at (w : nat) (off : Z) (buf : bytes) : Z :=
  le_decode (slice off (Z.of_nat w) buf).

Definition write_at (w : nat) (off : Z) (v : Z) (buf : bytes) : bytes :=
  splice off (le_encode w v) buf.

(** Two's complement reading of an unsigned 64-bit word. *)
Definition to_int64 (z : Z) : Z := if z <? 2 ^ 63 then z else z - 2 ^ 64.

Definition int64_ok (z : Z) : Prop := - 2 ^ 63 <= z < 2 ^ 63.

(** ** Outcomes of C++ code *)

(** The exception classes the engine throws. *)
Inductive exn :=
| OutOfRange
| RuntimeError
| InvalidArgument
| LogicError
| TransactionAborted (txn_id : Z)
| SqlSyntaxError (position : Z)
| SqlSemanticError.

(** How a call ends: it returns, it throws, its thread goes to sleep on a
    page lock (evaluation stops at that point), or it has left defined
    behaviour (a failed assert or an access outside an object). *)
Inductive outcome (A : Type) :=
| Ret (a : A)
| Throw (e : exn)
| Sleep (key : Z * Z)
| Undefined.
Arguments Ret {A} a.
Arguments Throw {A} e.
Arguments Sleep {A} key.
Arguments Undefined {A}.

(** Code over a mutable state [W]: what was written before a throw stays. *)
Definition M (W A : Type) : Type := W -> outcome A * W.

#[global] Instance M_ret W : MRet (M W) := fun A a w => (Ret a, w).

#[global] Instance M_bind W : MBind (M W) := fun A B k m w =>
  match m w with
  | (Ret a, w') => k a w'
  | (Throw e, w') => (Throw e, w')
  | (Sleep key, w') => (Sleep key, w')
  | (Undefined, w') => (Undefined, w')
  end.

Definition throw {W A} (e : exn) : M W A := fun w => (Throw e, w).
Definition undefined {W A} : M W A := fun w => (Undefined, w).
Definition get {W} : M W W := fun w => (Ret w, w).
Definition gets {W A} (f : W -> A) : M W A := fun w => (Ret (f w), w).
Definition modify {W} (f : W -> W) : M W unit := fun w => (Ret tt, f w).

(** A pure computation that may throw. *)
Definition lift {W A} (o : outcome A) : M W A := fun w => (o, w).

#[global] Instance outcome_ret : MRet outcome := fun A a => Ret a.
#[global] Instance outcome_bind : MBind outcome := fun A B k m =>
  match m with
  | Ret a => k a
  | Throw e => Throw e
  | Sleep key => Sleep key
  | Undefined => Undefined
  end.

(** A [for] loop over a fixed sequence. *)
Fixpoint for_each {W A} (body : A -> M W unit) (l : list A) : M W unit :=
  match l with
  | [] => mret tt
  | a :: l' => body a ≫= fun _ => for_each body l'
  end.

(** A loop that carries an accumulator, and one that returns early. *)
Fixpoint fold_m {W A B} (body : B -> A -> M W B) (acc : B) (l : list A) : M W B :=
  match l with
  | [] => mret acc
  | a :: l' => body acc a ≫= fun acc' => fold_m body acc' l'
  end.

Fixpoint find_m {W A B} (body : A -> M W (option B)) (l : list A) : M W (option B) :=
  match l with
  | [] => mret None
  | a :: l' => body a ≫= fun r => match r with Some b => mret (Some b) | None => find_m body l' end
  end.

(** Small-step closure, for the components modelled as state machines. *)
Inductive steps {S} (R : S -> S -> Prop) (s1 : S) : S -> Prop :=
| steps_refl : steps R s1 s1
| steps_snoc s2 s3 : steps R s1 s2 -> R s2 s3 -> steps R s1 s3.

(** ** Lemmas: bytes *)

Create HintDb flint.
Create Rewrite HintDb flint_run.

Lemma Z_of_byte_range b : 0 <= Z_of_byte b < 256.
Proof. unfold Z_of_byte. pose proof (Byte.to_N_bounded b). lia. Qed.

Lemma Z_of_byte_of_Z z : Z_of_byte (byte_of_Z z) = z mod 256.
Proof.
  unfold Z_of_byte, byte_of_Z.
  pose proof (Z.mod_pos_bound z 256 ltac:(lia)) as Hb.
  destruct (Byte.of_N (Z.to_N (z mod 256))) as [b|] eqn:E; simpl.
  - apply Byte.to_of_N in E. rewrite E. lia.
  - apply Byte.of_N_None_iff in E. lia.
Qed.

Lemma byte_of_Z_of_byte b : byte_of_Z (Z_of_byte b) = b.
Proof.
  unfold byte_of_Z. rewrite Z.mod_small by apply Z_of_byte_range.
  unfold Z_of_byte. rewrite N2Z.id, Byte.of_to_N. done.
Qed.

Lemma Z_of_byte_inj b1 b2 : Z_of_byte b1 = Z_of_byte b2 -> b1 = b2.
Proof. intros H. rewrite <- (byte_of_Z_of_byte b1), H. apply byte_of_Z_of_byte. Qed.

Lemma byte_of_Z_mod z : byte_of_Z (z mod 256) = byte_of_Z z.
Proof. unfold byte_of_Z. by rewrite Z.mod_mod. Qed.

Lemma length_le_encode n z : length (le_encode n z) = n.
Proof. revert z. induction n; intros; simpl; auto. Qed.

Lemma le_decode_encode n z : le_decode (le_encode n z) = z mod 256 ^ Z.of_nat n.
Proof.
  revert z. induction n as [|n IH]; intros z; cbn [le_encode le_decode].
  - by rewrite Z.mod_1_r.
  - rewrite IH, Z_of_byte_of_Z, Nat2Z.inj_succ, Z.pow_succ_r by lia.
    rewrite Z.rem_mul_r; [|lia|apply Z.pow_pos_nonneg; lia]. lia.
Qed.

Lemma le_decode_bound bs : 0 <= le_decode bs < 256 ^ zlen bs.
Proof.
  unfold zlen. induction bs as [|b bs IH]; cbn [le_decode length].
  - lia.
  - rewrite Nat2Z.inj_succ, Z.pow_succ_r by lia.
    pose proof (Z_of_byte_range b). nia.
Qed.

Lemma le_encode_decode bs : le_encode (length bs) (le_decode bs) = bs.
Proof.
  induction bs as [|b bs IH]; cbn [length le_encode le_decode]; [done|].
  pose proof (Z_of_byte_range b) as Hb. f_equal.
  - rewrite <- byte_of_Z_mod.
    replace ((Z_of_byte b + 256 * le_decode bs) mod 256) with (Z_of_byte b).
    + apply byte_of_Z_of_byte.
    + rewrite Z.mul_comm, Z.mod_add, Z.mod_small; lia.
  - rewrite Z.mul_comm, Z.div_add, Z.div_small, Z.add_0_l by lia. done.
Qed.

Lemma le_decode_inj bs1 bs2 : length bs1 = length bs2 -> le_decode bs1 = le_decode bs2 -> bs1 = bs2.
Proof. intros Hl Hd. by rewrite <- (le_encode_decode bs1), Hl, Hd, le_encode_decode. Qed.

Lemma le_decode_zeros n : le_decode (replicate n x00) = 0.
Proof. induction n as [|n IH]; cbn [replicate le_decode]; [done|]. rewrite IH. done. Qed.

(** ** Lemmas: 32-bit arithmetic *)

Lemma lxor_inj_l a b x : Z.lxor a x = Z.lxor b x -> a = b.
Proof.
  intros H. apply (f_equal (fun z => Z.lxor z x)) in H.
  by rewrite !Z.lxor_assoc, !Z.lxor_nilpotent, !Z.lxor_0_r in H.
Qed.

Lemma lxor_bound h x n : 0 < n -> 0 <= h < 2 ^ n -> 0 <= x < 2 ^ n -> 0 <= Z.lxor h x < 2 ^ n.
Proof.
  intros Hn Hh Hx. assert (0 <= Z.lxor h x) as H0 by (apply Z.lxor_nonneg; lia). split; [done|].
  destruct (decide (Z.lxor h x = 0)) as [->|]; [lia|]. apply Z.log2_lt_pow2; [lia|].
  eapply Z.le_lt_trans; [apply Z.log2_lxor; lia|]. apply Z.max_lub_lt;
    [destruct (decide (h = 0)) as [->|]|destruct (decide (x = 0)) as [->|]]; try (cbn; lia); apply Z.log2_lt_pow2; lia.
Qed.

(** Multiplication by an odd constant is invertible modulo a power of two. *)
Lemma mul_mod_inj P Q m a b :
  0 < m -> (P * Q) mod m = 1 mod m -> 0 <= a < m -> 0 <= b < m -> (a * P) mod m = (b * P) mod m -> a = b.
Proof.
  intros Hm Hpq Ha Hb H.
  assert (forall c, 0 <= c < m -> ((c * P) mod m * Q) mod m = c) as Hinv.
  { intros c Hc. rewrite Z.mul_mod_idemp_l, <- Z.mul_assoc, <- Z.mul_mod_idemp_r, Hpq, Z.mul_mod_idemp_r, Z.mul_1_r by lia.
    by apply Z.mod_small. }
  by rewrite <- (Hinv a Ha), H, Hinv.
Qed.

(** ** Lemmas: lists *)

Lemma list_omap_ext_in {A B} (f g : A -> option B) (l : list A) :
  (forall a, a ∈ l -> f a = g a) -> omap f l = omap g l.
Proof.
  induction l as [|a l IH]; intros H; [done|]. cbn. rewrite (H a) by (by left).
  rewrite IH by (intros; apply H; by right). done.
Qed.

Lemma list_filter_all {A} (P : A -> Prop) `{Hdec : !forall a, Decision (P a)} (l : list A) :
  Forall P l -> filter P l = l.
Proof. induction 1; [done|]. rewrite filter_cons, decide_True by done. by f_equal. Qed.

Lemma list_filter_map {A B} (f : A -> B) (P : B -> Prop) `{Hdec : !forall b, Decision (P b)} (l : list A) :
  filter P (f <$> l) = f <$> filter (fun a => P (f a)) l.
Proof. induction l as [|a l IH]; [done|]. cbn [fmap list_fmap]. rewrite !filter_cons. fold (f <$> l). rewrite IH. by case_decide. Qed.

Lemma list_filter_ext_in {A} (P Q : A -> Prop) `{HdP : !forall a, Decision (P a), HdQ : !forall a, Decision (Q a)} (l : list A) :
  (forall a, a ∈ l -> P a <-> Q a) -> filter P l = filter Q l.
Proof.
  induction l as [|a l IH]; intros H; [done|]. rewrite !filter_cons, IH by (intros; apply H; by right).
  destruct (H a ltac:(by left)) as [H1 H2]. case_decide as Hp; case_decide as Hq; done || tauto.
Qed.

Lemma list_filter_none {A} (P : A -> Prop) `{Hdec : !forall a, Decision (P a)} (l : list A) :
  (forall a, a ∈ l -> ~ P a) -> filter P l = [].
Proof.
  induction l as [|a l IH]; intros H; [done|]. rewrite filter_cons, decide_False by (apply H; by left). apply IH. intros. apply H. by right.
Qed.

Lemma filter_submseteq {A} (P : A -> Prop) `{Hdec : !forall a, Decision (P a)} (l1 l2 : list A) :
  l1 ⊆+ l2 -> filter P l1 ⊆+ filter P l2.
Proof. intros [k Hk]%submseteq_Permutation. rewrite Hk, filter_app. apply submseteq_inserts_r. done. Qed.

Lemma filter_submseteq_self {A} (P : A -> Prop) `{Hdec : !forall a, Decision (P a)} (l : list A) : filter P l ⊆+ l.
Proof. induction l as [|a l IH]; [done|]. rewrite filter_cons. case_decide; [by constructor|by apply submseteq_cons]. Qed.

(** Keeping and dropping by the same test takes a list apart. *)
Lemma filter_partition {A} (P : A -> Prop) `{Hdec : !forall a, Decision (P a)} (l : list A) :
  l ≡ₚ filter (fun a => ~ P a) l ++ filter P l.
Proof.
  induction l as [|a l IH]; [done|]. rewrite !filter_cons. destruct (decide (P a)) as [H|H].
  - rewrite decide_False by tauto. rewrite <- Permutation_middle. by constructor.
  - rewrite decide_True by done. cbn. by constructor.
Qed.

(** ** Lemmas: slices and splices *)

Lemma length_slice {A} off len (l : list A) :
  0 <= off -> 0 <= len -> off + len <= zlen l -> zlen (slice off len l) = len.
Proof. unfold slice, zlen. rewrite length_take, length_drop. lia. Qed.

Lemma slice_full {A} off (l : list A) : zlen l <= off -> slice 0 off l = l.
Proof. unfold slice, zlen. intros. cbn. apply take_ge. lia. Qed.

Lemma lookup_slice {A} off len (l : list A) (i : nat) :
  0 <= off ->
  slice off len l !! i = if decide (Z.of_nat i < len) then l !! (Z.to_nat off + i)%nat else None.
Proof.
  intros Ho. unfold slice. case_decide.
  - rewrite lookup_take_lt by lia. apply lookup_drop.
  - apply lookup_take_ge. lia.
Qed.

Lemma zlen_splice {A} off (bs l : list A) :
  0 <= off -> off + zlen bs <= zlen l -> zlen (splice off bs l) = zlen l.
Proof.
  unfold splice, zlen. intros. rewrite !length_app, length_take, length_drop. lia.
Qed.

Lemma lookup_splice {A} off (bs l : list A) (i : nat) :
  0 <= off -> off + zlen bs <= zlen l ->
  splice off bs l !! i =
    if decide (off <= Z.of_nat i < off + zlen bs) then bs !! (i - Z.to_nat off)%nat else l !! i.
Proof.
  unfold splice, zlen. intros Ho Hl.
  destruct (decide (Z.of_nat i < off)).
  - rewrite lookup_app_l by (rewrite length_take; lia).
    rewrite lookup_take_lt by lia. rewrite decide_False by lia. done.
  - rewrite lookup_app_r by (rewrite length_take; lia).
    rewrite length_take, Nat.min_l by lia. case_decide.
    + rewrite lookup_app_l by lia. done.
    + rewrite lookup_app_r by lia. rewrite lookup_drop. f_equal. lia.
Qed.

Lemma slice_splice_eq {A} off (bs l : list A) :
  0 <= off -> off + zlen bs <= zlen l -> slice off (zlen bs) (splice off bs l) = bs.
Proof.
  intros. apply list_eq. intros i. rewrite lookup_slice by lia.
  case_decide as Hi.
  - rewrite lookup_splice by lia. rewrite decide_True by lia. f_equal. lia.
  - symmetry. apply lookup_ge_None. unfold zlen in *. lia.
Qed.

Lemma slice_splice_ne {A} o1 n o2 (bs l : list A) :
  0 <= o1 -> 0 <= o2 -> o2 + zlen bs <= zlen l ->
  o1 + n <= o2 \/ o2 + zlen bs <= o1 ->
  slice o1 n (splice o2 bs l) = slice o1 n l.
Proof.
  intros. apply list_eq. intros i. rewrite !lookup_slice by lia.
  case_decide; [|done]. rewrite lookup_splice by lia. rewrite decide_False by lia. done.
Qed.

Lemma slice_app_l {A} off len (l1 l2 : list A) :
  0 <= off -> off + len <= zlen l1 -> slice off len (l1 ++ l2) = slice off len l1.
Proof.
  intros Ho Hl. apply list_eq. intros i. rewrite !lookup_slice by done. case_decide; [|done].
  apply lookup_app_l. unfold zlen in *. lia.
Qed.

Lemma slice_app_r {A} off len (l1 l2 : list A) :
  0 <= off -> slice (zlen l1 + off) len (l1 ++ l2) = slice off len l2.
Proof.
  intros Ho. unfold zlen in *. apply list_eq. intros i. rewrite !lookup_slice by lia. case_decide; [|done].
  rewrite lookup_app_r by lia. f_equal. lia.
Qed.

Lemma zlen_app {A} (l1 l2 : list A) : zlen (l1 ++ l2) = zlen l1 + zlen l2.
Proof. unfold zlen. rewrite length_app. lia. Qed.

Lemma zlen_nonneg {A} (l : list A) : 0 <= zlen l.
Proof. unfold zlen. lia. Qed.

(** ** Lemmas: integer fields *)

Lemma zlen_write_at w off v buf :
  0 <= off -> off + Z.of_nat w <= zlen buf -> zlen (write_at w off v buf) = zlen buf.
Proof. intros. apply zlen_splice; unfold zlen in *; rewrite ?length_le_encode; lia. Qed.

Lemma read_write_eq w off v buf :
  0 <= off -> off + Z.of_nat w <= zlen buf ->
  read_at w off (write_at w off v buf) = v mod 256 ^ Z.of_nat w.
Proof.
  intros. unfold read_at, write_at.
  assert (Z.of_nat w = zlen (le_encode w v)) as Hw by (unfold zlen; by rewrite length_le_encode).
  rewrite Hw at 1. rewrite slice_splice_eq by lia. apply le_decode_encode.
Qed.

Lemma read_write_ne w1 o1 w2 o2 v buf :
  0 <= o1 -> 0 <= o2 -> o2 + Z.of_nat w2 <= zlen buf ->
  o1 + Z.of_nat w1 <= o2 \/ o2 + Z.of_nat w2 <= o1 ->
  read_at w1 o1 (write_at w2 o2 v buf) = read_at w1 o1 buf.
Proof.
  intros. unfold read_at, write_at. f_equal.
  apply slice_splice_ne; unfold zlen in *; rewrite ?length_le_encode; lia.
Qed.

Lemma slice_write_ne o1 n w2 o2 v buf :
  0 <= o1 -> 0 <= o2 -> o2 + Z.of_nat w2 <= zlen buf ->
  o1 + n <= o2 \/ o2 + Z.of_nat w2 <= o1 ->
  slice o1 n (write_at w2 o2 v buf) = slice o1 n buf.
Proof.
  intros. unfold write_at.
  apply slice_splice_ne; unfold zlen in *; rewrite ?length_le_encode; lia.
Qed.

Lemma read_splice_ne w1 o1 o2 bs buf :
  0 <= o1 -> 0 <= o2 -> o2 + zlen bs <= zlen buf ->
  o1 + Z.of_nat w1 <= o2 \/ o2 + zlen bs <= o1 ->
  read_at w1 o1 (splice o2 bs buf) = read_at w1 o1 buf.
Proof. intros. unfold read_at. f_equal. apply slice_splice_ne; lia. Qed.

Lemma read_at_app_l w off l1 l2 :
  0 <= off -> off + Z.of_nat w <= zlen l1 -> read_at w off (l1 ++ l2) = read_at w off l1.
Proof. intros. unfold read_at. by rewrite slice_app_l. Qed.

Lemma read_at_app_r w off l1 l2 : 0 <= off -> read_at w (zlen l1 + off) (l1 ++ l2) = read_at w off l2.
Proof. intros. unfold read_at. by rewrite slice_app_r. Qed.

Lemma read_at_bound w off buf : 0 <= read_at w off buf < 256 ^ Z.of_nat w.
Proof.
  unfold read_at. pose proof (le_decode_bound (slice off (Z.of_nat w) buf)) as H.
  split; [lia|]. eapply Z.lt_le_trans; [apply H|].
  apply Z.pow_le_mono_r; [lia|]. unfold zlen, slice. rewrite length_take. lia.
Qed.

Lemma read_at_zeros w off n : read_at w off (replicate n x00) = 0.
Proof.
  unfold read_at, slice. rewrite drop_replicate, take_replicate. apply le_decode_zeros.
Qed.

Lemma to_int64_encode v : int64_ok v -> to_int64 (v mod 256 ^ Z.of_nat 8) = v.
Proof.
  unfold int64_ok, to_int64. intros H.
  change (256 ^ Z.of_nat 8) with (2 ^ 64).
  destruct (Z.ltb_spec (v mod 2 ^ 64) (2 ^ 63)) as [Hlt|Hge];
    destruct (decide (0 <= v));
    [rewrite Z.mod_small in *; lia| | |];
    rewrite <- (Z.mod_add v 1 (2 ^ 64)) in * by lia;
    try (rewrite Z.mod_small in *; lia).
  rewrite Z.mod_add in Hge by lia. rewrite Z.mod_small in Hge; lia.
Qed.

(** ** Lemmas: the state monad *)

Lemma bind_ret {W A B} (m : M W A) (k : A -> M W B) w a w' :
  m w = (Ret a, w') -> (m ≫= k) w = k a w'.
Proof. intros H. unfold mbind, M_bind. by rewrite H. Qed.

Lemma bind_throw {W A B} (m : M W A) (k : A -> M W B) w e w' :
  m w = (Throw e, w') -> (m ≫= k) w = (Throw e, w').
Proof. intros H. unfold mbind, M_bind. by rewrite H. Qed.

Lemma bind_inv {W A B} (m : M W A) (k : A -> M W B) w b w'' :
  (m ≫= k) w = (Ret b, w'') -> exists a w', m w = (Ret a, w') /\ k a w' = (Ret b, w'').
Proof.
  unfold mbind, M_bind. destruct (m w) as [[a|e|key|] w'] eqn:E; intros H;
    try discriminate. eauto.
Qed.

Lemma outcome_bind_inv {A B} (m : outcome A) (k : A -> outcome B) b :
  (m ≫= k) = Ret b -> exists a, m = Ret a /\ k a = Ret b.
Proof. destruct m; simpl; intros; try discriminate; eauto. Qed.

Lemma gets_run {W A} (f : W -> A) w : gets f w = (Ret (f w), w).
Proof. done. Qed.

Lemma mret_run {W A} (a : A) (w : W) : (mret a : M W A) w = (Ret a, w).
Proof. done. Qed.

Lemma modify_run {W} (f : W -> W) w : modify f w = (Ret tt, f w).
Proof. done. Qed.

Lemma for_each_app {W A} (body : A -> M W unit) l1 l2 w :
  for_each body (l1 ++ l2) w = (for_each body l1;; for_each body l2) w.
Proof.
  revert w. induction l1 as [|a l1 IH]; intros w; [done|]. cbn [app for_each]. unfold mbind, M_bind.
  destruct (body a w) as [[u|e|key|] w1]; [|done..]. rewrite IH. done.
Qed.

Lemma for_each_fmap {W A B} (body : B -> M W unit) (f : A -> B) l w :
  for_each body (f <$> l) w = for_each (fun a => body (f a)) l w.
Proof.
  revert w. induction l as [|a l IH]; intros w; [done|]. cbn. unfold mbind, M_bind.
  destruct (body (f a) w) as [[u|e|key|] w1]; [|done..]. apply IH.
Qed.

Lemma for_each_ext {W A} (f g : A -> M W unit) l w :
  (forall a w, a ∈ l -> f a w = g a w) -> for_each f l w = for_each g l w.
Proof.
  revert w. induction l as [|a l IH]; intros w H; [done|]. cbn. unfold mbind, M_bind.
  rewrite H by (by left). destruct (g a w) as [[u|e|key|] w1]; [|done..]. apply IH. intros. apply H. by right.
Qed.

(** Nested loops are one loop over the concatenation. *)
Lemma for_each_concat {W A B} (body : B -> M W unit) (f : A -> list B) l w :
  for_each (fun a => for_each body (f a)) l w = for_each body (concat (f <$> l)) w.
Proof.
  revert w. induction l as [|a l IH]; intros w; [done|]. cbn [fmap list_fmap concat]. rewrite for_each_app.
  cbn. unfold mbind, M_bind. destruct (for_each body (f a) w) as [[u|e|key|] w1]; [|done..]. apply IH.
Qed.

(** [m] never changes the part [f] of the state, however it ends. *)
Definition preserves {W X A} (f : W -> X) (m : M W A) : Prop := forall w, f (m w).2 = f w.

Lemma preserves_ret {W X A} (f : W -> X) (a : A) : preserves f (mret a).
Proof. done. Qed.

Lemma preserves_gets {W X A} (f : W -> X) (g : W -> A) : preserves f (gets g).
Proof. done. Qed.

Lemma preserves_throw {W X A} (f : W -> X) e : preserves f (throw e : M W A).
Proof. done. Qed.

Lemma preserves_bind {W X A B} (f : W -> X) (m : M W A) (k : A -> M W B) :
  preserves f m -> (forall a, preserves f (k a)) -> preserves f (m ≫= k).
Proof.
  intros Hm Hk w. unfold mbind, M_bind. specialize (Hm w). destruct (m w) as [[a|e|key|] w1]; cbn in *; try done.
  by rewrite Hk.
Qed.

Lemma preserves_for_each {W X A} (f : W -> X) (body : A -> M W unit) l :
  (forall a, preserves f (body a)) -> preserves f (for_each body l).
Proof.
  intros H. induction l as [|a l IH]; [apply preserves_ret|]. cbn [for_each]. apply preserves_bind; [done|by intros _].
Qed.

#[export] Hint Resolve preserves_ret preserves_gets preserves_throw preserves_bind preserves_for_each : flint.

(** A loop whose every turn succeeds and keeps [I], related to the start by a
    preorder. *)
Lemma for_each_run {W A} (body : A -> M W unit) (R : W -> W -> Prop) `{!PreOrder R} (l : list A) w :
  (forall a w', a ∈ l -> R w w' -> exists w'', body a w' = (Ret tt, w'') /\ R w' w'') ->
  exists w', for_each body l w = (Ret tt, w') /\ R w w'.
Proof.
  intros H. assert (forall l' w', (forall a, a ∈ l' -> a ∈ l) -> R w w' -> exists w'', for_each body l' w' = (Ret tt, w'') /\ R w' w'') as Hl.
  { induction l' as [|a l' IH]; intros w' Hin Hw'; cbn [for_each]; [by exists w'|].
    destruct (H a w') as (w1 & H1 & HR1); [apply Hin; by left|done|].
    destruct (IH w1) as (w2 & H2 & HR2); [intros; apply Hin; by right|by transitivity w'|].
    exists w2. rewrite (bind_ret _ _ _ _ _ H1). split; [done|by transitivity w1]. }
  destruct (Hl l w) as (w' & Hw & HR); [done|done|]. eauto.
Qed.

(** A loop whose every turn keeps [I] and, whatever the state, adds what [f]
    says of the element. *)
Lemma fold_m_run {W A B} (body : B -> A -> M W B) (f : B -> A -> B) (I : W -> Prop) (R : W -> W -> Prop)
    `{!PreOrder R} (l : list A) acc w :
  (forall acc a w, a ∈ l -> I w -> exists w', body acc a w = (Ret (f acc a), w') /\ I w' /\ R w w') ->
  I w -> exists w', fold_m body acc l w = (Ret (foldl f acc l), w') /\ I w' /\ R w w'.
Proof.
  revert acc w. induction l as [|a l IH]; intros acc w Hb Hi; cbn [fold_m foldl].
  - by exists w.
  - destruct (Hb acc a w ltac:(by left) Hi) as (w1 & H1 & Hi1 & HR1).
    destruct (IH (f acc a) w1) as (w2 & H2 & Hi2 & HR2); [intros; apply Hb; [by right|done]|done|].
    exists w2. rewrite (bind_ret _ _ _ _ _ H1). split_and!; [done..|by transitivity w1].
Qed.

Fixpoint find_pure {A B} (f : A -> option B) (l : list A) : option B :=
  match l with
  | [] => None
  | a :: l' => match f a with Some b => Some b | None => find_pure f l' end
  end.

Lemma find_m_run {W A B} (body : A -> M W (option B)) (f : A -> option B) (I : W -> Prop) (R : W -> W -> Prop)
    `{!PreOrder R} (l : list A) w :
  (forall a w, a ∈ l -> I w -> exists w', body a w = (Ret (f a), w') /\ I w' /\ R w w') ->
  I w -> exists w', find_m body l w = (Ret (find_pure f l), w') /\ I w' /\ R w w'.
Proof.
  revert w. induction l as [|a l IH]; intros w Hb Hi; cbn [find_m find_pure].
  - by exists w.
  - destruct (Hb a w ltac:(by left) Hi) as (w1 & H1 & Hi1 & HR1).
    rewrite (bind_ret _ _ _ _ _ H1). destruct (f a) as [b|]; [by exists w1|].
    destruct (IH w1) as (w2 & H2 & Hi2 & HR2); [intros; apply Hb; [by right|done]|done|].
    exists w2. split_and!; [done..|by transitivity w1].
Qed.

#[export] Hint Rewrite @gets_run @mret_run @modify_run : flint_run.

Lemma steps_one {S} (R : S -> S -> Prop) s1 s2 : R s1 s2 -> steps R s1 s2.
Proof. intros. eapply steps_snoc; [apply steps_refl|done]. Qed.

Lemma steps_trans {S} (R : S -> S -> Prop) s1 s2 s3 : steps R s1 s2 -> steps R s2 s3 -> steps R s1 s3.
Proof. intros H1 H2. induction H2; [done|]. eapply steps_snoc; eauto. Qed.

(** An invariant of every step is an invariant of every run. *)
Lemma steps_invariant {S} (R : S -> S -> Prop) (I : S -> Prop) s1 s2 :
  (forall s s', I s -> R s s' -> I s') -> I s1 -> steps R s1 s2 -> I s2.
Proof. intros Hpres H1 Hs. induction Hs; eauto. Qed.

(** ** Automation *)

(** Runs the first call of a bind whose result is already known. *)
Ltac run H := rewrite (bind_ret _ _ _ _ _ H).

(** Splits a completed bind into its parts. *)
Ltac inv_bind H a w H1 :=
  apply bind_inv in H as (a & w & H1 & H).

Ltac zlens := unfold zlen in *; rewrite ?length_le_encode in *.
