(* ===== verification/Config.v ===== *)
(** * Config: the shared identifiers of [src/common/config.h] and [src/common/rid.h]

    Page, slot and object ids are fixed-width unsigned integers; they are kept
    as [Z] and every place where the code narrows or wraps them says so. *)
From S2P Require Import Prelude.

Abbreviation PageId := Z (only parsing).
Abbreviation SlotId := Z (only parsing).
Abbreviation ObjectId := Z (only parsing).

Definition INVALID_PAGE_ID : PageId := 2 ^ 32 - 1.
Definition INVALID_OBJECT_ID : ObjectId := 2 ^ 32 - 1.
Definition PAGE_SIZE : Z := 4096.

(** [static_cast] to the unsigned widths the code uses. *)
Definition u16 (z : Z) : Z := z mod 2 ^ 16.
Definition u32 (z : Z) : Z := z mod 2 ^ 32.
Definition u64 (z : Z) : Z := z mod 2 ^ 64.

Inductive PageType :=
| kInvalid
| kHeap
| kBTreeLeaf
| kBTreeInternal
| kBTreeHeader.

(** The tag each page kind stores in its second field. *)
Definition PageType_value (t : PageType) : Z :=
  match t with
  | kInvalid => 0
  | kHeap => 1
  | kBTreeLeaf => 2
  | kBTreeInternal => 3
  | kBTreeHeader => 4
  end.

Record RID := mkRID { page_id : PageId; slot_id : SlotId }.

#[global] Instance RID_eq_dec : EqDecision RID.
Proof. solve_decision. Defined.

#[global] Instance RID_countable : Countable RID.
Proof.
  refine (inj_countable' (fun r => (page_id r, slot_id r)) (fun p => mkRID p.1 p.2) _).
  by intros [].
Defined.

(** [RID::operator==]. *)
Definition RID_eqb (a b : RID) : bool :=
  (page_id a =? page_id b) && (slot_id a =? slot_id b).

(** [std::hash<RID>], on a 64-bit [size_t]. *)
Definition RID_hash (r : RID) : Z := Z.lxor (u64 (Z.shiftl (page_id r) 16)) (slot_id r).

(** A buffer of [PAGE_SIZE] zero bytes: a page nothing has written yet. *)
Definition zero_page : bytes := replicate (Z.to_nat PAGE_SIZE) x00.

(** ** Lemmas *)

Lemma RID_eqb_eq a b : RID_eqb a b = true <-> a = b.
Proof.
  unfold RID_eqb. rewrite andb_true_iff, !Z.eqb_eq.
  destruct a, b; simpl. split; [intros [-> ->]; done|intros [=]; auto].
Qed.

Lemma u16_small z : 0 <= z < 65536 -> u16 z = z.
Proof. intros. apply Z.mod_small. done. Qed.

Lemma u32_small z : 0 <= z < 4294967296 -> u32 z = z.
Proof. intros. apply Z.mod_small. done. Qed.

Lemma u16_range z : 0 <= u16 z < 65536.
Proof. apply Z.mod_pos_bound. done. Qed.

Lemma zlen_zero_page : zlen zero_page = PAGE_SIZE.
Proof. unfold zlen, zero_page. rewrite length_replicate. unfold PAGE_SIZE. lia. Qed.

#[export] Hint Resolve zlen_zero_page u16_range : flint.
