(* ===== verification/Page.v ===== *)
(** * Page: the slotted heap page of [src/storage/page.{h,cpp}]

    A page is its 4096-byte buffer. Every accessor reads and writes the
    buffer at the byte offsets of the code. The abstract view of a page is
    the list of its slots, each live or tombstoned, with its record bytes. *)
From S2P Require Export Prelude Config.

(** ** Data *)

Abbreviation Page := bytes.

Definition kHeaderSize : Z := 16.
Definition kSlotSize : Z := 4.
Definition kOffPageId : Z := 0.
Definition kOffPageType : Z := 4.
Definition kOffSlotCount : Z := 6.
Definition kOffPdLower : Z := 8.
Definition kOffPdUpper : Z := 10.
Definition kDeletedFlag : Z := 32768.

Record SlotEntry := mkSlotEntry { e_offset : Z; e_length : Z }.

(** ** Field accessors *)

Definition GetPageId (p : Page) : PageId := read_at 4 kOffPageId p.
Definition SetPageId (v : PageId) (p : Page) : Page := write_at 4 kOffPageId v p.
Definition GetSlotCount (p : Page) : Z := read_at 2 kOffSlotCount p.
Definition SetSlotCount (v : Z) (p : Page) : Page := write_at 2 kOffSlotCount v p.
Definition GetPdLower (p : Page) : Z := read_at 2 kOffPdLower p.
Definition SetPdLower (v : Z) (p : Page) : Page := write_at 2 kOffPdLower v p.
Definition GetPdUpper (p : Page) : Z := read_at 2 kOffPdUpper p.
Definition SetPdUpper (v : Z) (p : Page) : Page := write_at 2 kOffPdUpper v p.

Definition GetSlotEntry (slot_id : SlotId) (p : Page) : SlotEntry :=
  let off := kHeaderSize + slot_id * kSlotSize in
  mkSlotEntry (read_at 2 off p) (read_at 2 (off + 2) p).

Definition SetSlotEntry (slot_id : SlotId) (entry : SlotEntry) (p : Page) : Page :=
  let off := kHeaderSize + slot_id * kSlotSize in
  write_at 2 (off + 2) (e_length entry) (write_at 2 off (e_offset entry) p).

(** ** Operations *)

Definition InitHeapPage (page_id : PageId) (_ : Page) : Page :=
  let p := zero_page in
  let p := SetPageId page_id p in
  let p := write_at 2 kOffPageType (PageType_value kHeap) p in
  let p := SetSlotCount 0 p in
  let p := SetPdLower (u16 kHeaderSize) p in
  SetPdUpper (u16 PAGE_SIZE) p.

(** The slot's entry lies inside the buffer: reading or writing another one is
    undefined behaviour. *)
Definition slot_in_buffer (slot_id : SlotId) : bool :=
  kHeaderSize + slot_id * kSlotSize + kSlotSize <=? PAGE_SIZE.

(** [InsertRecord]: the copy out of the buffer's bounds that a corrupt
    [pd_upper] would cause is undefined behaviour. *)
Definition InsertRecord (data : bytes) : M Page (option SlotId) := fun p =>
  if kDeletedFlag <=? zlen data then (Ret None, p) else
  let len := u16 (zlen data) in
  let pd_lower := GetPdLower p in
  let pd_upper := GetPdUpper p in
  if pd_upper <? pd_lower then (Ret None, p) else
  let free_space := pd_upper - pd_lower in
  let needed := len + kSlotSize in
  if free_space <? needed then (Ret None, p) else
  let new_pd_upper := u16 (pd_upper - len) in
  if (0 <? len) && (PAGE_SIZE <? new_pd_upper + len) then (Undefined, p) else
  let p := if 0 <? len then splice new_pd_upper data p else p in
  let slot_count := GetSlotCount p in
  let slot_id := slot_count in
  if negb (slot_in_buffer slot_id) then (Undefined, p) else
  let p := SetSlotEntry slot_id (mkSlotEntry new_pd_upper len) p in
  let p := SetSlotCount (u16 (slot_count + 1)) p in
  let p := SetPdLower (u16 (pd_lower + kSlotSize)) p in
  let p := SetPdUpper new_pd_upper p in
  (Ret (Some slot_id), p).

(** [GetRecord]: the assert, then [std::string(buf + offset, length & ~flag)],
    which must stay inside the buffer. *)
Definition GetRecord (slot_id : SlotId) : M Page bytes := fun p =>
  if negb ((slot_id <? GetSlotCount p) && slot_in_buffer slot_id) then (Undefined, p) else
  let e := GetSlotEntry slot_id p in
  let len := Z.land (e_length e) (Z.lnot kDeletedFlag) in
  if PAGE_SIZE <? e_offset e + len then (Undefined, p) else
  (Ret (slice (e_offset e) len p), p).

Definition DeleteRecord (slot_id : SlotId) : M Page unit := fun p =>
  if negb ((slot_id <? GetSlotCount p) && slot_in_buffer slot_id) then (Undefined, p) else
  let e := GetSlotEntry slot_id p in
  (Ret tt, SetSlotEntry slot_id
             (mkSlotEntry (e_offset e) (u16 (Z.lor (e_length e) kDeletedFlag))) p).

Definition IsDeleted (slot_id : SlotId) : M Page bool := fun p =>
  if negb ((slot_id <? GetSlotCount p) && slot_in_buffer slot_id) then (Undefined, p) else
  (Ret (negb (Z.land (e_length (GetSlotEntry slot_id p)) kDeletedFlag =? 0)), p).

Definition FreeSpace (p : Page) : Z :=
  let pd_lower := GetPdLower p in
  let pd_upper := GetPdUpper p in
  if pd_upper <? pd_lower then 0 else pd_upper - pd_lower.

(** ** The abstract view: a list of slots *)

Record slot := mkSlot { s_live : bool; s_data : bytes }.

Definition slot_at (p : Page) (s : SlotId) : slot :=
  let e := GetSlotEntry s p in
  mkSlot (Z.land (e_length e) kDeletedFlag =? 0)
         (slice (e_offset e) (Z.land (e_length e) (Z.lnot kDeletedFlag)) p).

Definition slots (p : Page) : list slot :=
  (fun i : nat => slot_at p (Z.of_nat i)) <$> seq 0 (Z.to_nat (GetSlotCount p)).

(** Every slot entry names bytes of the record area. *)
Definition slot_entry_ok (p : Page) (s : SlotId) : Prop :=
  let e := GetSlotEntry s p in
  GetPdUpper p <= e_offset e /\
  e_offset e + Z.land (e_length e) (Z.lnot kDeletedFlag) <= PAGE_SIZE.

(** The invariant of an initialised heap page. *)
Record page_wf (p : Page) : Prop := mkPageWf {
  wf_len : zlen p = PAGE_SIZE;
  wf_lower : GetPdLower p = kHeaderSize + GetSlotCount p * kSlotSize;
  wf_upper : GetPdLower p <= GetPdUpper p <= PAGE_SIZE;
  wf_slots : forall s, 0 <= s < GetSlotCount p -> slot_entry_ok p s
}.

(** ** Field lemmas *)

Ltac page_consts :=
  unfold kOffPageId, kOffPageType, kOffSlotCount, kOffPdLower, kOffPdUpper,
    kHeaderSize, kSlotSize, kDeletedFlag, PAGE_SIZE in *.

(** Discharges the bounds of buffer accesses. *)
Ltac page_side :=
  page_consts; repeat (rewrite zlen_write_at by page_side);
  repeat (rewrite zlen_splice by page_side); zlens; lia.

(** Reads through writes at other offsets. *)
Ltac read_through :=
  repeat first
    [ rewrite read_write_eq by page_side
    | rewrite read_write_ne by page_side
    | rewrite slice_write_ne by page_side
    | rewrite read_splice_ne by page_side
    | rewrite slice_splice_ne by page_side ].

Lemma land_flag_small l : 0 <= l < 32768 -> Z.land l kDeletedFlag = 0 /\ Z.land l (Z.lnot kDeletedFlag) = l.
Proof.
  intros Hl. unfold kDeletedFlag. change 32768 with (2 ^ 15) in *.
  assert (Z.land l (2 ^ 15) = 0) as H0.
  { apply Z.bits_inj'. intros n Hn. rewrite Z.land_spec, Z.bits_0, Z.pow2_bits_eqb by lia.
    destruct (Z.eqb_spec 15 n); [|by rewrite andb_false_r].
    subst. rewrite andb_true_r. destruct (decide (l = 0)); [subst; done|].
    apply Z.bits_above_log2; [lia|]. apply Z.log2_lt_pow2; lia. }
  split; [done|]. rewrite <- Z.ldiff_land.
  pose proof (Z.lor_ldiff_and l (2 ^ 15)) as H. rewrite H0, Z.lor_0_r in H. done.
Qed.

Lemma land_flag_lor l : Z.land (Z.lor l kDeletedFlag) kDeletedFlag = kDeletedFlag.
Proof.
  apply Z.bits_inj'. intros n Hn. rewrite Z.land_spec, Z.lor_spec.
  by destruct (Z.testbit l n), (Z.testbit kDeletedFlag n).
Qed.

Lemma lnot_flag_lor l :
  Z.land (Z.lor l kDeletedFlag) (Z.lnot kDeletedFlag) = Z.land l (Z.lnot kDeletedFlag).
Proof. rewrite Z.land_lor_distr_l, Z.land_lnot_diag, Z.lor_0_r. done. Qed.

Lemma lor_flag_u16 l : 0 <= l < 65536 -> u16 (Z.lor l kDeletedFlag) = Z.lor l kDeletedFlag.
Proof.
  intros Hl. apply u16_small. unfold kDeletedFlag. split; [apply Z.lor_nonneg; lia|].
  destruct (decide (l = 0)); [subst; vm_compute; done|].
  apply (Z.log2_lt_pow2 _ 16).
  - assert (Z.lor l 32768 <> 0) by (intros H; apply Z.lor_eq_0_iff in H; lia).
    assert (0 <= Z.lor l 32768) by (apply Z.lor_nonneg; lia). lia.
  - rewrite Z.log2_lor by lia. change (Z.log2 32768) with 15.
    assert (Z.log2 l < 16) by (apply Z.log2_lt_pow2; lia). lia.
Qed.

Lemma slot_entry_range s p :
  0 <= e_offset (GetSlotEntry s p) < 65536 /\ 0 <= e_length (GetSlotEntry s p) < 65536.
Proof. unfold GetSlotEntry. split; apply (read_at_bound 2). Qed.

Lemma slot_count_range p : page_wf p -> 0 <= GetSlotCount p <= 1020.
Proof.
  intros []. pose proof (read_at_bound 2 kOffSlotCount p). unfold GetSlotCount in *.
  page_consts. lia.
Qed.

Lemma slot_guard p s :
  0 <= s < GetSlotCount p -> GetSlotCount p <= 1020 -> negb ((s <? GetSlotCount p) && slot_in_buffer s) = false.
Proof.
  intros. unfold slot_in_buffer, kHeaderSize, kSlotSize, PAGE_SIZE.
  destruct (Z.ltb_spec s (GetSlotCount p)); [|lia].
  destruct (Z.leb_spec (16 + s * 4 + 4) 4096); [done|lia].
Qed.

Lemma length_slots p : length (slots p) = Z.to_nat (GetSlotCount p).
Proof. unfold slots. by rewrite length_fmap, length_seq. Qed.

Lemma lookup_slots p (i : nat) :
  Z.of_nat i < GetSlotCount p -> slots p !! i = Some (slot_at p (Z.of_nat i)).
Proof.
  intros. unfold slots. rewrite list_lookup_fmap, lookup_seq_lt by lia. done.
Qed.

Lemma slots_ext p1 p2 :
  GetSlotCount p1 = GetSlotCount p2 ->
  (forall s, 0 <= s < GetSlotCount p1 -> slot_at p1 s = slot_at p2 s) ->
  slots p1 = slots p2.
Proof.
  intros Hc Hs. unfold slots. rewrite Hc. apply list_fmap_ext.
  intros k i Hk. apply lookup_seq in Hk as [-> Hk]. apply Hs. lia.
Qed.

Lemma zero_page_slots : slots zero_page = [].
Proof. unfold slots, GetSlotCount, zero_page. by rewrite read_at_zeros. Qed.

Lemma zero_page_free : FreeSpace zero_page = 0.
Proof. unfold FreeSpace, GetPdLower, GetPdUpper, zero_page. by rewrite !read_at_zeros. Qed.

(** ** InitHeapPage *)

Lemma init_fields pid p0 :
  let p := InitHeapPage pid p0 in
  zlen p = PAGE_SIZE /\ GetSlotCount p = 0 /\ GetPdLower p = 16 /\ GetPdUpper p = 4096.
Proof.
  pose proof zlen_zero_page as Hz.
  cbn zeta. unfold InitHeapPage, SetPageId, SetSlotCount, SetPdLower, SetPdUpper,
    GetSlotCount, GetPdLower, GetPdUpper.
  split_and!; [page_consts; repeat (rewrite zlen_write_at by page_side); done|read_through; done..].
Qed.

Lemma init_wf pid p0 : page_wf (InitHeapPage pid p0).
Proof.
  destruct (init_fields pid p0) as (Hl & Hc & Hlo & Hup).
  split; rewrite ?Hc, ?Hlo, ?Hup; unfold PAGE_SIZE; [done|done|lia|lia].
Qed.

Lemma init_slots pid p0 : slots (InitHeapPage pid p0) = [].
Proof. unfold slots. by destruct (init_fields pid p0) as (_ & -> & _). Qed.

Lemma init_free pid p0 : FreeSpace (InitHeapPage pid p0) = PAGE_SIZE - kHeaderSize.
Proof.
  unfold FreeSpace. destruct (init_fields pid p0) as (_ & _ & -> & ->). done.
Qed.

(** ** InsertRecord *)

(** What a successful insertion leaves in the buffer, field by field. *)
Record inserted (data : bytes) (p p' : Page) : Prop := mkInserted {
  ins_len : zlen p' = PAGE_SIZE;
  ins_count : GetSlotCount p' = GetSlotCount p + 1;
  ins_lower : GetPdLower p' = GetPdLower p + kSlotSize;
  ins_upper : GetPdUpper p' = GetPdUpper p - zlen data;
  ins_entry : GetSlotEntry (GetSlotCount p) p' = mkSlotEntry (GetPdUpper p - zlen data) (zlen data);
  ins_data : slice (GetPdUpper p - zlen data) (zlen data) p' = data;
  ins_old_entry s : 0 <= s < GetSlotCount p -> GetSlotEntry s p' = GetSlotEntry s p;
  ins_old_data o n : GetPdUpper p <= o -> slice o n p' = slice o n p
}.

Lemma InsertRecord_fits data p :
  page_wf p -> zlen data + kSlotSize <= FreeSpace p ->
  exists p', InsertRecord data p = (Ret (Some (GetSlotCount p)), p') /\ inserted data p p'.
Proof.
  intros Hwf Hfit. pose proof (slot_count_range p Hwf) as Hc.
  destruct Hwf as [Hl Hlo Hup _].
  unfold FreeSpace in Hfit. unfold InsertRecord.
  assert (0 <= zlen data) as Hd by (unfold zlen; lia).
  destruct (Z.ltb_spec (GetPdUpper p) (GetPdLower p)); [lia|]. page_consts.
  destruct (Z.leb_spec 32768 (zlen data)); [lia|].
  rewrite (u16_small (zlen data)) by lia.
  destruct (Z.ltb_spec (GetPdUpper p - GetPdLower p) (zlen data + 4)); [lia|].
  rewrite (u16_small (_ - _)) by lia.
  destruct (Z.ltb_spec 4096 (GetPdUpper p - zlen data + zlen data)); [lia|]. rewrite andb_false_r.
  set (new := GetPdUpper p - zlen data) in *.
  set (p1 := if 0 <? zlen data then splice new data p else p).
  assert (zlen p1 = 4096) as Hl1.
  { subst p1. destruct (0 <? zlen data); [rewrite zlen_splice; lia|done]. }
  assert (slice new (zlen data) p1 = data) as Hdata.
  { subst p1. destruct (Z.ltb_spec 0 (zlen data)); [apply slice_splice_eq; lia|].
    destruct data; [|unfold zlen in *; simpl in *; lia]. done. }
  assert (forall o n, 0 <= o -> o + n <= new \/ GetPdUpper p <= o -> slice o n p1 = slice o n p) as Hold.
  { intros o n ? ?. subst p1. destruct (0 <? zlen data); [|done]. apply slice_splice_ne; lia. }
  assert (forall w o, 0 <= o -> o + Z.of_nat w <= new \/ GetPdUpper p <= o -> read_at w o p1 = read_at w o p) as Hread.
  { intros. unfold read_at. by rewrite Hold. }
  assert (GetSlotCount p1 = GetSlotCount p) as Hc1 by (apply Hread; page_consts; lia).
  rewrite Hc1. clearbody p1. unfold slot_in_buffer. page_consts.
  destruct (Z.leb_spec (16 + GetSlotCount p * 4 + 4) 4096); [|lia]. cbn [negb].
  eexists. split; [reflexivity|].
  unfold SetSlotEntry, SetSlotCount, SetPdLower, SetPdUpper; cbn [e_offset e_length].
  set (c := GetSlotCount p) in *. set (lo := GetPdLower p) in *. set (up := GetPdUpper p) in *.
  split; fold c lo up; clearbody c lo up;
    unfold GetSlotCount, GetPdLower, GetPdUpper, GetSlotEntry; cbn zeta.
  - page_side.
  - read_through. rewrite u16_small by lia. rewrite Z.mod_small; page_consts; lia.
  - read_through. rewrite u16_small by lia. rewrite Z.mod_small; page_consts; lia.
  - read_through. rewrite Z.mod_small; page_consts; lia.
  - read_through. f_equal; rewrite Z.mod_small; page_consts; lia.
  - read_through. done.
  - intros s Hs. read_through. rewrite !Hread by (page_consts; lia). done.
  - intros o n Ho. rewrite !slice_write_ne by page_side. apply Hold; lia.
Qed.

Lemma InsertRecord_full data p :
  page_wf p -> FreeSpace p < zlen data + kSlotSize -> InsertRecord data p = (Ret None, p).
Proof.
  intros Hwf Hfit. pose proof (slot_count_range p Hwf). destruct Hwf as [Hl Hlo Hup _].
  unfold InsertRecord. unfold FreeSpace in Hfit.
  destruct (Z.ltb_spec (GetPdUpper p) (GetPdLower p)); [lia|]. page_consts.
  destruct (Z.leb_spec 32768 (zlen data)); [done|].
  rewrite u16_small by (unfold zlen in *; lia).
  destruct (Z.ltb_spec (GetPdUpper p - GetPdLower p) (zlen data + 4)); [done|lia].
Qed.

Lemma InsertRecord_zero_page data : InsertRecord data zero_page = (Ret None, zero_page).
Proof.
  unfold InsertRecord, GetPdLower, GetPdUpper, zero_page. rewrite !read_at_zeros.
  page_consts. destruct (Z.leb_spec 32768 (zlen data)); [reflexivity|].
  rewrite u16_small by (unfold zlen in *; lia).
  destruct (Z.ltb_spec 0 0); [lia|].
  destruct (Z.ltb_spec (0 - 0) (zlen data + 4)); [done|unfold zlen in *; lia].
Qed.

Lemma inserted_slot_at data p p' s :
  page_wf p -> inserted data p p' -> 0 <= s < GetSlotCount p -> slot_at p' s = slot_at p s.
Proof.
  intros Hwf [] Hs. unfold slot_at. rewrite ins_old_entry0 by done.
  rewrite ins_old_data0; [done|]. by apply Hwf.
Qed.

Lemma inserted_new_slot data p p' :
  inserted data p p' -> zlen data < kDeletedFlag -> slot_at p' (GetSlotCount p) = mkSlot true data.
Proof.
  intros [] Hlt. unfold slot_at. rewrite ins_entry0. cbn [e_offset e_length].
  destruct (land_flag_small (zlen data)) as [-> ->];
    [unfold zlen in *; page_consts; lia|]. by rewrite ins_data0.
Qed.

Lemma inserted_slots data p p' :
  page_wf p -> inserted data p p' -> zlen data < kDeletedFlag ->
  slots p' = slots p ++ [mkSlot true data].
Proof.
  intros Hwf Hins Hlt. pose proof (slot_count_range p Hwf) as Hc.
  pose proof (ins_count _ _ _ Hins) as Hc'.
  unfold slots. rewrite Hc', Z2Nat.inj_add by lia. rewrite seq_app, fmap_app. f_equal.
  - apply list_fmap_ext. intros k i Hk. apply lookup_seq in Hk as [-> Hk].
    eapply inserted_slot_at; [done..|lia].
  - change (Z.to_nat 1) with 1%nat. cbn. rewrite Z2Nat.id by lia. by rewrite (inserted_new_slot _ _ _ Hins).
Qed.

Lemma inserted_wf data p p' :
  page_wf p -> zlen data + kSlotSize <= FreeSpace p -> inserted data p p' -> page_wf p'.
Proof.
  intros Hwf Hfit Hins. pose proof (slot_count_range p Hwf) as Hc.
  pose proof Hins as []. destruct Hwf as [Hl Hlo Hup Hs].
  unfold FreeSpace in Hfit.
  destruct (Z.ltb_spec (GetPdUpper p) (GetPdLower p)); [lia|].
  assert (0 <= zlen data) by (unfold zlen; lia).
  split; rewrite ?ins_count0, ?ins_lower0, ?ins_upper0; page_consts; try lia.
  intros s Hlt. unfold slot_entry_ok. rewrite ins_upper0.
  destruct (decide (s = GetSlotCount p)) as [->|].
  - rewrite ins_entry0. cbn [e_offset e_length].
    destruct (land_flag_small (zlen data)) as [_ ->]; page_consts; lia.
  - rewrite ins_old_entry0 by lia. destruct (Hs s) as [H1 H2]; [lia|].
    page_consts. split; [lia|done].
Qed.

Lemma fits_small (data : bytes) p : page_wf p -> zlen data + kSlotSize <= FreeSpace p -> zlen data < kDeletedFlag.
Proof.
  intros [Hl Hlo Hup _]. unfold FreeSpace.
  pose proof (read_at_bound 2 kOffPdLower p) as Hb. fold (GetPdLower p) in Hb.
  destruct (Z.ltb_spec (GetPdUpper p) (GetPdLower p)); page_consts; lia.
Qed.

(** ** DeleteRecord *)

Lemma delete_fields s p :
  page_wf p -> 0 <= s < GetSlotCount p ->
  exists p', DeleteRecord s p = (Ret tt, p') /\
    zlen p' = PAGE_SIZE /\ GetSlotCount p' = GetSlotCount p /\
    GetPdLower p' = GetPdLower p /\ GetPdUpper p' = GetPdUpper p /\
    GetSlotEntry s p' =
      mkSlotEntry (e_offset (GetSlotEntry s p)) (Z.lor (e_length (GetSlotEntry s p)) kDeletedFlag) /\
    (forall t, 0 <= t < GetSlotCount p -> t <> s -> GetSlotEntry t p' = GetSlotEntry t p) /\
    (forall o n, GetPdUpper p <= o -> slice o n p' = slice o n p).
Proof.
  intros Hwf Hs. pose proof (slot_count_range p Hwf). destruct Hwf as [Hl Hlo Hup _].
  destruct (slot_entry_range s p) as [Ho He].
  unfold DeleteRecord. rewrite slot_guard by lia.
  eexists. split; [reflexivity|].
  rewrite lor_flag_u16 by done. unfold SetSlotEntry. cbn [e_offset e_length].
  pose proof (lor_flag_u16 _ He) as Hu.
  set (v1 := e_offset (GetSlotEntry s p)) in *. set (v2 := Z.lor _ _) in *.
  pose proof (u16_range v2) as Hr. rewrite Hu in Hr. clearbody v1 v2.
  page_consts.
  unfold GetSlotCount, GetPdLower, GetPdUpper, GetSlotEntry in *; page_consts; cbn zeta in *.
  split_and!.
  - page_side.
  - read_through. done.
  - read_through. done.
  - read_through. done.
  - read_through. f_equal; rewrite Z.mod_small; page_consts; lia.
  - intros t Ht Hne. read_through. done.
  - intros o n Hon. rewrite !slice_write_ne by page_side. done.
Qed.

Lemma DeleteRecord_spec s p :
  page_wf p -> 0 <= s < GetSlotCount p ->
  exists p', DeleteRecord s p = (Ret tt, p') /\ page_wf p' /\
    slots p' = <[Z.to_nat s := mkSlot false (s_data (slot_at p s))]> (slots p) /\
    FreeSpace p' = FreeSpace p.
Proof.
  intros Hwf Hs. destruct (delete_fields s p Hwf Hs) as (p' & Hd & Hl & Hc & Hlo & Hup & He & Ho & Hsl).
  exists p'. split; [done|]. split_and!.
  - split; rewrite ?Hc, ?Hlo, ?Hup; [done|apply Hwf..|].
    intros t Ht. unfold slot_entry_ok. rewrite Hup. destruct (decide (t = s)) as [->|].
    + rewrite He. cbn [e_offset e_length]. rewrite lnot_flag_lor. by apply Hwf.
    + rewrite Ho by done. by apply Hwf.
  - apply list_eq. intros i. destruct (decide (Z.of_nat i < GetSlotCount p)) as [Hi|Hi].
    + rewrite lookup_slots by lia. destruct (decide (Z.to_nat s = i)) as [<-|].
      * rewrite list_lookup_insert_eq by (rewrite length_slots; lia). rewrite Z2Nat.id by lia.
        f_equal. unfold slot_at. rewrite He. cbn [e_offset e_length].
        rewrite land_flag_lor, lnot_flag_lor. cbn [s_data].
        f_equal. apply Hsl. apply Hwf. lia.
      * rewrite list_lookup_insert_ne by done. rewrite lookup_slots by lia. f_equal.
        unfold slot_at. rewrite Ho by lia. f_equal. apply Hsl. apply Hwf. lia.
    + rewrite !lookup_ge_None_2; [done|..]; rewrite ?length_insert, length_slots; lia.
  - unfold FreeSpace. by rewrite Hlo, Hup.
Qed.

(** ** Reads *)

Lemma GetRecord_spec s p :
  page_wf p -> 0 <= s < GetSlotCount p -> GetRecord s p = (Ret (s_data (slot_at p s)), p).
Proof.
  intros Hwf Hs. pose proof (slot_count_range p Hwf). unfold GetRecord. rewrite slot_guard by lia.
  destruct (wf_slots p Hwf s Hs) as [_ H2].
  destruct (Z.ltb_spec PAGE_SIZE (e_offset (GetSlotEntry s p) +
    Z.land (e_length (GetSlotEntry s p)) (Z.lnot kDeletedFlag))); [lia|done].
Qed.

Lemma IsDeleted_spec s p :
  0 <= s < GetSlotCount p -> GetSlotCount p <= 1020 ->
  IsDeleted s p = (Ret (negb (s_live (slot_at p s))), p).
Proof. intros Hs Hc. unfold IsDeleted. by rewrite slot_guard by lia. Qed.

(** ** The contract of a heap page *)

(** C26: on a well-formed page, [InsertRecord] appends exactly one live slot
    holding the given bytes, when the record and its slot entry fit in the
    free space: the new slot id is the old slot count, every older slot keeps
    its content, the page stays well formed, the free space shrinks by the
    record plus four bytes, and [GetRecord] returns the bytes inserted. When
    they do not fit it answers [nullopt] and leaves the page untouched. *)
Theorem InsertRecord_refines (data : bytes) (p : Page) :
  page_wf p ->
  (zlen data + kSlotSize <= FreeSpace p ->
     exists p', InsertRecord data p = (Ret (Some (GetSlotCount p)), p') /\
       page_wf p' /\
       slots p' = slots p ++ [mkSlot true data] /\
       FreeSpace p' = FreeSpace p - zlen data - kSlotSize /\
       GetRecord (GetSlotCount p) p' = (Ret data, p')) /\
  (FreeSpace p < zlen data + kSlotSize -> InsertRecord data p = (Ret None, p)).
Proof.
  intros Hwf. split; [|by apply InsertRecord_full].
  intros Hfit. destruct (InsertRecord_fits data p Hwf Hfit) as (p' & Hi & Hins).
  pose proof (fits_small data p Hwf Hfit) as Hsmall.
  pose proof (inserted_wf _ _ _ Hwf Hfit Hins) as Hwf'.
  pose proof (slot_count_range p Hwf).
  exists p'. split_and!; [done|done|by apply inserted_slots| |].
  - unfold FreeSpace in *. rewrite (ins_lower _ _ _ Hins), (ins_upper _ _ _ Hins).
    unfold kSlotSize in *. destruct (Z.ltb_spec (GetPdUpper p) (GetPdLower p)).
    + unfold zlen in *. lia.
    + destruct (Z.ltb_spec (GetPdUpper p - zlen data) (GetPdLower p + 4)); lia.
  - rewrite GetRecord_spec by (rewrite ?(ins_count _ _ _ Hins); auto; lia).
    by rewrite (inserted_new_slot _ _ _ Hins Hsmall).
Qed.

Lemma InsertRecord_refines_witness :
  page_wf (InitHeapPage 7 zero_page) /\
  exists p', InsertRecord [x61; x62] (InitHeapPage 7 zero_page) = (Ret (Some 0), p') /\
    slots p' = [mkSlot true [x61; x62]].
Proof.
  split; [apply init_wf|].
  destruct (InsertRecord_refines [x61; x62] (InitHeapPage 7 zero_page) (init_wf 7 zero_page)) as [H _].
  destruct H as (p' & H1 & _ & H2 & _); [vm_compute; discriminate|].
  exists p'. split; [exact H1|]. rewrite H2. reflexivity.
Defined.

(** [DeleteRecord] tombstones its slot in place: the slot count, every
    other slot and the free space do not change, the deleted slot reads as
    deleted afterwards and its bytes remain; and the page stays well formed. *)
Theorem DeleteRecord_tombstones (s : SlotId) (p : Page) :
  page_wf p -> 0 <= s < GetSlotCount p ->
  exists p', DeleteRecord s p = (Ret tt, p') /\ page_wf p' /\
    slots p' = <[Z.to_nat s := mkSlot false (s_data (slot_at p s))]> (slots p) /\
    FreeSpace p' = FreeSpace p /\
    IsDeleted s p' = (Ret true, p') /\
    GetRecord s p' = (Ret (s_data (slot_at p s)), p').
Proof.
  intros Hwf Hs. destruct (DeleteRecord_spec s p Hwf Hs) as (p' & Hd & Hwf' & Hsl & Hf).
  assert (GetSlotCount p' = GetSlotCount p) as Hc.
  { apply (f_equal length) in Hsl. rewrite length_insert, !length_slots in Hsl.
    pose proof (slot_count_range p Hwf). pose proof (slot_count_range p' Hwf'). lia. }
  assert (slot_at p' s = mkSlot false (s_data (slot_at p s))) as Hat.
  { apply (f_equal (.!! Z.to_nat s)) in Hsl.
    rewrite list_lookup_insert_eq in Hsl by (rewrite length_slots; lia).
    rewrite lookup_slots in Hsl by lia. rewrite Z2Nat.id in Hsl by lia. congruence. }
  exists p'. split_and!; [done..| |].
  - pose proof (slot_count_range p Hwf). rewrite IsDeleted_spec by lia. by rewrite Hat.
  - rewrite GetRecord_spec by (auto; lia). by rewrite Hat.
Qed.

Lemma DeleteRecord_tombstones_witness :
  let p := (InsertRecord [x61] (InitHeapPage 0 zero_page)).2 in
  exists p', DeleteRecord 0 p = (Ret tt, p') /\ IsDeleted 0 p' = (Ret true, p').
Proof.
  intros p. destruct (InsertRecord_fits [x61] (InitHeapPage 0 zero_page)) as (p1 & H1 & H2);
    [apply init_wf|vm_compute; discriminate|].
  assert (p1 = p) as -> by (subst p; by rewrite H1).
  destruct (DeleteRecord_tombstones 0 p) as (p' & Hd & _ & _ & _ & Hdel & _).
  - eapply inserted_wf; [apply init_wf| |exact H2]. vm_compute. discriminate.
  - vm_compute. split; [discriminate|reflexivity].
  - exists p'. split; assumption.
Defined.
