(* ===== verification/LockManager.v ===== *)
(** * LockManager: Strict 2PL page locks with wait-die ([src/txn/lock_manager.{h,cpp}])

    The lock table, one iteration of the acquire loop, and the release of
    everything a transaction holds; then the concurrent system in which
    transactions request, sleep, wake and release, as a step relation. *)
From S2P Require Import Prelude Config.

(** ** Data *)

Abbreviation TxnId := Z (only parsing).

Inductive LockMode := kShared | kExclusive.

Record PageKey := mkPageKey { key_object : ObjectId; key_page : PageId }.

#[global] Instance LockMode_eq_dec : EqDecision LockMode.
Proof. solve_decision. Defined.

#[global] Instance PageKey_eq_dec : EqDecision PageKey.
Proof. solve_decision. Defined.

#[global] Instance PageKey_countable : Countable PageKey.
Proof.
  refine (inj_countable' (fun k => (key_object k, key_page k)) (fun p => mkPageKey p.1 p.2) _).
  by intros [].
Defined.

(** [PageKey::operator<]. *)
Definition PageKey_ltb (a b : PageKey) : bool :=
  if negb (key_object a =? key_object b) then key_object a <? key_object b
  else key_page a <? key_page b.

Record LockEntry := mkEntry {
  shared_holders : gset TxnId;
  exclusive_holder : option TxnId
}.

Record LockManager := mkLM {
  locks_ : gmap PageKey LockEntry;
  held_by_txn_ : gmap TxnId (gset PageKey)
}.

Definition empty_lm : LockManager := mkLM ∅ ∅.

(** ** Operations *)

(** [entry.exclusive_holder.has_value() && *entry.exclusive_holder != txn]. *)
Definition exclusive_other (entry : LockEntry) (txn_id : TxnId) : bool :=
  match exclusive_holder entry with
  | Some h => negb (h =? txn_id)
  | None => false
  end.

Definition ConflictsWithOthers (entry : LockEntry) (txn_id : TxnId) (mode : LockMode) : bool :=
  match mode with
  | kShared => exclusive_other entry txn_id
  | kExclusive =>
      if exclusive_other entry txn_id then true
      else existsb (fun holder => negb (holder =? txn_id)) (elements (shared_holders entry))
  end.

Definition OtherHolders (entry : LockEntry) (txn_id : TxnId) : gset TxnId :=
  (match exclusive_holder entry with
   | Some h => if h =? txn_id then ∅ else {[h]}
   | None => ∅
   end) ∪ (shared_holders entry ∖ {[txn_id]}).

(** What one pass over the body of [AcquireLock]'s loop decides. *)
Inductive attempt :=
| Granted (lm : LockManager)
| MustWait
| Dies.

Definition add_held (txn_id : TxnId) (key : PageKey) (held : gmap TxnId (gset PageKey)) :=
  <[txn_id := {[key]} ∪ default ∅ (held !! txn_id)]> held.

Definition older_than_all (txn_id : TxnId) (others : gset TxnId) : bool :=
  forallb (fun holder => txn_id <? holder) (elements others).

Definition AcquireLock (txn_id : TxnId) (key : PageKey) (mode : LockMode) (lm : LockManager) : attempt :=
  match locks_ lm !! key with
  | None =>
      let fresh :=
        match mode with
        | kExclusive => mkEntry ∅ (Some txn_id)
        | kShared => mkEntry {[txn_id]} None
        end in
      Granted (mkLM (<[key := fresh]> (locks_ lm)) (add_held txn_id key (held_by_txn_ lm)))
  | Some entry =>
      if bool_decide (exclusive_holder entry = Some txn_id) then Granted lm
      else if bool_decide (mode = kShared) && bool_decide (txn_id ∈ shared_holders entry)
      then Granted lm
      else if negb (ConflictsWithOthers entry txn_id mode) then
        let entry' :=
          match mode with
          | kExclusive => mkEntry (shared_holders entry ∖ {[txn_id]}) (Some txn_id)
          | kShared => mkEntry ({[txn_id]} ∪ shared_holders entry) (exclusive_holder entry)
          end in
        Granted (mkLM (<[key := entry']> (locks_ lm)) (add_held txn_id key (held_by_txn_ lm)))
      else if older_than_all txn_id (OtherHolders entry txn_id) then MustWait
      else Dies
  end.

(** The body of [ReleaseAll]'s loop, for one key of [held_by_txn_]. *)
Definition released (txn_id : TxnId) (entry : LockEntry) : LockEntry :=
  mkEntry (shared_holders entry ∖ {[txn_id]})
          (if bool_decide (exclusive_holder entry = Some txn_id) then None
           else exclusive_holder entry).

Definition entry_unused (entry : LockEntry) : bool :=
  bool_decide (shared_holders entry = ∅) && bool_decide (exclusive_holder entry = None).

Definition release_key (txn_id : TxnId) (key : PageKey) (locks : gmap PageKey LockEntry) :=
  match locks !! key with
  | None => locks
  | Some entry =>
      let entry' := released txn_id entry in
      if entry_unused entry' then delete key locks else <[key := entry']> locks
  end.

Definition ReleaseAll (txn_id : TxnId) (lm : LockManager) : LockManager :=
  match held_by_txn_ lm !! txn_id with
  | None => lm
  | Some keys =>
      mkLM (foldr (release_key txn_id) (locks_ lm) (elements keys))
           (delete txn_id (held_by_txn_ lm))
  end.

Definition HasAnyLock (txn_id : TxnId) (lm : LockManager) : bool :=
  match held_by_txn_ lm !! txn_id with
  | Some keys => negb (bool_decide (keys = ∅))
  | None => false
  end.

(** ** The concurrent system

    Each live transaction is running, asleep in [cv_.wait], or woken and
    about to go around the loop again. *)
Inductive txn_status :=
| Running
| Sleeping (key : PageKey) (mode : LockMode)
| Woken (key : PageKey) (mode : LockMode).

Record system := mkSystem {
  sys_lm : LockManager;
  sys_txns : gmap TxnId txn_status
}.

(** [cv_.notify_all]. *)
Definition wake (st : txn_status) : txn_status :=
  match st with
  | Sleeping k m => Woken k m
  | _ => st
  end.

(** One pass of the loop for [t]: a transaction that dies keeps running, for
    its owner to abort it. *)
Definition request (t : TxnId) (k : PageKey) (m : LockMode) (s : system) : system :=
  match AcquireLock t k m (sys_lm s) with
  | Granted lm' => mkSystem lm' (<[t := Running]> (sys_txns s))
  | MustWait => mkSystem (sys_lm s) (<[t := Sleeping k m]> (sys_txns s))
  | Dies => mkSystem (sys_lm s) (<[t := Running]> (sys_txns s))
  end.

(** Commit or abort of [t]: [ReleaseAll] notifies only when [t] held something. *)
Definition finish (t : TxnId) (s : system) : system :=
  let txns := delete t (sys_txns s) in
  mkSystem (ReleaseAll t (sys_lm s))
           (match held_by_txn_ (sys_lm s) !! t with
            | Some _ => wake <$> txns
            | None => txns
            end).

Inductive sys_step (s : system) : system -> Prop :=
| step_begin t :
    sys_txns s !! t = None -> sys_step s (mkSystem (sys_lm s) (<[t := Running]> (sys_txns s)))
| step_request t k m :
    sys_txns s !! t = Some Running -> sys_step s (request t k m s)
| step_recheck t k m :
    sys_txns s !! t = Some (Woken k m) -> sys_step s (request t k m s)
| step_spurious t k m :
    sys_txns s !! t = Some (Sleeping k m) ->
    sys_step s (mkSystem (sys_lm s) (<[t := Woken k m]> (sys_txns s)))
| step_finish t :
    sys_txns s !! t = Some Running -> sys_step s (finish t s).

Definition initial_system : system := mkSystem empty_lm ∅.

Definition reachable (s : system) : Prop := steps sys_step initial_system s.

(** ** Who holds what *)

Definition holds (e : LockEntry) (t : TxnId) : Prop :=
  exclusive_holder e = Some t \/ t ∈ shared_holders e.

Definition lm_holds (lm : LockManager) (t : TxnId) (k : PageKey) : Prop :=
  exists e, locks_ lm !! k = Some e /\ holds e t.

Definition holds_exclusive (lm : LockManager) (t : TxnId) (k : PageKey) : Prop :=
  exists e, locks_ lm !! k = Some e /\ exclusive_holder e = Some t.

(** [t] holds at least [m] on [k]. *)
Definition sufficient (lm : LockManager) (t : TxnId) (k : PageKey) (m : LockMode) : Prop :=
  match m with
  | kShared => lm_holds lm t k
  | kExclusive => holds_exclusive lm t k
  end.

(** [h]'s lock on [k] is in the way of [t] asking for [m]. *)
Definition blocks (lm : LockManager) (h t : TxnId) (k : PageKey) (m : LockMode) : Prop :=
  h <> t /\
  match m with
  | kShared => holds_exclusive lm h k
  | kExclusive => lm_holds lm h k
  end.

Definition waits_for (s : system) (t h : TxnId) : Prop :=
  exists k m, sys_txns s !! t = Some (Sleeping k m) /\ blocks (sys_lm s) h t k m.

Record entry_ok (e : LockEntry) : Prop := mkEntryOk {
  eo_excl t : exclusive_holder e = Some t -> shared_holders e = ∅;
  eo_used : exists t, holds e t
}.

(** The two maps of the lock table agree, and no page is locked in
    conflicting modes. *)
Record lm_wf (lm : LockManager) : Prop := mkLmWf {
  lw_entries k e : locks_ lm !! k = Some e -> entry_ok e;
  lw_held t k : k ∈ default ∅ (held_by_txn_ lm !! t) <-> lm_holds lm t k;
  lw_some t ks : held_by_txn_ lm !! t = Some ks -> ks <> ∅
}.

(** ** Lemmas: conflicts *)

Lemma exclusive_other_spec e t :
  exclusive_other e t = true <-> exists h, exclusive_holder e = Some h /\ h <> t.
Proof.
  unfold exclusive_other. destruct (exclusive_holder e) as [h|]; [|naive_solver].
  rewrite negb_true_iff, Z.eqb_neq. naive_solver.
Qed.

Lemma ConflictsWithOthers_spec e t m :
  ConflictsWithOthers e t m = true <->
  exists h, h <> t /\ match m with kShared => exclusive_holder e = Some h | kExclusive => holds e h end.
Proof.
  unfold ConflictsWithOthers, holds. destruct m.
  - rewrite exclusive_other_spec. naive_solver.
  - destruct (exclusive_other e t) eqn:E.
    + apply exclusive_other_spec in E. naive_solver.
    + rewrite existsb_exists. setoid_rewrite <- list_elem_of_In.
      setoid_rewrite elem_of_elements. setoid_rewrite negb_true_iff. setoid_rewrite Z.eqb_neq.
      split; [naive_solver|]. intros (h & Hne & [Hx|Hs]); [|eauto].
      assert (exclusive_other e t = true) by (apply exclusive_other_spec; eauto). congruence.
Qed.

Lemma elem_of_OtherHolders e t h : h ∈ OtherHolders e t <-> h <> t /\ holds e h.
Proof.
  unfold OtherHolders, holds. destruct (exclusive_holder e) as [x|]; [|set_solver].
  destruct (Z.eqb_spec x t); set_solver.
Qed.

Lemma older_than_all_spec t others :
  older_than_all t others = true <-> forall h, h ∈ others -> t < h.
Proof.
  unfold older_than_all. rewrite forallb_forall. setoid_rewrite <- list_elem_of_In.
  setoid_rewrite elem_of_elements. by setoid_rewrite Z.ltb_lt.
Qed.

Lemma not_older_than_all t others :
  t ∉ others -> older_than_all t others = false -> exists h, h ∈ others /\ h < t.
Proof.
  intros Ht Ho. destruct (decide (Exists (fun h => h < t) (elements others))) as [Hex|Hnex].
  - apply Exists_exists in Hex as (h & Hin & Hlt). rewrite elem_of_elements in Hin. eauto.
  - apply not_true_iff_false in Ho. destruct Ho. apply older_than_all_spec.
    intros h Hh. destruct (decide (t < h)); [done|]. destruct Hnex.
    apply Exists_exists. exists h. rewrite elem_of_elements.
    split; [done|]. assert (h <> t) by congruence. lia.
Qed.

Lemma elem_of_add_held t k held t' k' :
  k' ∈ default ∅ (add_held t k held !! t') <-> (t' = t /\ k' = k) \/ k' ∈ default ∅ (held !! t').
Proof.
  unfold add_held. destruct (decide (t = t')) as [<-|].
  - rewrite lookup_insert_eq. simpl. set_solver.
  - rewrite lookup_insert_ne by done. naive_solver.
Qed.

(** ** AcquireLock *)

(** A grant writes one entry and records it; everyone else's holdings stay. *)
Lemma grant_wf lm t k e' :
  lm_wf lm -> entry_ok e' -> holds e' t ->
  (forall h, h <> t -> holds e' h <-> lm_holds lm h k) ->
  lm_wf (mkLM (<[k := e']> (locks_ lm)) (add_held t k (held_by_txn_ lm))).
Proof.
  intros [He Hh Hs] Hok Ht Hothers. split; cbn [locks_ held_by_txn_].
  - intros k' e. rewrite lookup_insert_Some. naive_solver.
  - intros t' k'. rewrite elem_of_add_held, Hh. unfold lm_holds. cbn [locks_].
    destruct (decide (k' = k)) as [->|].
    + rewrite lookup_insert_eq. destruct (decide (t' = t)) as [->|Hne].
      * split; [eauto|]. naive_solver.
      * specialize (Hothers t' Hne). unfold lm_holds in Hothers. naive_solver.
    + rewrite lookup_insert_ne by done. naive_solver.
  - intros t' ks. unfold add_held. rewrite lookup_insert_Some. intros [[<- <-]|[_ H]]; [set_solver|eauto].
Qed.

Definition granted_entry (t : TxnId) (m : LockMode) (o : option LockEntry) : LockEntry :=
  match m, o with
  | kExclusive, None => mkEntry ∅ (Some t)
  | kShared, None => mkEntry {[t]} None
  | kExclusive, Some e => mkEntry (shared_holders e ∖ {[t]}) (Some t)
  | kShared, Some e => mkEntry ({[t]} ∪ shared_holders e) (exclusive_holder e)
  end.

Lemma granted_entry_facts lm t k m :
  lm_wf lm -> (forall h, ~ blocks lm h t k m) -> ~ holds_exclusive lm t k ->
  let e' := granted_entry t m (locks_ lm !! k) in
  entry_ok e' /\ holds e' t /\ (m = kExclusive -> exclusive_holder e' = Some t) /\
  (forall h, h <> t -> holds e' h <-> lm_holds lm h k) /\
  (forall h, h <> t -> exclusive_holder e' = Some h <-> holds_exclusive lm h k).
Proof.
  intros Hwf Hnb Hnx. unfold lm_holds, holds_exclusive in *.
  destruct (locks_ lm !! k) as [e|] eqn:Ek; simpl.
  - assert (forall h, h <> t -> exclusive_holder e <> Some h) as Hx.
    { intros h Hne Hh. apply (Hnb h). split; [done|].
      destruct m; unfold holds_exclusive, lm_holds, holds; naive_solver. }
    assert (exclusive_holder e = None) as Hnone.
    { destruct (exclusive_holder e) as [x|] eqn:Ex; [|done].
      destruct (decide (x = t)) as [->|]; [|by destruct (Hx x)]. destruct Hnx. eauto. }
    destruct m; simpl; unfold holds; simpl; rewrite ?Hnone.
    + split_and!; [split; simpl; [congruence|exists t; unfold holds; set_solver]|set_solver|done|set_solver|naive_solver].
    + assert (shared_holders e ∖ {[t]} = ∅) as Hempty.
      { apply set_eq. intros h. split; [|set_solver]. intros Hin.
        destruct (Hnb h). split; [set_solver|]. exists e. unfold holds. set_solver. }
      rewrite Hempty. split_and!; [split; simpl; [done|exists t; by left]|by left|done|set_solver|naive_solver].
  - destruct m; simpl; unfold holds; simpl;
      split_and!; try (split; simpl; [set_solver|exists t; unfold holds; set_solver]); set_solver.
Qed.

(** The decision of one pass, in terms of who is in the way. *)
Lemma AcquireLock_cases t k m lm :
  lm_wf lm ->
  match AcquireLock t k m lm with
  | Granted lm' =>
      (forall h, ~ blocks lm h t k m) /\
      (lm' = lm /\ sufficient lm t k m \/
       ~ holds_exclusive lm t k /\
       lm' = mkLM (<[k := granted_entry t m (locks_ lm !! k)]> (locks_ lm))
                  (add_held t k (held_by_txn_ lm)))
  | MustWait => (exists h, blocks lm h t k m) /\ forall h, h <> t -> lm_holds lm h k -> t < h
  | Dies => (exists h, blocks lm h t k m) /\ exists h, h <> t /\ lm_holds lm h k /\ h < t
  end.
Proof.
  intros Hwf. unfold AcquireLock, blocks, sufficient, lm_holds, holds_exclusive.
  destruct (locks_ lm !! k) as [e|] eqn:Ek.
  2: { split; [destruct m; naive_solver|]. right. split; [naive_solver|]. by destruct m. }
  pose proof (lw_entries _ Hwf _ _ Ek) as [Hexc _].
  case_bool_decide as Hx.
  { split; [|left; split; [done|]; destruct m; exists e; unfold holds; naive_solver].
    intros h [Hne Hb]. specialize (Hexc _ Hx). destruct m; [naive_solver|].
    destruct Hb as (e2 & [= <-] & [Hh|Hh]); [congruence|]. rewrite Hexc in Hh. set_solver. }
  destruct (bool_decide (m = kShared) && bool_decide (t ∈ shared_holders e)) eqn:Hs.
  { apply andb_true_iff in Hs as [Hm Hs]. apply bool_decide_eq_true in Hm, Hs. subst m.
    split; [|left; split; [done|]; exists e; unfold holds; naive_solver].
    intros h [Hne (e2 & [= <-] & Hh)]. specialize (Hexc _ Hh). rewrite Hexc in Hs. set_solver. }
  destruct (ConflictsWithOthers e t m) eqn:Hc; cbn [negb].
  - apply ConflictsWithOthers_spec in Hc as (b & Hbne & Hb).
    assert (exists h, h <> t /\ match m with
         | kShared => exists e0, Some e = Some e0 /\ exclusive_holder e0 = Some h
         | kExclusive => exists e0, Some e = Some e0 /\ holds e0 h end) as Hblk
      by (exists b; split; [done|]; destruct m; eauto).
    destruct (older_than_all t (OtherHolders e t)) eqn:Ho; (split; [done|]).
    + rewrite older_than_all_spec in Ho. setoid_rewrite elem_of_OtherHolders in Ho. naive_solver.
    + apply not_older_than_all in Ho as (h & Hin & Hlt);
        rewrite elem_of_OtherHolders in *; naive_solver.
  - apply not_true_iff_false in Hc. rewrite ConflictsWithOthers_spec in Hc. split.
    + intros h [Hne Hb]. apply Hc. exists h. destruct m; naive_solver.
    + right. split; [naive_solver|]. by destruct m.
Qed.

Lemma empty_lm_wf : lm_wf empty_lm.
Proof.
  split; cbn; [intros k e; rewrite lookup_empty; done| |intros t ks; rewrite lookup_empty; done].
  intros t k. rewrite lookup_empty. unfold lm_holds. cbn. setoid_rewrite lookup_empty. set_solver.
Qed.

(** A grant keeps the table consistent, gives [t] what it asked for and
    touches nobody else. *)
Lemma AcquireLock_granted t k m lm lm' :
  lm_wf lm -> AcquireLock t k m lm = Granted lm' ->
  lm_wf lm' /\ sufficient lm' t k m /\
  (forall h k', lm_holds lm h k' -> lm_holds lm' h k') /\
  (forall h k', h <> t -> lm_holds lm' h k' <-> lm_holds lm h k').
Proof.
  intros Hwf Ha. pose proof (AcquireLock_cases t k m lm Hwf) as H. rewrite Ha in H.
  destruct H as [Hnb [[-> Hs]|[Hnx ->]]]; [naive_solver|].
  destruct (granted_entry_facts lm t k m Hwf Hnb Hnx) as (Hok & Ht & Hx & Ho & _).
  set (e' := granted_entry t m (locks_ lm !! k)) in *.
  pose proof (grant_wf lm t k e' Hwf Hok Ht Ho) as Hwf'.
  assert (forall h k', h <> t \/ k' <> k ->
    lm_holds (mkLM (<[k:=e']> (locks_ lm)) (add_held t k (held_by_txn_ lm))) h k' <-> lm_holds lm h k') as Hoth.
  { intros h k' Hd. unfold lm_holds at 1. cbn [locks_]. destruct (decide (k' = k)) as [->|].
    - rewrite lookup_insert_eq. rewrite <- Ho by naive_solver. naive_solver.
    - rewrite lookup_insert_ne by done. done. }
  assert (lm_holds (mkLM (<[k:=e']> (locks_ lm)) (add_held t k (held_by_txn_ lm))) t k) as Htk.
  { exists e'. cbn. by rewrite lookup_insert_eq. }
  split_and!; [done| | |intros; apply Hoth; auto].
  - destruct m; cbn; [done|]. exists e'. cbn. rewrite lookup_insert_eq. auto.
  - intros h k' Hh. destruct (decide (h = t)) as [->|]; [|apply Hoth; auto].
    destruct (decide (k' = k)) as [->|]; [done|]. apply Hoth; auto.
Qed.

(** ** ReleaseAll *)

Lemma released_holds t e h : holds (released t e) h <-> holds e h /\ h <> t.
Proof.
  unfold holds, released. cbn. rewrite elem_of_difference, elem_of_singleton.
  case_bool_decide; naive_solver.
Qed.

Lemma entry_unused_spec e : entry_unused e = true <-> forall h, ~ holds e h.
Proof.
  unfold entry_unused, holds. rewrite andb_true_iff, !bool_decide_eq_true. split.
  - intros [H1 H2] h [H|H]; [congruence|]. rewrite H1 in H. set_solver.
  - intros H. split.
    + apply elem_of_equiv_empty_L. intros h Hh. apply (H h). by right.
    + destruct (exclusive_holder e) as [x|]; [|done]. destruct (H x). by left.
Qed.

Lemma lookup_release_key t k locks k' :
  release_key t k locks !! k' =
    if decide (k' = k) then
      e ← locks !! k; if entry_unused (released t e) then None else Some (released t e)
    else locks !! k'.
Proof.
  unfold release_key. case_decide as Hk; [subst k'|].
  - destruct (locks !! k) as [e|] eqn:Ek; [|done]. cbn.
    destruct (entry_unused _); [apply lookup_delete_eq|apply lookup_insert_eq].
  - destruct (locks !! k) as [e|]; [|done].
    destruct (entry_unused _); [by rewrite lookup_delete_ne|by rewrite lookup_insert_ne].
Qed.

(** Releasing the keys [ks], one after the other. *)
Lemma release_keys_holds t ks (locks : gmap PageKey LockEntry) h k :
  (exists e, foldr (release_key t) locks ks !! k = Some e /\ holds e h) <->
  (exists e, locks !! k = Some e /\ holds e h) /\ (k ∈ ks -> h <> t).
Proof.
  induction ks as [|k0 ks IH]; cbn [foldr]; [set_solver|].
  rewrite lookup_release_key. case_decide as Hk; [subst k0|rewrite IH; set_solver].
  destruct (foldr (release_key t) locks ks !! k) as [e|] eqn:Ee; cbn.
  - transitivity (holds e h /\ h <> t).
    + rewrite <- released_holds. destruct (entry_unused (released t e)) eqn:Hu.
      * rewrite entry_unused_spec in Hu. split; [naive_solver|]. intros H. by apply Hu in H.
      * naive_solver.
    + transitivity ((exists e0, Some e = Some e0 /\ holds e0 h) /\ h <> t); [naive_solver|].
      rewrite IH, elem_of_cons. naive_solver.
  - split; [naive_solver|]. intros [H1 H2]. exfalso.
    assert (exists e, None = Some e /\ holds e h) as (?&?&?); [|done].
    apply IH. split; [done|]. intros Hin. apply H2. by right.
Qed.

Lemma release_keys_ok t ks (locks : gmap PageKey LockEntry) :
  (forall k e, locks !! k = Some e -> entry_ok e) ->
  forall k e, foldr (release_key t) locks ks !! k = Some e -> entry_ok e.
Proof.
  intros Hok. induction ks as [|k0 ks IH]; cbn [foldr]; [done|]. intros k e.
  rewrite lookup_release_key. case_decide; [|apply IH]. subst k0.
  destruct (foldr (release_key t) locks ks !! k) as [e0|] eqn:E0; [|done]. cbn.
  pose proof (IH _ _ E0) as [Hexc _].
  destruct (entry_unused (released t e0)) eqn:Hu; [done|]. intros [= <-]. split.
  - intros x. unfold released. cbn. case_bool_decide; [done|].
    intros Hx. apply Hexc in Hx. rewrite Hx. set_solver.
  - destruct (exclusive_holder (released t e0)) as [x|] eqn:Ex; [exists x; by left|].
    destruct (decide (shared_holders (released t e0) = ∅)) as [Hs|Hs].
    + unfold entry_unused in Hu. rewrite !bool_decide_eq_true_2 in Hu by done. done.
    + apply set_choose_L in Hs as [x Hx]. exists x. by right.
Qed.

Lemma ReleaseAll_holds t lm h k :
  lm_wf lm -> lm_holds (ReleaseAll t lm) h k <-> lm_holds lm h k /\ h <> t.
Proof.
  intros Hwf. unfold ReleaseAll. destruct (held_by_txn_ lm !! t) as [ks|] eqn:Et.
  - unfold lm_holds at 1. cbn [locks_]. rewrite release_keys_holds. fold (lm_holds lm h k).
    rewrite elem_of_elements. split; intros [H1 H2]; (split; [done|]); [|naive_solver].
    destruct (decide (h = t)) as [->|]; [|done]. apply H2.
    apply (lw_held _ Hwf) in H1. by rewrite Et in H1.
  - split; [|naive_solver]. intros H. split; [done|]. intros ->.
    apply (lw_held _ Hwf) in H. rewrite Et in H. set_solver.
Qed.

Lemma ReleaseAll_wf t lm : lm_wf lm -> lm_wf (ReleaseAll t lm).
Proof.
  intros Hwf. pose proof (ReleaseAll_holds t lm) as Hh. revert Hh. unfold ReleaseAll.
  destruct (held_by_txn_ lm !! t) as [ks|] eqn:Et; [|done]. intros Hh.
  split; cbn [locks_ held_by_txn_].
  - apply release_keys_ok. apply Hwf.
  - intros t' k. rewrite Hh by done. rewrite <- (lw_held _ Hwf).
    destruct (decide (t' = t)) as [->|].
    + rewrite lookup_delete_eq. set_solver.
    + rewrite lookup_delete_ne by done. naive_solver.
  - intros t' ks'. rewrite lookup_delete_Some. intros [_ H]. by apply Hwf in H.
Qed.

(** ** Exclusive locks and conflicts under grants and releases *)

Lemma AcquireLock_exclusive t k m lm lm' h k' :
  lm_wf lm -> AcquireLock t k m lm = Granted lm' -> holds_exclusive lm h k' -> holds_exclusive lm' h k'.
Proof.
  intros Hwf Ha He. pose proof (AcquireLock_cases t k m lm Hwf) as H. rewrite Ha in H. destruct H as [Hnb [[-> _]|[Hnx ->]]]; [done|].
  destruct (granted_entry_facts lm t k m Hwf Hnb Hnx) as (_ & _ & _ & _ & Hx).
  destruct (decide (k' = k)) as [->|Hne]; [|destruct He as (e & ? & ?); exists e; cbn; by rewrite lookup_insert_ne].
  destruct (decide (h = t)) as [->|Hht]; [done|]. eexists. cbn. rewrite lookup_insert_eq. split; [done|]. by apply Hx.
Qed.

Lemma exclusive_holds lm t k : holds_exclusive lm t k -> lm_holds lm t k.
Proof. intros (e & He & Hx). exists e. split; [done|by left]. Qed.

Lemma release_keys_exclusive t ks (locks : gmap PageKey LockEntry) h k :
  h <> t -> (exists e, locks !! k = Some e /\ exclusive_holder e = Some h) ->
  exists e, foldr (release_key t) locks ks !! k = Some e /\ exclusive_holder e = Some h.
Proof.
  intros Hne He. induction ks as [|k0 ks IH]; cbn [foldr]; [done|]. rewrite lookup_release_key. case_decide as Hk; [subst k0|done].
  destruct IH as (e & -> & Hx). cbn. assert (exclusive_holder (released t e) = Some h) as Hr by (unfold released; cbn; rewrite bool_decide_eq_false_2; congruence).
  destruct (entry_unused (released t e)) eqn:Eu; [|eauto]. destruct (proj1 (entry_unused_spec _) Eu h). by left.
Qed.

Lemma ReleaseAll_exclusive t lm h k : h <> t -> holds_exclusive lm h k -> holds_exclusive (ReleaseAll t lm) h k.
Proof. intros Hne He. unfold ReleaseAll. destruct (held_by_txn_ lm !! t); [|done]. by apply release_keys_exclusive. Qed.

(** A conflict outlives every grant, and every release but the blocker's own. *)
Lemma AcquireLock_blocks t k m lm lm' h u k' m' :
  lm_wf lm -> AcquireLock t k m lm = Granted lm' -> blocks lm h u k' m' -> blocks lm' h u k' m'.
Proof.
  intros Hwf Ha [Hne Hb]. split; [done|]. destruct m'; [by eapply AcquireLock_exclusive|].
  destruct (AcquireLock_granted _ _ _ _ _ Hwf Ha) as (_ & _ & Hmono & _). by apply Hmono.
Qed.

Lemma ReleaseAll_blocks t lm h u k m : lm_wf lm -> h <> t -> blocks lm h u k m -> blocks (ReleaseAll t lm) h u k m.
Proof.
  intros Hwf Hht [Hne Hb]. split; [done|]. destruct m; [by apply ReleaseAll_exclusive|]. by apply ReleaseAll_holds.
Qed.

Lemma blocks_holds lm h t k m : blocks lm h t k m -> lm_holds lm h k.
Proof. intros [_ Hb]. destruct m; [by apply exclusive_holds|done]. Qed.

(** ** The invariant of the concurrent system *)

(** The table is consistent, only live transactions hold locks, and whoever
    sleeps does so because a strictly younger transaction holds that very page
    in a conflicting mode. *)
Record sys_inv (s : system) : Prop := mkSysInv {
  si_wf : lm_wf (sys_lm s);
  si_live t k : lm_holds (sys_lm s) t k -> is_Some (sys_txns s !! t);
  si_sleep t k m : sys_txns s !! t = Some (Sleeping k m) ->
    exists h, t < h /\ blocks (sys_lm s) h t k m
}.

Lemma request_inv t k m s :
  sys_inv s -> is_Some (sys_txns s !! t) -> sys_inv (request t k m s).
Proof.
  intros [Hwf Hl Hs] Ht. unfold request.
  assert (forall st u, is_Some (sys_txns s !! u) -> is_Some (<[t := st]> (sys_txns s) !! u)) as Hlive.
  { intros st u Hu. rewrite lookup_insert. case_decide; eauto. }
  destruct (AcquireLock t k m (sys_lm s)) as [lm'| |] eqn:Ha.
  - destruct (AcquireLock_granted _ _ _ _ _ Hwf Ha) as (Hwf' & _ & Hmono & Hoth).
    split; cbn; [done| |].
    + intros u k' Hu. destruct (decide (u = t)) as [->|]; [rewrite lookup_insert_eq; eauto|].
      apply Hlive. eapply Hl. by apply Hoth.
    + intros u k' m'. rewrite lookup_insert_Some. intros [[_ [=]]|[_ H]].
      apply Hs in H as (h & ? & ?). exists h. split; [done|]. eapply AcquireLock_blocks; [exact Hwf|done..].
  - pose proof (AcquireLock_cases t k m _ Hwf) as H. rewrite Ha in H. destruct H as [[h Hb] Hold].
    split; cbn; [done|naive_solver|].
    intros u k' m'. rewrite lookup_insert_Some. intros [[<- [= <- <-]]|[_ H]]; [|eauto].
    exists h. split; [|done]. apply Hold; [apply Hb|by eapply blocks_holds].
  - split; cbn; [done|naive_solver|].
    intros u k' m'. rewrite lookup_insert_Some. intros [[_ [=]]|[_ H]]. eauto.
Qed.

Lemma finish_inv t s : sys_inv s -> sys_inv (finish t s).
Proof.
  intros [Hwf Hl Hs]. pose proof (ReleaseAll_holds t (sys_lm s)) as Hh.
  unfold finish. split; cbn [sys_lm sys_txns].
  - by apply ReleaseAll_wf.
  - intros u k Hu. apply Hh in Hu as [Hu Hne]; [|done]. apply Hl in Hu.
    destruct (held_by_txn_ (sys_lm s) !! t); rewrite ?lookup_fmap, lookup_delete_ne by done; [|done].
    by apply fmap_is_Some.
  - intros u k m. destruct (held_by_txn_ (sys_lm s) !! t) as [ks|] eqn:Et.
    + rewrite lookup_fmap. destruct (delete t (sys_txns s) !! u) as [[]|]; done.
    + rewrite lookup_delete_Some. intros [Hne H]. apply Hs in H as (h & ? & Hk).
      exists h. split; [done|]. apply ReleaseAll_blocks; [done| |done]. intros ->.
      apply blocks_holds, (lw_held _ Hwf) in Hk. rewrite Et in Hk. set_solver.
Qed.

Lemma sys_step_inv s s' : sys_inv s -> sys_step s s' -> sys_inv s'.
Proof.
  intros Hi Hstep. destruct Hstep as [t Ht|t k m Ht|t k m Ht|t k m Ht|t Ht].
  - destruct Hi as [Hwf Hl Hs]. split; cbn; [done| |].
    + intros u k Hu. rewrite lookup_insert. case_decide; eauto.
    + intros u k m. rewrite lookup_insert_Some. intros [[_ [=]]|[_ H]]. eauto.
  - apply request_inv; eauto.
  - apply request_inv; eauto.
  - destruct Hi as [Hwf Hl Hs]. split; cbn; [done| |].
    + intros u k' Hu. rewrite lookup_insert. case_decide; eauto.
    + intros u k' m'. rewrite lookup_insert_Some. intros [[_ [=]]|[_ H]]. eauto.
  - by apply finish_inv.
Qed.

Lemma reachable_inv s : reachable s -> sys_inv s.
Proof.
  apply steps_invariant; [apply sys_step_inv|].
  split; cbn; [apply empty_lm_wf| |intros t k m; by rewrite lookup_empty].
  intros t k (e & H & _). cbn in H. by rewrite lookup_empty in H.
Qed.

(** The live transactions younger than [t]. *)
Definition younger (s : system) (t : TxnId) : gset TxnId :=
  filter (fun u => t < u) (dom (sys_txns s)).

(** [t] sleeps on a page that the younger [h] holds in a conflicting mode. *)
Definition waits_for_younger (s : system) (t h : TxnId) : Prop := waits_for s t h /\ t < h.

Definition awake (s : system) (u : TxnId) : Prop :=
  exists st, sys_txns s !! u = Some st /\ forall k m, st <> Sleeping k m.

Lemma younger_shrinks s t h : t < h -> is_Some (sys_txns s !! h) -> (size (younger s h) < size (younger s t))%nat.
Proof.
  intros Hlt Hh. apply subset_size. unfold younger. split; [set_solver by lia|].
  intros Hsub. assert (h ∈ younger s h) as Hin.
  { apply Hsub. apply elem_of_filter. split; [done|by apply elem_of_dom]. }
  unfold younger in Hin. apply elem_of_filter in Hin. lia.
Qed.

(** A sleeper's younger blocker is live. *)
Lemma sleeper_blocked s t k m :
  sys_inv s -> sys_txns s !! t = Some (Sleeping k m) ->
  exists h, t < h /\ blocks (sys_lm s) h t k m /\ is_Some (sys_txns s !! h).
Proof.
  intros Hi Ht. destruct (si_sleep _ Hi _ _ _ Ht) as (h & Hlt & Hb). exists h. split_and!; [done..|].
  by eapply (si_live _ Hi), blocks_holds.
Qed.

(** From any sleeper, following younger blockers reaches one that is awake,
    and it holds a lock. *)
Lemma sleeper_has_awake_holder s n t k m :
  sys_inv s -> sys_txns s !! t = Some (Sleeping k m) -> (size (younger s t) <= n)%nat ->
  exists u, tc (waits_for_younger s) t u /\ t < u /\ awake s u /\ exists k', lm_holds (sys_lm s) u k'.
Proof.
  intros Hi. revert t k m. induction n as [|n IH]; intros t k m Ht Hn;
    destruct (sleeper_blocked s t k m Hi Ht) as (h & Hlt & Hb & Hh); pose proof (younger_shrinks s t h Hlt Hh); [lia|].
  assert (waits_for_younger s t h) as Hw by (split; [by exists k, m|done]).
  assert (awake s h \/ exists k2 m2, sys_txns s !! h = Some (Sleeping k2 m2)) as [Ha|(k2 & m2 & Hst)].
  { destruct Hh as [[|k2 m2|k2 m2] Hst]; [left; by eexists|right; by eexists _, _|left; by eexists]. }
  - exists h. split_and!; [by apply tc_once|done..|]. eexists. by eapply blocks_holds.
  - destruct (IH h k2 m2 Hst ltac:(lia)) as (u & Hc & ? & Ha & Hk). exists u.
    split_and!; [by eapply tc_l|lia|done|done].
Qed.

(** ** Executable schedules *)

Inductive event :=
| EvBegin (t : TxnId)
| EvRequest (t : TxnId) (k : PageKey) (m : LockMode)
| EvFinish (t : TxnId).

Definition exec_event (ev : event) (s : system) : option system :=
  match ev with
  | EvBegin t =>
      match sys_txns s !! t with
      | None => Some (mkSystem (sys_lm s) (<[t := Running]> (sys_txns s)))
      | Some _ => None
      end
  | EvRequest t k m =>
      match sys_txns s !! t with
      | Some Running => Some (request t k m s)
      | _ => None
      end
  | EvFinish t =>
      match sys_txns s !! t with
      | Some Running => Some (finish t s)
      | _ => None
      end
  end.

Fixpoint exec_events (evs : list event) (s : system) : option system :=
  match evs with
  | [] => Some s
  | ev :: evs' => s' ← exec_event ev s; exec_events evs' s'
  end.

Lemma exec_event_step ev s s' : exec_event ev s = Some s' -> sys_step s s'.
Proof.
  destruct ev as [t|t k m|t]; cbn; destruct (sys_txns s !! t) as [[]|] eqn:Et;
    intros [= <-]; by econstructor.
Qed.

Lemma exec_events_steps evs s s' : exec_events evs s = Some s' -> steps sys_step s s'.
Proof.
  revert s. induction evs as [|ev evs IH]; cbn; intros s.
  - intros [= <-]. apply steps_refl.
  - destruct (exec_event ev s) as [s1|] eqn:E; cbn; [|done]. intros H.
    eapply steps_trans; [apply steps_one; by eapply exec_event_step|by apply IH].
Qed.

(** Three transactions meet on two pages: 2 locks page 1, 5 and then 1 share
    page 0, with 2's exclusive request for it arriving in between. *)
Definition page0 : PageKey := mkPageKey 0 0.
Definition page1 : PageKey := mkPageKey 0 1.

Definition crossing_schedule : list event :=
  [EvBegin 1; EvBegin 2; EvBegin 5;
   EvRequest 2 page1 kExclusive;
   EvRequest 5 page0 kShared;
   EvRequest 2 page0 kExclusive;
   EvRequest 1 page0 kShared;
   EvRequest 1 page1 kExclusive].

Definition crossing_state : system := default initial_system (exec_events crossing_schedule initial_system).

Lemma crossing_reachable : reachable crossing_state.
Proof.
  apply (exec_events_steps crossing_schedule). vm_compute. reflexivity.
Qed.

(** ** What the lock manager guarantees *)

(** C11: in every reachable state, if two different transactions hold locks on
    the same page, neither of them holds it exclusively; the entry's exclusive
    holder is its only holder. *)
Theorem exclusive_lock_excludes (s : system) (t h : TxnId) (k : PageKey) :
  reachable s -> t <> h ->
  lm_holds (sys_lm s) t k -> lm_holds (sys_lm s) h k ->
  ~ holds_exclusive (sys_lm s) t k /\ ~ holds_exclusive (sys_lm s) h k.
Proof.
  intros Hr Hne (e & He & Ht) (e2 & He2 & Hh). rewrite He in He2. injection He2 as <-.
  apply reachable_inv in Hr as [Hwf _ _].
  destruct (lw_entries _ Hwf _ _ He) as [Hx _].
  split; intros (e3 & He3 & Hex); rewrite He in He3; injection He3 as <-;
    pose proof (Hx _ Hex) as Hemp; unfold holds in *; rewrite Hemp in *; set_solver.
Qed.

Lemma exclusive_lock_excludes_witness :
  lm_holds (sys_lm crossing_state) 1 page0 /\ lm_holds (sys_lm crossing_state) 5 page0 /\
  ~ holds_exclusive (sys_lm crossing_state) 1 page0.
Proof.
  assert (lm_holds (sys_lm crossing_state) 1 page0) as H1.
  { eexists. split; [vm_compute; reflexivity|]. right. vm_compute. reflexivity. }
  assert (lm_holds (sys_lm crossing_state) 5 page0) as H5.
  { eexists. split; [vm_compute; reflexivity|]. right. vm_compute. reflexivity. }
  split; [exact H1|split; [exact H5|]].
  apply (exclusive_lock_excludes crossing_state 1 5 page0); [apply crossing_reachable|discriminate|exact H1|exact H5].
Defined.

(** C25: there is no global deadlock. In every reachable state, a sleeping
    request is still blocked by a live, strictly younger transaction that holds
    the very page it asks for in a conflicting mode. That transaction may
    itself be asleep, but following younger blockers from page to page reaches
    in finitely many steps one that is not (it is running, or woken and about
    to re-check); it holds a lock, and when it finishes, [ReleaseAll] notifies
    and the sleeper is woken with the same request. *)
Theorem sleeper_never_stuck (s : system) (t : TxnId) (k : PageKey) (m : LockMode) :
  reachable s -> sys_txns s !! t = Some (Sleeping k m) ->
  (exists h, t < h /\ blocks (sys_lm s) h t k m /\ is_Some (sys_txns s !! h)) /\
  exists u, tc (waits_for_younger s) t u /\ awake s u /\ HasAnyLock u (sys_lm s) = true /\
    sys_txns (finish u s) !! t = Some (Woken k m).
Proof.
  intros Hr Ht. apply reachable_inv in Hr. split; [by apply sleeper_blocked|].
  destruct (sleeper_has_awake_holder s _ t k m Hr Ht (Nat.le_refl _)) as (u & Hc & Hlt & Ha & k' & Hk).
  exists u. split_and!; [done..| |]; apply (lw_held _ (si_wf _ Hr)) in Hk.
  - unfold HasAnyLock. destruct (held_by_txn_ (sys_lm s) !! u) as [ks|]; [|set_solver]. cbn in Hk.
    rewrite bool_decide_eq_false_2; [done|]. set_solver.
  - unfold finish. cbn [sys_txns]. destruct (held_by_txn_ (sys_lm s) !! u) as [ks|]; [|set_solver].
    rewrite lookup_fmap, lookup_delete_ne by lia. by rewrite Ht.
Qed.

(** Transaction 1 sleeps on a page that only the sleeping 2 holds; the chain
    1, 2, 5 ends awake. *)
Lemma sleeper_never_stuck_witness :
  reachable crossing_state /\ sys_txns crossing_state !! 1 = Some (Sleeping page1 kExclusive) /\
  (exists h, 1 < h /\ lm_holds (sys_lm crossing_state) h page1) /\
  exists u, awake crossing_state u /\ sys_txns (finish u crossing_state) !! 1 = Some (Woken page1 kExclusive).
Proof.
  assert (sys_txns crossing_state !! 1 = Some (Sleeping page1 kExclusive)) as H1 by (vm_compute; reflexivity).
  split; [apply crossing_reachable|]. split; [exact H1|].
  destruct (sleeper_never_stuck crossing_state 1 page1 kExclusive crossing_reachable H1)
    as [(h & Hlt & Hb & _) (u & _ & Ha & _ & Hw)].
  split; [exists h; split; [exact Hlt|exact (proj2 Hb)]|]. exists u. split; assumption.
Defined.

(** C32: the wait-die decision. A request is granted exactly when no other
    transaction's lock is in the way, and then the requester holds what it
    asked for, everyone else holds what they held, and the table stays
    consistent; it sleeps when something is in the way and every other holder
    is younger; it dies, without sleeping, when something is in the way and
    some other holder is older. *)
Theorem AcquireLock_wait_die (t : TxnId) (k : PageKey) (m : LockMode) (lm : LockManager) :
  lm_wf lm ->
  ((exists lm', AcquireLock t k m lm = Granted lm') <-> forall h, ~ blocks lm h t k m) /\
  (forall lm', AcquireLock t k m lm = Granted lm' ->
     lm_wf lm' /\ sufficient lm' t k m /\
     forall h k', h <> t -> lm_holds lm' h k' <-> lm_holds lm h k') /\
  (AcquireLock t k m lm = MustWait <->
     (exists h, blocks lm h t k m) /\ forall h, h <> t -> lm_holds lm h k -> t < h) /\
  (AcquireLock t k m lm = Dies <->
     (exists h, blocks lm h t k m) /\ exists h, h <> t /\ lm_holds lm h k /\ h < t).
Proof.
  intros Hwf. pose proof (AcquireLock_cases t k m lm Hwf) as Hc.
  pose proof (AcquireLock_granted t k m lm) as Hg.
  destruct (AcquireLock t k m lm) as [lm0| |].
  - destruct Hc as [Hnb _]. split_and!; [split; eauto| |split; [done|]..].
    + intros lm' Hlm. destruct (Hg lm' Hwf Hlm) as (? & ? & _ & ?). eauto.
    + intros [[h Hh] _]. by destruct (Hnb h).
    + intros [[h Hh] _]. by destruct (Hnb h).
  - destruct Hc as [[h Hb] Hold]. split_and!; [split; [naive_solver|]|done|split; eauto|split; [done|]].
    + intros H. by destruct (H h).
    + intros [_ (x & Hx & Hxh & Hlt)]. specialize (Hold x Hx Hxh). lia.
  - destruct Hc as [[h Hb] (x & Hx & Hxh & Hlt)].
    split_and!; [split; [naive_solver|]|done|split; [done|]|naive_solver].
    + intros H. by destruct (H h).
    + intros [_ Hold]. specialize (Hold x Hx Hxh). lia.
Qed.

Lemma AcquireLock_wait_die_witness :
  lm_wf (sys_lm crossing_state) /\ AcquireLock 3 page0 kExclusive (sys_lm crossing_state) = Dies.
Proof.
  pose proof (si_wf _ (reachable_inv _ crossing_reachable)) as Hwf. split; [exact Hwf|].
  apply (AcquireLock_wait_die 3 page0 kExclusive (sys_lm crossing_state) Hwf).
  assert (lm_holds (sys_lm crossing_state) 1 page0) as H1.
  { eexists. split; [vm_compute; reflexivity|]. right. vm_compute. reflexivity. }
  split; exists 1; [split; [discriminate|exact H1]|split; [discriminate|split; [exact H1|reflexivity]]].
Defined.

(** [ReleaseAll] gives up every lock of the transaction at once, shared
    and exclusive, and nothing else: every other transaction holds exactly
    the locks it held, and the two maps of the table still agree. *)
Theorem ReleaseAll_releases_exactly (t : TxnId) (lm : LockManager) :
  lm_wf lm ->
  lm_wf (ReleaseAll t lm) /\
  HasAnyLock t (ReleaseAll t lm) = false /\
  forall h k, lm_holds (ReleaseAll t lm) h k <-> lm_holds lm h k /\ h <> t.
Proof.
  intros Hwf. pose proof (ReleaseAll_wf t lm Hwf) as Hwf'. split_and!; [done| |].
  - unfold HasAnyLock. destruct (held_by_txn_ (ReleaseAll t lm) !! t) as [ks|] eqn:Et; [|done].
    exfalso. pose proof (lw_some _ Hwf' _ _ Et) as Hne. apply set_choose_L in Hne as [k Hk].
    assert (lm_holds (ReleaseAll t lm) t k) as H by (apply (lw_held _ Hwf'); by rewrite Et).
    by apply ReleaseAll_holds in H as [_ ?].
  - intros h k. by apply ReleaseAll_holds.
Qed.

Lemma ReleaseAll_releases_exactly_witness :
  lm_wf (sys_lm crossing_state) /\ HasAnyLock 2 (ReleaseAll 2 (sys_lm crossing_state)) = false.
Proof.
  pose proof (si_wf _ (reachable_inv _ crossing_reachable)) as Hwf. split; [exact Hwf|].
  apply (ReleaseAll_releases_exactly 2 (sys_lm crossing_state) Hwf).
Defined.

(** A cycle of waits is reachable, against the class comment ("no cycle
    of waits for can ever close"): while transaction 2 sleeps waiting for the
    younger 5, the older 1 is granted the same page in shared mode and then
    sleeps on a page 2 holds, so 1 waits for 2 and 2 waits for 1. (It is
    broken, as [sleeper_never_stuck] says, when 5 finishes: 2 then dies.) *)
Theorem wait_cycle_reachable :
  exists s t h, reachable s /\ waits_for s t h /\ waits_for s h t.
Proof.
  exists crossing_state, 1, 2. split; [apply crossing_reachable|]. split.
  - exists page1, kExclusive. split; [vm_compute; reflexivity|]. split; [done|].
    eexists. split; [vm_compute; reflexivity|]. left. vm_compute. reflexivity.
  - exists page0, kExclusive. split; [vm_compute; reflexivity|]. split; [done|].
    eexists. split; [vm_compute; reflexivity|]. right. vm_compute. reflexivity.
Qed.
