(* ===== verification/DiskManager.v ===== *)
(** * DiskManager: one object's data file ([src/storage/disk_manager.{h,cpp}])

    The file is a list of whole pages and [next_page_id_] the page count the
    object caches; the two are kept apart because the code updates them by
    separate steps. The mutex is not modelled here: each method is one atomic
    step, which is what holding it over the whole body gives. The retry loops
    of [pread]/[pwrite] are modelled over any sequence of system-call results. *)
From S2P Require Import Prelude Config Page.

(** ** Data *)

Record DiskManager := mkDisk {
  file : list Page;
  next_page_id_ : PageId
}.

(** What one [pread]/[pwrite] call answers: it moves some bytes, it is
    interrupted, or it fails for another reason. *)
Inductive io_result :=
| IoBytes (n : nat)
| IoEintr
| IoError.

(** ** Operations *)

(** [FullPRead]: [done] bytes of [src] (the file from the offset on) are in
    the buffer so far; [sys] are the answers of the calls to come, and an
    answer moves at most what was asked for and what the file has. *)
Fixpoint FullPRead (src : bytes) (count : nat) (sys : list io_result) (done : nat) : option (outcome bytes) :=
  if (count <=? done)%nat then Some (Ret (take done src)) else
  match sys with
  | [] => None
  | r :: sys' =>
      match r with
      | IoEintr => FullPRead src count sys' done
      | IoError => Some (Throw RuntimeError)
      | IoBytes n =>
          let n := Nat.min n (Nat.min (count - done) (length src - done)) in
          if (n =? 0)%nat then Some (Throw RuntimeError)
          else FullPRead src count sys' (done + n)
      end
  end.

(** [FullPWrite] of [buf] at [off] of [f]; a call that moves no bytes is retried. *)
Fixpoint FullPWrite (buf : bytes) (off : Z) (sys : list io_result) (done : nat) (f : bytes) : option (outcome unit * bytes) :=
  if (length buf <=? done)%nat then Some (Ret tt, f) else
  match sys with
  | [] => None
  | r :: sys' =>
      match r with
      | IoEintr => FullPWrite buf off sys' done f
      | IoError => Some (Throw RuntimeError, f)
      | IoBytes n =>
          let n := Nat.min n (length buf - done) in
          FullPWrite buf off sys' (done + n)
            (splice (off + Z.of_nat done) (take n (drop done buf)) f)
      end
  end.

(** The constructor, on the bytes the file holds when it is opened. *)
Fixpoint pages_of (n : nat) (raw : bytes) : list Page :=
  match n with
  | O => []
  | S n' => take (Z.to_nat PAGE_SIZE) raw :: pages_of n' (drop (Z.to_nat PAGE_SIZE) raw)
  end.

Definition OpenDiskManager (raw : bytes) : outcome DiskManager :=
  if negb (zlen raw mod PAGE_SIZE =? 0) then Throw RuntimeError
  else Ret (mkDisk (pages_of (Z.to_nat (zlen raw / PAGE_SIZE)) raw) (u32 (zlen raw / PAGE_SIZE))).

(** [ftruncate] to a number of pages: growing fills with zeros. *)
Definition ftruncate_pages (n : Z) (f : list Page) : list Page :=
  take (Z.to_nat n) f ++ replicate (Z.to_nat n - length f) zero_page.

(** [AllocatePage]; [id + 1] is computed on 32 bits. *)
Definition AllocatePage : M DiskManager PageId := fun d =>
  let id := next_page_id_ d in
  let new_size := u32 (id + 1) in
  (Ret id, mkDisk (ftruncate_pages new_size (file d)) (u32 (id + 1))).

Definition ReadPage (page_id : PageId) : M DiskManager Page := fun d =>
  if next_page_id_ d <=? page_id then (Throw OutOfRange, d)
  else match file d !! Z.to_nat page_id with
       | Some p => (Ret p, d)
       | None => (Throw RuntimeError, d)
       end.

(** A [pwrite] of a whole page; past the end of file it would extend it. *)
Definition pwrite_page (page_id : PageId) (buf : Page) (f : list Page) : list Page :=
  let f := f ++ replicate (S (Z.to_nat page_id) - length f) zero_page in
  <[Z.to_nat page_id := buf]> f.

Definition WritePage (page_id : PageId) (buf : Page) : M DiskManager unit := fun d =>
  if next_page_id_ d <=? page_id then (Throw OutOfRange, d)
  else (Ret tt, mkDisk (pwrite_page page_id buf (file d)) (next_page_id_ d)).

Definition NumPages (d : DiskManager) : Z := next_page_id_ d.

Definition ResetFile : M DiskManager unit := fun d => (Ret tt, mkDisk [] 0).

(** ** Invariant *)

(** The page at [page_id], if it is allocated. *)
Definition disk_page (d : DiskManager) (page_id : PageId) : option Page :=
  if bool_decide (0 <= page_id < next_page_id_ d) then file d !! Z.to_nat page_id else None.

(** The cached page count is the file's, and every page is whole. *)
Record disk_wf (d : DiskManager) : Prop := mkDiskWf {
  dw_next : next_page_id_ d = zlen (file d);
  dw_bound : next_page_id_ d < 2 ^ 32;
  dw_pages : Forall (fun p => zlen p = PAGE_SIZE) (file d)
}.

(** ** Lemmas *)

Lemma disk_page_is_Some d pid : disk_wf d -> 0 <= pid < next_page_id_ d -> is_Some (disk_page d pid).
Proof.
  intros [Hn _ _] Hp. unfold disk_page. rewrite bool_decide_eq_true_2 by done.
  apply lookup_lt_is_Some. unfold zlen in *. lia.
Qed.

Lemma disk_page_range d pid p : disk_page d pid = Some p -> 0 <= pid < next_page_id_ d.
Proof. unfold disk_page. by case_bool_decide. Qed.

Lemma disk_page_len d pid p : disk_wf d -> disk_page d pid = Some p -> zlen p = PAGE_SIZE.
Proof.
  intros [_ _ Hf]. unfold disk_page. case_bool_decide; [|done]. intros Hp.
  rewrite Forall_forall in Hf. apply Hf. by eapply list_elem_of_lookup_2.
Qed.

Lemma ReadPage_run d pid p : disk_page d pid = Some p -> ReadPage pid d = (Ret p, d).
Proof.
  unfold disk_page, ReadPage. case_bool_decide; [|done]. intros ->.
  destruct (Z.leb_spec (next_page_id_ d) pid); [lia|done].
Qed.

Lemma WritePage_run d pid buf :
  disk_wf d -> 0 <= pid < next_page_id_ d -> zlen buf = PAGE_SIZE ->
  exists d', WritePage pid buf d = (Ret tt, d') /\ disk_wf d' /\
    next_page_id_ d' = next_page_id_ d /\
    forall q, disk_page d' q = if decide (q = pid) then Some buf else disk_page d q.
Proof.
  intros [Hn Hb Hf] Hp Hl. unfold WritePage.
  destruct (Z.leb_spec (next_page_id_ d) pid); [lia|].
  assert (pwrite_page pid buf (file d) = <[Z.to_nat pid := buf]> (file d)) as Hpw.
  { unfold pwrite_page. replace (S (Z.to_nat pid) - length (file d))%nat with 0%nat
      by (unfold zlen in *; lia). cbn [replicate]. by rewrite app_nil_r. }
  eexists. split; [reflexivity|]. rewrite Hpw. split_and!.
  - split; cbn; [unfold zlen in *; rewrite length_insert; lia|done|by apply Forall_insert].
  - done.
  - intros q. unfold disk_page. cbn. case_decide as Hq.
    + subst q. rewrite bool_decide_eq_true_2 by done.
      apply list_lookup_insert_eq. unfold zlen in *. lia.
    + case_bool_decide; [|done]. apply list_lookup_insert_ne. lia.
Qed.

Lemma AllocatePage_run d :
  disk_wf d -> next_page_id_ d + 1 < 2 ^ 32 ->
  exists d', AllocatePage d = (Ret (next_page_id_ d), d') /\ disk_wf d' /\
    next_page_id_ d' = next_page_id_ d + 1 /\
    forall q, disk_page d' q = if decide (q = next_page_id_ d) then Some zero_page else disk_page d q.
Proof.
  intros [Hn Hb Hf] Hmax. unfold AllocatePage. eexists. split; [reflexivity|].
  assert (0 <= next_page_id_ d) by (unfold zlen in *; lia).
  rewrite u32_small by lia.
  assert (ftruncate_pages (next_page_id_ d + 1) (file d) = file d ++ [zero_page]) as Hft.
  { unfold ftruncate_pages. rewrite take_ge by (unfold zlen in *; lia).
    replace (Z.to_nat (next_page_id_ d + 1) - length (file d))%nat with 1%nat
      by (unfold zlen in *; lia). done. }
  rewrite Hft. split_and!; cbn.
  - split; cbn; [unfold zlen in *; rewrite length_app; cbn; lia|lia|].
    apply Forall_app. split; [done|]. constructor; [apply zlen_zero_page|done].
  - done.
  - intros q. unfold disk_page. cbn. case_decide as Hq.
    + subst q. rewrite bool_decide_eq_true_2 by lia.
      rewrite lookup_app_r by (unfold zlen in *; lia).
      replace (Z.to_nat (next_page_id_ d) - length (file d))%nat with 0%nat by (unfold zlen in *; lia). done.
    + destruct (decide (0 <= q < next_page_id_ d)).
      * rewrite !bool_decide_eq_true_2 by lia. apply lookup_app_l. unfold zlen in *. lia.
      * rewrite !bool_decide_eq_false_2 by lia. done.
Qed.

Lemma OpenDiskManager_wf raw d :
  zlen raw < PAGE_SIZE * 2 ^ 32 -> OpenDiskManager raw = Ret d -> disk_wf d.
Proof.
  intros Hlt. unfold OpenDiskManager. destruct (Z.eqb_spec (zlen raw mod PAGE_SIZE) 0) as [Hm|]; [|done].
  cbn. intros [= <-].
  assert (0 <= zlen raw / PAGE_SIZE < 2 ^ 32) as Hq.
  { split; [apply Z.div_pos; unfold zlen, PAGE_SIZE; lia|].
    apply Z.div_lt_upper_bound; unfold PAGE_SIZE in *; lia. }
  assert (zlen raw = PAGE_SIZE * (zlen raw / PAGE_SIZE)) as Hd
    by (rewrite <- Z.div_exact in Hm by (unfold PAGE_SIZE; lia); done).
  rewrite u32_small by lia.
  generalize dependent (zlen raw / PAGE_SIZE). intros q Hq Hd.
  assert (forall n l, (length l = Z.to_nat PAGE_SIZE * n)%nat ->
    length (pages_of n l) = n /\ Forall (fun p : Page => zlen p = PAGE_SIZE) (pages_of n l)) as Hp.
  { induction n as [|n IH]; intros l Hl; cbn [pages_of]; [by split|].
    destruct (IH (drop (Z.to_nat PAGE_SIZE) l)) as [H1 H2]; [rewrite length_drop; lia|].
    split; [cbn; lia|]. constructor; [|done].
    unfold zlen. rewrite length_take. unfold PAGE_SIZE in *. lia. }
  destruct (Hp (Z.to_nat q) raw) as [H1 H2]; [unfold zlen in Hd; unfold PAGE_SIZE in *; lia|].
  split; cbn; [unfold zlen; lia|lia|done].
Qed.

(** ** The I/O loops *)

(** The calls of a schedule that move bytes, and a schedule without failures. *)
Definition progress (r : io_result) : nat :=
  match r with IoBytes n => Nat.min n 1 | _ => 0%nat end.

Definition io_fine (r : io_result) : Prop :=
  match r with IoBytes n => (0 < n)%nat | IoEintr => True | IoError => False end.

Lemma FullPRead_result src count sys buf k :
  (k <= count)%nat -> (k <= length src)%nat ->
  FullPRead src count sys k = Some (Ret buf) -> buf = take count src /\ (count <= length src)%nat.
Proof.
  revert k. induction sys as [|r sys IH]; intros k Hk Hl; cbn [FullPRead];
    destruct (Nat.leb_spec count k); try done.
  - intros [= <-]. replace k with count by lia. split; [done|lia].
  - intros [= <-]. replace k with count by lia. split; [done|lia].
  - destruct r as [n| |]; [|by apply IH|done].
    destruct (Nat.eqb_spec (Nat.min n (Nat.min (count - k) (length src - k))) 0); [done|]. apply IH; lia.
Qed.

Lemma FullPRead_returns src count sys k :
  (k <= count <= length src)%nat -> Forall io_fine sys ->
  (count - k <= sum_list (progress <$> sys))%nat ->
  exists buf, FullPRead src count sys k = Some (Ret buf).
Proof.
  revert k. induction sys as [|r sys IH]; intros k Hk Hf Hs; cbn [FullPRead];
    destruct (Nat.leb_spec count k); eauto.
  - cbn in Hs. lia.
  - apply Forall_cons in Hf as [Hr Hf]. cbn in Hs. destruct r as [n| |]; cbn in *; [|by apply IH|done].
    destruct (Nat.eqb_spec (Nat.min n (Nat.min (count - k) (length src - k))) 0); [lia|].
    apply IH; [lia|done|lia].
Qed.

(** Short reads and interruptions do not show. Whatever the [pread] calls
    answer, a buffer [FullPRead] returns is exactly the [count] bytes asked
    for; and on a file that has them, any schedule without failures that keeps
    moving bytes makes it return. *)
Theorem FullPRead_complete (src : bytes) (count : nat) (sys : list io_result) :
  (forall buf, FullPRead src count sys 0 = Some (Ret buf) ->
     buf = take count src /\ (count <= length src)%nat) /\
  ((count <= length src)%nat -> Forall io_fine sys ->
     (count <= sum_list (progress <$> sys))%nat ->
     FullPRead src count sys 0 = Some (Ret (take count src))).
Proof.
  split.
  - intros buf. apply FullPRead_result; lia.
  - intros Hl Hf Hs. destruct (FullPRead_returns src count sys 0) as [buf Hb]; [lia|done|lia|].
    rewrite Hb. apply FullPRead_result in Hb as [-> _]; [done|lia..].
Qed.

Lemma FullPRead_complete_witness :
  (2 <= length [x61; x62; x63])%nat /\
  FullPRead [x61; x62; x63] 2 [IoEintr; IoBytes 1; IoEintr; IoBytes 5] 0 = Some (Ret [x61; x62]).
Proof.
  split; [cbn; lia|].
  apply (FullPRead_complete [x61; x62; x63] 2 [IoEintr; IoBytes 1; IoEintr; IoBytes 5]).
  - cbn. lia.
  - repeat constructor.
  - cbn. lia.
Defined.
