(* ===== verification/Transaction.v ===== *)
(** * Transaction: dirtied pages and the calling thread's context ([src/txn/transaction.{h,cpp}])

    A [Transaction] object is its set of dirtied pages, found by its id in the
    table of live transactions; [GetCurrentTransaction] is the thread-local
    pointer, the id of the transaction running on this thread if any. *)
From S2P Require Import Prelude Config LockManager.

Abbreviation ThreadId := Z (only parsing).

(** The live [Transaction] objects: [dirtied_pages_] by transaction id. *)
Abbreviation Transactions := (gmap TxnId (gset PageKey)).

(** [Transaction::NotifyDirty]; an unknown id would be a dangling pointer. *)
Definition NotifyDirty (txn_id : TxnId) (object_id : ObjectId) (page_id : PageId) (txns : Transactions) : Transactions :=
  alter (fun s => {[mkPageKey object_id page_id]} ∪ s) txn_id txns.

Definition DirtiedPages (txn_id : TxnId) (txns : Transactions) : gset PageKey :=
  default ∅ (txns !! txn_id).

Lemma DirtiedPages_NotifyDirty t oid pid txns u :
  is_Some (txns !! t) ->
  DirtiedPages u (NotifyDirty t oid pid txns) =
    if decide (u = t) then {[mkPageKey oid pid]} ∪ DirtiedPages u txns else DirtiedPages u txns.
Proof.
  intros [s Hs]. unfold DirtiedPages, NotifyDirty. rewrite lookup_alter.
  case_decide as Hd; [subst; rewrite decide_True, Hs by done; done|by rewrite decide_False].
Qed.
