(* ===== verification/BufferPool.v ===== *)
(** * BufferPool: the no-eviction page cache ([src/storage/buffer_pool.{h,cpp}])

    A pool owns the in-memory copy of every page it has touched. The pages are
    a shared store: a [Page*] handed out is the page id itself, dereferenced
    through [pages_], so two callers holding the same pointer see each other's
    writes and [DiscardPage]'s reload. [View] is what a thread working on one
    object sees: that object's storage, the live transactions, the lock table,
    and its own thread context. *)
From stdpp Require Import sorting.
From S2P Require Export Prelude Config Page LockManager DiskManager Transaction.

(** ** Data *)

(** The observer [TransactionManager::Begin] registers is the closure
    [[txn, object_id](page) { txn->NotifyDirty(object_id, page); }]. *)
Record Observer := mkObserver { ob_txn : TxnId; ob_object : ObjectId }.

Record BufferPool := mkPool {
  disk_manager_ : DiskManager;
  pages_ : gmap PageId Page;
  dirty_ : gset PageId;
  observers_by_thread_ : gmap ThreadId Observer
}.

Record View := mkView {
  v_pool : BufferPool;
  v_page_ids : list PageId;          (* HeapFile::page_ids_, for a heap object *)
  v_txns : Transactions;
  v_locks : LockManager;
  v_current : option TxnId;          (* GetCurrentTransaction() *)
  v_thread : ThreadId
}.

(** ** State access *)

Definition set_disk (d : DiskManager) (bp : BufferPool) : BufferPool :=
  mkPool d (pages_ bp) (dirty_ bp) (observers_by_thread_ bp).
Definition set_pages (m : gmap PageId Page) (bp : BufferPool) : BufferPool :=
  mkPool (disk_manager_ bp) m (dirty_ bp) (observers_by_thread_ bp).
Definition set_dirty (s : gset PageId) (bp : BufferPool) : BufferPool :=
  mkPool (disk_manager_ bp) (pages_ bp) s (observers_by_thread_ bp).
Definition set_observers (o : gmap ThreadId Observer) (bp : BufferPool) : BufferPool :=
  mkPool (disk_manager_ bp) (pages_ bp) (dirty_ bp) o.

Definition set_pool (bp : BufferPool) (v : View) : View :=
  mkView bp (v_page_ids v) (v_txns v) (v_locks v) (v_current v) (v_thread v).
Definition set_page_ids (l : list PageId) (v : View) : View :=
  mkView (v_pool v) l (v_txns v) (v_locks v) (v_current v) (v_thread v).
Definition set_txns (t : Transactions) (v : View) : View :=
  mkView (v_pool v) (v_page_ids v) t (v_locks v) (v_current v) (v_thread v).
Definition set_locks (lm : LockManager) (v : View) : View :=
  mkView (v_pool v) (v_page_ids v) (v_txns v) lm (v_current v) (v_thread v).

Definition upd_pool (f : BufferPool -> BufferPool) (v : View) : View := set_pool (f (v_pool v)) v.

(** A call of the object's [DiskManager]. *)
Definition on_disk {A} (m : M DiskManager A) : M View A := fun v =>
  let '(o, d) := m (disk_manager_ (v_pool v)) in (o, upd_pool (set_disk d) v).

(** A method call through a [Page*]. *)
Definition on_page {A} (ptr : PageId) (m : M Page A) : M View A := fun v =>
  match pages_ (v_pool v) !! ptr with
  | Some p => let '(o, p') := m p in (o, upd_pool (fun bp => set_pages (<[ptr := p']> (pages_ bp)) bp) v)
  | None => (Undefined, v)
  end.

(** [Transaction::AcquireLock] through the thread's current transaction:
    a no-op without one. A request that has to wait suspends the thread. *)
Definition LockPage (object_id : ObjectId) (page_id : PageId) (mode : LockMode) : M View unit := fun v =>
  match v_current v with
  | None => (Ret tt, v)
  | Some txn =>
      match AcquireLock txn (mkPageKey object_id page_id) mode (v_locks v) with
      | Granted lm' => (Ret tt, set_locks lm' v)
      | MustWait => (Sleep (object_id, page_id), v)
      | Dies => (Throw (TransactionAborted txn), v)
      end
  end.

(** ** Operations *)

Definition MarkDirtyLocked (page_id : PageId) : M View unit := fun v =>
  let v1 := upd_pool (fun bp => set_dirty ({[page_id]} ∪ dirty_ bp) bp) v in
  match observers_by_thread_ (v_pool v) !! v_thread v with
  | Some ob => (Ret tt, set_txns (NotifyDirty (ob_txn ob) (ob_object ob) page_id (v_txns v)) v1)
  | None => (Ret tt, v1)
  end.

Definition MarkDirty (page_id : PageId) : M View unit := MarkDirtyLocked page_id.

Definition NewPage : M View PageId :=
  pid ← on_disk AllocatePage;
  modify (upd_pool (fun bp => set_pages (<[pid := zero_page]> (pages_ bp)) bp));;
  MarkDirtyLocked pid;;
  mret pid.

Definition NewHeapPage : M View PageId :=
  pid ← NewPage;
  on_page pid (modify (InitHeapPage pid));;
  mret pid.

Definition FetchPage (page_id : PageId) : M View PageId := fun v =>
  match pages_ (v_pool v) !! page_id with
  | Some _ => (Ret page_id, v)
  | None =>
      (p ← on_disk (ReadPage page_id);
       modify (upd_pool (fun bp => set_pages (<[page_id := p]> (pages_ bp)) bp));;
       mret page_id) v
  end.

Definition flush_one (pid : PageId) : M View unit := fun v =>
  match pages_ (v_pool v) !! pid with
  | Some p => on_disk (WritePage pid p) v
  | None => (Ret tt, v)
  end.

Definition FlushAll : M View unit :=
  pids ← gets (fun v => elements (dirty_ (v_pool v)));
  for_each flush_one pids;;
  modify (upd_pool (set_dirty ∅)).

(** The body of [FlushPages]'s loop. *)
Definition flush_if_dirty (pid : PageId) : M View unit := fun v =>
  match pages_ (v_pool v) !! pid with
  | Some p =>
      if bool_decide (pid ∈ dirty_ (v_pool v)) then
        (on_disk (WritePage pid p);;
         modify (upd_pool (fun bp => set_dirty (dirty_ bp ∖ {[pid]}) bp))) v
      else (Ret tt, v)
  | None => (Ret tt, v)
  end.

(** The pages named, in the set's order, each written if cached and dirty. *)
Definition FlushPages (page_ids : gset PageId) : M View unit :=
  for_each flush_if_dirty (merge_sort Z.le (elements page_ids)).

Definition NumPagesInMemory (v : View) : Z := Z.of_nat (size (pages_ (v_pool v))).
Definition NumPagesOnDisk (v : View) : Z := NumPages (disk_manager_ (v_pool v)).

Definition ResetAll : M View unit :=
  modify (upd_pool (fun bp => set_dirty ∅ (set_pages ∅ bp)));;
  on_disk ResetFile.

Definition SetActiveTransactionObserver (ob : Observer) : M View unit := fun v =>
  (Ret tt, upd_pool (fun bp => set_observers (<[v_thread v := ob]> (observers_by_thread_ bp)) bp) v).

Definition ClearActiveTransactionObserver : M View unit := fun v =>
  (Ret tt, upd_pool (fun bp => set_observers (delete (v_thread v) (observers_by_thread_ bp)) bp) v).

(** Reloads in place: every [Page*] to the page sees the reverted content. *)
Definition DiscardPage (page_id : PageId) : M View unit := fun v =>
  match pages_ (v_pool v) !! page_id with
  | None => (Ret tt, v)
  | Some _ =>
      (p ← on_disk (ReadPage page_id);
       modify (upd_pool (fun bp => set_dirty (dirty_ bp ∖ {[page_id]}) (set_pages (<[page_id := p]> (pages_ bp)) bp)))) v
  end.

(** ** The content of the pool *)

(** What a caller reads at [page_id]: the cached copy, else the file's. *)
Definition mem_page (bp : BufferPool) (page_id : PageId) : option Page :=
  match pages_ bp !! page_id with
  | Some p => Some p
  | None => disk_page (disk_manager_ bp) page_id
  end.

(** Cached pages are allocated and whole; a page that is not dirty reads the
    same from the file. *)
Record pool_wf (bp : BufferPool) : Prop := mkPoolWf {
  pw_disk : disk_wf (disk_manager_ bp);
  pw_cached pid p : pages_ bp !! pid = Some p ->
    0 <= pid < next_page_id_ (disk_manager_ bp) /\ zlen p = PAGE_SIZE;
  pw_clean pid p : pages_ bp !! pid = Some p -> pid ∉ dirty_ bp ->
    disk_page (disk_manager_ bp) pid = Some p
}.

(** No other transaction holds a lock that could delay this thread. *)
Definition uncontended (v : View) : Prop :=
  match v_current v with
  | None => True
  | Some t => lm_wf (v_locks v) /\ forall h k, lm_holds (v_locks v) h k -> h = t
  end.

(** The page is marked dirty, and the transaction observing this thread, if
    any, has been told. *)
Definition notified (v : View) (pid : PageId) : Prop :=
  pid ∈ dirty_ (v_pool v) /\
  match observers_by_thread_ (v_pool v) !! v_thread v with
  | Some ob => is_Some (v_txns v !! ob_txn ob) ->
      mkPageKey (ob_object ob) pid ∈ DirtiedPages (ob_txn ob) (v_txns v)
  | None => True
  end.

(** What every storage operation of a transaction leaves alone: the thread's
    context; the data file, whose allocated pages keep their content (no
    steal); every page whose in-memory content it changes is reported, and
    only existing pages of the object are, to the thread's own observer. *)
Record frame (v v' : View) : Prop := mkFrame {
  fr_current : v_current v' = v_current v;
  fr_thread : v_thread v' = v_thread v;
  fr_observers : observers_by_thread_ (v_pool v') = observers_by_thread_ (v_pool v);
  fr_live t : is_Some (v_txns v' !! t) <-> is_Some (v_txns v !! t);
  fr_uncontended : uncontended v -> uncontended v';
  fr_disk q p : disk_page (disk_manager_ (v_pool v)) q = Some p ->
    disk_page (disk_manager_ (v_pool v')) q = Some p;
  fr_new q p : disk_page (disk_manager_ (v_pool v')) q = Some p ->
    disk_page (disk_manager_ (v_pool v)) q = Some p \/ p = zero_page;
  fr_keep q : notified v q -> notified v' q;
  fr_change q : mem_page (v_pool v') q = mem_page (v_pool v) q \/ notified v' q;
  fr_mem q : is_Some (mem_page (v_pool v) q) -> is_Some (mem_page (v_pool v') q);
  fr_dirtied t k : k ∈ DirtiedPages t (v_txns v') -> k ∈ DirtiedPages t (v_txns v) \/
    exists ob, observers_by_thread_ (v_pool v) !! v_thread v = Some ob /\ t = ob_txn ob /\
      key_object k = ob_object ob /\ is_Some (mem_page (v_pool v') (key_page k));
  fr_dirtied_keep t k : k ∈ DirtiedPages t (v_txns v) -> k ∈ DirtiedPages t (v_txns v')
}.

#[global] Instance frame_preorder : PreOrder frame.
Proof.
  split; [intros v; split; auto; done|].
  intros v1 v2 v3 H1 H2. split.
  - rewrite (fr_current _ _ H2). apply H1.
  - rewrite (fr_thread _ _ H2). apply H1.
  - rewrite (fr_observers _ _ H2). apply H1.
  - intros t. rewrite (fr_live _ _ H2). apply H1.
  - intros. by apply H2, H1.
  - intros. by apply H2, H1.
  - intros q p Hq. destruct (fr_new _ _ H2 q p Hq) as [Hq1|]; [by apply (fr_new _ _ H1)|by right].
  - intros. by apply H2, H1.
  - intros q. destruct (fr_change _ _ H2 q) as [->|]; [|by right].
    destruct (fr_change _ _ H1 q) as [->|]; [by left|right; by apply H2].
  - intros. by apply H2, H1.
  - intros t k Hk. destruct (fr_dirtied _ _ H2 t k Hk) as [Hk1|(ob & Hob & Hrest)].
    + destruct (fr_dirtied _ _ H1 t k Hk1) as [?|(ob & Hob & Ht & Ho & Hm)]; [by left|].
      right. exists ob. split_and!; [done..|]. by apply H2.
    + right. exists ob. split; [|done]. by rewrite <- (fr_observers _ _ H1), <- (fr_thread _ _ H1).
  - intros. by apply H2, H1.
Qed.

(** ** Lemmas: one call at a time *)

(** The cached copy of [pid] becomes [p]. *)
Definition cache (pid : PageId) (p : Page) (v : View) : View :=
  upd_pool (fun bp => set_pages (<[pid := p]> (pages_ bp)) bp) v.

Lemma cache_id pid p v : pages_ (v_pool v) !! pid = Some p -> cache pid p v = v.
Proof. intros H. destruct v as [[] ]. unfold cache, upd_pool, set_pool, set_pages. cbn in *. by rewrite insert_id. Qed.

Lemma cache_cache pid p1 p2 v : cache pid p1 (cache pid p2 v) = cache pid p1 v.
Proof. unfold cache, upd_pool, set_pool, set_pages. cbn. by rewrite insert_insert_eq. Qed.

Lemma mem_page_cache pid p v q :
  mem_page (v_pool (cache pid p v)) q = if decide (q = pid) then Some p else mem_page (v_pool v) q.
Proof.
  unfold mem_page, cache. cbn. case_decide as Hq.
  - subst. by rewrite lookup_insert_eq.
  - by rewrite lookup_insert_ne.
Qed.

Lemma mem_page_facts bp pid p :
  pool_wf bp -> mem_page bp pid = Some p -> 0 <= pid < next_page_id_ (disk_manager_ bp) /\ zlen p = PAGE_SIZE.
Proof.
  intros Hwf. unfold mem_page. destruct (pages_ bp !! pid) as [p0|] eqn:E.
  - intros [= <-]. by apply (pw_cached _ Hwf).
  - intros H. split; [by eapply disk_page_range|eapply disk_page_len; [apply Hwf|done]].
Qed.

Lemma mem_page_is_Some bp pid :
  pool_wf bp -> 0 <= pid < next_page_id_ (disk_manager_ bp) -> is_Some (mem_page bp pid).
Proof.
  intros Hwf Hp. unfold mem_page. destruct (pages_ bp !! pid); [eauto|].
  apply disk_page_is_Some; [apply Hwf|done].
Qed.

Lemma FetchPage_run v pid p :
  mem_page (v_pool v) pid = Some p -> FetchPage pid v = (Ret pid, cache pid p v).
Proof.
  unfold mem_page, FetchPage. destruct (pages_ (v_pool v) !! pid) as [p0|] eqn:E.
  - intros [= <-]. by rewrite cache_id.
  - intros H. erewrite bind_ret.
    2: { unfold on_disk. by rewrite (ReadPage_run _ _ _ H). }
    destruct v as [[]]. done.
Qed.

(** A fetch changes nothing a caller can see. *)
Lemma fetched_wf v pid p :
  pool_wf (v_pool v) -> mem_page (v_pool v) pid = Some p -> pool_wf (v_pool (cache pid p v)).
Proof.
  intros Hwf Hm. pose proof (mem_page_facts _ _ _ Hwf Hm) as [Hr Hl]. split; [apply Hwf|..]; cbn.
  - intros q pq. rewrite lookup_insert_Some. intros [[<- <-]|[_ H]]; [done|by eapply (pw_cached _ Hwf)].
  - intros q pq. rewrite lookup_insert_Some. intros [[<- <-]|[_ H]]; [|by apply (pw_clean _ Hwf)].
    intros Hd. unfold mem_page in Hm. destruct (pages_ (v_pool v) !! pid) as [p0|] eqn:E; [|done].
    injection Hm as <-. by apply (pw_clean _ Hwf).
Qed.

Lemma fetched_frame v pid p :
  mem_page (v_pool v) pid = Some p -> frame v (cache pid p v).
Proof.
  intros Hm. split; try done.
  - intros; by left.
  - intros q. left. rewrite mem_page_cache. case_decide; [by subst|done].
  - intros q. rewrite mem_page_cache. by case_decide.
  - intros; by left.
Qed.

Lemma on_page_run {A} (m : M Page A) v ptr p o p' :
  pages_ (v_pool v) !! ptr = Some p -> m p = (o, p') -> on_page ptr m v = (o, cache ptr p' v).
Proof. intros H1 H2. unfold on_page. by rewrite H1, H2. Qed.

(** A read through the pointer just fetched. *)
Lemma on_page_read {A} (m : M Page A) v ptr p a :
  pages_ (v_pool v) !! ptr = Some p -> m p = (Ret a, p) -> on_page ptr m v = (Ret a, v).
Proof. intros H1 H2. rewrite (on_page_run _ _ _ _ _ _ H1 H2). by rewrite cache_id. Qed.

Lemma cached_cache pid p v : pages_ (v_pool (cache pid p v)) !! pid = Some p.
Proof. cbn. apply lookup_insert_eq. Qed.

Definition mark (pid : PageId) (v : View) : View :=
  let v1 := upd_pool (fun bp => set_dirty ({[pid]} ∪ dirty_ bp) bp) v in
  match observers_by_thread_ (v_pool v) !! v_thread v with
  | Some ob => set_txns (NotifyDirty (ob_txn ob) (ob_object ob) pid (v_txns v)) v1
  | None => v1
  end.

Lemma MarkDirty_run pid v : MarkDirty pid v = (Ret tt, mark pid v).
Proof. unfold MarkDirty, MarkDirtyLocked, mark. by destruct (observers_by_thread_ _ !! _). Qed.

Lemma mark_fields pid v :
  disk_manager_ (v_pool (mark pid v)) = disk_manager_ (v_pool v) /\
  pages_ (v_pool (mark pid v)) = pages_ (v_pool v) /\
  dirty_ (v_pool (mark pid v)) = {[pid]} ∪ dirty_ (v_pool v) /\
  observers_by_thread_ (v_pool (mark pid v)) = observers_by_thread_ (v_pool v) /\
  v_page_ids (mark pid v) = v_page_ids v /\ v_locks (mark pid v) = v_locks v /\
  v_current (mark pid v) = v_current v /\ v_thread (mark pid v) = v_thread v.
Proof. unfold mark. by destruct (observers_by_thread_ _ !! _). Qed.

Lemma mem_page_mark pid v q : mem_page (v_pool (mark pid v)) q = mem_page (v_pool v) q.
Proof. unfold mem_page. by destruct (mark_fields pid v) as (-> & -> & _). Qed.

Lemma mark_live pid v t : is_Some (v_txns (mark pid v) !! t) <-> is_Some (v_txns v !! t).
Proof.
  unfold mark. destruct (observers_by_thread_ _ !! _) as [ob|]; [|done]. cbn.
  unfold NotifyDirty. rewrite lookup_alter. case_decide; [subst; apply fmap_is_Some|done].
Qed.

Lemma DirtiedPages_mono t oid pid txns u k :
  k ∈ DirtiedPages u txns -> k ∈ DirtiedPages u (NotifyDirty t oid pid txns).
Proof.
  unfold DirtiedPages, NotifyDirty. rewrite lookup_alter. case_decide; [|done]. subst.
  destruct (txns !! u); cbn; set_solver.
Qed.

(** What marking adds to the dirtied sets. *)
Lemma mark_dirtied pid v t k :
  k ∈ DirtiedPages t (v_txns (mark pid v)) <->
  k ∈ DirtiedPages t (v_txns v) \/
  exists ob, observers_by_thread_ (v_pool v) !! v_thread v = Some ob /\ t = ob_txn ob /\
    k = mkPageKey (ob_object ob) pid /\ is_Some (v_txns v !! t).
Proof.
  unfold mark. destruct (observers_by_thread_ (v_pool v) !! v_thread v) as [ob|] eqn:E; cbn; [|naive_solver].
  destruct (v_txns v !! ob_txn ob) as [s|] eqn:Es.
  - rewrite DirtiedPages_NotifyDirty by eauto. case_decide as Ht; [subst t|].
    + rewrite elem_of_union, elem_of_singleton. split; [|naive_solver]. intros [->|?]; [right|by left]. exists ob. eauto.
    + split; [by left|]. intros [?|(ob' & [= <-] & ? & _)]; done.
  - assert (NotifyDirty (ob_txn ob) (ob_object ob) pid (v_txns v) = v_txns v) as ->.
    { unfold NotifyDirty. apply map_eq. intros i. rewrite lookup_alter. case_decide; [subst; by rewrite Es|done]. }
    split; [by left|]. intros [?|(ob' & [= <-] & -> & _ & [x Hx])]; [done|congruence].
Qed.

Lemma mark_notified pid v : notified (mark pid v) pid.
Proof.
  unfold notified. destruct (mark_fields pid v) as (_ & _ & -> & -> & _ & _ & _ & ->).
  split; [set_solver|]. pose proof (mark_live pid v) as Hl. unfold mark in *.
  destruct (observers_by_thread_ (v_pool v) !! v_thread v) as [ob|]; [|done]. cbn in *.
  intros Hlive. rewrite Hl in Hlive. rewrite DirtiedPages_NotifyDirty by done.
  rewrite decide_True by done. set_solver.
Qed.

Lemma mark_keep pid v q : notified v q -> notified (mark pid v) q.
Proof.
  unfold notified. pose proof (mark_live pid v) as Hl.
  destruct (mark_fields pid v) as (_ & _ & -> & -> & _ & _ & _ & ->).
  intros [H1 H2]. split; [set_solver|].
  destruct (observers_by_thread_ (v_pool v) !! v_thread v) as [ob|] eqn:E; [|done].
  rewrite Hl. intros Hlive. specialize (H2 Hlive). unfold mark. rewrite E. cbn.
  by apply DirtiedPages_mono.
Qed.

(** Writing a page through its pointer and reporting it. *)
Definition write (pid : PageId) (p : Page) (v : View) : View := mark pid (cache pid p v).

Lemma mem_page_write pid p v q :
  mem_page (v_pool (write pid p v)) q = if decide (q = pid) then Some p else mem_page (v_pool v) q.
Proof. unfold write. by rewrite mem_page_mark, mem_page_cache. Qed.

Lemma write_cache pid p1 p2 v : write pid p1 (cache pid p2 v) = write pid p1 v.
Proof. unfold write. by rewrite cache_cache. Qed.

Lemma write_page_ids pid p v : v_page_ids (write pid p v) = v_page_ids v.
Proof. unfold write. by destruct (mark_fields pid (cache pid p v)) as (_ & _ & _ & _ & -> & _). Qed.

Lemma write_disk pid p v : disk_manager_ (v_pool (write pid p v)) = disk_manager_ (v_pool v).
Proof. unfold write. by destruct (mark_fields pid (cache pid p v)) as (-> & _). Qed.

Lemma write_wf pid p v :
  pool_wf (v_pool v) -> 0 <= pid < next_page_id_ (disk_manager_ (v_pool v)) -> zlen p = PAGE_SIZE ->
  pool_wf (v_pool (write pid p v)).
Proof.
  intros Hwf Hr Hl. unfold write.
  destruct (mark_fields pid (cache pid p v)) as (Hd & Hp & Hdi & _).
  split; rewrite ?Hd, ?Hp, ?Hdi; cbn; [apply Hwf|..].
  - intros q pq. rewrite lookup_insert_Some. intros [[<- <-]|[_ H]]; [done|by eapply (pw_cached _ Hwf)].
  - intros q pq. rewrite lookup_insert_Some. intros [[<- <-]|[_ H]]; [set_solver|].
    intros Hn. apply (pw_clean _ Hwf); [done|set_solver].
Qed.

Lemma write_frame pid p v : frame v (write pid p v).
Proof.
  unfold write.
  destruct (mark_fields pid (cache pid p v)) as (Hd & Hp & Hdi & Ho & Hpi & Hlo & Hcu & Hth).
  split; [by rewrite Hcu|by rewrite Hth|by rewrite Ho|intros t; exact (mark_live pid (cache pid p v) t)|..].
  - unfold uncontended. by rewrite Hcu, Hlo.
  - intros q pq. by rewrite Hd.
  - intros q pq. rewrite Hd. by left.
  - intros q Hq. apply mark_keep. done.
  - intros q. destruct (decide (q = pid)) as [->|]; [right; apply mark_notified|].
    left. rewrite mem_page_mark, mem_page_cache, decide_False by done. done.
  - intros q. rewrite mem_page_mark, mem_page_cache. by case_decide.
  - intros t k. rewrite mark_dirtied. intros [?|(ob & Hob & -> & -> & _)]; [by left|]. right. exists ob. split_and!; [done..|].
    cbn [key_page]. rewrite mem_page_mark, mem_page_cache, decide_True by done. eauto.
  - intros t k Hk. apply mark_dirtied. by left.
Qed.

(** ** LockPage, NewPage *)

Lemma LockPage_run oid pid mode v :
  uncontended v ->
  exists v', LockPage oid pid mode v = (Ret tt, v') /\
    v_pool v' = v_pool v /\ v_page_ids v' = v_page_ids v /\ frame v v'.
Proof.
  intros Hu. unfold LockPage. unfold uncontended in Hu. destruct (v_current v) as [t|] eqn:Ec; [|by exists v].
  destruct Hu as [Hwf Hown].
  pose proof (AcquireLock_cases t (mkPageKey oid pid) mode _ Hwf) as Hc.
  assert (forall h, ~ blocks (v_locks v) h t (mkPageKey oid pid) mode) as Hnb.
  { intros h [Hne Hb]. apply Hne. apply (Hown h (mkPageKey oid pid)).
    destruct mode; [|done]. destruct Hb as (e & ? & ?). exists e. split; [done|by left]. }
  destruct (AcquireLock t (mkPageKey oid pid) mode (v_locks v)) as [lm'| |] eqn:Ha.
  - destruct (AcquireLock_granted _ _ _ _ _ Hwf Ha) as (Hwf' & _ & _ & Hoth).
    eexists. split_and!; [done..|]. split; try done; [|intros; by left|intros; by left|intros; by left].
    unfold uncontended. cbn. rewrite Ec. intros _. split; [done|]. intros h k Hh.
    destruct (decide (h = t)) as [|Hne]; [done|]. apply Hoth in Hh; [|done]. eauto.
  - destruct Hc as [[h Hh] _]. by destruct (Hnb h).
  - destruct Hc as [[h Hh] _]. by destruct (Hnb h).
Qed.

(** Allocation: a fresh zero page, cached, dirty and reported. *)
Lemma NewPage_run v :
  pool_wf (v_pool v) -> next_page_id_ (disk_manager_ (v_pool v)) + 1 < 2 ^ 32 ->
  let pid := next_page_id_ (disk_manager_ (v_pool v)) in
  exists v', NewPage v = (Ret pid, v') /\ pool_wf (v_pool v') /\ frame v v' /\
    v_page_ids v' = v_page_ids v /\
    next_page_id_ (disk_manager_ (v_pool v')) = pid + 1 /\
    pages_ (v_pool v') !! pid = Some zero_page /\
    forall q, mem_page (v_pool v') q = if decide (q = pid) then Some zero_page else mem_page (v_pool v) q.
Proof.
  intros Hwf Hmax pid.
  destruct (AllocatePage_run _ (pw_disk _ Hwf) Hmax) as (d' & Ha & Hdwf & Hn & Hd). fold pid in Ha, Hn, Hd.
  set (v1 := upd_pool (set_disk d') v).
  assert (pool_wf (v_pool v1)) as Hwf1.
  { split; cbn; [done|..].
    - intros q pq Hq. apply (pw_cached _ Hwf) in Hq as [? ?]. split; [lia|done].
    - intros q pq Hq Hdq. rewrite Hd. pose proof (pw_cached _ Hwf _ _ Hq) as [? _].
      rewrite decide_False by lia. by apply (pw_clean _ Hwf). }
  exists (write pid zero_page v1). split_and!.
  - unfold NewPage. erewrite bind_ret by (unfold on_disk; by rewrite Ha).
    erewrite bind_ret by apply modify_run. erewrite bind_ret by apply MarkDirty_run. done.
  - apply write_wf; [done|cbn; subst pid; pose proof (dw_next _ (pw_disk _ Hwf)); unfold zlen in *; lia|apply zlen_zero_page].
  - pose proof (write_frame pid zero_page v1) as Hf.
    destruct Hf as [H1 H2 H3 H4 H5 H6 Hnew H7 H8 H9 H10 H11]. split; [by rewrite H1|by rewrite H2|by rewrite H3|intros; by rewrite H4|..].
    + intros Hu. by apply H5.
    + intros q p Hq. apply H6. cbn. rewrite Hd. pose proof (disk_page_range _ _ _ Hq).
      rewrite decide_False by lia. done.
    + intros q p Hq. destruct (Hnew q p Hq) as [Hq'|]; [|by right]. cbn in Hq'. rewrite Hd in Hq'. case_decide; [injection Hq' as <-; by right|by left].
    + intros q Hq. by apply H7.
    + intros q. destruct (H8 q) as [Hq|]; [|by right]. destruct (decide (q = pid)) as [->|].
      * right. apply mark_notified.
      * left. rewrite Hq. unfold mem_page. cbn. rewrite Hd, decide_False by done. done.
    + intros q Hq. rewrite mem_page_write. case_decide; [eauto|]. revert Hq. unfold mem_page. cbn.
      by rewrite Hd, decide_False.
    + intros t k Hk. exact (H10 t k Hk).
    + intros t k Hk. exact (H11 t k Hk).
  - by rewrite write_page_ids.
  - rewrite write_disk. done.
  - unfold write. destruct (mark_fields pid (cache pid zero_page v1)) as (_ & -> & _). apply cached_cache.
  - intros q. rewrite mem_page_write. case_decide; [done|]. unfold mem_page. cbn.
    rewrite Hd, decide_False by done. done.
Qed.

(** ** Flushing *)

(** [v'] has the same thread context and cached pages as [v]. *)
Record flush_frame (v v' : View) : Prop := mkFlushFrame {
  ff_wf : pool_wf (v_pool v');
  ff_pages : pages_ (v_pool v') = pages_ (v_pool v);
  ff_observers : observers_by_thread_ (v_pool v') = observers_by_thread_ (v_pool v);
  ff_next : next_page_id_ (disk_manager_ (v_pool v')) = next_page_id_ (disk_manager_ (v_pool v));
  ff_rest : v_page_ids v' = v_page_ids v /\ v_txns v' = v_txns v /\ v_locks v' = v_locks v /\
            v_current v' = v_current v /\ v_thread v' = v_thread v
}.

#[global] Instance flush_frame_trans : Transitive flush_frame.
Proof.
  intros v1 v2 v3 [? Hp Ho Hn Hr] [? Hp' Ho' Hn' Hr']. split; [done|congruence..|].
  destruct Hr as (?&?&?&?&?), Hr' as (?&?&?&?&?). split_and!; congruence.
Qed.

(** What writing the pages of [l] back changes. *)
Definition flushed (l : list PageId) (v v' : View) : Prop :=
  flush_frame v v' /\
  (forall q, q ∈ dirty_ (v_pool v') <->
     q ∈ dirty_ (v_pool v) /\ ~ (q ∈ l /\ is_Some (pages_ (v_pool v) !! q))) /\
  (forall q, disk_page (disk_manager_ (v_pool v')) q =
     if bool_decide (q ∈ l) && bool_decide (q ∈ dirty_ (v_pool v)) then mem_page (v_pool v) q
     else disk_page (disk_manager_ (v_pool v)) q).

Lemma flushed_nothing l v :
  pool_wf (v_pool v) ->
  (forall q, q ∈ l -> q ∈ dirty_ (v_pool v) -> pages_ (v_pool v) !! q = None) -> flushed l v v.
Proof.
  intros Hwf Hl. split; [by split|]. split.
  - intros q. split; [|naive_solver]. intros Hq. split; [done|]. intros [Hin [x Hx]].
    rewrite Hl in Hx by done. done.
  - intros q. case_bool_decide as Hq; [|done]. case_bool_decide as Hd; [|done]. cbn.
    unfold mem_page. by rewrite (Hl q Hq Hd).
Qed.

Lemma flushed_mem l v v' q : flushed l v v' -> mem_page (v_pool v') q = mem_page (v_pool v) q.
Proof.
  intros (Hf & _ & Hd). unfold mem_page. rewrite (ff_pages _ _ Hf).
  destruct (pages_ (v_pool v) !! q) eqn:E; [done|]. rewrite Hd. unfold mem_page. rewrite E. by destruct (_ && _).
Qed.

Lemma flush_if_dirty_run pid v :
  pool_wf (v_pool v) -> exists v', flush_if_dirty pid v = (Ret tt, v') /\ flushed [pid] v v'.
Proof.
  intros Hwf. unfold flush_if_dirty. destruct (pages_ (v_pool v) !! pid) as [p|] eqn:Ep.
  2: { exists v. split; [done|]. apply flushed_nothing; [done|]. set_solver. }
  case_bool_decide as Hin.
  2: { exists v. split; [done|]. apply flushed_nothing; [done|]. set_solver. }
  destruct (pw_cached _ Hwf _ _ Ep) as [Hrng Hlen].
  destruct (WritePage_run _ pid p (pw_disk _ Hwf) Hrng Hlen) as (d' & Hw & Hdwf & Hn & Hd').
  eexists. split; [erewrite bind_ret by (unfold on_disk; by rewrite Hw); reflexivity|].
  split; [split; cbn; try done|split; cbn [v_pool upd_pool set_pool set_dirty set_disk dirty_ disk_manager_ pages_]].
  - split; cbn; [done|..].
    + intros q pq H. rewrite Hn. by apply (pw_cached _ Hwf).
    + intros q pq H Hnd. rewrite Hd'. case_decide as Heq; [subst; congruence|].
      apply (pw_clean _ Hwf); [done|set_solver].
  - intros q. rewrite elem_of_difference, elem_of_singleton, list_elem_of_singleton.
    assert (is_Some (pages_ (v_pool v) !! pid)) by eauto. naive_solver.
  - intros q. rewrite Hd'. case_decide as Hq; [subst q|].
    + rewrite !bool_decide_eq_true_2 by set_solver. cbn. unfold mem_page. by rewrite Ep.
    + by rewrite bool_decide_eq_false_2 by set_solver.
Qed.

Lemma flushed_cons pid l v v1 v2 : flushed [pid] v v1 -> flushed l v1 v2 -> flushed (pid :: l) v v2.
Proof.
  intros H1 H2. pose proof (fun q => flushed_mem _ _ _ q H1) as Hm.
  destruct H1 as (Hf1 & Hd1 & Hk1), H2 as (Hf2 & Hd2 & Hk2).
  split; [by transitivity v1|]. split.
  - intros q. rewrite Hd2, Hd1, (ff_pages _ _ Hf1), list_elem_of_singleton, elem_of_cons. tauto.
  - intros q. rewrite Hk2, Hk1, Hm. specialize (Hd1 q). rewrite list_elem_of_singleton in Hd1.
    destruct (decide (q ∈ dirty_ (v_pool v))) as [Hq|Hq].
    2: { rewrite (bool_decide_eq_false_2 (q ∈ dirty_ (v_pool v1))) by tauto.
         rewrite (bool_decide_eq_false_2 (q ∈ dirty_ (v_pool v))) by done. by rewrite !andb_false_r. }
    rewrite (bool_decide_eq_true_2 (q ∈ dirty_ (v_pool v))), !andb_true_r by done.
    destruct (decide (q = pid)) as [->|Hne].
    + rewrite (bool_decide_eq_true_2 (pid ∈ [pid])) by (by left).
      rewrite (bool_decide_eq_true_2 (pid ∈ pid :: l)) by (by left). by destruct (_ && _).
    + rewrite (bool_decide_eq_false_2 (q ∈ [pid])) by (by rewrite list_elem_of_singleton).
      rewrite (bool_decide_eq_true_2 (q ∈ dirty_ (v_pool v1))), andb_true_r by tauto.
      rewrite (bool_decide_ext (q ∈ pid :: l) (q ∈ l)); [done|]. rewrite elem_of_cons. tauto.
Qed.

Lemma flush_loop_run (l : list PageId) v :
  pool_wf (v_pool v) -> exists v', for_each flush_if_dirty l v = (Ret tt, v') /\ flushed l v v'.
Proof.
  revert v. induction l as [|pid l IH]; intros v Hwf; cbn [for_each].
  - exists v. split; [done|]. apply flushed_nothing; [done|set_solver].
  - destruct (flush_if_dirty_run pid v Hwf) as (v1 & Hr1 & Hf1).
    destruct (IH v1 (ff_wf _ _ (proj1 Hf1))) as (v2 & Hr2 & Hf2).
    exists v2. split; [by erewrite bind_ret by exact Hr1|]. by eapply flushed_cons.
Qed.

Lemma FlushPages_run (pids : gset PageId) v :
  pool_wf (v_pool v) ->
  exists v', FlushPages pids v = (Ret tt, v') /\ flushed (merge_sort Z.le (elements pids)) v v'.
Proof. intros. by apply flush_loop_run. Qed.

Lemma elem_of_flush_order (pids : gset PageId) q : q ∈ merge_sort Z.le (elements pids) <-> q ∈ pids.
Proof. rewrite merge_sort_Permutation. apply elem_of_elements. Qed.

(** ** DiscardPage *)

Lemma DiscardPage_run pid v :
  pool_wf (v_pool v) ->
  exists v', DiscardPage pid v = (Ret tt, v') /\ flush_frame (set_pool (v_pool v') v) v' /\
    pool_wf (v_pool v') /\ disk_manager_ (v_pool v') = disk_manager_ (v_pool v) /\
    observers_by_thread_ (v_pool v') = observers_by_thread_ (v_pool v) /\
    (forall q, mem_page (v_pool v') q =
       if decide (q = pid) then disk_page (disk_manager_ (v_pool v)) pid else mem_page (v_pool v) q) /\
    (forall q, q ∈ dirty_ (v_pool v') <->
       q ∈ dirty_ (v_pool v) /\ ~ (q = pid /\ is_Some (pages_ (v_pool v) !! pid))).
Proof.
  intros Hwf. unfold DiscardPage. destruct (pages_ (v_pool v) !! pid) as [p|] eqn:Ep.
  - destruct (pw_cached _ Hwf _ _ Ep) as [Hrng Hlen].
    destruct (disk_page_is_Some _ _ (pw_disk _ Hwf) Hrng) as [dp Hdp].
    eexists. split; [erewrite bind_ret by (unfold on_disk; by rewrite (ReadPage_run _ _ _ Hdp)); reflexivity|].
    assert (pool_wf (set_dirty (dirty_ (v_pool v) ∖ {[pid]}) (set_pages (<[pid:=dp]> (pages_ (v_pool v))) (v_pool v)))) as Hwf'.
    { split; cbn; [apply Hwf|..].
      - intros q pq. rewrite lookup_insert_Some. intros [[<- <-]|[_ H]]; [|by apply (pw_cached _ Hwf)].
        split; [done|]. eapply disk_page_len; [apply Hwf|done].
      - intros q pq. rewrite lookup_insert_Some. intros [[<- <-]|[Hne H]] Hd; [done|].
        apply (pw_clean _ Hwf); [done|set_solver]. }
    destruct v as [[dm pgs dr obs] ? ? ? ? ?]; cbn in *. split_and!; try done.
    + intros q. unfold mem_page. cbn. case_decide; [subst; by rewrite lookup_insert_eq|by rewrite lookup_insert_ne].
    + intros q. rewrite elem_of_difference, elem_of_singleton. assert (is_Some (Some p)) by eauto. naive_solver.
  - exists v. split_and!; try done.
    + intros q. case_decide; [|done]. subst. unfold mem_page. by rewrite Ep.
    + intros q. split; [|tauto]. intros Hq. split; [done|]. intros [_ [x [=]]].
Qed.

(** ** The contract of the pool *)

(** [FlushPages] writes back exactly the named pages that are cached and
    dirty: afterwards the file holds their cached content, they are clean, no
    other page of the file and no other dirty mark has changed, and what a
    caller reads through the pool is what it read before. *)
Theorem FlushPages_writes_exactly (pids : gset PageId) (v : View) :
  pool_wf (v_pool v) ->
  exists v', FlushPages pids v = (Ret tt, v') /\ pool_wf (v_pool v') /\
    (forall q, disk_page (disk_manager_ (v_pool v')) q =
       if bool_decide (q ∈ pids) && bool_decide (q ∈ dirty_ (v_pool v)) then mem_page (v_pool v) q
       else disk_page (disk_manager_ (v_pool v)) q) /\
    (forall q, q ∈ dirty_ (v_pool v') <->
       q ∈ dirty_ (v_pool v) /\ ~ (q ∈ pids /\ is_Some (pages_ (v_pool v) !! q))) /\
    (forall q, mem_page (v_pool v') q = mem_page (v_pool v) q).
Proof.
  intros Hwf. destruct (FlushPages_run pids v Hwf) as (v' & H & Hf). exists v'.
  split_and!; [done|apply Hf|..].
  - intros q. destruct Hf as (_ & _ & ->). by rewrite (bool_decide_ext _ _ (elem_of_flush_order pids q)).
  - intros q. destruct Hf as (_ & -> & _). by rewrite elem_of_flush_order.
  - intros q. by apply (flushed_mem _ _ _ _ Hf).
Qed.

(** A pool with one cached dirty page over a one-page file of zeros. *)
Definition one_dirty_page : View :=
  mkView (mkPool (mkDisk [zero_page] 1) {[0 := InitHeapPage 0 zero_page]} {[0]} ∅) [0] ∅ empty_lm None 0.

Lemma one_dirty_page_wf : pool_wf (v_pool one_dirty_page).
Proof.
  split; cbn.
  - split; cbn; [done|lia|]. constructor; [apply zlen_zero_page|constructor].
  - intros pid p [<- <-]%lookup_singleton_Some. split; [lia|]. apply (wf_len _ (init_wf 0 zero_page)).
  - intros pid p [<- _]%lookup_singleton_Some. set_solver.
Qed.

Lemma FlushPages_writes_exactly_witness :
  exists v', FlushPages {[0]} one_dirty_page = (Ret tt, v') /\
    disk_page (disk_manager_ (v_pool v')) 0 = Some (InitHeapPage 0 zero_page).
Proof.
  destruct (FlushPages_writes_exactly {[0]} one_dirty_page one_dirty_page_wf) as (v' & H & _ & Hd & _).
  exists v'. split; [exact H|]. rewrite Hd. reflexivity.
Defined.

(** [DiscardPage] makes a page read as the file holds it, through every
    pointer to it, and clean; every other page keeps its content and mark. *)
Theorem DiscardPage_reverts (pid : PageId) (v : View) :
  pool_wf (v_pool v) ->
  exists v', DiscardPage pid v = (Ret tt, v') /\ pool_wf (v_pool v') /\
    disk_manager_ (v_pool v') = disk_manager_ (v_pool v) /\
    (forall q, mem_page (v_pool v') q =
       if decide (q = pid) then disk_page (disk_manager_ (v_pool v)) pid else mem_page (v_pool v) q) /\
    (forall q, q ∈ dirty_ (v_pool v') <->
       q ∈ dirty_ (v_pool v) /\ ~ (q = pid /\ is_Some (pages_ (v_pool v) !! pid))).
Proof.
  intros Hwf. destruct (DiscardPage_run pid v Hwf) as (v' & H & _ & Hwf' & Hd & _ & Hm & Hdi). eauto 10.
Qed.

Lemma DiscardPage_reverts_witness :
  exists v', DiscardPage 0 one_dirty_page = (Ret tt, v') /\ mem_page (v_pool v') 0 = Some zero_page.
Proof.
  destruct (DiscardPage_reverts 0 one_dirty_page one_dirty_page_wf) as (v' & H & _ & _ & Hm & _).
  exists v'. split; [exact H|]. rewrite Hm. reflexivity.
Defined.
