(* ===== verification/HeapFile.v ===== *)
(** * HeapFile: the row store of one table ([src/storage/heap_file.{h,cpp}])

    A heap file is its list of page ids over the object's pool ([v_page_ids]).
    The abstract view is the list of its live rows, in page and slot order;
    [Insert] appends to it, [Delete] removes from it, and the reads return it. *)
From S2P Require Export BufferPool.

Module HeapFile.

Definition kMaxRowSize : Z := PAGE_SIZE - kHeaderSize - kSlotSize.

Section Operations.
Context (object_id : ObjectId).

(** The constructor: every page of the file belongs to the heap. *)
Definition Open : M View unit := fun v =>
  (Ret tt, set_page_ids (seqZ 0 (NumPagesOnDisk v)) v).

(** [page->InsertRecord] and, on success, [MarkDirty]. *)
Definition insert_into (pid : PageId) (page : PageId) (row_bytes : bytes) : M View (option RID) :=
  slot ← on_page page (InsertRecord row_bytes);
  match slot with
  | Some s => MarkDirty pid;; mret (Some (mkRID pid s))
  | None => mret None
  end.

(** The common case: the last page still has room. *)
Definition insert_last (row_bytes : bytes) : M View (option RID) :=
  page_ids ← gets v_page_ids;
  match last page_ids with
  | None => mret None
  | Some l =>
      LockPage object_id l kExclusive;;
      page ← FetchPage l;
      insert_into l page row_bytes
  end.

Definition insert_new (row_bytes : bytes) : M View RID :=
  new_pid ← NewHeapPage;
  LockPage object_id new_pid kExclusive;;
  modify (fun v => set_page_ids (v_page_ids v ++ [new_pid]) v);;
  r ← insert_into new_pid new_pid row_bytes;
  match r with
  | Some rid => mret rid
  | None => throw LogicError
  end.

Definition Insert (row_bytes : bytes) : M View RID :=
  if kMaxRowSize <? zlen row_bytes then throw InvalidArgument else
  r ← insert_last row_bytes;
  match r with
  | Some rid => mret rid
  | None => insert_new row_bytes
  end.

Definition GetRow (rid : RID) : M View (option bytes) :=
  page_ids ← gets v_page_ids;
  if negb (bool_decide (page_id rid ∈ page_ids)) then mret None else
  LockPage object_id (page_id rid) kShared;;
  page ← FetchPage (page_id rid);
  n ← on_page page (gets GetSlotCount);
  if n <=? slot_id rid then mret None else
  del ← on_page page (IsDeleted (slot_id rid));
  if del : bool then mret None else
  row ← on_page page (GetRecord (slot_id rid));
  mret (Some row).

Definition scan_slot (pid page : PageId) (out : list (RID * bytes)) (s : SlotId) : M View (list (RID * bytes)) :=
  del ← on_page page (IsDeleted s);
  if del : bool then mret out else
  row ← on_page page (GetRecord s);
  mret (out ++ [(mkRID pid s, row)]).

Definition scan_page (out : list (RID * bytes)) (pid : PageId) : M View (list (RID * bytes)) :=
  LockPage object_id pid kShared;;
  page ← FetchPage pid;
  n ← on_page page (gets GetSlotCount);
  fold_m (scan_slot pid page) out (seqZ 0 n).

Definition Scan : M View (list (RID * bytes)) :=
  page_ids_snapshot ← gets v_page_ids;
  fold_m scan_page [] page_ids_snapshot.

Definition NumRows : M View Z := rows ← Scan; mret (zlen rows).

Definition find_slot (pred : bytes -> bool) (pid page : PageId) (s : SlotId) : M View (option RID) :=
  del ← on_page page (IsDeleted s);
  if del : bool then mret None else
  record ← on_page page (GetRecord s);
  mret (if pred record then Some (mkRID pid s) else None).

Definition find_page (pred : bytes -> bool) (pid : PageId) : M View (option RID) :=
  LockPage object_id pid kShared;;
  page ← FetchPage pid;
  n ← on_page page (gets GetSlotCount);
  find_m (find_slot pred pid page) (seqZ 0 n).

Definition Find (pred : bytes -> bool) : M View (option RID) :=
  page_ids_snapshot ← gets v_page_ids;
  find_m (find_page pred) page_ids_snapshot.

Definition Delete (rid : RID) : M View bool :=
  page_ids ← gets v_page_ids;
  if negb (bool_decide (page_id rid ∈ page_ids)) then mret false else
  LockPage object_id (page_id rid) kExclusive;;
  page ← FetchPage (page_id rid);
  n ← on_page page (gets GetSlotCount);
  if n <=? slot_id rid then mret false else
  del ← on_page page (IsDeleted (slot_id rid));
  if del : bool then mret false else
  on_page page (DeleteRecord (slot_id rid));;
  MarkDirty (page_id rid);;
  mret true.

End Operations.

(** ** The abstract view: the live rows *)

Definition slot_row (pid : PageId) (p : Page) (s : SlotId) : option (RID * bytes) :=
  let x := slot_at p s in if s_live x then Some (mkRID pid s, s_data x) else None.

Definition page_rows (pid : PageId) (p : Page) : list (RID * bytes) :=
  omap (slot_row pid p) (seqZ 0 (GetSlotCount p)).

Definition rows_at (bp : BufferPool) (pid : PageId) : list (RID * bytes) :=
  match mem_page bp pid with Some p => page_rows pid p | None => [] end.

Definition heap_rows (v : View) : list (RID * bytes) :=
  concat (rows_at (v_pool v) <$> v_page_ids v).

(** A heap page is initialised, or still zero (allocated by a transaction
    that never committed). *)
Definition heap_page (p : Page) : Prop := page_wf p \/ p = zero_page.

Record heap_wf (v : View) : Prop := mkHeapWf {
  hw_pool : pool_wf (v_pool v);
  hw_ids : v_page_ids v = seqZ 0 (next_page_id_ (disk_manager_ (v_pool v)));
  hw_pages pid : pid ∈ v_page_ids v -> exists p, mem_page (v_pool v) pid = Some p /\ heap_page p
}.

Lemma hw_nodup v : heap_wf v -> NoDup (v_page_ids v).
Proof. intros H. rewrite (hw_ids _ H). apply NoDup_seqZ. Qed.

(** The state differs from [v] only in what is cached and locked. *)
Record reads (v v' : View) : Prop := mkReads {
  rd_frame : frame v v';
  rd_pool : pool_wf (v_pool v) -> pool_wf (v_pool v');
  rd_page_ids : v_page_ids v' = v_page_ids v;
  rd_mem q : mem_page (v_pool v') q = mem_page (v_pool v) q;
  rd_next : next_page_id_ (disk_manager_ (v_pool v')) = next_page_id_ (disk_manager_ (v_pool v))
}.

#[global] Instance reads_preorder : PreOrder reads.
Proof.
  split; [intros v; by split|]. intros v1 v2 v3 [] []. split; [by etrans|tauto|congruence..].
Qed.

(** ** Lemmas: the abstract view *)

Lemma heap_page_count p : heap_page p -> 0 <= GetSlotCount p <= 1020.
Proof. intros [H| ->]; [by apply slot_count_range|]. unfold GetSlotCount, zero_page. rewrite read_at_zeros. lia. Qed.

Lemma heap_page_get p s : heap_page p -> 0 <= s < GetSlotCount p -> GetRecord s p = (Ret (s_data (slot_at p s)), p).
Proof.
  intros [H| ->] Hs; [by apply GetRecord_spec|].
  unfold GetSlotCount, zero_page in Hs. rewrite read_at_zeros in Hs. lia.
Qed.

Lemma elem_of_page_rows pid p rid row :
  (rid, row) ∈ page_rows pid p <->
  page_id rid = pid /\ 0 <= slot_id rid < GetSlotCount p /\ slot_at p (slot_id rid) = mkSlot true row.
Proof.
  unfold page_rows. rewrite list_elem_of_omap. split.
  - intros (s & Hs & Hr). apply elem_of_seqZ in Hs. unfold slot_row in Hr. cbn zeta in Hr.
    destruct (slot_at p s) as [[] d] eqn:E; [|done]. injection Hr as <- <-. cbn. rewrite E. split_and!; [done|lia..|done].
  - intros (<- & Hs & He). exists (slot_id rid). split; [apply elem_of_seqZ; lia|].
    unfold slot_row. rewrite He. by destruct rid.
Qed.

Lemma elem_of_heap_rows v rid row :
  (rid, row) ∈ heap_rows v <->
  page_id rid ∈ v_page_ids v /\ (rid, row) ∈ rows_at (v_pool v) (page_id rid).
Proof.
  unfold heap_rows. rewrite list_elem_of_In, in_concat. setoid_rewrite <- list_elem_of_In. split.
  - intros (l & Hl & Hin). apply list_elem_of_fmap in Hl as (pid & -> & Hp).
    assert (page_id rid = pid) as <-; [|done].
    unfold rows_at in Hin. destruct (mem_page _ _); [|by apply not_elem_of_nil in Hin].
    by apply elem_of_page_rows in Hin as [? _].
  - intros [Hp Hin]. eexists. split; [|exact Hin]. apply list_elem_of_fmap. eauto.
Qed.

(** No two live rows share a record id. *)
Lemma page_rows_NoDup pid p : NoDup (page_rows pid p).*1.
Proof.
  unfold page_rows. generalize (seqZ 0 (GetSlotCount p)), (NoDup_seqZ 0 (GetSlotCount p)).
  induction l as [|s l IH]; intros Hnd; [constructor|]. apply NoDup_cons in Hnd as [Hs Hnd]. cbn.
  unfold slot_row at 1. cbn zeta. destruct (s_live (slot_at p s)); [|by apply IH]. cbn. constructor; [|by apply IH].
  intros Hin. apply list_elem_of_fmap in Hin as ([r d] & Hr & Hin). apply list_elem_of_omap in Hin as (s' & Hs' & He).
  unfold slot_row in He. cbn zeta in He. destruct (s_live (slot_at p s')); [|done]. injection He as <- _. cbn in Hr. by injection Hr as ->.
Qed.

Lemma heap_rows_NoDup v : NoDup (v_page_ids v) -> NoDup (heap_rows v).*1.
Proof.
  unfold heap_rows. induction (v_page_ids v) as [|pid l IH]; intros Hnd; [constructor|].
  apply NoDup_cons in Hnd as [Hp Hnd]. cbn. rewrite fmap_app. apply NoDup_app. split_and!; [|..|by apply IH].
  - unfold rows_at. destruct (mem_page _ _); [apply page_rows_NoDup|constructor].
  - intros rid H1 H2. apply Hp.
    apply list_elem_of_fmap in H1 as ([r d] & -> & H1). apply list_elem_of_fmap in H2 as ([r' d'] & Hr & H2). cbn in Hr. subst r'.
    apply list_elem_of_In, in_concat in H2 as (l2 & Hl2 & H2). rewrite <- !list_elem_of_In in *.
    apply list_elem_of_fmap in Hl2 as (pid2 & -> & Hp2).
    unfold rows_at in H1, H2. destruct (mem_page (v_pool v) pid), (mem_page (v_pool v) pid2);
      try (by apply not_elem_of_nil in H1); try (by apply not_elem_of_nil in H2).
    apply elem_of_page_rows in H1 as (<- & _), H2 as (<- & _). done.
Qed.

Lemma reads_rows v v' : reads v v' -> heap_rows v' = heap_rows v.
Proof.
  intros H. unfold heap_rows. rewrite (rd_page_ids _ _ H). f_equal. apply list_fmap_ext. intros i pid _.
  unfold rows_at. by rewrite (rd_mem _ _ H).
Qed.

Lemma reads_wf v v' : reads v v' -> heap_wf v -> heap_wf v'.
Proof.
  intros H [H1 H2 H3]. split; [by apply H|by rewrite (rd_page_ids _ _ H), (rd_next _ _ H)|].
  intros pid. rewrite (rd_page_ids _ _ H), (rd_mem _ _ H). apply H3.
Qed.

(** ** Lemmas: reaching a page *)

Lemma open_page oid mode pid v :
  heap_wf v -> uncontended v -> pid ∈ v_page_ids v ->
  exists p v1 v2, LockPage oid pid mode v = (Ret tt, v1) /\ FetchPage pid v1 = (Ret pid, v2) /\
    mem_page (v_pool v) pid = Some p /\ heap_page p /\ pages_ (v_pool v2) !! pid = Some p /\ reads v v2.
Proof.
  intros Hwf Hu Hp. destruct (hw_pages _ Hwf _ Hp) as (p & Hm & Hpg).
  destruct (LockPage_run oid pid mode v Hu) as (v1 & Hl & Hpool & Hids & Hf).
  assert (mem_page (v_pool v1) pid = Some p) as Hm1 by (by rewrite Hpool).
  exists p, v1, (cache pid p v1). split_and!; [done|by apply FetchPage_run|done|done|apply cached_cache|].
  split.
  - etrans; [exact Hf|]. by apply fetched_frame.
  - intros. apply fetched_wf; [by rewrite Hpool|done].
  - done.
  - intros q. rewrite mem_page_cache, Hpool. case_decide; [by subst|done].
  - cbn. by rewrite Hpool.
Qed.

Lemma on_page_gets {A} (f : Page -> A) v ptr p :
  pages_ (v_pool v) !! ptr = Some p -> on_page ptr (gets f) v = (Ret (f p), v).
Proof. intros H. by apply (on_page_read _ _ _ p). Qed.

Lemma on_page_IsDeleted v ptr p s :
  pages_ (v_pool v) !! ptr = Some p -> heap_page p -> 0 <= s < GetSlotCount p ->
  on_page ptr (IsDeleted s) v = (Ret (negb (s_live (slot_at p s))), v).
Proof. intros H Hp Hs. apply (on_page_read _ _ _ p); [done|]. apply IsDeleted_spec; [done|]. by apply heap_page_count. Qed.

Lemma on_page_GetRecord v ptr p s :
  pages_ (v_pool v) !! ptr = Some p -> heap_page p -> 0 <= s < GetSlotCount p ->
  on_page ptr (GetRecord s) v = (Ret (s_data (slot_at p s)), v).
Proof. intros H Hp Hs. by apply (on_page_read _ _ _ p), heap_page_get. Qed.

(** ** Scan, NumRows, Find *)

Lemma scan_slots_run pid p v l out :
  pages_ (v_pool v) !! pid = Some p -> heap_page p -> (forall s, s ∈ l -> 0 <= s < GetSlotCount p) ->
  fold_m (scan_slot pid pid) out l v = (Ret (out ++ omap (slot_row pid p) l), v).
Proof.
  intros Hp Hpg. revert out. induction l as [|s l IH]; intros out Hl; cbn [fold_m].
  { by rewrite app_nil_r. }
  assert (0 <= s < GetSlotCount p) as Hs by (apply Hl; by left).
  assert (forall s', s' ∈ l -> 0 <= s' < GetSlotCount p) as Hl' by (intros; apply Hl; by right).
  assert (scan_slot pid pid out s v = (Ret (out ++ option_list (slot_row pid p s)), v)) as Hslot.
  { unfold scan_slot, slot_row. run (on_page_IsDeleted _ _ _ _ Hp Hpg Hs). cbn zeta.
    destruct (s_live (slot_at p s)); cbn; [|by rewrite app_nil_r].
    by run (on_page_GetRecord _ _ _ _ Hp Hpg Hs). }
  run Hslot. rewrite IH by done. rewrite <- app_assoc. cbn. by destruct (slot_row pid p s).
Qed.

Lemma scan_page_run oid pid out v :
  heap_wf v -> uncontended v -> pid ∈ v_page_ids v ->
  exists v', scan_page oid out pid v = (Ret (out ++ rows_at (v_pool v) pid), v') /\ reads v v'.
Proof.
  intros Hwf Hu Hp. destruct (open_page oid kShared pid v Hwf Hu Hp) as (p & v1 & v2 & H1 & H2 & Hm & Hpg & Hc & Hr).
  exists v2. split; [|done]. unfold scan_page. run H1. run H2. run (on_page_gets GetSlotCount _ _ _ Hc).
  rewrite (scan_slots_run pid p) by (done || intros s Hs; apply elem_of_seqZ in Hs; lia).
  unfold rows_at. by rewrite Hm.
Qed.

Lemma foldl_app_concat {A B} (f : A -> list B) l out :
  foldl (fun acc a => acc ++ f a) out l = out ++ concat (f <$> l).
Proof. revert out. induction l as [|a l IH]; intros out; cbn; [by rewrite app_nil_r|]. by rewrite IH, <- app_assoc. Qed.

Lemma Scan_run oid v :
  heap_wf v -> uncontended v -> exists v', Scan oid v = (Ret (heap_rows v), v') /\ reads v v'.
Proof.
  intros Hwf Hu. unfold Scan. run (gets_run v_page_ids v).
  destruct (fold_m_run (scan_page oid) (fun out pid => out ++ rows_at (v_pool v) pid) (reads v) reads (v_page_ids v) [] v)
    as (v' & H & Hr & _); [|done|].
  - intros acc pid w Hp Hrw.
    destruct (scan_page_run oid pid acc w) as (w' & Hs & Hr); [by eapply reads_wf|by apply Hrw|by rewrite (rd_page_ids _ _ Hrw)|].
    exists w'. split_and!; [|by transitivity w|done]. rewrite Hs. unfold rows_at. by rewrite (rd_mem _ _ Hrw).
  - exists v'. split; [|done]. rewrite H, foldl_app_concat. done.
Qed.

Definition find_row (pred : bytes -> bool) (x : RID * bytes) : option RID :=
  if pred x.2 then Some x.1 else None.

Lemma find_pure_omap {A B C} (f : A -> option B) (g : B -> option C) l :
  find_pure (fun a => f a ≫= g) l = find_pure g (omap f l).
Proof. induction l as [|a l IH]; cbn; [done|]. destruct (f a) as [b|]; cbn; [by destruct (g b)|done]. Qed.

Lemma find_pure_concat {A B C} (f : A -> list B) (g : B -> option C) l :
  find_pure (fun a => find_pure g (f a)) l = find_pure g (concat (f <$> l)).
Proof.
  assert (forall l1 l2 : list B, find_pure g (l1 ++ l2) = match find_pure g l1 with Some c => Some c | None => find_pure g l2 end) as Happ.
  { induction l1 as [|b l1 IH]; intros; cbn; [done|]. destruct (g b); [done|]. apply IH. }
  induction l as [|a l IH]; cbn; [done|]. rewrite Happ. by destruct (find_pure g (f a)).
Qed.

Lemma find_slots_run pred pid p v l :
  pages_ (v_pool v) !! pid = Some p -> heap_page p -> (forall s, s ∈ l -> 0 <= s < GetSlotCount p) ->
  find_m (find_slot pred pid pid) l v = (Ret (find_pure (find_row pred) (omap (slot_row pid p) l)), v).
Proof.
  intros Hp Hpg Hl. rewrite <- find_pure_omap.
  destruct (find_m_run (find_slot pred pid pid) (fun s => slot_row pid p s ≫= find_row pred) (eq v) eq l v) as (v' & H & -> & _);
    [|done..].
  intros s w Hs <-. exists v. split; [|done]. specialize (Hl s Hs). unfold find_slot, slot_row.
  run (on_page_IsDeleted _ _ _ _ Hp Hpg Hl). cbn zeta. destruct (s_live (slot_at p s)); cbn; [|done].
  run (on_page_GetRecord _ _ _ _ Hp Hpg Hl). done.
Qed.

Lemma Find_run oid pred v :
  heap_wf v -> uncontended v ->
  exists v', Find oid pred v = (Ret (find_pure (find_row pred) (heap_rows v)), v') /\ reads v v'.
Proof.
  intros Hwf Hu. unfold Find, heap_rows. run (gets_run v_page_ids v). rewrite <- find_pure_concat.
  destruct (find_m_run (find_page oid pred) (fun pid => find_pure (find_row pred) (rows_at (v_pool v) pid)) (reads v) reads (v_page_ids v) v)
    as (v' & H & Hr & _); [|done|by exists v'].
  intros pid w Hp Hrw.
  destruct (open_page oid kShared pid w) as (p & v1 & v2 & H1 & H2 & Hm & Hpg & Hc & Hr);
    [by eapply reads_wf|by apply Hrw|by rewrite (rd_page_ids _ _ Hrw)|].
  exists v2. split_and!; [|by transitivity w|done]. unfold find_page. run H1. run H2. run (on_page_gets GetSlotCount _ _ _ Hc).
  rewrite (find_slots_run pred pid p) by (done || intros s Hs; apply elem_of_seqZ in Hs; lia).
  unfold rows_at. rewrite <- (rd_mem _ _ Hrw), Hm. done.
Qed.

(** ** GetRow *)

Lemma slot_row_at pid p s : slot_row pid p s = if s_live (slot_at p s) then Some (mkRID pid s, s_data (slot_at p s)) else None.
Proof. done. Qed.

Lemma heap_lookup v rid :
  NoDup (v_page_ids v) -> page_id rid ∈ v_page_ids v ->
  (list_to_map (heap_rows v) : gmap RID bytes) !! rid =
    (list_to_map (rows_at (v_pool v) (page_id rid)) : gmap RID bytes) !! rid.
Proof.
  intros Hnd Hp.
  assert (NoDup (rows_at (v_pool v) (page_id rid)).*1) as Hnd2.
  { unfold rows_at. destruct (mem_page _ _); [apply page_rows_NoDup|constructor]. }
  apply option_eq. intros row. rewrite <- !elem_of_list_to_map by (auto using heap_rows_NoDup).
  rewrite elem_of_heap_rows. tauto.
Qed.

Lemma page_lookup pid p s :
  0 <= s ->
  (list_to_map (page_rows pid p) : gmap RID bytes) !! mkRID pid s =
    if decide (s < GetSlotCount p) then snd <$> slot_row pid p s else None.
Proof.
  intros Hs. apply option_eq. intros row. rewrite <- elem_of_list_to_map by apply page_rows_NoDup.
  rewrite elem_of_page_rows. cbn. rewrite slot_row_at. case_decide.
  - destruct (slot_at p s) as [[] d]; cbn; naive_solver.
  - split; [lia|done].
Qed.

Lemma GetRow_run oid rid v :
  heap_wf v -> uncontended v -> 0 <= slot_id rid ->
  exists v', GetRow oid rid v = (Ret ((list_to_map (heap_rows v) : gmap RID bytes) !! rid), v') /\ reads v v'.
Proof.
  intros Hwf Hu Hs. unfold GetRow. run (gets_run v_page_ids v). case_bool_decide as Hp; cbn [negb].
  2: { exists v. split; [|done]. rewrite not_elem_of_list_to_map_1; [done|].
       intros Hin. apply list_elem_of_fmap in Hin as ([r d] & -> & Hin). apply elem_of_heap_rows in Hin. by destruct Hin. }
  destruct (open_page oid kShared _ v Hwf Hu Hp) as (p & v1 & v2 & H1 & H2 & Hm & Hpg & Hc & Hr).
  exists v2. split; [|done]. run H1. run H2. run (on_page_gets GetSlotCount _ _ _ Hc).
  rewrite heap_lookup by (done || apply hw_nodup, Hwf). unfold rows_at. rewrite Hm.
  destruct rid as [pid s]. cbn [page_id slot_id] in *. rewrite page_lookup by done.
  destruct (Z.leb_spec (GetSlotCount p) s); [by rewrite decide_False by lia|]. rewrite decide_True by lia.
  assert (0 <= s < GetSlotCount p) as Hs' by lia. run (on_page_IsDeleted _ _ _ _ Hc Hpg Hs').
  rewrite slot_row_at. destruct (s_live (slot_at p s)); cbn [negb]; [|done].
  by run (on_page_GetRecord _ _ _ _ Hc Hpg Hs').
Qed.

(** ** Writes through a page *)

(** After writing page [pid], the heap's rows are those of the new page at
    [pid] and the old ones elsewhere. *)
Lemma write_heap_wf pid p p' v :
  heap_wf v -> mem_page (v_pool v) pid = Some p -> heap_page p' -> heap_wf (write pid p' v).
Proof.
  intros Hwf Hm Hpg. pose proof (mem_page_facts _ _ _ (hw_pool _ Hwf) Hm) as [Hrng _].
  assert (zlen p' = PAGE_SIZE) as Hl by (destruct Hpg as [H| ->]; [apply H|apply zlen_zero_page]).
  destruct Hwf as [H1 H2 H3]. split; [by apply write_wf|by rewrite write_page_ids, write_disk|].
  intros q. rewrite write_page_ids, mem_page_write. intros Hq. case_decide; [by exists p'|auto].
Qed.

Lemma rows_at_write pid p v q :
  rows_at (v_pool (write pid p v)) q = if decide (q = pid) then page_rows pid p else rows_at (v_pool v) q.
Proof. unfold rows_at. rewrite mem_page_write. by case_decide; subst. Qed.

Lemma page_rows_inserted pid data p p' :
  page_wf p -> inserted data p p' -> zlen data < kDeletedFlag ->
  page_rows pid p' = page_rows pid p ++ [(mkRID pid (GetSlotCount p), data)].
Proof.
  intros Hwf Hins Hlt. pose proof (slot_count_range p Hwf). unfold page_rows.
  rewrite (ins_count _ _ _ Hins), seqZ_app, omap_app by lia. f_equal.
  - apply list_omap_ext_in. intros s Hs. apply elem_of_seqZ in Hs. rewrite !slot_row_at.
    by rewrite (inserted_slot_at _ _ _ _ Hwf Hins) by lia.
  - rewrite Z.add_0_l. change (seqZ (GetSlotCount p) 1) with [GetSlotCount p]. cbn.
    unfold slot_row. by rewrite (inserted_new_slot _ _ _ Hins Hlt).
Qed.

Lemma insert_into_run pid data p v :
  pages_ (v_pool v) !! pid = Some p -> page_wf p ->
  (zlen data + kSlotSize <= FreeSpace p /\ exists p',
     insert_into pid pid data v = (Ret (Some (mkRID pid (GetSlotCount p))), write pid p' v) /\ inserted data p p' /\ page_wf p') \/
  (FreeSpace p < zlen data + kSlotSize /\ insert_into pid pid data v = (Ret None, v)).
Proof.
  intros Hc Hwf. unfold insert_into. destruct (decide (zlen data + kSlotSize <= FreeSpace p)) as [Hfit|Hfit].
  - left. split; [done|]. destruct (InsertRecord_fits data p Hwf Hfit) as (p' & Hi & Hins).
    exists p'. split_and!; [|done|by eapply inserted_wf].
    run (on_page_run _ _ _ _ _ _ Hc Hi). run (MarkDirty_run pid (cache pid p' v)). done.
  - right. split; [lia|]. assert (FreeSpace p < zlen data + kSlotSize) as Hlt by lia.
    pose proof (InsertRecord_full data p Hwf Hlt) as Hi.
    run (on_page_read _ _ _ _ _ Hc Hi). done.
Qed.

Lemma heap_rows_snoc v l pid : v_page_ids v = l ++ [pid] ->
  heap_rows v = concat (rows_at (v_pool v) <$> l) ++ rows_at (v_pool v) pid.
Proof. intros H. unfold heap_rows. rewrite H, fmap_app, concat_app. cbn. by rewrite app_nil_r. Qed.

(** ** Insert: the common case *)

Lemma insert_last_run oid data v :
  heap_wf v -> uncontended v -> zlen data <= kMaxRowSize ->
  exists r v', insert_last oid data v = (Ret r, v') /\
    match r with
    | Some rid => frame v v' /\ heap_wf v' /\ heap_rows v' = heap_rows v ++ [(rid, data)] /\
        next_page_id_ (disk_manager_ (v_pool v')) = next_page_id_ (disk_manager_ (v_pool v))
    | None => reads v v'
    end.
Proof.
  intros Hwf Hu Hsz. unfold insert_last. run (gets_run v_page_ids v).
  destruct (last (v_page_ids v)) as [pid|] eqn:El; [|by exists None, v].
  apply last_Some in El as [l Hl].
  assert (pid ∈ v_page_ids v) as Hp by (rewrite Hl; set_solver).
  destruct (open_page oid kExclusive _ v Hwf Hu Hp) as (p & v1 & v2 & H1 & H2 & Hm & Hpg & Hc & Hr).
  run H1. run H2. assert (mem_page (v_pool v2) pid = Some p) as Hm2 by (by rewrite (rd_mem _ _ Hr)).
  destruct Hpg as [Hpw| ->].
  - destruct (insert_into_run pid data p v2 Hc Hpw) as [(Hfit & p' & Hi & Hins & Hw')|[_ Hi]]; [|by exists None, v2].
    exists (Some (mkRID pid (GetSlotCount p))), (write pid p' v2). split; [done|]. split_and!.
    + etrans; [apply Hr|apply write_frame].
    + eapply write_heap_wf; [by eapply reads_wf|done|by left].
    + assert (v_page_ids v2 = l ++ [pid]) as Hl2 by (by rewrite (rd_page_ids _ _ Hr)).
      rewrite (heap_rows_snoc (write pid p' v2) l pid) by (by rewrite write_page_ids).
      rewrite <- (reads_rows _ _ Hr), (heap_rows_snoc v2 l pid Hl2), <- app_assoc.
      pose proof (hw_nodup _ (reads_wf _ _ Hr Hwf)) as Hnd. rewrite Hl2 in Hnd.
      apply NoDup_app in Hnd as (_ & Hnd & _).
      f_equal.
      * f_equal. apply list_fmap_ext. intros i q Hq. rewrite rows_at_write, decide_False; [done|].
        intros ->. apply (Hnd pid); [by eapply list_elem_of_lookup_2|by left].
      * rewrite rows_at_write, decide_True by done. rewrite (page_rows_inserted pid data p p');
          [|done|done|by eapply (fits_small data p)]. unfold rows_at. by rewrite Hm2.
    + rewrite write_disk. apply (rd_next _ _ Hr).
  - exists None, v2. split; [|done].
    unfold insert_into. pose proof (InsertRecord_zero_page data) as Hi. run (on_page_read _ _ _ _ _ Hc Hi). done.
Qed.

(** ** Insert: a fresh page *)

(** A page reported dirty may be changed through its pointer. *)
Lemma cache_notified_frame pid p v : notified v pid -> frame v (cache pid p v).
Proof.
  intros Hn. split; try done.
  - intros; by left.
  - intros q. destruct (decide (q = pid)) as [->|]; [by right|]. left. by rewrite mem_page_cache, decide_False.
  - intros q. rewrite mem_page_cache. by case_decide.
  - intros; by left.
Qed.

Lemma cache_dirty_wf pid p v :
  pool_wf (v_pool v) -> pid ∈ dirty_ (v_pool v) -> 0 <= pid < next_page_id_ (disk_manager_ (v_pool v)) ->
  zlen p = PAGE_SIZE -> pool_wf (v_pool (cache pid p v)).
Proof.
  intros Hwf Hd Hr Hl. split; cbn; [apply Hwf|..]; intros q pq; rewrite lookup_insert_Some.
  - intros [[<- <-]|[_ H]]; [done|by eapply (pw_cached _ Hwf)].
  - intros [[<- <-]|[_ H]]; [done|by apply (pw_clean _ Hwf)].
Qed.

Lemma NewHeapPage_run v :
  pool_wf (v_pool v) -> next_page_id_ (disk_manager_ (v_pool v)) + 1 < 2 ^ 32 ->
  let pid := next_page_id_ (disk_manager_ (v_pool v)) in
  let p := InitHeapPage pid zero_page in
  exists v', NewHeapPage v = (Ret pid, v') /\ pool_wf (v_pool v') /\ frame v v' /\
    v_page_ids v' = v_page_ids v /\ pages_ (v_pool v') !! pid = Some p /\
    next_page_id_ (disk_manager_ (v_pool v')) = pid + 1 /\
    forall q, mem_page (v_pool v') q = if decide (q = pid) then Some p else mem_page (v_pool v) q.
Proof.
  intros Hwf Hmax pid p.
  destruct (NewPage_run v Hwf Hmax) as (v1 & Hn & Hwf1 & Hf & Hids & Hnext & Hc & Hm). fold pid in Hn, Hnext, Hc, Hm.
  assert (0 <= pid) as Hpos by (subst pid; pose proof (dw_next _ (pw_disk _ Hwf)); unfold zlen in *; lia).
  assert (mem_page (v_pool v) pid = None) as Hnone.
  { destruct (mem_page (v_pool v) pid) eqn:E; [|done]. apply mem_page_facts in E as [? _]; [|done]. subst pid. lia. }
  assert (notified v1 pid) as Hnot.
  { destruct (fr_change _ _ Hf pid) as [He|]; [|done]. rewrite Hm, Hnone, decide_True in He by done. done. }
  exists (cache pid p v1). split_and!.
  - unfold NewHeapPage. run Hn.
    assert (modify (InitHeapPage pid) zero_page = (Ret tt, p)) as Hi by done.
    run (on_page_run _ _ _ _ _ _ Hc Hi). done.
  - apply cache_dirty_wf; [done|apply Hnot|lia|]. apply (wf_len _ (init_wf pid zero_page)).
  - etrans; [exact Hf|]. by apply cache_notified_frame.
  - done.
  - apply cached_cache.
  - done.
  - intros q. rewrite mem_page_cache, Hm. by case_decide.
Qed.

Lemma insert_new_run oid data v :
  heap_wf v -> uncontended v -> zlen data <= kMaxRowSize ->
  next_page_id_ (disk_manager_ (v_pool v)) + 1 < 2 ^ 32 ->
  exists rid v', insert_new oid data v = (Ret rid, v') /\
    frame v v' /\ heap_wf v' /\ heap_rows v' = heap_rows v ++ [(rid, data)] /\
    next_page_id_ (disk_manager_ (v_pool v')) = next_page_id_ (disk_manager_ (v_pool v)) + 1.
Proof.
  intros Hwf Hu Hsz Hmax.
  destruct (NewHeapPage_run v (hw_pool _ Hwf) Hmax) as (v1 & Hn & Hwf1 & Hf1 & Hids1 & Hc1 & Hnext & Hm1).
  set (pid := next_page_id_ (disk_manager_ (v_pool v))) in *. set (p := InitHeapPage pid zero_page) in *.
  destruct (LockPage_run oid pid kExclusive v1) as (v2 & Hl & Hpool2 & Hids2 & Hf2); [by apply Hf1|].
  set (v3 := set_page_ids (v_page_ids v2 ++ [pid]) v2).
  assert (frame v2 v3) as Hf3 by (split; try done; intros; by left).
  assert (pid ∉ v_page_ids v) as Hfresh.
  { intros Hin. destruct (hw_pages _ Hwf _ Hin) as (q & Hq & _).
    apply mem_page_facts in Hq as [? _]; [subst pid; lia|apply Hwf]. }
  assert (heap_wf v3) as Hwf3.
  { split; cbn; rewrite ?Hpool2; [done|rewrite Hids2, Hids1, (hw_ids _ Hwf), Hnext|].
    - fold pid. pose proof (dw_next _ (pw_disk _ (hw_pool _ Hwf))) as Hpid. fold pid in Hpid. unfold zlen in Hpid.
      rewrite (seqZ_app 0 pid 1) by lia. unfold seqZ at 3. done.
    - rewrite Hids2, Hids1. intros q Hq. rewrite Hm1. case_decide; [exists p; split; [done|left; apply init_wf]|].
      apply elem_of_app in Hq as [Hq| ->%list_elem_of_singleton]; [|done]. by apply (hw_pages _ Hwf). }
  assert (pages_ (v_pool v3) !! pid = Some p) as Hc3 by (cbn; by rewrite Hpool2).
  destruct (insert_into_run pid data p v3 Hc3 (init_wf _ _)) as [(Hfit & p' & Hi & Hins & Hw')|[Hno _]].
  2: { exfalso. revert Hno. subst p. rewrite init_free. unfold kMaxRowSize in Hsz. lia. }
  eexists _, (write pid p' v3). split_and!.
  - unfold insert_new. run Hn. run Hl. run (modify_run (fun v => set_page_ids (v_page_ids v ++ [pid]) v) v2).
    fold v3. run Hi. done.
  - etrans; [exact Hf1|]. etrans; [exact Hf2|]. etrans; [exact Hf3|apply write_frame].
  - eapply write_heap_wf; [done| |by left]. unfold mem_page. by rewrite Hc3.
  - rewrite (heap_rows_snoc (write pid p' v3) (v_page_ids v) pid) by (rewrite write_page_ids; cbn; by rewrite Hids2, Hids1).
    f_equal.
    + unfold heap_rows. f_equal. apply list_fmap_ext. intros i q Hq.
      assert (q <> pid) by (intros ->; apply Hfresh; by eapply list_elem_of_lookup_2).
      rewrite rows_at_write, decide_False by done. unfold rows_at. cbn. rewrite Hpool2, Hm1, decide_False by done. done.
    + rewrite rows_at_write, decide_True by done.
      rewrite (page_rows_inserted pid data p p'); [|apply init_wf|done|apply (fits_small data p); [apply init_wf|done]].
      unfold page_rows. destruct (init_fields pid zero_page) as (_ & Hcnt & _). fold p in Hcnt. by rewrite Hcnt.
  - rewrite write_disk. cbn. by rewrite Hpool2.
Qed.

Lemma Insert_run oid data v :
  heap_wf v -> uncontended v -> zlen data <= kMaxRowSize ->
  next_page_id_ (disk_manager_ (v_pool v)) + 1 < 2 ^ 32 ->
  exists rid v', Insert oid data v = (Ret rid, v') /\
    frame v v' /\ heap_wf v' /\ heap_rows v' = heap_rows v ++ [(rid, data)] /\
    next_page_id_ (disk_manager_ (v_pool v')) <= next_page_id_ (disk_manager_ (v_pool v)) + 1.
Proof.
  intros Hwf Hu Hsz Hmax. unfold Insert. destruct (Z.ltb_spec kMaxRowSize (zlen data)); [lia|].
  destruct (insert_last_run oid data v Hwf Hu Hsz) as (r & v1 & H1 & Hr). run H1. destruct r as [rid|].
  - destruct Hr as (? & ? & ? & ?). exists rid, v1. split_and!; [done..|lia].
  - destruct (insert_new_run oid data v1) as (rid & v2 & H2 & Hf & Hwf2 & Hrows & Hnx);
      [by eapply reads_wf|by apply Hr|done|by rewrite (rd_next _ _ Hr)|].
    exists rid, v2. split_and!; [done|etrans; [apply Hr|done]|done|by rewrite Hrows, (reads_rows _ _ Hr)|].
    rewrite Hnx, (rd_next _ _ Hr). lia.
Qed.

(** ** Delete *)

Definition other_row (rid : RID) (x : RID * bytes) : Prop := x.1 <> rid.

#[global] Instance other_row_dec rid x : Decision (other_row rid x).
Proof. unfold other_row. apply _. Defined.

Lemma omap_filter {A B} (P : B -> Prop) `{Hdec : !forall b, Decision (P b)} (f g : A -> option B) (l : list A) :
  (forall a, a ∈ l -> g a = (f a ≫= fun b => if decide (P b) then Some b else None)) ->
  omap g l = filter P (omap f l).
Proof.
  induction l as [|a l IH]; intros H; [done|]. cbn. rewrite (H a) by (by left).
  rewrite IH by (intros; apply H; by right). destruct (f a) as [b|]; cbn; [|done].
  by case_decide.
Qed.

Lemma page_rows_deleted pid s p p' :
  page_wf p -> page_wf p' -> 0 <= s < GetSlotCount p ->
  slots p' = <[Z.to_nat s := mkSlot false (s_data (slot_at p s))]> (slots p) ->
  page_rows pid p' = filter (other_row (mkRID pid s)) (page_rows pid p).
Proof.
  intros Hwf Hwf' Hs Hsl. unfold page_rows.
  assert (GetSlotCount p' = GetSlotCount p) as Hc.
  { apply (f_equal length) in Hsl. rewrite length_insert, !length_slots in Hsl.
    pose proof (slot_count_range p Hwf). pose proof (slot_count_range p' Hwf'). lia. }
  rewrite Hc. apply omap_filter. intros t Ht. apply elem_of_seqZ in Ht.
  apply (f_equal (.!! Z.to_nat t)) in Hsl. rewrite lookup_slots in Hsl by lia. rewrite Z2Nat.id in Hsl by lia.
  rewrite !slot_row_at. destruct (decide (t = s)) as [->|Hne].
  - rewrite list_lookup_insert_eq in Hsl by (rewrite length_slots; lia). apply (inj Some) in Hsl. rewrite Hsl. clear Hsl.
    destruct (slot_at p s) as [[] d]; cbn; [|done]. rewrite decide_False; [done|]. unfold other_row. cbn. tauto.
  - rewrite list_lookup_insert_ne in Hsl by lia. rewrite lookup_slots in Hsl by lia. rewrite Z2Nat.id in Hsl by lia.
    apply (inj Some) in Hsl. rewrite Hsl. clear Hsl. destruct (slot_at p t) as [[] d]; cbn; [|done].
    rewrite decide_True; [done|]. unfold other_row. cbn. congruence.
Qed.

Lemma rows_filter_id bp q rid : q <> page_id rid -> filter (other_row rid) (rows_at bp q) = rows_at bp q.
Proof.
  intros Hne. apply list_filter_all. apply Forall_forall. intros [r d] Hin Heq. cbn in Heq. subst r.
  unfold rows_at in Hin. destruct (mem_page bp q); [|by apply not_elem_of_nil in Hin].
  apply elem_of_page_rows in Hin as [? _]. done.
Qed.

Lemma heap_rows_filter v v' rid :
  v_page_ids v' = v_page_ids v ->
  (forall q, q ∈ v_page_ids v -> rows_at (v_pool v') q = filter (other_row rid) (rows_at (v_pool v) q)) ->
  heap_rows v' = filter (other_row rid) (heap_rows v).
Proof.
  intros Hids H. unfold heap_rows. rewrite Hids. clear Hids. revert H.
  induction (v_page_ids v) as [|q l IH]; intros H; [done|].
  cbn. rewrite filter_app, H by (by left). f_equal. apply IH. intros. apply H. by right.
Qed.

Lemma dead_filter v rid : rid ∉ (heap_rows v).*1 -> filter (other_row rid) (heap_rows v) = heap_rows v.
Proof.
  intros H. apply list_filter_all. apply Forall_forall. intros x Hx Heq. apply H. rewrite <- Heq. by apply list_elem_of_fmap_2.
Qed.

Lemma Delete_run oid rid v :
  heap_wf v -> uncontended v -> 0 <= slot_id rid ->
  exists v', Delete oid rid v = (Ret (bool_decide (rid ∈ (heap_rows v).*1)), v') /\
    frame v v' /\ heap_wf v' /\ heap_rows v' = filter (other_row rid) (heap_rows v) /\
    next_page_id_ (disk_manager_ (v_pool v')) = next_page_id_ (disk_manager_ (v_pool v)).
Proof.
  intros Hwf Hu Hs. unfold Delete. run (gets_run v_page_ids v). case_bool_decide as Hp; cbn [negb].
  2: { assert (rid ∉ (heap_rows v).*1) as Hd.
       { intros Hin. apply list_elem_of_fmap in Hin as ([r d] & -> & Hin). apply elem_of_heap_rows in Hin. by destruct Hin. }
       exists v. rewrite bool_decide_eq_false_2 by done. by rewrite dead_filter. }
  destruct (open_page oid kExclusive _ v Hwf Hu Hp) as (p & v1 & v2 & H1 & H2 & Hm & Hpg & Hc & Hr).
  run H1. run H2. run (on_page_gets GetSlotCount _ _ _ Hc).
  assert (forall b, (rid, b) ∈ heap_rows v <-> 0 <= slot_id rid < GetSlotCount p /\ slot_at p (slot_id rid) = mkSlot true b) as Hlive.
  { intros b. rewrite elem_of_heap_rows. unfold rows_at. rewrite Hm, elem_of_page_rows. tauto. }
  assert (forall v', reads v v' -> rid ∉ (heap_rows v).*1 -> bool_decide (rid ∈ (heap_rows v).*1) = false /\
    frame v v' /\ heap_wf v' /\ heap_rows v' = filter (other_row rid) (heap_rows v) /\
    next_page_id_ (disk_manager_ (v_pool v')) = next_page_id_ (disk_manager_ (v_pool v))) as Hdead.
  { intros v' Hr' Hd. rewrite bool_decide_eq_false_2 by done. rewrite dead_filter by done.
    split_and!; [done|apply Hr'|by eapply reads_wf|by apply reads_rows|apply Hr']. }
  destruct (Z.leb_spec (GetSlotCount p) (slot_id rid)) as [Hge|Hlt].
  { exists v2. destruct (Hdead v2 Hr) as (-> & ? & ? & ? & ?); [|done].
    intros ([r d] & -> & Hin)%list_elem_of_fmap. apply Hlive in Hin. cbn in *. lia. }
  assert (0 <= slot_id rid < GetSlotCount p) as Hs' by lia. run (on_page_IsDeleted _ _ _ _ Hc Hpg Hs').
  destruct (slot_at p (slot_id rid)) as [live d] eqn:Esl. cbn [s_live]. destruct live; cbn [negb].
  2: { exists v2. destruct (Hdead v2 Hr) as (-> & ? & ? & ? & ?); [|done].
       intros ([r d'] & -> & Hin)%list_elem_of_fmap. apply Hlive in Hin as [_ Hin]. cbn in *. congruence. }
  destruct Hpg as [Hpw| ->].
  2: { unfold GetSlotCount, zero_page in Hs'. rewrite read_at_zeros in Hs'. lia. }
  destruct (DeleteRecord_spec (slot_id rid) p Hpw Hs') as (p' & Hd & Hpw' & Hsl & _).
  run (on_page_run _ _ _ _ _ _ Hc Hd). run (MarkDirty_run (page_id rid) (cache (page_id rid) p' v2)).
  fold (write (page_id rid) p' v2). exists (write (page_id rid) p' v2).
  rewrite bool_decide_eq_true_2.
  2: { apply list_elem_of_fmap. exists (rid, d). split; [done|]. by apply Hlive. }
  split_and!; [done|etrans; [apply Hr|apply write_frame]|..].
  - eapply write_heap_wf; [by eapply reads_wf|by rewrite (rd_mem _ _ Hr)|by left].
  - apply heap_rows_filter; [by rewrite write_page_ids, (rd_page_ids _ _ Hr)|]. intros q Hq.
    rewrite rows_at_write. destruct (decide (q = page_id rid)) as [Hqe|Hqe].
    + subst q. unfold rows_at. rewrite Hm. destruct rid as [pid s]. cbn in *. by apply page_rows_deleted.
    + rewrite rows_filter_id by done. unfold rows_at. by rewrite (rd_mem _ _ Hr).
  - rewrite write_disk. apply (rd_next _ _ Hr).
Qed.

(** ** The contract of a heap file *)

(** C24: [Insert] of a row that fits a page appends exactly that row, under a
    record id no live row has, whatever page it lands on (the last one or a
    fresh one, zero pages left by aborted allocations included); the heap
    stays well formed, the data file is untouched (no steal) and every page
    changed is reported dirty to the transaction. A row larger than
    [kMaxRowSize] is refused before anything happens. *)
Theorem Insert_appends (oid : ObjectId) (row : bytes) (v : View) :
  heap_wf v -> uncontended v ->
  (kMaxRowSize < zlen row -> Insert oid row v = (Throw InvalidArgument, v)) /\
  (zlen row <= kMaxRowSize -> next_page_id_ (disk_manager_ (v_pool v)) + 1 < 2 ^ 32 ->
   exists rid v', Insert oid row v = (Ret rid, v') /\
     heap_rows v' = heap_rows v ++ [(rid, row)] /\ ~ (rid ∈ (heap_rows v).*1) /\
     heap_wf v' /\ frame v v').
Proof.
  intros Hwf Hu. split.
  - intros H. unfold Insert. by destruct (Z.ltb_spec kMaxRowSize (zlen row)); [|lia].
  - intros Hsz Hmax. destruct (Insert_run oid row v Hwf Hu Hsz Hmax) as (rid & v' & Hi & Hf & Hwf' & Hr & _).
    exists rid, v'. split_and!; [done..| |done|done].
    pose proof (heap_rows_NoDup v' (hw_nodup _ Hwf')) as Hnd. rewrite Hr, fmap_app in Hnd.
    apply NoDup_app in Hnd as (_ & Hnd & _). intros Hin. apply (Hnd rid Hin). by left.
Qed.

(** A fresh table: an empty file, no transaction on the thread. *)
Definition empty_view : View := mkView (mkPool (mkDisk [] 0) ∅ ∅ ∅) [] ∅ empty_lm None 0.

Lemma empty_view_wf : heap_wf empty_view.
Proof.
  split; [split|constructor|intros pid []%not_elem_of_nil]; cbn.
  - split; cbn; [done|lia|constructor].
  - intros pid p H. by rewrite lookup_empty in H.
  - intros pid p H. by rewrite lookup_empty in H.
Qed.

Lemma Insert_appends_witness :
  heap_wf empty_view /\ exists rid v', Insert 1 [x61; x62] empty_view = (Ret rid, v') /\ heap_rows v' = [(rid, [x61; x62])].
Proof.
  split; [apply empty_view_wf|].
  destruct (Insert_appends 1 [x61; x62] empty_view empty_view_wf I) as [_ H].
  destruct H as (rid & v' & H1 & H2 & _); [vm_compute; discriminate|vm_compute; reflexivity|].
  exists rid, v'. split; assumption.
Defined.

(** C30: [Delete] answers whether [rid] names a live row and removes exactly
    that row from the heap, every other record id keeping its row; an unknown
    page, a slot out of range or a deleted slot answers [false] and changes
    nothing. *)
Theorem Delete_removes (oid : ObjectId) (rid : RID) (v : View) :
  heap_wf v -> uncontended v -> 0 <= slot_id rid ->
  exists v', Delete oid rid v = (Ret (bool_decide (rid ∈ (heap_rows v).*1)), v') /\
    heap_rows v' = filter (other_row rid) (heap_rows v) /\
    heap_wf v' /\ frame v v'.
Proof.
  intros Hwf Hu Hs. destruct (Delete_run oid rid v Hwf Hu Hs) as (v' & H & Hf & Hwf' & Hr & _). eauto.
Qed.

(** The state after inserting two rows into a fresh table. *)
Definition two_rows : View := ((Insert 1 [x61];; Insert 1 [x62]) empty_view).2.

Lemma two_rows_ok : heap_wf two_rows /\ uncontended two_rows /\ exists r1 r2, heap_rows two_rows = [(r1, [x61]); (r2, [x62])].
Proof.
  destruct (Insert_run 1 [x61] empty_view) as (r1 & v1 & H1 & Hf1 & Hwf1 & Hr1 & _);
    [apply empty_view_wf|done|vm_compute; discriminate|vm_compute; reflexivity|].
  assert (v1 = (Insert 1 [x61] empty_view).2) as Hv1 by (by rewrite H1).
  destruct (Insert_run 1 [x62] v1) as (r2 & v2 & H2 & Hf2 & Hwf2 & Hr2 & _);
    [done|by apply Hf1|vm_compute; discriminate|subst v1; vm_compute; reflexivity|].
  assert (two_rows = v2) as ->.
  { unfold two_rows. rewrite (bind_ret _ _ _ _ _ H1), H2. done. }
  split_and!; [done|by apply Hf2, Hf1|]. exists r1, r2. rewrite Hr2, Hr1. done.
Qed.

Lemma Delete_removes_witness :
  exists r1 r2 v', heap_rows two_rows = [(r1, [x61]); (r2, [x62])] /\ Delete 1 (mkRID 0 0) two_rows = (Ret true, v').
Proof.
  destruct two_rows_ok as (Hwf & Hu & r1 & r2 & Hr).
  destruct (Delete_removes 1 (mkRID 0 0) two_rows Hwf Hu) as (v' & H & _); [vm_compute; discriminate|].
  exists r1, r2, v'. split; [assumption|]. rewrite H. f_equal.
Defined.

(** C31: the reads return the heap's rows: [Scan] all of them in page and slot
    order, [NumRows] their number, [GetRow] the row of a record id and nothing
    for any other id, [Find] the first row the predicate accepts. None of them
    changes any page's content. *)
Theorem reads_return_rows (oid : ObjectId) (rid : RID) (pred : bytes -> bool) (v : View) :
  heap_wf v -> uncontended v -> 0 <= slot_id rid ->
  (exists v', Scan oid v = (Ret (heap_rows v), v') /\ reads v v') /\
  (exists v', NumRows oid v = (Ret (zlen (heap_rows v)), v') /\ reads v v') /\
  (exists v', GetRow oid rid v = (Ret ((list_to_map (heap_rows v) : gmap RID bytes) !! rid), v') /\ reads v v') /\
  (exists v', Find oid pred v = (Ret (fst <$> head (filter (fun x => pred x.2 = true) (heap_rows v))), v') /\ reads v v').
Proof.
  intros Hwf Hu Hs. split_and!.
  - by apply Scan_run.
  - destruct (Scan_run oid v Hwf Hu) as (v' & H & Hr). exists v'. split; [|done]. unfold NumRows. by run H.
  - by apply GetRow_run.
  - destruct (Find_run oid pred v Hwf Hu) as (v' & H & Hr). exists v'. split; [|done]. rewrite H. do 2 f_equal.
    clear. induction (heap_rows v) as [|x l IH]; [done|]. cbn [find_pure]. unfold find_row at 1. rewrite filter_cons.
    by destruct (pred x.2).
Qed.

Lemma reads_return_rows_witness :
  (exists v' r1 r2, Scan 1 two_rows = (Ret [(r1, [x61]); (r2, [x62])], v')) /\
  (exists v', GetRow 1 (mkRID 0 1) two_rows = (Ret (Some [x62]), v')).
Proof.
  destruct two_rows_ok as (Hwf & Hu & r1 & r2 & Hr).
  destruct (reads_return_rows 1 (mkRID 0 1) (fun _ => true) two_rows Hwf Hu) as ((v1 & H1 & _) & _ & (v2 & H2 & _) & _);
    [vm_compute; discriminate|].
  split.
  - exists v1, r1, r2. rewrite H1, Hr. reflexivity.
  - exists v2. rewrite H2. f_equal.
Defined.

End HeapFile.
