(* ===== verification/BTreeNode.v ===== *)
(** * BTreeNode: on-disk B+ tree nodes and split points ([src/index/btree.cpp])

    The byte layout of the leaf, internal and header pages with their
    serialize / deserialize functions, the [std::vector] operations the tree
    uses, and the two functions that choose where a node is cut. *)
From S2P Require Export BufferPool.

Module BTreeNode.

(** ** Layout *)

Definition kOffPageId : Z := 0.
Definition kOffPageType : Z := 4.
Definition kOffKeyCount : Z := 6.
Definition kOffNextLeaf : Z := 8.
Definition kBTreeHeaderSize : Z := 16.
Definition kRootHeaderPageId : PageId := 0.
Definition kLeafEntrySize : Z := 14.
Definition kInternalKeySize : Z := 8.
Definition kInternalChildSize : Z := 4.
Definition kLeafMaxKeys : Z := (PAGE_SIZE - kBTreeHeaderSize) / kLeafEntrySize.
Definition kLeafMinKeys : Z := kLeafMaxKeys / 2.
Definition kInternalMaxKeys : Z :=
  (PAGE_SIZE - kBTreeHeaderSize - kInternalChildSize) / (kInternalKeySize + kInternalChildSize).
Definition kInternalMinKeys : Z := kInternalMaxKeys / 2.
Definition kOffHeaderRootPageId : Z := kBTreeHeaderSize.

Definition ReadPageType (buf : bytes) : Z := read_at 2 kOffPageType buf.

Record LeafNode := mkLeaf {
  l_page_id : PageId;
  l_next_leaf : PageId;
  l_keys : list Z;
  l_values : list RID
}.

Record InternalNode := mkInternal {
  n_page_id : PageId;
  n_keys : list Z;
  n_children : list PageId
}.

(** ** Serialization *)

(** The header every node page starts with, over a cleared buffer. *)
Definition write_header (pid : PageId) (t : PageType) (count : Z) : bytes :=
  write_at 2 kOffKeyCount (u16 count)
    (write_at 2 kOffPageType (PageType_value t) (write_at 4 kOffPageId pid zero_page)).

Definition write_leaf_entry (off : Z) (k : Z) (r : RID) (buf : bytes) : bytes :=
  write_at 2 (off + 12) (slot_id r) (write_at 4 (off + 8) (page_id r) (write_at 8 off k buf)).

Fixpoint write_leaf_entries (off : Z) (es : list (Z * RID)) (buf : bytes) : bytes :=
  match es with
  | [] => buf
  | (k, r) :: es' => write_leaf_entries (off + kLeafEntrySize) es' (write_leaf_entry off k r buf)
  end.

(** [values[i]] is read for every key, and the entries must stay inside the
    page. *)
Definition SerializeLeaf (leaf : LeafNode) : outcome bytes :=
  let n := zlen (l_keys leaf) in
  if (zlen (l_values leaf) <? n) || (PAGE_SIZE <? kBTreeHeaderSize + n * kLeafEntrySize) then Undefined else
  Ret (write_leaf_entries kBTreeHeaderSize (zip (l_keys leaf) (l_values leaf))
         (write_at 4 kOffNextLeaf (l_next_leaf leaf) (write_header (l_page_id leaf) kBTreeLeaf n))).

Fixpoint read_leaf_entries (n : nat) (off : Z) (buf : bytes) : list (Z * RID) :=
  match n with
  | O => []
  | S n' =>
      (to_int64 (read_at 8 off buf), mkRID (read_at 4 (off + 8) buf) (read_at 2 (off + 12) buf))
        :: read_leaf_entries n' (off + kLeafEntrySize) buf
  end.

Definition DeserializeLeaf (buf : bytes) : outcome LeafNode :=
  let count := read_at 2 kOffKeyCount buf in
  if PAGE_SIZE <? kBTreeHeaderSize + count * kLeafEntrySize then Undefined else
  let es := read_leaf_entries (Z.to_nat count) kBTreeHeaderSize buf in
  Ret (mkLeaf (read_at 4 kOffPageId buf) (read_at 4 kOffNextLeaf buf) es.*1 es.*2).

Fixpoint write_internal_entries (off : Z) (es : list (Z * PageId)) (buf : bytes) : bytes :=
  match es with
  | [] => buf
  | (k, c) :: es' => write_internal_entries (off + 12) es' (write_at 4 (off + 8) c (write_at 8 off k buf))
  end.

Definition SerializeInternal (node : InternalNode) : outcome bytes :=
  let n := zlen (n_keys node) in
  match n_children node with
  | [] => Undefined
  | c0 :: cs =>
      if (zlen cs <? n) || (PAGE_SIZE <? kBTreeHeaderSize + kInternalChildSize + n * 12) then Undefined else
      Ret (write_internal_entries (kBTreeHeaderSize + kInternalChildSize) (zip (n_keys node) cs)
             (write_at 4 kBTreeHeaderSize c0 (write_header (n_page_id node) kBTreeInternal n)))
  end.

Fixpoint read_internal_entries (n : nat) (off : Z) (buf : bytes) : list (Z * PageId) :=
  match n with
  | O => []
  | S n' => (to_int64 (read_at 8 off buf), read_at 4 (off + 8) buf) :: read_internal_entries n' (off + 12) buf
  end.

Definition DeserializeInternal (buf : bytes) : outcome InternalNode :=
  let count := read_at 2 kOffKeyCount buf in
  if PAGE_SIZE <? kBTreeHeaderSize + kInternalChildSize + count * 12 then Undefined else
  let es := read_internal_entries (Z.to_nat count) (kBTreeHeaderSize + kInternalChildSize) buf in
  Ret (mkInternal (read_at 4 kOffPageId buf) es.*1 (read_at 4 kBTreeHeaderSize buf :: es.*2)).

Definition SerializeHeader (root_page_id : PageId) : bytes :=
  write_at 4 kOffHeaderRootPageId root_page_id
    (write_at 2 kOffPageType (PageType_value kBTreeHeader) (write_at 4 kOffPageId kRootHeaderPageId zero_page)).

Definition DeserializeHeaderRootPageId (buf : bytes) : PageId := read_at 4 kOffHeaderRootPageId buf.

(** ** The vector operations *)

(** [v[i]]: outside the vector, undefined behaviour. *)
Definition vec_at {A} (l : list A) (i : Z) : outcome A :=
  if i <? 0 then Undefined else
  match l !! Z.to_nat i with Some a => Ret a | None => Undefined end.

(** [std::upper_bound] on a sorted vector: the first position whose element
    is greater than [key]. *)
Fixpoint upper_bound (keys : list Z) (key : Z) : nat :=
  match keys with
  | [] => O
  | k :: ks => if k <=? key then S (upper_bound ks key) else O
  end.

Definition insert_at {A} (i : nat) (a : A) (l : list A) : list A := take i l ++ a :: drop i l.
Definition erase_at {A} (i : nat) (l : list A) : list A := take i l ++ drop (S i) l.

(** ** Where to cut a node *)

(** [keys[i] != keys[i - 1]]. *)
Definition boundary_at (keys : list Z) (i : Z) : outcome bool :=
  a ← vec_at keys i; b ← vec_at keys (i - 1); mret (negb (a =? b)).

Fixpoint first_boundary (keys : list Z) (candidates : list Z) : outcome (option Z) :=
  match candidates with
  | [] => mret None
  | i :: is' => d ← boundary_at keys i; if d : bool then mret (Some i) else first_boundary keys is'
  end.

(** Forward from the middle to the end, then backward down to 1. *)
Definition FindSplitBoundary (keys : list Z) (naive_mid : Z) : outcome Z :=
  r ← first_boundary keys (seqZ naive_mid (zlen keys - naive_mid));
  match r with
  | Some i => mret i
  | None =>
      r ← first_boundary keys (reverse (seqZ 1 naive_mid));
      mret (default naive_mid r)
  end.

(** The search outward from [ideal]; the fuel counts the offsets tried. *)
Fixpoint rebalance_loop (fuel : nat) (keys : list Z) (min_split max_split ideal offset : Z) : outcome (option Z) :=
  match fuel with
  | O => Undefined
  | S fuel' =>
      let up := ideal + offset <=? max_split in
      let down := offset <=? ideal - min_split in
      r ← (if up then boundary_at keys (ideal + offset) else mret false);
      if r : bool then mret (Some (ideal + offset)) else
      r ← (if down then boundary_at keys (ideal - offset) else mret false);
      if r : bool then mret (Some (ideal - offset)) else
      if up || down then rebalance_loop fuel' keys min_split max_split ideal (offset + 1) else mret None
  end.

Definition clamp (x lo hi : Z) : Z := if x <? lo then lo else if hi <? x then hi else x.

Definition FindRebalanceSplit (keys : list Z) (min_split max_split ideal : Z) : outcome (option Z) :=
  let ideal := if ideal <? min_split then min_split else ideal in
  let ideal := if max_split <? ideal then max_split else ideal in
  d ← boundary_at keys ideal;
  if d : bool then mret (Some ideal) else
  rebalance_loop (Z.to_nat (max_split - min_split + 2)) keys min_split max_split ideal 1.

(** ** Well-formed nodes *)

Definition u32_ok (z : Z) : Prop := 0 <= z < 2 ^ 32.
Definition rid_ok (r : RID) : Prop := u32_ok (page_id r) /\ 0 <= slot_id r < 2 ^ 16.

Record leaf_ok (l : LeafNode) : Prop := mkLeafOk {
  lo_pid : u32_ok (l_page_id l);
  lo_next : u32_ok (l_next_leaf l);
  lo_len : length (l_values l) = length (l_keys l);
  lo_max : zlen (l_keys l) <= kLeafMaxKeys;
  lo_keys : Forall int64_ok (l_keys l);
  lo_values : Forall rid_ok (l_values l)
}.

Record internal_ok (n : InternalNode) : Prop := mkInternalOk {
  io_pid : u32_ok (n_page_id n);
  io_len : length (n_children n) = S (length (n_keys n));
  io_max : zlen (n_keys n) <= kInternalMaxKeys;
  io_keys : Forall int64_ok (n_keys n);
  io_children : Forall u32_ok (n_children n)
}.

(** ** Lemmas: layout *)

Lemma kLeafMaxKeys_eq : kLeafMaxKeys = 291. Proof. done. Qed.
Lemma kInternalMaxKeys_eq : kInternalMaxKeys = 339. Proof. done. Qed.

Lemma header_len pid t c : zlen (write_header pid t c) = PAGE_SIZE.
Proof. unfold write_header. rewrite !zlen_write_at; rewrite ?zlen_write_at; rewrite ?zlen_zero_page; done. Qed.

Lemma read_header pid t c :
  u32_ok pid -> 0 <= c < 2 ^ 16 ->
  read_at 4 kOffPageId (write_header pid t c) = pid /\
  ReadPageType (write_header pid t c) = PageType_value t /\
  read_at 2 kOffKeyCount (write_header pid t c) = c.
Proof.
  intros Hp Hc. unfold write_header, ReadPageType, kOffPageId, kOffPageType, kOffKeyCount.
  assert (zlen (write_at 4 0 pid zero_page) = PAGE_SIZE) as H1 by (rewrite zlen_write_at; rewrite ?zlen_zero_page; done).
  assert (zlen (write_at 2 4 (PageType_value t) (write_at 4 0 pid zero_page)) = PAGE_SIZE) as H2 by (by rewrite zlen_write_at, H1 by (rewrite ?H1; done)).
  split_and!.
  - do 2 rewrite read_write_ne by (rewrite ?H1, ?H2; unfold PAGE_SIZE; cbn; lia). rewrite read_write_eq by (rewrite ?zlen_zero_page; done).
    apply Z.mod_small. exact Hp.
  - rewrite read_write_ne by (rewrite ?H1, ?H2; unfold PAGE_SIZE; cbn; lia). rewrite read_write_eq by (rewrite ?H1; done). by destruct t.
  - rewrite read_write_eq by (rewrite ?H2; done). rewrite u16_small by done. apply Z.mod_small. exact Hc.
Qed.

Lemma to_int64_mod v : int64_ok v -> to_int64 (v mod 2 ^ 64) = v.
Proof. exact (to_int64_encode v). Qed.

Lemma zlen_cons {A} (a : A) l : zlen (a :: l) = 1 + zlen l.
Proof. unfold zlen. cbn [length]. lia. Qed.

Lemma write_leaf_entry_facts off k r buf :
  0 <= off -> off + kLeafEntrySize <= zlen buf ->
  zlen (write_leaf_entry off k r buf) = zlen buf /\
  (forall w o, 0 <= o -> o + Z.of_nat w <= off -> read_at w o (write_leaf_entry off k r buf) = read_at w o buf) /\
  read_at 8 off (write_leaf_entry off k r buf) = k mod 2 ^ 64 /\
  read_at 4 (off + 8) (write_leaf_entry off k r buf) = page_id r mod 2 ^ 32 /\
  read_at 2 (off + 12) (write_leaf_entry off k r buf) = slot_id r mod 2 ^ 16.
Proof.
  unfold kLeafEntrySize, write_leaf_entry. intros Ho Hl.
  set (b1 := write_at 8 off k buf). set (b2 := write_at 4 (off + 8) (page_id r) b1).
  assert (zlen b1 = zlen buf) as H1 by (apply zlen_write_at; lia).
  assert (zlen b2 = zlen buf) as H2 by (rewrite <- H1; apply zlen_write_at; lia).
  split_and!.
  - rewrite <- H2. apply zlen_write_at; lia.
  - intros w o Hw Hlt. unfold b2, b1 in *. rewrite !read_write_ne by lia. done.
  - rewrite read_write_ne by lia. unfold b2. rewrite read_write_ne by lia. unfold b1. rewrite read_write_eq by lia. done.
  - rewrite read_write_ne by lia. unfold b2. rewrite read_write_eq by lia. done.
  - rewrite read_write_eq by lia. done.
Qed.

Lemma write_leaf_entries_before es off buf :
  0 <= off -> off + zlen es * kLeafEntrySize <= zlen buf ->
  zlen (write_leaf_entries off es buf) = zlen buf /\
  forall w o, 0 <= o -> o + Z.of_nat w <= off -> read_at w o (write_leaf_entries off es buf) = read_at w o buf.
Proof.
  revert off buf. induction es as [|[k r] es IH]; intros off buf Ho Hl; cbn [write_leaf_entries]; [done|].
  rewrite zlen_cons in Hl. pose proof (zlen_nonneg es) as Hn.
  destruct (write_leaf_entry_facts off k r buf) as (H1 & H2 & _); [done|unfold kLeafEntrySize in *; lia|].
  destruct (IH (off + kLeafEntrySize) (write_leaf_entry off k r buf)) as [Hz Hr]; [unfold kLeafEntrySize in *; lia..|].
  split; [congruence|]. intros w o Hw Hlt. rewrite Hr by (unfold kLeafEntrySize in *; lia). by apply H2.
Qed.

Definition entry_ok (e : Z * RID) : Prop := int64_ok e.1 /\ rid_ok e.2.

Lemma read_write_leaf_entries es off buf :
  0 <= off -> off + zlen es * kLeafEntrySize <= zlen buf -> Forall entry_ok es ->
  read_leaf_entries (length es) off (write_leaf_entries off es buf) = es.
Proof.
  revert off buf.
  induction es as [|[k [p s]] es IH]; intros off buf Ho Hl Hok; cbn [write_leaf_entries read_leaf_entries length]; [done|].
  apply Forall_cons in Hok as [[Hk [Hp Hs]] Hok]. cbn [fst snd page_id slot_id] in *.
  rewrite zlen_cons in Hl. pose proof (zlen_nonneg es) as Hn.
  destruct (write_leaf_entry_facts off k (mkRID p s) buf) as (H1 & _ & H2 & H3 & H4); [done|unfold kLeafEntrySize in *; lia|].
  destruct (write_leaf_entries_before es (off + kLeafEntrySize) (write_leaf_entry off k (mkRID p s) buf)) as [_ Hb];
    [unfold kLeafEntrySize in *; lia..|].
  rewrite !Hb by (unfold kLeafEntrySize in *; lia). rewrite H2, H3, H4. f_equal.
  - cbn [page_id slot_id]. by rewrite (to_int64_mod k Hk), (Z.mod_small p), (Z.mod_small s).
  - apply IH; [unfold kLeafEntrySize in *; lia..|done].
Qed.

Lemma zip_entries_ok ks rs : Forall int64_ok ks -> Forall rid_ok rs -> Forall entry_ok (zip ks rs).
Proof.
  intros Hk. revert rs. induction Hk as [|k ks Hk Hks IH]; intros [|r rs] Hr; cbn; try constructor.
  - apply Forall_cons in Hr as [? _]. done.
  - apply IH. by apply Forall_cons in Hr as [_ ?].
Qed.

(** What a reader finds in a page a leaf was written to. *)
Lemma leaf_roundtrip l :
  leaf_ok l -> exists buf, SerializeLeaf l = Ret buf /\ zlen buf = PAGE_SIZE /\
    ReadPageType buf = PageType_value kBTreeLeaf /\ DeserializeLeaf buf = Ret l.
Proof.
  intros [Hp Hn Hlen Hmax Hks Hvs]. destruct l as [pid next ks vs]. cbn [l_page_id l_next_leaf l_keys l_values] in *.
  unfold SerializeLeaf. cbn [l_page_id l_next_leaf l_keys l_values]. rewrite kLeafMaxKeys_eq in Hmax.
  assert (0 <= zlen ks) as Hk0 by apply zlen_nonneg. assert (zlen vs = zlen ks) as Hlz by (unfold zlen; by rewrite Hlen).
  assert (zlen (zip ks vs) = zlen ks) as Hz by (unfold zlen; rewrite length_zip; lia).
  rewrite Hlz, (proj2 (Z.ltb_ge _ _)), (proj2 (Z.ltb_ge PAGE_SIZE _)) by (unfold PAGE_SIZE, kBTreeHeaderSize, kLeafEntrySize; lia).
  cbn [orb]. eexists. split; [reflexivity|].
  set (hd := write_header pid kBTreeLeaf (zlen ks)).
  destruct (read_header pid kBTreeLeaf (zlen ks)) as (Hr1 & Hr2 & Hr3); [done|lia|]. fold hd in Hr1, Hr2, Hr3.
  assert (zlen hd = PAGE_SIZE) as Hhl by apply header_len.
  set (b := write_at 4 kOffNextLeaf next hd).
  assert (zlen b = PAGE_SIZE) as Hbl by (rewrite <- Hhl; apply zlen_write_at; rewrite ?Hhl; done).
  assert (kBTreeHeaderSize + zlen (zip ks vs) * kLeafEntrySize <= zlen b) as Hfit.
  { rewrite Hz, Hbl. unfold kBTreeHeaderSize, kLeafEntrySize, PAGE_SIZE. lia. }
  assert (forall w o, 0 <= o -> o + Z.of_nat w <= 16 -> read_at w o (write_leaf_entries kBTreeHeaderSize (zip ks vs) b) = read_at w o b) as Hb
    by (apply write_leaf_entries_before; done).
  assert (forall w o, 0 <= o -> o + Z.of_nat w <= 8 -> read_at w o b = read_at w o hd) as Hb8
    by (intros; apply read_write_ne; rewrite ?Hhl; unfold kOffNextLeaf, PAGE_SIZE; cbn; lia).
  split_and!.
  - rewrite <- Hbl. by apply write_leaf_entries_before.
  - unfold ReadPageType. rewrite Hb, Hb8; done.
  - unfold DeserializeLeaf. rewrite Hb, Hb8, Hr3 by done.
    rewrite (proj2 (Z.ltb_ge PAGE_SIZE _)) by (unfold PAGE_SIZE, kBTreeHeaderSize, kLeafEntrySize; lia).
    rewrite !Hb, Hb8, Hr1 by done.
    replace (Z.to_nat (zlen ks)) with (length (zip ks vs)) by (unfold zlen in Hz; unfold zlen; lia).
    rewrite read_write_leaf_entries by (done || by apply zip_entries_ok).
    unfold b. rewrite read_write_eq by (rewrite ?Hhl; done). rewrite Z.mod_small by done.
    rewrite fst_zip, snd_zip by lia. done.
Qed.

Lemma write_internal_entry_facts off k c buf :
  0 <= off -> off + 12 <= zlen buf ->
  let buf' := write_at 4 (off + 8) c (write_at 8 off k buf) in
  zlen buf' = zlen buf /\
  (forall w o, 0 <= o -> o + Z.of_nat w <= off -> read_at w o buf' = read_at w o buf) /\
  read_at 8 off buf' = k mod 2 ^ 64 /\ read_at 4 (off + 8) buf' = c mod 2 ^ 32.
Proof.
  intros Ho Hl buf'. subst buf'. set (b1 := write_at 8 off k buf).
  assert (zlen b1 = zlen buf) as H1 by (apply zlen_write_at; lia).
  split_and!.
  - rewrite <- H1. apply zlen_write_at; lia.
  - intros w o Hw Hlt. unfold b1 in *. repeat rewrite read_write_ne by lia. done.
  - rewrite read_write_ne by lia. unfold b1. rewrite read_write_eq by lia. done.
  - rewrite read_write_eq by lia. done.
Qed.

Lemma write_internal_entries_before es off buf :
  0 <= off -> off + zlen es * 12 <= zlen buf ->
  zlen (write_internal_entries off es buf) = zlen buf /\
  forall w o, 0 <= o -> o + Z.of_nat w <= off -> read_at w o (write_internal_entries off es buf) = read_at w o buf.
Proof.
  revert off buf. induction es as [|[k c] es IH]; intros off buf Ho Hl; cbn [write_internal_entries]; [done|].
  rewrite zlen_cons in Hl. pose proof (zlen_nonneg es) as Hn.
  destruct (write_internal_entry_facts off k c buf) as (H1 & H2 & _); [lia..|].
  destruct (IH (off + 12) (write_at 4 (off + 8) c (write_at 8 off k buf))) as [Hz Hr]; [lia..|].
  split; [congruence|]. intros w o Hw Hlt. rewrite Hr by lia. by apply H2.
Qed.

Lemma read_write_internal_entries es off buf :
  0 <= off -> off + zlen es * 12 <= zlen buf -> Forall (fun e => int64_ok e.1 /\ u32_ok e.2) es ->
  read_internal_entries (length es) off (write_internal_entries off es buf) = es.
Proof.
  revert off buf. induction es as [|[k c] es IH]; intros off buf Ho Hl Hok; cbn [write_internal_entries read_internal_entries length]; [done|].
  apply Forall_cons in Hok as [[Hk Hc] Hok]. cbn [fst snd] in *.
  rewrite zlen_cons in Hl. pose proof (zlen_nonneg es) as Hn.
  destruct (write_internal_entry_facts off k c buf) as (H1 & _ & H2 & H3); [lia..|].
  destruct (write_internal_entries_before es (off + 12) (write_at 4 (off + 8) c (write_at 8 off k buf))) as [_ Hb]; [lia..|].
  rewrite !Hb by lia. rewrite H2, H3. f_equal.
  - by rewrite (to_int64_mod k Hk), (Z.mod_small c).
  - apply IH; [lia..|done].
Qed.

Lemma internal_roundtrip n :
  internal_ok n -> exists buf, SerializeInternal n = Ret buf /\ zlen buf = PAGE_SIZE /\
    ReadPageType buf = PageType_value kBTreeInternal /\ DeserializeInternal buf = Ret n.
Proof.
  intros [Hp Hlen Hmax Hks Hcs]. destruct n as [pid ks cs0]. cbn [n_page_id n_keys n_children] in *.
  unfold SerializeInternal. cbn [n_page_id n_keys n_children]. rewrite kInternalMaxKeys_eq in Hmax.
  destruct cs0 as [|c0 cs]; [done|]. cbn [length] in Hlen. apply Forall_cons in Hcs as [Hc0 Hcs].
  assert (0 <= zlen ks) as Hk0 by apply zlen_nonneg. assert (zlen cs = zlen ks) as Hlz by (unfold zlen; lia).
  assert (zlen (zip ks cs) = zlen ks) as Hz by (unfold zlen; rewrite length_zip; lia).
  rewrite Hlz, (proj2 (Z.ltb_ge _ _)), (proj2 (Z.ltb_ge PAGE_SIZE _)) by (unfold PAGE_SIZE, kBTreeHeaderSize, kInternalChildSize; lia).
  cbn [orb]. eexists. split; [reflexivity|].
  set (hd := write_header pid kBTreeInternal (zlen ks)).
  destruct (read_header pid kBTreeInternal (zlen ks)) as (Hr1 & Hr2 & Hr3); [done|lia|]. fold hd in Hr1, Hr2, Hr3.
  assert (zlen hd = PAGE_SIZE) as Hhl by apply header_len.
  set (b := write_at 4 kBTreeHeaderSize c0 hd).
  assert (zlen b = PAGE_SIZE) as Hbl by (rewrite <- Hhl; apply zlen_write_at; rewrite ?Hhl; done).
  assert (kBTreeHeaderSize + kInternalChildSize + zlen (zip ks cs) * 12 <= zlen b) as Hfit.
  { rewrite Hz, Hbl. unfold kBTreeHeaderSize, kInternalChildSize, PAGE_SIZE. lia. }
  assert (forall w o, 0 <= o -> o + Z.of_nat w <= 20 -> read_at w o (write_internal_entries (kBTreeHeaderSize + kInternalChildSize) (zip ks cs) b) = read_at w o b) as Hb
    by (apply write_internal_entries_before; done).
  assert (forall w o, 0 <= o -> o + Z.of_nat w <= 16 -> read_at w o b = read_at w o hd) as Hb8
    by (intros; apply read_write_ne; rewrite ?Hhl; unfold kBTreeHeaderSize, PAGE_SIZE; cbn; lia).
  split_and!.
  - rewrite <- Hbl. by apply write_internal_entries_before.
  - unfold ReadPageType. rewrite Hb, Hb8; done.
  - unfold DeserializeInternal. rewrite Hb, Hb8, Hr3 by done.
    rewrite (proj2 (Z.ltb_ge PAGE_SIZE _)) by (unfold PAGE_SIZE, kBTreeHeaderSize, kInternalChildSize; lia).
    rewrite !Hb, Hb8, Hr1 by done.
    replace (Z.to_nat (zlen ks)) with (length (zip ks cs)) by (unfold zlen in Hz; unfold zlen; lia).
    rewrite read_write_internal_entries; [|done|done|].
    + unfold b. rewrite read_write_eq by (rewrite ?Hhl; done). rewrite Z.mod_small by done.
      rewrite fst_zip, snd_zip by lia. done.
    + clear - Hks Hcs. revert cs Hcs. induction Hks as [|k ks Hk Hks IH]; intros [|c cs] Hcs; cbn; try constructor.
      * by apply Forall_cons in Hcs as [? _].
      * apply IH. by apply Forall_cons in Hcs as [_ ?].
Qed.

Lemma header_roundtrip root :
  u32_ok root -> zlen (SerializeHeader root) = PAGE_SIZE /\ DeserializeHeaderRootPageId (SerializeHeader root) = root.
Proof.
  intros H. unfold SerializeHeader, DeserializeHeaderRootPageId.
  assert (zlen (write_at 2 kOffPageType (PageType_value kBTreeHeader) (write_at 4 kOffPageId kRootHeaderPageId zero_page)) = PAGE_SIZE) as Hl
    by (rewrite !zlen_write_at; rewrite ?zlen_write_at; rewrite ?zlen_zero_page; done).
  split; [rewrite zlen_write_at; rewrite ?Hl; done|]. rewrite read_write_eq by (rewrite ?Hl; done). by apply Z.mod_small.
Qed.

(** ** Lemmas: where to cut *)

(** Two different neighbours meet at position [i]. *)
Definition boundary (keys : list Z) (i : Z) : Prop :=
  exists a b, keys !! Z.to_nat (i - 1) = Some a /\ keys !! Z.to_nat i = Some b /\ a <> b.

Lemma vec_at_run {A} (l : list A) i a : 0 <= i -> l !! Z.to_nat i = Some a -> vec_at l i = Ret a.
Proof. intros Hi Ha. unfold vec_at. rewrite (proj2 (Z.ltb_ge i 0)) by lia. by rewrite Ha. Qed.

Lemma boundary_at_run keys i :
  1 <= i < zlen keys -> exists d, boundary_at keys i = Ret d /\ (d = true <-> boundary keys i).
Proof.
  intros Hi. unfold zlen in Hi.
  destruct (lookup_lt_is_Some_2 keys (Z.to_nat i)) as [a Ha]; [lia|].
  destruct (lookup_lt_is_Some_2 keys (Z.to_nat (i - 1))) as [b Hb]; [lia|].
  unfold boundary_at. rewrite (vec_at_run keys i a), (vec_at_run keys (i - 1) b) by (done || lia). cbn.
  eexists. split; [done|]. unfold boundary. rewrite negb_true_iff, Z.eqb_neq. split.
  - intros. exists b, a. split_and!; congruence.
  - intros (x & y & Hx & Hy & ?). congruence.
Qed.

Lemma first_boundary_run keys l :
  (forall i, i ∈ l -> 1 <= i < zlen keys) ->
  exists r, first_boundary keys l = Ret r /\
    match r with Some i => i ∈ l /\ boundary keys i | None => forall i, i ∈ l -> ~ boundary keys i end.
Proof.
  induction l as [|i l IH]; intros Hl; cbn [first_boundary].
  { exists None. split; [done|]. set_solver. }
  destruct (boundary_at_run keys i) as (d & -> & Hd); [apply Hl; by left|]. cbn. destruct d.
  - exists (Some i). split; [done|]. split; [by left|by apply Hd].
  - destruct IH as (r & -> & Hr); [intros; apply Hl; by right|]. exists r. split; [done|]. destruct r as [j|].
    + destruct Hr. split; [by right|done].
    + intros j [->|Hj]%elem_of_cons; [|by apply Hr]. intros Hb. by apply Hd in Hb.
Qed.

Lemma FindSplitBoundary_run keys mid :
  1 <= mid < zlen keys ->
  exists i, FindSplitBoundary keys mid = Ret i /\
    ((1 <= i < zlen keys /\ boundary keys i) \/ (i = mid /\ forall j, 1 <= j < zlen keys -> ~ boundary keys j)).
Proof.
  intros Hm. unfold FindSplitBoundary.
  destruct (first_boundary_run keys (seqZ mid (zlen keys - mid))) as (r & -> & Hr); [intros i Hi; apply elem_of_seqZ in Hi; lia|].
  cbn. destruct r as [i|]; [exists i; split; [done|]; left; destruct Hr as [Hi Hb]; apply elem_of_seqZ in Hi; split; [lia|done]|].
  destruct (first_boundary_run keys (reverse (seqZ 1 mid))) as (r & -> & Hr').
  { intros i Hi. apply elem_of_reverse, elem_of_seqZ in Hi. lia. }
  cbn. eexists. split; [done|]. destruct r as [i|]; cbn.
  - destruct Hr' as [Hi Hb]. apply elem_of_reverse, elem_of_seqZ in Hi. left. split; [lia|done].
  - right. split; [done|]. intros j Hj. destruct (decide (j < mid)).
    + apply Hr'. apply elem_of_reverse, elem_of_seqZ. lia.
    + apply Hr. apply elem_of_seqZ. lia.
Qed.

(** The middle itself is taken when it is a boundary. *)
Lemma FindSplitBoundary_mid keys mid :
  1 <= mid < zlen keys -> boundary keys mid -> FindSplitBoundary keys mid = Ret mid.
Proof.
  intros Hm Hb. unfold FindSplitBoundary. rewrite (seqZ_cons mid (zlen keys - mid)) by lia. cbn [first_boundary].
  destruct (boundary_at_run keys mid Hm) as (d & -> & Hd). cbn. destruct d; [done|]. by apply Hd in Hb.
Qed.

Lemma no_boundary_replicate keys :
  (forall j, 1 <= j < zlen keys -> ~ boundary keys j) -> exists k, keys = replicate (length keys) k.
Proof.
  intros Hn. destruct keys as [|k ks]; [by exists 0|]. exists k. apply list_eq. intros i.
  destruct (decide (i < length (k :: ks))%nat) as [Hi|Hi].
  2: { rewrite !lookup_ge_None_2; [done| |lia]. rewrite length_replicate. lia. }
  rewrite lookup_replicate_2 by done.
  induction i as [|i IH]; [done|]. specialize (IH ltac:(lia)).
  destruct (lookup_lt_is_Some_2 (k :: ks) (S i)) as [b Hb]; [done|].
  destruct (decide (k = b)) as [->|Hne]; [done|]. exfalso. apply (Hn (Z.of_nat (S i))); [unfold zlen; lia|].
  exists k, b. rewrite Nat2Z.id. replace (Z.to_nat (Z.of_nat (S i) - 1)) with i by lia. done.
Qed.

Lemma rebalance_loop_run fuel keys lo hi ideal off :
  1 <= lo -> lo <= ideal <= hi -> hi < zlen keys -> 1 <= off <= hi - lo + 1 -> hi - lo + 2 <= Z.of_nat fuel + off ->
  (forall j, lo <= j <= hi -> Z.abs (j - ideal) < off -> ~ boundary keys j) ->
  exists r, rebalance_loop fuel keys lo hi ideal off = Ret r /\
    match r with Some i => lo <= i <= hi /\ boundary keys i | None => forall i, lo <= i <= hi -> ~ boundary keys i end.
Proof.
  intros Hlo Hid Hhi. revert off. induction fuel as [|fuel IH]; intros off Ho Hf Hno; [lia|]. cbn [rebalance_loop].
  assert (exists d, (if ideal + off <=? hi then boundary_at keys (ideal + off) else mret false) = Ret d /\
    (d = true <-> ideal + off <= hi /\ boundary keys (ideal + off))) as (d1 & -> & Hd1).
  { destruct (Z.leb_spec (ideal + off) hi); [|exists false; split; [done|split; [done|lia]]].
    destruct (boundary_at_run keys (ideal + off)) as (d & -> & Hd); [lia|]. exists d. split; [done|]. tauto. }
  cbn. destruct d1; [eexists; split; [done|]; split; [|by apply Hd1]; assert (ideal + off <= hi) by (by apply Hd1); lia|].
  assert (exists d, (if off <=? ideal - lo then boundary_at keys (ideal - off) else mret false) = Ret d /\
    (d = true <-> off <= ideal - lo /\ boundary keys (ideal - off))) as (d2 & -> & Hd2).
  { destruct (Z.leb_spec off (ideal - lo)); [|exists false; split; [done|split; [done|lia]]].
    destruct (boundary_at_run keys (ideal - off)) as (d & -> & Hd); [lia|]. exists d. split; [done|]. tauto. }
  cbn. destruct d2; [eexists; split; [done|]; split; [|by apply Hd2]; assert (off <= ideal - lo) by (by apply Hd2); lia|].
  assert (forall j, lo <= j <= hi -> Z.abs (j - ideal) < off + 1 -> ~ boundary keys j) as Hno'.
  { intros j Hj Ha. destruct (decide (Z.abs (j - ideal) < off)); [by apply Hno|]. intros Hb.
    destruct (decide (j = ideal + off)) as [->|]; [destruct Hd1 as [_ Hd1]; discriminate Hd1; split; [lia|done]|].
    assert (j = ideal - off) as -> by lia. destruct Hd2 as [_ Hd2]. discriminate Hd2. split; [lia|done]. }
  destruct (Z.leb_spec (ideal + off) hi), (Z.leb_spec off (ideal - lo)); cbn [orb];
    try (apply IH; [lia|lia|done]).
  exists None. split; [done|]. intros i Hi. apply Hno'; lia.
Qed.

Lemma FindRebalanceSplit_run keys lo hi ideal :
  1 <= lo <= hi -> hi < zlen keys ->
  exists r, FindRebalanceSplit keys lo hi ideal = Ret r /\
    match r with Some i => lo <= i <= hi /\ boundary keys i | None => forall i, lo <= i <= hi -> ~ boundary keys i end.
Proof.
  intros Hlo Hhi. unfold FindRebalanceSplit. set (i1 := if ideal <? lo then lo else ideal).
  set (i2 := if hi <? i1 then hi else i1).
  assert (lo <= i2 <= hi) as Hi2 by (subst i2 i1; destruct (Z.ltb_spec ideal lo); destruct (Z.ltb_spec hi lo), (Z.ltb_spec hi ideal); lia).
  destruct (boundary_at_run keys i2) as (d & -> & Hd); [lia|]. cbn. destruct d.
  - exists (Some i2). split; [done|]. split; [done|by apply Hd].
  - apply rebalance_loop_run; [lia..|]. intros j Hj Ha. assert (j = i2) as -> by lia. intros Hb. by apply Hd in Hb.
Qed.

End BTreeNode.
