(* ===== verification/BTree.v ===== *)
(** * BTree: the B+ tree over one object's pages ([src/index/btree.cpp])

    Every operation in the [View] monad, with its lock requests, page fetches
    and dirty marks in the order of the code. The recursive functions take the
    number of stack frames the thread has left: running out is undefined
    behaviour, so a theorem that they return covers the depth of the tree. *)
From S2P Require Export BTreeNode.

Module BTree.
Import BTreeNode.

Definition kMaxTraversalSteps : Z := 10000.
Definition kMaxValidateDepth : Z := 500.

Record SplitResult := mkSplit { split_key : Z; new_right_page_id : PageId }.
Record DeleteResult := mkDeleteResult { found : bool; underflow : bool }.

(** [ReadPageType(page->Data()) == PageType::kBTreeLeaf]. *)
Definition is_leaf (buf : bytes) : bool := ReadPageType buf =? PageType_value kBTreeLeaf.

Definition data_of (page : PageId) : M View bytes := on_page page get.
Definition set_data (page : PageId) (buf : bytes) : M View unit := on_page page (modify (fun _ => buf)).
Definition put_leaf (page : PageId) (leaf : LeafNode) : M View unit :=
  buf ← lift (SerializeLeaf leaf); set_data page buf.
Definition put_internal (page : PageId) (node : InternalNode) : M View unit :=
  buf ← lift (SerializeInternal node); set_data page buf.

(** ** The root pointer *)

Definition GetRootPageId : M View PageId :=
  header_page ← FetchPage kRootHeaderPageId;
  buf ← data_of header_page;
  mret (DeserializeHeaderRootPageId buf).

Definition SetRootPageId (page_id : PageId) : M View unit :=
  header_page ← FetchPage kRootHeaderPageId;
  set_data header_page (SerializeHeader page_id);;
  MarkDirty kRootHeaderPageId.

(** The constructor. *)
Definition Open : M View unit :=
  n ← gets NumPagesOnDisk;
  if n =? 0 then
    header_pid ← NewPage;
    set_data header_pid (SerializeHeader INVALID_PAGE_ID);;
    MarkDirty header_pid;;
    FlushPages {[header_pid]}
  else mret tt.

Definition Empty : M View bool := root ← GetRootPageId; mret (root =? INVALID_PAGE_ID).

Section Operations.
Context (object_id : ObjectId).

Definition LockRoot (mode : LockMode) : M View unit := LockPage object_id kRootHeaderPageId mode.

(** [LockPage] and [FetchPage] of the next node of a read. *)
Definition open_shared (pid : PageId) : M View bytes :=
  LockPage object_id pid kShared;;
  page ← FetchPage pid;
  data_of page.

(** ** Reads *)

(** The [while] loop of [Height]; the fuel is what is left of
    [kMaxTraversalSteps]. *)
Fixpoint height_loop (fuel : nat) (h : Z) (buf : bytes) : M View Z :=
  if is_leaf buf then mret h else
  match fuel with
  | O => throw RuntimeError
  | S fuel' =>
      node ← lift (DeserializeInternal buf);
      cur ← lift (vec_at (n_children node) 0);
      buf' ← open_shared cur;
      height_loop fuel' (h + 1) buf'
  end.

Definition Height : M View Z :=
  LockRoot kShared;;
  root ← GetRootPageId;
  if root =? INVALID_PAGE_ID then mret 0 else
  buf ← open_shared root;
  height_loop (Z.to_nat kMaxTraversalSteps) 1 buf.

Definition matches (key : Z) (leaf : LeafNode) : list RID :=
  snd <$> filter (fun e => e.1 = key) (zip (l_keys leaf) (l_values leaf)).

Fixpoint search_loop (fuel : nat) (key : Z) (cur : PageId) : M View (list RID) :=
  match fuel with
  | O => throw RuntimeError
  | S fuel' =>
      buf ← open_shared cur;
      if is_leaf buf then
        leaf ← lift (DeserializeLeaf buf);
        mret (matches key leaf)
      else
        node ← lift (DeserializeInternal buf);
        child ← lift (vec_at (n_children node) (Z.of_nat (upper_bound (n_keys node) key)));
        search_loop fuel' key child
  end.

Definition Search (key : Z) : M View (list RID) :=
  LockRoot kShared;;
  root ← GetRootPageId;
  if root =? INVALID_PAGE_ID then mret [] else
  search_loop (Z.to_nat kMaxTraversalSteps) key root.

Fixpoint leftmost_loop (fuel : nat) (buf : bytes) : M View bytes :=
  if is_leaf buf then mret buf else
  match fuel with
  | O => throw RuntimeError
  | S fuel' =>
      node ← lift (DeserializeInternal buf);
      cur ← lift (vec_at (n_children node) 0);
      buf' ← open_shared cur;
      leftmost_loop fuel' buf'
  end.

Fixpoint chain_loop (fuel : nat) (buf : bytes) (out : list (Z * RID)) : M View (list (Z * RID)) :=
  match fuel with
  | O => throw RuntimeError
  | S fuel' =>
      leaf ← lift (DeserializeLeaf buf);
      let out := out ++ zip (l_keys leaf) (l_values leaf) in
      if l_next_leaf leaf =? INVALID_PAGE_ID then mret out else
      buf' ← open_shared (l_next_leaf leaf);
      chain_loop fuel' buf' out
  end.

Definition RangeScanAll : M View (list (Z * RID)) :=
  LockRoot kShared;;
  root ← GetRootPageId;
  if root =? INVALID_PAGE_ID then mret [] else
  buf ← open_shared root;
  buf ← leftmost_loop (Z.to_nat kMaxTraversalSteps) buf;
  chain_loop (Z.to_nat kMaxTraversalSteps) buf [].

(** ** Insert *)

Definition insert_leaf (page_id : PageId) (page : PageId) (buf : bytes) (key : Z) (rid : RID) : M View (option SplitResult) :=
  leaf ← lift (DeserializeLeaf buf);
  let pos := upper_bound (l_keys leaf) key in
  let keys := insert_at pos key (l_keys leaf) in
  let values := insert_at pos rid (l_values leaf) in
  if zlen keys <=? kLeafMaxKeys then
    put_leaf page (mkLeaf (l_page_id leaf) (l_next_leaf leaf) keys values);;
    MarkDirty page_id;;
    mret None
  else
    mid ← lift (FindSplitBoundary keys (zlen keys / 2));
    right_pid ← NewPage;
    LockPage object_id right_pid kExclusive;;
    let m := Z.to_nat mid in
    let right := mkLeaf right_pid (l_next_leaf leaf) (drop m keys) (drop m values) in
    put_leaf page (mkLeaf (l_page_id leaf) right_pid (take m keys) (take m values));;
    put_leaf right_pid right;;
    MarkDirty page_id;;
    MarkDirty right_pid;;
    front ← lift (vec_at (l_keys right) 0);
    mret (Some (mkSplit front right_pid)).

Definition insert_internal (page_id : PageId) (page : PageId) (node : InternalNode) (idx : nat) (child_split : SplitResult) : M View (option SplitResult) :=
  let keys := insert_at idx (split_key child_split) (n_keys node) in
  let children := insert_at (S idx) (new_right_page_id child_split) (n_children node) in
  if zlen keys <=? kInternalMaxKeys then
    put_internal page (mkInternal (n_page_id node) keys children);;
    MarkDirty page_id;;
    mret None
  else
    mid ← lift (FindSplitBoundary keys (zlen keys / 2));
    pushed_up ← lift (vec_at keys mid);
    right_pid ← NewPage;
    LockPage object_id right_pid kExclusive;;
    let m := Z.to_nat mid in
    put_internal page (mkInternal (n_page_id node) (take m keys) (take (S m) children));;
    put_internal right_pid (mkInternal right_pid (drop (S m) keys) (drop (S m) children));;
    MarkDirty page_id;;
    MarkDirty right_pid;;
    mret (Some (mkSplit pushed_up right_pid)).

Fixpoint InsertRecursive (frames : nat) (page_id : PageId) (key : Z) (rid : RID) : M View (option SplitResult) :=
  match frames with
  | O => undefined
  | S frames' =>
      LockPage object_id page_id kExclusive;;
      page ← FetchPage page_id;
      buf ← data_of page;
      if is_leaf buf then insert_leaf page_id page buf key rid
      else
        node ← lift (DeserializeInternal buf);
        let idx := upper_bound (n_keys node) key in
        child ← lift (vec_at (n_children node) (Z.of_nat idx));
        child_split ← InsertRecursive frames' child key rid;
        match child_split with
        | None => mret None
        | Some split => insert_internal page_id page node idx split
        end
  end.

Definition Insert (frames : nat) (key : Z) (rid : RID) : M View unit :=
  LockRoot kExclusive;;
  root ← GetRootPageId;
  if root =? INVALID_PAGE_ID then
    pid ← NewPage;
    LockPage object_id pid kExclusive;;
    put_leaf pid (mkLeaf pid INVALID_PAGE_ID [key] [rid]);;
    MarkDirty pid;;
    SetRootPageId pid
  else
    split ← InsertRecursive frames root key rid;
    match split with
    | None => mret tt
    | Some s =>
        new_root_pid ← NewPage;
        LockPage object_id new_root_pid kExclusive;;
        put_internal new_root_pid (mkInternal new_root_pid [split_key s] [root; new_right_page_id s]);;
        MarkDirty new_root_pid;;
        SetRootPageId new_root_pid
    end.

(** ** Delete *)

(** [FixUnderflow] on leaves, with the left or the right sibling. *)
Definition fix_leaf_left (parent : InternalNode) (idx : nat) (child_pid child_page : PageId) (child : LeafNode) : M View InternalNode :=
  left_pid ← lift (vec_at (n_children parent) (Z.of_nat idx - 1));
  LockPage object_id left_pid kExclusive;;
  left_page ← FetchPage left_pid;
  buf ← data_of left_page;
  left ← lift (DeserializeLeaf buf);
  let keys := l_keys left ++ l_keys child in
  let values := l_values left ++ l_values child in
  let combined_size := zlen keys in
  if combined_size <=? kLeafMaxKeys then
    put_leaf left_page (mkLeaf (l_page_id left) (l_next_leaf child) keys values);;
    MarkDirty left_pid;;
    mret (mkInternal (n_page_id parent) (erase_at (idx - 1) (n_keys parent)) (erase_at idx (n_children parent)))
  else
    let min_split := combined_size - kLeafMaxKeys in
    let max_split := kLeafMaxKeys in
    let ideal := combined_size - kLeafMinKeys in
    r ← lift (FindRebalanceSplit keys min_split max_split ideal);
    let split_at := Z.to_nat (default (clamp ideal min_split max_split) r) in
    let child' := mkLeaf (l_page_id child) (l_next_leaf child) (drop split_at keys) (drop split_at values) in
    front ← lift (vec_at (l_keys child') 0);
    put_leaf left_page (mkLeaf (l_page_id left) (l_next_leaf left) (take split_at keys) (take split_at values));;
    put_leaf child_page child';;
    MarkDirty left_pid;;
    MarkDirty child_pid;;
    mret (mkInternal (n_page_id parent) (<[(idx - 1)%nat := front]> (n_keys parent)) (n_children parent)).

Definition fix_leaf_right (parent : InternalNode) (idx : nat) (child_pid child_page : PageId) (child : LeafNode) : M View InternalNode :=
  right_pid ← lift (vec_at (n_children parent) (Z.of_nat idx + 1));
  LockPage object_id right_pid kExclusive;;
  right_page ← FetchPage right_pid;
  buf ← data_of right_page;
  right ← lift (DeserializeLeaf buf);
  let keys := l_keys child ++ l_keys right in
  let values := l_values child ++ l_values right in
  let combined_size := zlen keys in
  if combined_size <=? kLeafMaxKeys then
    put_leaf child_page (mkLeaf (l_page_id child) (l_next_leaf right) keys values);;
    MarkDirty child_pid;;
    mret (mkInternal (n_page_id parent) (erase_at idx (n_keys parent)) (erase_at (S idx) (n_children parent)))
  else
    let min_split := combined_size - kLeafMaxKeys in
    let max_split := kLeafMaxKeys in
    let ideal := kLeafMinKeys in
    r ← lift (FindRebalanceSplit keys min_split max_split ideal);
    let split_at := Z.to_nat (default (clamp ideal min_split max_split) r) in
    let right' := mkLeaf (l_page_id right) (l_next_leaf right) (drop split_at keys) (drop split_at values) in
    front ← lift (vec_at (l_keys right') 0);
    put_leaf right_page right';;
    put_leaf child_page (mkLeaf (l_page_id child) (l_next_leaf child) (take split_at keys) (take split_at values));;
    MarkDirty right_pid;;
    MarkDirty child_pid;;
    mret (mkInternal (n_page_id parent) (<[idx := front]> (n_keys parent)) (n_children parent)).

(** The sibling fetched for an internal child. *)
Definition open_internal (pid : PageId) : M View (PageId * InternalNode) :=
  LockPage object_id pid kExclusive;;
  page ← FetchPage pid;
  buf ← data_of page;
  node ← lift (DeserializeInternal buf);
  mret (page, node).

(** Borrow the left sibling's last child: [None] when it has no spare key. *)
Definition borrow_left (parent : InternalNode) (idx : nat) (child_pid child_page : PageId) (child : InternalNode) : M View (option InternalNode) :=
  left_pid ← lift (vec_at (n_children parent) (Z.of_nat idx - 1));
  '(left_page, lsib) ← open_internal left_pid;
  if kInternalMinKeys <? zlen (n_keys lsib) then
    moved_child ← lift (vec_at (n_children lsib) (zlen (n_children lsib) - 1));
    demoted ← lift (vec_at (n_keys parent) (Z.of_nat idx - 1));
    promoted ← lift (vec_at (n_keys lsib) (zlen (n_keys lsib) - 1));
    put_internal left_page (mkInternal (n_page_id lsib) (removelast (n_keys lsib)) (removelast (n_children lsib)));;
    put_internal child_page (mkInternal (n_page_id child) (demoted :: n_keys child) (moved_child :: n_children child));;
    MarkDirty left_pid;;
    MarkDirty child_pid;;
    mret (Some (mkInternal (n_page_id parent) (<[(idx - 1)%nat := promoted]> (n_keys parent)) (n_children parent)))
  else mret None.

Definition borrow_right (parent : InternalNode) (idx : nat) (child_pid child_page : PageId) (child : InternalNode) : M View (option InternalNode) :=
  right_pid ← lift (vec_at (n_children parent) (Z.of_nat idx + 1));
  '(right_page, rsib) ← open_internal right_pid;
  if kInternalMinKeys <? zlen (n_keys rsib) then
    moved_child ← lift (vec_at (n_children rsib) 0);
    demoted ← lift (vec_at (n_keys parent) (Z.of_nat idx));
    promoted ← lift (vec_at (n_keys rsib) 0);
    put_internal right_page (mkInternal (n_page_id rsib) (tail (n_keys rsib)) (tail (n_children rsib)));;
    put_internal child_page (mkInternal (n_page_id child) (n_keys child ++ [demoted]) (n_children child ++ [moved_child]));;
    MarkDirty right_pid;;
    MarkDirty child_pid;;
    mret (Some (mkInternal (n_page_id parent) (<[idx := promoted]> (n_keys parent)) (n_children parent)))
  else mret None.

Definition merge_left (parent : InternalNode) (idx : nat) (child : InternalNode) : M View InternalNode :=
  left_pid ← lift (vec_at (n_children parent) (Z.of_nat idx - 1));
  '(left_page, lsib) ← open_internal left_pid;
  separator ← lift (vec_at (n_keys parent) (Z.of_nat idx - 1));
  put_internal left_page (mkInternal (n_page_id lsib) (n_keys lsib ++ [separator] ++ n_keys child) (n_children lsib ++ n_children child));;
  MarkDirty left_pid;;
  mret (mkInternal (n_page_id parent) (erase_at (idx - 1) (n_keys parent)) (erase_at idx (n_children parent))).

Definition merge_right (parent : InternalNode) (idx : nat) (child_pid child_page : PageId) (child : InternalNode) : M View InternalNode :=
  right_pid ← lift (vec_at (n_children parent) (Z.of_nat idx + 1));
  '(_, rsib) ← open_internal right_pid;
  separator ← lift (vec_at (n_keys parent) (Z.of_nat idx));
  put_internal child_page (mkInternal (n_page_id child) (n_keys child ++ [separator] ++ n_keys rsib) (n_children child ++ n_children rsib));;
  MarkDirty child_pid;;
  mret (mkInternal (n_page_id parent) (erase_at idx (n_keys parent)) (erase_at (S idx) (n_children parent))).

Definition fix_internal (parent : InternalNode) (idx : nat) (child_pid child_page : PageId) (child : InternalNode) : M View InternalNode :=
  let has_left := (0 <? idx)%nat in
  let has_right := (S idx <? length (n_children parent))%nat in
  r ← (if has_left then borrow_left parent idx child_pid child_page child else mret None);
  match r with
  | Some parent' => mret parent'
  | None =>
      r ← (if has_right then borrow_right parent idx child_pid child_page child else mret None);
      match r with
      | Some parent' => mret parent'
      | None =>
          if has_left then merge_left parent idx child
          else merge_right parent idx child_pid child_page child
      end
  end.

(** [parent] is passed by reference: its new value is the result. *)
Definition FixUnderflow (parent : InternalNode) (idx : nat) : M View InternalNode :=
  child_pid ← lift (vec_at (n_children parent) (Z.of_nat idx));
  LockPage object_id child_pid kExclusive;;
  child_page ← FetchPage child_pid;
  buf ← data_of child_page;
  if is_leaf buf then
    child ← lift (DeserializeLeaf buf);
    if (0 <? idx)%nat then fix_leaf_left parent idx child_pid child_page child
    else fix_leaf_right parent idx child_pid child_page child
  else
    child ← lift (DeserializeInternal buf);
    fix_internal parent idx child_pid child_page child.

(** The first position holding exactly the pair, if any. *)
Fixpoint find_entry (es : list (Z * RID)) (key : Z) (rid : RID) : option nat :=
  match es with
  | [] => None
  | (k, r) :: es' =>
      if (k =? key) && RID_eqb r rid then Some O
      else S <$> find_entry es' key rid
  end.

Definition delete_leaf (page_id : PageId) (page : PageId) (is_root : bool) (buf : bytes) (key : Z) (rid : RID) : M View DeleteResult :=
  leaf ← lift (DeserializeLeaf buf);
  match find_entry (zip (l_keys leaf) (l_values leaf)) key rid with
  | None => mret (mkDeleteResult false false)
  | Some pos =>
      let keys := erase_at pos (l_keys leaf) in
      put_leaf page (mkLeaf (l_page_id leaf) (l_next_leaf leaf) keys (erase_at pos (l_values leaf)));;
      MarkDirty page_id;;
      mret (mkDeleteResult true (negb is_root && (zlen keys <? kLeafMinKeys)))
  end.

Fixpoint DeleteRecursive (frames : nat) (page_id : PageId) (is_root : bool) (key : Z) (rid : RID) : M View DeleteResult :=
  match frames with
  | O => undefined
  | S frames' =>
      LockPage object_id page_id kExclusive;;
      page ← FetchPage page_id;
      buf ← data_of page;
      if is_leaf buf then delete_leaf page_id page is_root buf key rid
      else
        node ← lift (DeserializeInternal buf);
        let idx := upper_bound (n_keys node) key in
        child ← lift (vec_at (n_children node) (Z.of_nat idx));
        child_result ← DeleteRecursive frames' child false key rid;
        if negb (found child_result) then mret (mkDeleteResult false false) else
        node' ← (if underflow child_result then FixUnderflow node idx else mret node);
        put_internal page node';;
        MarkDirty page_id;;
        mret (mkDeleteResult true (negb is_root && (zlen (n_keys node') <? kInternalMinKeys)))
  end.

Definition Delete (frames : nat) (key : Z) (rid : RID) : M View bool :=
  LockRoot kExclusive;;
  root ← GetRootPageId;
  if root =? INVALID_PAGE_ID then mret false else
  result ← DeleteRecursive frames root true key rid;
  if negb (found result) then mret false else
  root_page ← FetchPage root;
  buf ← data_of root_page;
  if is_leaf buf then
    root_leaf ← lift (DeserializeLeaf buf);
    match l_keys root_leaf with
    | [] => SetRootPageId INVALID_PAGE_ID;; mret true
    | _ => mret true
    end
  else
    root_internal ← lift (DeserializeInternal buf);
    match n_children root_internal with
    | [c] => SetRootPageId c;; mret true
    | _ => mret true
    end.

End Operations.

(** ** ValidateInvariants *)

(** The message of the first violation found. *)
Inductive Violation :=
| TooDeep (pid : PageId)
| LeafOverflow (pid : PageId) (n : Z)
| LeafUnsorted (pid : PageId) (i : Z)
| LeafLower (pid : PageId) (key i lower : Z)
| LeafUpper (pid : PageId) (key i upper : Z)
| InternalOverflow (pid : PageId) (n : Z)
| InternalChildCount (pid : PageId) (children keys : Z)
| InternalUnsorted (pid : PageId) (i : Z).

(** The loop over a leaf's keys; [prev] is the key before position [i]. *)
Fixpoint check_leaf_keys (pid : PageId) (lower upper : option Z) (prev : option Z) (i : Z) (keys : list Z) : option Violation :=
  match keys with
  | [] => None
  | k :: ks =>
      if match prev with Some p => k <? p | None => false end then Some (LeafUnsorted pid i)
      else if match lower with Some l => k <? l | None => false end then Some (LeafLower pid k i (default 0 lower))
      else if match upper with Some u => u <=? k | None => false end then Some (LeafUpper pid k i (default 0 upper))
      else check_leaf_keys pid lower upper (Some k) (i + 1) ks
  end.

Fixpoint check_internal_keys (pid : PageId) (prev : option Z) (i : Z) (keys : list Z) : option Violation :=
  match keys with
  | [] => None
  | k :: ks =>
      if match prev with Some p => k <? p | None => false end then Some (InternalUnsorted pid i)
      else check_internal_keys pid (Some k) (i + 1) ks
  end.

(** The children with the bounds they inherit: child [i] is checked between
    [keys[i-1]] and [keys[i]], the outer bounds at both ends. *)
Fixpoint child_bounds (lower upper : option Z) (keys : list Z) (children : list PageId) : list (PageId * option Z * option Z) :=
  match children, keys with
  | [], _ => []
  | c :: _, [] => [(c, lower, upper)]
  | c :: cs, k :: ks => (c, lower, Some k) :: child_bounds (Some k) upper ks cs
  end.

(** [has_lower] and [lower] are one optional bound; the fuel is
    [kMaxValidateDepth + 1] less the depth. *)
Fixpoint ValidateSubtree (fuel : nat) (pid : PageId) (lower upper : option Z) : M View (option Violation) :=
  match fuel with
  | O => mret (Some (TooDeep pid))
  | S fuel' =>
      page ← FetchPage pid;
      buf ← data_of page;
      if is_leaf buf then
        leaf ← lift (DeserializeLeaf buf);
        if kLeafMaxKeys <? zlen (l_keys leaf) then mret (Some (LeafOverflow pid (zlen (l_keys leaf)))) else
        mret (check_leaf_keys pid lower upper None 0 (l_keys leaf))
      else
        node ← lift (DeserializeInternal buf);
        if kInternalMaxKeys <? zlen (n_keys node) then mret (Some (InternalOverflow pid (zlen (n_keys node)))) else
        if negb (zlen (n_children node) =? zlen (n_keys node) + 1)
        then mret (Some (InternalChildCount pid (zlen (n_children node)) (zlen (n_keys node)))) else
        match check_internal_keys pid None 0 (n_keys node) with
        | Some err => mret (Some err)
        | None =>
            find_m (fun '(c, lo, hi) => ValidateSubtree fuel' c lo hi)
              (child_bounds lower upper (n_keys node) (n_children node))
        end
  end.

Definition ValidateInvariants : M View (option Violation) :=
  root ← GetRootPageId;
  if root =? INVALID_PAGE_ID then mret None else
  ValidateSubtree (Z.to_nat (kMaxValidateDepth + 1)) root None None.

End BTree.
