(* ===== verification/BTreeSpec.v ===== *)
(** * BTreeSpec: what the pages of a B+ tree represent

    The abstract value of a tree is its list of entries in leaf order, sorted
    by key. [subtree] relates the pages below a node to the entries they hold,
    the key range the parent's separators allow, the pages used, and the leaf
    chain; insertion and deletion are defined on the list of entries. *)
From stdpp Require Export sorting.
From S2P Require Export BTree.

Module BTreeSpec.
Import BTreeNode BTree.

Abbreviation entry := (Z * RID)%type.
Definition store : Type := PageId -> option Page.
Definition mem (v : View) : store := mem_page (v_pool v).

(** ** Key ranges and sorted entries *)

Definition above (lo : option Z) (k : Z) : Prop := match lo with Some l => l <= k | None => True end.
Definition below (hi : option Z) (k : Z) : Prop := match hi with Some u => k < u | None => True end.
Definition in_range (lo hi : option Z) (k : Z) : Prop := above lo k /\ below hi k.
Definition range_ok (lo hi : option Z) : Prop :=
  match lo, hi with Some l, Some u => l < u | _, _ => True end.

Definition key_le (a b : entry) : Prop := a.1 <= b.1.

Definition sorted_in (lo hi : option Z) (es : list entry) : Prop :=
  StronglySorted key_le es /\ Forall (fun e => in_range lo hi e.1) es.

(** Insertion after the last entry whose key is not greater. *)
Definition insert_entry (key : Z) (rid : RID) (es : list entry) : list entry :=
  insert_at (upper_bound es.*1 key) (key, rid) es.

(** Removal of the first entry equal to the pair. *)
Definition delete_entry (key : Z) (rid : RID) (es : list entry) : list entry :=
  match find_entry es key rid with Some i => erase_at i es | None => es end.

Definition search_entries (key : Z) (es : list entry) : list RID := snd <$> filter (fun e => e.1 = key) es.

Definition key_count (key : Z) (es : list entry) : Z := zlen (filter (fun e => e.1 = key) es).

(** ** Nodes in memory *)

Definition leaf_at (m : store) (pid : PageId) (l : LeafNode) : Prop :=
  leaf_ok l /\ exists buf, m pid = Some buf /\ is_leaf buf = true /\ DeserializeLeaf buf = Ret l.

Definition internal_at (m : store) (pid : PageId) (n : InternalNode) : Prop :=
  internal_ok n /\ exists buf, m pid = Some buf /\ is_leaf buf = false /\ DeserializeInternal buf = Ret n.

(** ** Subtrees *)

Section Parts.
Context (sub : PageId -> option Z -> option Z -> gset PageId -> list entry -> PageId -> PageId -> Prop).

(** The children to the left of a position, each with the separator after it;
    [f] is their first leaf and [n] the leaf that follows the last. *)
Inductive lpart : list (PageId * Z) -> option Z -> option Z -> gset PageId -> list entry -> PageId -> PageId -> Prop :=
| lp_nil b f : lpart [] b b ∅ [] f f
| lp_snoc ls a b c k S1 S2 es1 es2 f g n :
    lpart ls a b S1 es1 f g -> sub c b (Some k) S2 es2 g n -> S1 ## S2 ->
    lpart (ls ++ [(c, k)]) a (Some k) (S1 ∪ S2) (es1 ++ es2) f n.

(** Those to the right, each with the separator before it. *)
Inductive rpart : list (Z * PageId) -> option Z -> option Z -> gset PageId -> list entry -> PageId -> PageId -> Prop :=
| rp_nil b n : rpart [] b b ∅ [] n n
| rp_cons rs k c a b S1 S2 es1 es2 f g n :
    sub c (Some k) a S1 es1 f g -> rpart rs a b S2 es2 g n -> S1 ## S2 ->
    rpart ((k, c) :: rs) (Some k) b (S1 ∪ S2) (es1 ++ es2) f n.

(** A node's children seen from one of them. *)
Inductive focus (ls : list (PageId * Z)) (c : PageId) (rs : list (Z * PageId)) (lo hi : option Z)
    (S : gset PageId) (es : list entry) (f n : PageId) : Prop :=
| mk_focus b1 b2 S1 S2 S3 es1 es2 es3 g1 g2 :
    lpart ls lo b1 S1 es1 f g1 -> sub c b1 b2 S2 es2 g1 g2 -> rpart rs b2 hi S3 es3 g2 n ->
    S1 ## S2 -> S1 ## S3 -> S2 ## S3 -> S = S1 ∪ S2 ∪ S3 -> es = es1 ++ es2 ++ es3 ->
    focus ls c rs lo hi S es f n.
End Parts.

Definition node_keys (ls : list (PageId * Z)) (rs : list (Z * PageId)) : list Z := ls.*2 ++ rs.*1.
Definition node_children (ls : list (PageId * Z)) (c : PageId) (rs : list (Z * PageId)) : list PageId := ls.*1 ++ c :: rs.*2.
Definition node_of (pid : PageId) (ls : list (PageId * Z)) (c : PageId) (rs : list (Z * PageId)) : InternalNode :=
  mkInternal pid (node_keys ls rs) (node_children ls c rs).
Definition leaf_of (pid next : PageId) (es : list entry) : LeafNode := mkLeaf pid next es.*1 es.*2.

(** The subtree of height [h] at [pid] on the pages [S]: it holds [es], all in
    the range the separators above allow; its leaves are chained from [f] to
    [n]; the top node has at least [lm] entries (a leaf) or [im] keys. *)
Fixpoint subtree (m : store) (lm im : Z) (h : nat) (pid : PageId) (lo hi : option Z)
    (S : gset PageId) (es : list entry) (f n : PageId) : Prop :=
  range_ok lo hi /\
  match h with
  | O => f = pid /\ S = {[pid]} /\ leaf_at m pid (leaf_of pid n es) /\ sorted_in lo hi es /\ lm <= zlen es
  | Datatypes.S h' =>
      exists ls c rs Sf, internal_at m pid (node_of pid ls c rs) /\ im <= zlen ls + zlen rs /\
        focus (subtree m 1 kInternalMinKeys h') ls c rs lo hi Sf es f n /\
        ~ (pid ∈ Sf) /\ S = {[pid]} ∪ Sf
  end.

(** A child is full enough in the sense the rebalancing keeps. *)
Definition child (m : store) (h : nat) := subtree m 1 kInternalMinKeys h.

(** The whole tree: the header page names the root. *)
Record btree (v : View) (es : list entry) : Prop := mkBtree {
  bt_pool : pool_wf (v_pool v);
  bt_tree : exists hp root, mem v kRootHeaderPageId = Some hp /\ DeserializeHeaderRootPageId hp = root /\
    ((root = INVALID_PAGE_ID /\ es = []) \/
     exists h S f, subtree (mem v) 1 1 h root None None S es f INVALID_PAGE_ID /\ ~ (kRootHeaderPageId ∈ S))
}.

(** ** Lemmas: the entries *)

Lemma in_range_weaken lo hi lo' hi' k :
  in_range lo hi k -> (forall x, above lo x -> above lo' x) -> (forall x, below hi x -> below hi' x) -> in_range lo' hi' k.
Proof. intros [? ?] H1 H2. split; auto. Qed.

Lemma sorted_in_nil lo hi : sorted_in lo hi [].
Proof. split; constructor. Qed.

(** Two runs of entries separated by a key are one. *)
Lemma sorted_in_app lo k hi es1 es2 :
  sorted_in lo (Some k) es1 -> sorted_in (Some k) hi es2 -> above lo k -> (below hi k \/ es1 = []) -> sorted_in lo hi (es1 ++ es2).
Proof.
  intros [H1 R1] [H2 R2] Hlo Hhi. rewrite Forall_forall in R1, R2. split.
  - apply StronglySorted_app_2; [|done..]. intros a b Ha Hb. apply R1 in Ha as [_ Ha]. apply R2 in Hb as [Hb _].
    unfold key_le. cbn in *. lia.
  - apply Forall_app. split; apply Forall_forall; intros e He.
    + destruct Hhi as [Hhi| ->]; [|by apply not_elem_of_nil in He]. apply R1 in He as [Ha Hb]. split; [done|].
      destruct hi; cbn in *; [lia|done].
    + apply R2 in He as [Ha Hb]. split; [|done]. destruct lo; cbn in *; [lia|done].
Qed.

Lemma sorted_in_split lo hi es1 es2 :
  sorted_in lo hi (es1 ++ es2) -> sorted_in lo hi es1 /\ sorted_in lo hi es2.
Proof. intros [H1 H2]. apply StronglySorted_app in H1 as (_ & ? & ?). apply Forall_app in H2 as []. done. Qed.

(** Cutting where the key changes. *)
Lemma sorted_in_cut lo hi es1 es2 k r x :
  sorted_in lo hi (es1 ++ [x] ++ (k, r) :: es2) -> x.1 <> k ->
  sorted_in lo (Some k) (es1 ++ [x]) /\ sorted_in (Some k) hi ((k, r) :: es2) /\ in_range lo hi k /\
  (match lo with Some l => l < k | None => True end).
Proof.
  intros Hs Hx. rewrite app_assoc in Hs. destruct (sorted_in_split _ _ _ _ Hs) as [H1 H2].
  destruct Hs as [Hs _]. apply StronglySorted_app in Hs as (Hle & _ & _).
  assert (in_range lo hi k) as Hk by (destruct H2 as [_ H2]; by apply Forall_cons in H2 as [? _]).
  assert (x.1 < k) as Hxk.
  { assert (key_le x (k, r)) as H by (apply Hle; [set_solver|by left]). unfold key_le in H. cbn in H. lia. }
  assert (in_range lo hi x.1) as Hxr.
  { destruct H1 as [_ H1]. apply Forall_app in H1 as [_ H1]. by apply Forall_cons in H1 as [? _]. }
  split_and!.
  - destruct H1 as [H1 R1]. split; [done|]. rewrite Forall_forall in *. intros e He. split; [by apply R1|]. cbn.
    apply StronglySorted_app in H1 as (H1 & _ & _). apply elem_of_app in He as [He| ->%list_elem_of_singleton]; [|done].
    specialize (H1 e x He ltac:(by left)). unfold key_le in H1. lia.
  - destruct H2 as [H2 R2]. split; [done|]. rewrite Forall_forall in *. intros e He. split; [|by apply R2]. cbn.
    apply StronglySorted_inv in H2 as [_ H2]. rewrite Forall_forall in H2. apply elem_of_cons in He as [->|He]; [done|].
    specialize (H2 e He). by unfold key_le in H2.
  - done.
  - destruct lo; [|done]. destruct Hxr as [Hxr _]. cbn in Hxr. lia.
Qed.

(** *** Insertion *)

Lemma upper_bound_le keys key : (upper_bound keys key <= length keys)%nat.
Proof. induction keys as [|k ks IH]; cbn; [lia|]. destruct (k <=? key); lia. Qed.

Lemma upper_bound_before keys key i k : (i < upper_bound keys key)%nat -> keys !! i = Some k -> k <= key.
Proof.
  revert i. induction keys as [|k0 ks IH]; intros i; cbn; [lia|]. destruct (Z.leb_spec k0 key); [|lia].
  destruct i as [|i]; cbn; [intros _ [= <-]; done|]. intros. eapply IH; [|done]. lia.
Qed.

Lemma upper_bound_at keys key k : keys !! upper_bound keys key = Some k -> key < k.
Proof.
  induction keys as [|k0 ks IH]; cbn; [done|]. destruct (Z.leb_spec k0 key); [exact IH|]. by intros [= <-].
Qed.

Lemma upper_bound_app_l ks1 ks2 key :
  Forall (fun k => k <= key) ks1 -> upper_bound (ks1 ++ ks2) key = (length ks1 + upper_bound ks2 key)%nat.
Proof.
  induction 1 as [|k ks Hk _ IH]; cbn; [done|]. rewrite (proj2 (Z.leb_le k key) Hk). by rewrite IH.
Qed.

Lemma upper_bound_app_r ks1 ks2 key :
  Forall (fun k => key < k) ks2 -> upper_bound (ks1 ++ ks2) key = upper_bound ks1 key.
Proof.
  intros H. induction ks1 as [|k ks IH]; cbn; [|by rewrite IH].
  destruct H as [|k ks Hk _]; cbn; [done|]. by rewrite (proj2 (Z.leb_gt k key) Hk).
Qed.

Lemma insert_at_fmap {A B} (f : A -> B) i a l : f <$> insert_at i a l = insert_at i (f a) (f <$> l).
Proof. unfold insert_at. by rewrite fmap_app, fmap_cons, fmap_take, fmap_drop. Qed.

Lemma insert_at_length {A} i (a : A) l : length (insert_at i a l) = S (length l).
Proof. unfold insert_at. rewrite length_app. cbn. rewrite length_take, length_drop. lia. Qed.

Lemma insert_at_Permutation {A} i (a : A) l : insert_at i a l ≡ₚ a :: l.
Proof. unfold insert_at. rewrite <- (take_drop i l) at 3. by rewrite Permutation_middle. Qed.

Lemma insert_at_app_len {A} (a : A) l1 l2 : insert_at (length l1) a (l1 ++ l2) = l1 ++ a :: l2.
Proof. unfold insert_at. by rewrite take_app_length, drop_app_length. Qed.

Lemma insert_entry_fst key rid es : (insert_entry key rid es).*1 = insert_at (upper_bound es.*1 key) key es.*1.
Proof. apply insert_at_fmap. Qed.

Lemma insert_entry_snd key rid es : (insert_entry key rid es).*2 = insert_at (upper_bound es.*1 key) rid es.*2.
Proof. apply insert_at_fmap. Qed.

Lemma insert_entry_mid key rid es1 es2 es3 :
  Forall (fun e : entry => e.1 <= key) es1 -> Forall (fun e : entry => key < e.1) es3 ->
  insert_entry key rid (es1 ++ es2 ++ es3) = es1 ++ insert_entry key rid es2 ++ es3.
Proof.
  intros H1 H3. unfold insert_entry. rewrite !fmap_app, upper_bound_app_l, upper_bound_app_r by (by apply Forall_fmap).
  pose proof (upper_bound_le es2.*1 key) as Hle. rewrite length_fmap in *. set (i := upper_bound es2.*1 key) in *.
  unfold insert_at. rewrite take_app_add, drop_app_add, take_app_le, drop_app_le by done.
  by rewrite <- !app_assoc.
Qed.

Lemma insert_entry_sorted lo hi key rid es :
  sorted_in lo hi es -> in_range lo hi key -> sorted_in lo hi (insert_entry key rid es).
Proof.
  intros [Hs Hr] Hk. split.
  2: { unfold insert_entry. rewrite insert_at_Permutation. by constructor. }
  unfold insert_entry, insert_at. set (i := upper_bound es.*1 key).
  assert (Forall (fun e : entry => e.1 <= key) (take i es)) as Hbef.
  { apply Forall_forall. intros e He. apply list_elem_of_lookup in He as [j Hj].
    pose proof (lookup_lt_Some _ _ _ Hj) as Hjl. rewrite length_take in Hjl. rewrite lookup_take_lt in Hj by lia.
    eapply (upper_bound_before es.*1 key j); [subst i; lia|]. by rewrite list_lookup_fmap, Hj. }
  rewrite <- (take_drop i es) in Hs. apply StronglySorted_app in Hs as (H3 & H1 & H2).
  assert (Forall (fun e : entry => key < e.1) (drop i es)) as Haft.
  { destruct (drop i es) as [|e0 es0] eqn:E; [constructor|].
    assert (key < e0.1) as He0.
    { apply (upper_bound_at es.*1 key). rewrite list_lookup_fmap. fold i.
      assert (drop i es !! O = Some e0) as H by (by rewrite E). rewrite lookup_drop, Nat.add_0_r in H. by rewrite H. }
    apply StronglySorted_inv in H2 as [_ H2]. constructor; [done|]. eapply Forall_impl; [exact H2|].
    intros e He. unfold key_le in He. lia. }
  rewrite Forall_forall in Hbef, Haft. apply StronglySorted_app_2; [|done|constructor; [done|]].
  - intros a b Ha [->|Hb]%elem_of_cons; [by apply Hbef|by apply H3].
  - apply Forall_forall. intros e He. specialize (Haft e He). unfold key_le. cbn. lia.
Qed.

(** *** Deletion and search *)

Lemma find_entry_Some es key rid i : find_entry es key rid = Some i -> es !! i = Some (key, rid).
Proof.
  revert i. induction es as [|[k r] es IH]; intros i; cbn; [done|].
  destruct (Z.eqb_spec k key) as [->|]; cbn.
  - destruct (RID_eqb r rid) eqn:E; [apply RID_eqb_eq in E as ->; by intros [= <-]|].
    destruct (find_entry es key rid); cbn; [|done]. intros [= <-]. by apply IH.
  - destruct (find_entry es key rid); cbn; [|done]. intros [= <-]. by apply IH.
Qed.

Lemma find_entry_None es key rid : find_entry es key rid = None <-> ~ ((key, rid) ∈ es).
Proof.
  induction es as [|[k r] es IH]; cbn; [set_solver|]. destruct (Z.eqb_spec k key) as [->|Hk]; cbn.
  - destruct (RID_eqb r rid) eqn:E.
    + apply RID_eqb_eq in E as ->. split; [done|]. intros H. destruct H. by left.
    + assert (r <> rid) by (intros ->; by rewrite (proj2 (RID_eqb_eq rid rid)) in E).
      rewrite fmap_None, IH. set_solver.
  - rewrite fmap_None, IH. set_solver.
Qed.

Lemma find_entry_app_skip es1 es2 key rid :
  Forall (fun e : entry => e.1 <> key) es1 ->
  find_entry (es1 ++ es2) key rid = (fun i => (length es1 + i)%nat) <$> find_entry es2 key rid.
Proof.
  induction 1 as [|[k r] es Hk _ IH]; cbn; [by destruct (find_entry es2 key rid)|].
  cbn in Hk. rewrite (proj2 (Z.eqb_neq k key) Hk). cbn. rewrite IH. by destruct (find_entry es2 key rid).
Qed.

Lemma find_entry_app_found es1 es2 key rid i :
  find_entry es1 key rid = Some i -> find_entry (es1 ++ es2) key rid = Some i.
Proof.
  revert i. induction es1 as [|[k r] es IH]; intros i; cbn; [done|].
  destruct ((k =? key) && RID_eqb r rid); [done|].
  destruct (find_entry es key rid) as [j|]; cbn; [|done]. intros [= <-]. by rewrite (IH j).
Qed.

Lemma delete_entry_mid key rid es1 es2 es3 :
  Forall (fun e : entry => e.1 <> key) es1 -> Forall (fun e : entry => e.1 <> key) es3 ->
  delete_entry key rid (es1 ++ es2 ++ es3) = es1 ++ delete_entry key rid es2 ++ es3.
Proof.
  intros H1 H3. unfold delete_entry. rewrite find_entry_app_skip by done.
  destruct (find_entry es2 key rid) as [i|] eqn:E.
  - rewrite (find_entry_app_found es2 es3 _ _ i E). cbn. apply find_entry_Some, lookup_lt_Some in E.
    unfold erase_at. rewrite <- Nat.add_succ_r, take_app_add, drop_app_add, take_app_le, drop_app_le by lia.
    by rewrite <- !app_assoc.
  - assert (find_entry (es2 ++ es3) key rid = None) as ->; [|done].
    apply find_entry_None. intros [H|H]%elem_of_app; [by apply find_entry_None in E|].
    rewrite Forall_forall in H3. by apply H3 in H.
Qed.

Lemma erase_at_fmap {A B} (f : A -> B) i l : f <$> erase_at i l = erase_at i (f <$> l).
Proof. unfold erase_at. by rewrite fmap_app, fmap_take, fmap_drop. Qed.

Lemma erase_at_length {A} i (l : list A) : (i < length l)%nat -> S (length (erase_at i l)) = length l.
Proof. intros. unfold erase_at. rewrite length_app, length_take, length_drop. lia. Qed.

Lemma erase_at_sublist {A} i (l : list A) : sublist (erase_at i l) l.
Proof.
  unfold erase_at. rewrite <- (take_drop i l) at 3. apply sublist_app; [done|].
  rewrite <- Nat.add_1_r, <- drop_drop. apply sublist_drop.
Qed.

Lemma StronglySorted_sublist {A} (R : A -> A -> Prop) l1 l2 : sublist l1 l2 -> StronglySorted R l2 -> StronglySorted R l1.
Proof.
  induction 1 as [|x l1 l2 Hs IH|x l1 l2 Hs IH]; intros H; [done|..]; apply StronglySorted_inv in H as [H1 H2].
  - constructor; [by apply IH|]. rewrite Forall_forall in *. intros y Hy. apply H2. by eapply elem_of_sublist.
  - by apply IH.
Qed.

Lemma sorted_in_sublist lo hi es1 es2 : sublist es1 es2 -> sorted_in lo hi es2 -> sorted_in lo hi es1.
Proof.
  intros Hs [H1 H2]. split; [by eapply StronglySorted_sublist|]. rewrite Forall_forall in *. intros e He.
  apply H2. by eapply elem_of_sublist.
Qed.

Lemma delete_entry_sublist key rid es : sublist (delete_entry key rid es) es.
Proof. unfold delete_entry. destruct (find_entry es key rid); [apply erase_at_sublist|done]. Qed.

Lemma search_entries_mid key es1 es2 es3 :
  Forall (fun e : entry => e.1 <> key) es1 -> Forall (fun e : entry => e.1 <> key) es3 ->
  search_entries key (es1 ++ es2 ++ es3) = search_entries key es2.
Proof.
  intros H1 H3. unfold search_entries. rewrite !filter_app.
  assert (forall l : list entry, Forall (fun e => e.1 <> key) l -> filter (fun e => e.1 = key) l = []) as Hn.
  { induction 1 as [|e l He _ IH]; [done|]. by rewrite filter_cons, decide_False. }
  by rewrite (Hn es1), (Hn es3), app_nil_r by done.
Qed.

(** ** Lemmas: parts of a node *)

Definition sub_t : Type := PageId -> option Z -> option Z -> gset PageId -> list entry -> PageId -> PageId -> Prop.

Lemma lpart_mono (P Q : sub_t) ls a b S es f n :
  (forall c b1 b2 S' es' f' n', S' ⊆ S -> P c b1 b2 S' es' f' n' -> Q c b1 b2 S' es' f' n') ->
  lpart P ls a b S es f n -> lpart Q ls a b S es f n.
Proof.
  intros HPQ H. induction H as [|ls a b c k S1 S2 es1 es2 f g n Hl IH Hc Hd]; [constructor|].
  econstructor; [|eapply HPQ; [|done]; set_solver|done]. apply IH. intros. eapply HPQ; [set_solver|done].
Qed.

Lemma rpart_mono (P Q : sub_t) rs a b S es f n :
  (forall c b1 b2 S' es' f' n', S' ⊆ S -> P c b1 b2 S' es' f' n' -> Q c b1 b2 S' es' f' n') ->
  rpart P rs a b S es f n -> rpart Q rs a b S es f n.
Proof.
  intros HPQ H. induction H as [|rs k c a b S1 S2 es1 es2 f g n Hc Hr IH Hd]; [constructor|].
  econstructor; [eapply HPQ; [|done]; set_solver| |done]. apply IH. intros. eapply HPQ; [set_solver|done].
Qed.

Lemma focus_mono (P Q : sub_t) ls c rs lo hi S es f n :
  (forall c b1 b2 S' es' f' n', S' ⊆ S -> P c b1 b2 S' es' f' n' -> Q c b1 b2 S' es' f' n') ->
  focus P ls c rs lo hi S es f n -> focus Q ls c rs lo hi S es f n.
Proof.
  intros HPQ [b1 b2 S1 S2 S3 es1 es2 es3 g1 g2 Hl Hc Hr H1 H2 H3 -> ->].
  econstructor; [eapply lpart_mono; [|exact Hl]|eapply HPQ; [|exact Hc]|eapply rpart_mono; [|exact Hr]|done..];
    try set_solver; intros; (eapply HPQ; [set_solver|done]).
Qed.

Section Focus.
Context (P : sub_t).
Implicit Types (ls : list (PageId * Z)) (rs : list (Z * PageId)).

(** The bound before a child is the separator to its left, if there is one. *)
Lemma lpart_bound ls a b S es f n :
  lpart P ls a b S es f n -> (ls = [] /\ b = a) \/ exists ls' c k, ls = ls' ++ [(c, k)] /\ b = Some k.
Proof. intros []; [by left|right; eauto]. Qed.

Lemma rpart_bound rs a b S es f n :
  rpart P rs a b S es f n -> (rs = [] /\ a = b) \/ exists k c rs', rs = (k, c) :: rs' /\ a = Some k.
Proof. intros []; [by left|right; eauto]. Qed.

Lemma lpart_snoc_inv ls c k a b S es f n :
  lpart P (ls ++ [(c, k)]) a b S es f n ->
  exists b0 S1 S2 es1 es2 g, b = Some k /\ S = S1 ∪ S2 /\ es = es1 ++ es2 /\ S1 ## S2 /\
    lpart P ls a b0 S1 es1 f g /\ P c b0 (Some k) S2 es2 g n.
Proof.
  intros H. remember (ls ++ [(c, k)]) as l eqn:El. destruct H as [|ls' a b c' k' S1 S2 es1 es2 f g n H1 H2 H3]; [by destruct ls|].
  apply app_inj_tail in El as [-> [= -> ->]]. by eexists _, S1, S2, es1, es2, g.
Qed.

Lemma rpart_cons_inv rs c k a b S es f n :
  rpart P ((k, c) :: rs) a b S es f n ->
  exists b0 S1 S2 es1 es2 g, a = Some k /\ S = S1 ∪ S2 /\ es = es1 ++ es2 /\ S1 ## S2 /\
    P c (Some k) b0 S1 es1 f g /\ rpart P rs b0 b S2 es2 g n.
Proof. inversion 1; subst. by eexists _, _, _, _, _, _. Qed.

(** Moving the focus one child to the right and to the left. *)
Lemma focus_right ls c k d rs lo hi S es f n :
  focus P ls c ((k, d) :: rs) lo hi S es f n -> focus P (ls ++ [(c, k)]) d rs lo hi S es f n.
Proof.
  intros [b1 b2 S1 S2 S3 es1 es2 es3 g1 g2 Hl Hc Hr H12 H13 H23 -> ->].
  apply rpart_cons_inv in Hr as (b3 & S4 & S5 & es4 & es5 & g3 & -> & -> & -> & H45 & Hd & Hr).
  econstructor; [econstructor; [exact Hl|exact Hc|exact H12]|exact Hd|exact Hr|..]; try set_solver.
  by rewrite <- !app_assoc.
Qed.

Lemma focus_left ls c k d rs lo hi S es f n :
  focus P (ls ++ [(c, k)]) d rs lo hi S es f n -> focus P ls c ((k, d) :: rs) lo hi S es f n.
Proof.
  intros [b1 b2 S1 S2 S3 es1 es2 es3 g1 g2 Hl Hc Hr H12 H13 H23 -> ->].
  apply lpart_snoc_inv in Hl as (b3 & S4 & S5 & es4 & es5 & g3 & -> & -> & -> & H45 & Hl & Hd).
  econstructor; [exact Hl|exact Hd|econstructor; [exact Hc|exact Hr|exact H23]|..]; try set_solver.
  by rewrite <- !app_assoc.
Qed.

Lemma node_children_right ls c k d rs : node_children ls c ((k, d) :: rs) = node_children (ls ++ [(c, k)]) d rs.
Proof. unfold node_children. rewrite fmap_app, <- app_assoc. done. Qed.

Lemma node_keys_right ls (c : PageId) k (d : PageId) rs : node_keys ls ((k, d) :: rs) = node_keys (ls ++ [(c, k)]) rs.
Proof. unfold node_keys. rewrite fmap_app, <- app_assoc. done. Qed.

Lemma focus_at ls c rs lo hi S es f n i :
  focus P ls c rs lo hi S es f n -> (i <= length ls + length rs)%nat ->
  exists ls' c' rs', length ls' = i /\ node_keys ls' rs' = node_keys ls rs /\
    node_children ls' c' rs' = node_children ls c rs /\ (length ls' + length rs' = length ls + length rs)%nat /\
    focus P ls' c' rs' lo hi S es f n.
Proof.
  intros Hf Hi. destruct (decide (length ls <= i)%nat) as [Hle|Hgt].
  - assert (exists m, i = (length ls + m)%nat) as [m ->] by (exists (i - length ls)%nat; lia). clear Hle.
    revert ls c rs Hf Hi. induction m as [|m IH]; intros ls c rs Hf Hi; [exists ls, c, rs; rewrite Nat.add_0_r; done|].
    destruct rs as [|[k d] rs]; [cbn in Hi; lia|]. apply focus_right in Hf.
    destruct (IH (ls ++ [(c, k)]) d rs Hf) as (ls' & c' & rs' & H1 & H2 & H3 & H4 & H5); [rewrite length_app; cbn in *; lia|].
    exists ls', c', rs'. rewrite H2, H3, H4, node_children_right, (node_keys_right ls c), length_app in *. cbn in *.
    split_and!; [lia|done..|lia|done].
  - assert (exists m, (i + m)%nat = length ls) as [m Hm] by (exists (length ls - i)%nat; lia). clear Hgt.
    revert ls c rs Hf Hi Hm. induction m as [|m IH]; intros ls c rs Hf Hi Hm; [exists ls, c, rs; split_and!; done || lia|].
    destruct ls as [|[d k] ls _] using rev_ind; [cbn in Hm; lia|]. apply focus_left in Hf. rewrite length_app in Hm, Hi. cbn in Hm, Hi.
    destruct (IH ls d ((k, c) :: rs) Hf) as (ls' & c' & rs' & H1 & H2 & H3 & H4 & H5); [cbn; lia..|].
    exists ls', c', rs'. rewrite H2, H3, H4, <- node_children_right, <- (node_keys_right ls d k c rs), length_app. cbn.
    split_and!; [done..|lia|done].
Qed.

(** The child [upper_bound] routes to: its bounds surround the key. *)
Lemma focus_route ls c rs lo hi S es f n key :
  focus P ls c rs lo hi S es f n -> in_range lo hi key ->
  exists ls' c' rs', length ls' = upper_bound (node_keys ls rs) key /\ node_keys ls' rs' = node_keys ls rs /\
    node_children ls' c' rs' = node_children ls c rs /\ (length ls' + length rs' = length ls + length rs)%nat /\
    exists b1 b2 S1 S2 S3 es1 es2 es3 g1 g2, lpart P ls' lo b1 S1 es1 f g1 /\ P c' b1 b2 S2 es2 g1 g2 /\
      rpart P rs' b2 hi S3 es3 g2 n /\ S1 ## S2 /\ S1 ## S3 /\ S2 ## S3 /\ S = S1 ∪ S2 ∪ S3 /\ es = es1 ++ es2 ++ es3 /\
      in_range b1 b2 key.
Proof.
  intros Hf [Hlo Hhi].
  destruct (focus_at ls c rs lo hi S es f n (upper_bound (node_keys ls rs) key) Hf) as (ls' & c' & rs' & H1 & H2 & H3 & H4 & H5).
  { etrans; [apply upper_bound_le|]. unfold node_keys. rewrite length_app, !length_fmap. done. }
  exists ls', c', rs'. split_and!; [done..|].
  destruct H5 as [b1 b2 S1 S2 S3 es1 es2 es3 g1 g2 Hl Hc Hr H12 H13 H23 -> ->].
  exists b1, b2, S1, S2, S3, es1, es2, es3, g1, g2. split_and!; [done..|]. rewrite <- H2 in H1. split.
  - destruct (lpart_bound _ _ _ _ _ _ _ Hl) as [[-> ->]|(ls0 & d & k & -> & ->)]; [done|]. cbn.
    eapply (upper_bound_before (node_keys (ls0 ++ [(d, k)]) rs') key (length ls0)); [rewrite <- H1, length_app; cbn; lia|].
    unfold node_keys. rewrite fmap_app, <- app_assoc, lookup_app_r by (by rewrite length_fmap). by rewrite length_fmap, Nat.sub_diag.
  - destruct (rpart_bound _ _ _ _ _ _ _ Hr) as [[-> ->]|(k & d & rs0 & -> & ->)]; [done|]. cbn.
    apply (upper_bound_at (node_keys ls' ((k, d) :: rs0)) key). rewrite <- H1. unfold node_keys.
    rewrite lookup_app_r by (by rewrite length_fmap). by rewrite length_fmap, Nat.sub_diag.
Qed.

End Focus.

(** ** Lemmas: subtrees *)

Lemma subtree_range m lm im h pid lo hi S es f n : subtree m lm im h pid lo hi S es f n -> range_ok lo hi.
Proof. destruct h; by intros []. Qed.

(** Only the pages of the footprint matter. *)
Lemma subtree_frame m m' lm im h pid lo hi S es f n :
  (forall q, q ∈ S -> m' q = m q) -> subtree m lm im h pid lo hi S es f n -> subtree m' lm im h pid lo hi S es f n.
Proof.
  revert lm im pid lo hi S es f n. induction h as [|h IH]; intros lm im pid lo hi S es f n Hm [Hr H]; (split; [exact Hr|]).
  - destruct H as (-> & -> & (Hok & buf & Hb & Hrest) & H). split_and!; [done..| |apply H|apply H].
    split; [done|]. exists buf. rewrite Hm by set_solver. done.
  - destruct H as (ls & c & rs & Sf & (Hok & buf & Hb & Hrest) & Him & Hf & Hn & ->). exists ls, c, rs, Sf.
    split_and!; [split; [done|exists buf; rewrite Hm by set_solver; done]|done| |done..].
    eapply focus_mono; [|exact Hf]. intros. eapply IH; [|done]. intros. apply Hm. set_solver.
Qed.

Lemma subtree_weaken m lm im lm' im' h pid lo hi S es f n :
  lm' <= lm -> im' <= im -> subtree m lm im h pid lo hi S es f n -> subtree m lm' im' h pid lo hi S es f n.
Proof.
  intros Hl Hi. destruct h; intros [Hr H]; (split; [done|]).
  - destruct H as (? & ? & ? & ? & ?). split_and!; [done..|lia].
  - destruct H as (ls & c & rs & Sf & ? & ? & ? & ? & ?). exists ls, c, rs, Sf. split_and!; [done|lia|done..].
Qed.

Lemma lpart_alloc (P : sub_t) (m : store) ls a b S es f n :
  (forall c b1 b2 S' es' f' n' q, P c b1 b2 S' es' f' n' -> q ∈ S' -> is_Some (m q)) ->
  lpart P ls a b S es f n -> forall q, q ∈ S -> is_Some (m q).
Proof. intros HP. induction 1; [set_solver|]. intros q [?|?]%elem_of_union; eauto. Qed.

Lemma rpart_alloc (P : sub_t) (m : store) rs a b S es f n :
  (forall c b1 b2 S' es' f' n' q, P c b1 b2 S' es' f' n' -> q ∈ S' -> is_Some (m q)) ->
  rpart P rs a b S es f n -> forall q, q ∈ S -> is_Some (m q).
Proof. intros HP. induction 1; [set_solver|]. intros q [?|?]%elem_of_union; eauto. Qed.

(** Every page of a tree is allocated. *)
Lemma subtree_alloc m lm im h pid lo hi S es f n q :
  subtree m lm im h pid lo hi S es f n -> q ∈ S -> is_Some (m q).
Proof.
  revert lm im pid lo hi S es f n q. induction h as [|h IH]; intros lm im pid lo hi S es f n q [_ H] Hq.
  - destruct H as (_ & -> & (_ & buf & Hb & _) & _). apply elem_of_singleton in Hq as ->. eauto.
  - destruct H as (ls & c & rs & Sf & (_ & buf & Hb & _) & _ & Hf & _ & ->).
    apply elem_of_union in Hq as [->%elem_of_singleton|Hq]; [eauto|].
    destruct Hf as [b1 b2 S1 S2 S3 es1 es2 es3 g1 g2 Hl Hc Hr _ _ _ -> _].
    apply elem_of_union in Hq as [[Hq|Hq]%elem_of_union|Hq]; [|by eapply IH|].
    + eapply lpart_alloc; [|exact Hl|exact Hq]. intros. by eapply IH.
    + eapply rpart_alloc; [|exact Hr|exact Hq]. intros. by eapply IH.
Qed.

Lemma subtree_root m lm im h pid lo hi S es f n : subtree m lm im h pid lo hi S es f n -> pid ∈ S.
Proof. destruct h; intros [_ H]; [destruct H as (_ & -> & _)|destruct H as (?&?&?&?&_&_&_&_&->)]; set_solver. Qed.

(** Bounds compared, the open ends being infinite. *)
Definition bound_le (a b : option Z) : Prop := (forall k, above b k -> above a k).
Definition bound_ge (a b : option Z) : Prop := (forall k, below b k -> below a k).

Lemma sorted_in_weaken lo hi lo' hi' es : bound_le lo' lo -> bound_ge hi' hi -> sorted_in lo hi es -> sorted_in lo' hi' es.
Proof.
  intros Hl Hh [H1 H2]. split; [done|]. eapply Forall_impl; [exact H2|]. intros e [? ?]. split; auto.
Qed.

(** A separator lies strictly above the lower end of what it closes. *)
Definition strictly_above (lo : option Z) (k : Z) : Prop := match lo with Some l => l < k | None => True end.

Lemma lpart_sorted (P : sub_t) ls a b S es f n :
  (forall c b1 b2 S' es' f' n', P c b1 b2 S' es' f' n' -> range_ok b1 b2 /\ sorted_in b1 b2 es') ->
  lpart P ls a b S es f n -> ls = [] /\ b = a /\ es = [] \/ exists k, b = Some k /\ strictly_above a k /\ sorted_in a (Some k) es.
Proof.
  intros HP. induction 1 as [|ls a b c k S1 S2 es1 es2 f g n Hl IH Hc Hd]; [by left|]. right. exists k. split; [done|].
  destruct (HP _ _ _ _ _ _ _ Hc) as [Hr Hs]. destruct IH as [(-> & -> & ->)|(k0 & -> & Hk0 & Hs1)]; [split; done|].
  cbn in Hr. split; [destruct a; cbn in *; lia|].
  apply (sorted_in_app a k0); [done|done|destruct a; cbn in *; [lia|done]|left; cbn; lia].
Qed.

Definition strictly_below (hi : option Z) (k : Z) : Prop := below hi k.

Lemma rpart_sorted (P : sub_t) rs a b S es f n :
  (forall c b1 b2 S' es' f' n', P c b1 b2 S' es' f' n' -> range_ok b1 b2 /\ sorted_in b1 b2 es') ->
  rpart P rs a b S es f n -> rs = [] /\ a = b /\ es = [] \/ exists k, a = Some k /\ strictly_below b k /\ sorted_in (Some k) b es.
Proof.
  intros HP. induction 1 as [|rs k c a b S1 S2 es1 es2 f g n Hc Hr IH Hd]; [by left|]. right. exists k. split; [done|].
  destruct (HP _ _ _ _ _ _ _ Hc) as [Hro Hs]. destruct IH as [(-> & -> & ->)|(k0 & -> & Hk0 & Hs1)].
  - rewrite app_nil_r. split; [by destruct b|done].
  - cbn in Hro. split; [unfold strictly_below in *; destruct b; cbn in *; [lia|done]|].
    apply (sorted_in_app (Some k) k0); [done|done|cbn; lia|left; done].
Qed.

Lemma focus_sorted (P : sub_t) ls c rs lo hi S es f n :
  (forall c b1 b2 S' es' f' n', P c b1 b2 S' es' f' n' -> range_ok b1 b2 /\ sorted_in b1 b2 es') ->
  focus P ls c rs lo hi S es f n -> range_ok lo hi /\ sorted_in lo hi es.
Proof.
  intros HP [b1 b2 S1 S2 S3 es1 es2 es3 g1 g2 Hl Hc Hr _ _ _ _ ->].
  destruct (HP _ _ _ _ _ _ _ Hc) as [Hro Hs].
  assert (range_ok b1 hi /\ sorted_in b1 hi (es2 ++ es3)) as [Hro2 Hs2].
  { destruct (rpart_sorted _ _ _ _ _ _ _ _ HP Hr) as [(_ & -> & ->)|(k & -> & Hk & Hs3)]; [by rewrite app_nil_r|].
    split; [destruct b1, hi; cbn in *; try done; lia|].
    apply (sorted_in_app b1 k); [done|done|destruct b1; cbn in *; [lia|done]|left; done]. }
  destruct (lpart_sorted _ _ _ _ _ _ _ _ HP Hl) as [(_ & -> & ->)|(k & -> & Hk & Hs1)]; [done|].
  split; [destruct lo, hi; cbn in *; try done; lia|].
  apply (sorted_in_app lo k); [done|done|destruct lo; cbn in *; [lia|done]|left; destruct hi; cbn in *; done].
Qed.

(** The entries of a subtree are sorted and inside its range. *)
Lemma subtree_sorted m lm im h pid lo hi S es f n : subtree m lm im h pid lo hi S es f n -> range_ok lo hi /\ sorted_in lo hi es.
Proof.
  revert lm im pid lo hi S es f n. induction h as [|h IH]; intros lm im pid lo hi S es f n [Hr H].
  - split; [done|]. apply H.
  - destruct H as (ls & c & rs & Sf & _ & _ & Hf & _). eapply focus_sorted; [|exact Hf]. intros. by eapply IH.
Qed.

(** What the routing bounds say about the entries left and right of a child. *)
Lemma parts_around m h ls rs lo hi b1 b2 S1 S3 es1 es3 f g1 g2 n key :
  lpart (child m h) ls lo b1 S1 es1 f g1 -> rpart (child m h) rs b2 hi S3 es3 g2 n -> in_range b1 b2 key ->
  Forall (fun e : entry => e.1 < key) es1 /\ Forall (fun e : entry => key < e.1) es3.
Proof.
  intros Hl Hr [Hb1 Hb2].
  assert (forall c b1 b2 S' es' f' n', child m h c b1 b2 S' es' f' n' -> range_ok b1 b2 /\ sorted_in b1 b2 es') as HP
    by (intros; by eapply subtree_sorted).
  split; apply Forall_forall; intros e He.
  - destruct (lpart_sorted _ _ _ _ _ _ _ _ HP Hl) as [(_ & _ & ->)|(k & -> & _ & [_ Hs])]; [by apply not_elem_of_nil in He|].
    rewrite Forall_forall in Hs. apply Hs in He as [_ He]. cbn in *. lia.
  - destruct (rpart_sorted _ _ _ _ _ _ _ _ HP Hr) as [(_ & _ & ->)|(k & -> & _ & [_ Hs])]; [by apply not_elem_of_nil in He|].
    rewrite Forall_forall in Hs. apply Hs in He as [He _]. cbn in *. lia.
Qed.

(** ** The entries as a multiset *)

Lemma key_count_perm k es1 es2 : es1 ≡ₚ es2 -> key_count k es1 = key_count k es2.
Proof. intros H. unfold key_count, zlen. by rewrite H. Qed.

Lemma insert_entry_perm key rid es : insert_entry key rid es ≡ₚ (key, rid) :: es.
Proof. apply insert_at_Permutation. Qed.

Lemma delete_entry_perm key rid es : (key, rid) ∈ es -> es ≡ₚ (key, rid) :: delete_entry key rid es.
Proof.
  intros Hin. unfold delete_entry. destruct (find_entry es key rid) as [i|] eqn:E; [|by apply find_entry_None in E].
  apply find_entry_Some in E. unfold erase_at. rewrite <- (take_drop_middle _ _ _ E) at 1. symmetry. apply Permutation_middle.
Qed.

Lemma search_entries_perm key es1 es2 : es1 ≡ₚ es2 -> search_entries key es1 ≡ₚ search_entries key es2.
Proof. intros H. unfold search_entries. by rewrite H. Qed.

End BTreeSpec.
