(* ===== verification/BTreeReads.v ===== *)
(** * BTreeReads: the read operations of the B+ tree

    Steps of the tree operations on the pool, the depth bound that keeps every
    descent inside [kMaxTraversalSteps], and what [Search], [RangeScanAll],
    [Height] and [Empty] return. *)
From S2P Require Export BTreeSpec.

Module BTreeReads.
Import BTreeNode BTree BTreeSpec.

Definition next (v : View) : Z := next_page_id_ (disk_manager_ (v_pool v)).

(** ** Steps on the pool *)

Record tstep (v v' : View) : Prop := mkTstep {
  ts_frame : frame v v';
  ts_wf : pool_wf (v_pool v) -> pool_wf (v_pool v');
  ts_next : next v <= next v';
  ts_cached q : is_Some (pages_ (v_pool v) !! q) -> is_Some (pages_ (v_pool v') !! q);
  ts_ids : v_page_ids v' = v_page_ids v
}.

#[global] Instance tstep_preorder : PreOrder tstep.
Proof.
  split; [intros v; by split|]. intros v1 v2 v3 [] []. split; [by etrans|auto|lia|auto|congruence].
Qed.

(** Steps no reader can see. *)
Record peek (v v' : View) : Prop := mkPeek {
  pk_step : tstep v v';
  pk_mem q : mem v' q = mem v q;
  pk_next : next v' = next v
}.

#[global] Instance peek_preorder : PreOrder peek.
Proof.
  split; [intros v; by split|]. intros v1 v2 v3 [] []. split; [by etrans|congruence|congruence].
Qed.

Lemma peek_uncontended v v' : peek v v' -> uncontended v -> uncontended v'.
Proof. intros [[Hf]]. apply Hf. Qed.

Lemma peek_subtree v v' lm im h pid lo hi S es f n :
  peek v v' -> subtree (mem v) lm im h pid lo hi S es f n -> subtree (mem v') lm im h pid lo hi S es f n.
Proof. intros H. apply subtree_frame. intros. apply H. Qed.

Lemma lock_peek oid pid mode v :
  uncontended v -> exists v', LockPage oid pid mode v = (Ret tt, v') /\ peek v v' /\ v_pool v' = v_pool v.
Proof.
  intros Hu. destruct (LockPage_run oid pid mode v Hu) as (v' & H & Hp & Hi & Hf). exists v'. split; [done|].
  split; [|done]. unfold mem, next. split; unfold mem, next; [split; [done|..|done]|..]; unfold next; by rewrite ?Hp.
Qed.

Lemma fetch_peek pid v buf :
  mem v pid = Some buf -> exists v', FetchPage pid v = (Ret pid, v') /\ peek v v' /\
    data_of pid v' = (Ret buf, v') /\ pages_ (v_pool v') !! pid = Some buf.
Proof.
  intros Hm. exists (cache pid buf v). split; [by apply FetchPage_run|].
  assert (pages_ (v_pool (cache pid buf v)) !! pid = Some buf) as Hc by apply cached_cache.
  split; [split; [split|..]|split; [by apply (on_page_read _ _ _ buf)|done]].
  - by apply fetched_frame.
  - intros. by apply fetched_wf.
  - done.
  - intros q [x Hx]. cbn. destruct (decide (q = pid)) as [->|]; [rewrite lookup_insert_eq|rewrite lookup_insert_ne by done]; eauto.
  - done.
  - intros q. unfold mem. rewrite mem_page_cache. case_decide; [by subst|done].
  - done.
Qed.

(** [LockPage], [FetchPage] and a read of the page. *)
Lemma lock_fetch oid pid mode v buf :
  uncontended v -> mem v pid = Some buf ->
  exists v1 v2, LockPage oid pid mode v = (Ret tt, v1) /\ FetchPage pid v1 = (Ret pid, v2) /\
    data_of pid v2 = (Ret buf, v2) /\ peek v v2 /\ pages_ (v_pool v2) !! pid = Some buf.
Proof.
  intros Hu Hm. destruct (lock_peek oid pid mode v Hu) as (v1 & H1 & Hp1 & _).
  destruct (fetch_peek pid v1 buf) as (v2 & H2 & Hp2 & Hd & Hc); [by rewrite (pk_mem _ _ Hp1)|].
  exists v1, v2. split_and!; [done..|by etrans|done].
Qed.

Lemma open_shared_run oid pid v buf :
  uncontended v -> mem v pid = Some buf -> exists v', open_shared oid pid v = (Ret buf, v') /\ peek v v'.
Proof.
  intros Hu Hm. destruct (lock_fetch oid pid kShared v buf Hu Hm) as (v1 & v2 & H1 & H2 & H3 & Hp & _).
  exists v2. split; [|done]. unfold open_shared. run H1. run H2. done.
Qed.

Lemma GetRootPageId_run v hp :
  mem v kRootHeaderPageId = Some hp ->
  exists v', GetRootPageId v = (Ret (DeserializeHeaderRootPageId hp), v') /\ peek v v'.
Proof.
  intros Hm. destruct (fetch_peek _ _ _ Hm) as (v' & H & Hp & Hd & _). exists v'. split; [|done].
  unfold GetRootPageId. run H. run Hd. done.
Qed.

Lemma lift_run {W A} (a : A) (w : W) : lift (Ret a) w = (Ret a, w).
Proof. done. Qed.

(** Every read starts the same way: the header lock and the root pointer. *)
Lemma locked_root oid mode v hp :
  uncontended v -> mem v kRootHeaderPageId = Some hp ->
  exists v1 v2, LockRoot oid mode v = (Ret tt, v1) /\
    GetRootPageId v1 = (Ret (DeserializeHeaderRootPageId hp), v2) /\ peek v v2.
Proof.
  intros Hu Hm. destruct (lock_peek oid kRootHeaderPageId mode v Hu) as (v1 & H1 & Hp1 & _).
  destruct (GetRootPageId_run v1 hp) as (v2 & H2 & Hp2); [by rewrite (pk_mem _ _ Hp1)|].
  exists v1, v2. split_and!; [done..|by etrans].
Qed.

(** ** Depth *)

Lemma lpart_size (P : sub_t) N ls a b S es f n :
  (forall c b1 b2 S' es' f' n', P c b1 b2 S' es' f' n' -> N <= Z.of_nat (size S')) ->
  lpart P ls a b S es f n -> zlen ls * N <= Z.of_nat (size S).
Proof.
  intros HP. induction 1 as [|ls a b c k S1 S2 es1 es2 f g n Hl IH Hc Hd]; [unfold zlen; cbn; lia|].
  rewrite size_union by done. apply HP in Hc. unfold zlen in *. rewrite length_app. cbn [length]. lia.
Qed.

Lemma rpart_size (P : sub_t) N rs a b S es f n :
  (forall c b1 b2 S' es' f' n', P c b1 b2 S' es' f' n' -> N <= Z.of_nat (size S')) ->
  rpart P rs a b S es f n -> zlen rs * N <= Z.of_nat (size S).
Proof.
  intros HP. induction 1 as [|rs k c a b S1 S2 es1 es2 f g n Hc Hr IH Hd]; [unfold zlen; cbn; lia|].
  rewrite size_union by done. apply HP in Hc. unfold zlen in *. cbn [length]. lia.
Qed.

Lemma focus_size (P : sub_t) N ls c rs lo hi S es f n :
  (forall c b1 b2 S' es' f' n', P c b1 b2 S' es' f' n' -> N <= Z.of_nat (size S')) ->
  focus P ls c rs lo hi S es f n -> (zlen ls + zlen rs + 1) * N <= Z.of_nat (size S).
Proof.
  intros HP [b1 b2 S1 S2 S3 es1 es2 es3 g1 g2 Hl Hc Hr H12 H13 H23 -> _].
  apply (lpart_size P N) in Hl; [|done]. apply (rpart_size P N) in Hr; [|done]. apply HP in Hc.
  rewrite size_union by set_solver. rewrite size_union by done. lia.
Qed.

(** A node of height [h] below the root has at least [170 ^ h] pages. *)
Lemma child_size m h pid lo hi S es f n :
  child m h pid lo hi S es f n -> 170 ^ Z.of_nat h <= Z.of_nat (size S).
Proof.
  revert pid lo hi S es f n. induction h as [|h IH]; intros pid lo hi S es f n [_ H].
  - destruct H as (_ & -> & _). rewrite size_singleton. done.
  - destruct H as (ls & c & rs & Sf & _ & Him & Hf & Hn & ->).
    apply (focus_size _ (170 ^ Z.of_nat h)) in Hf; [|intros; by eapply IH].
    rewrite size_union, size_singleton by set_solver.
    rewrite Nat2Z.inj_succ, Z.pow_succ_r by lia. change kInternalMinKeys with 169 in Him. nia.
Qed.

Lemma pages_bound (bp : BufferPool) (S : gset PageId) :
  pool_wf bp -> (forall q, q ∈ S -> is_Some (mem_page bp q)) -> Z.of_nat (size S) <= next_page_id_ (disk_manager_ bp).
Proof.
  intros Hwf H. set (N := next_page_id_ (disk_manager_ bp)).
  assert (0 <= N) as HN by (subst N; rewrite (dw_next _ (pw_disk _ Hwf)); unfold zlen; lia).
  assert (S ⊆ list_to_set (seqZ 0 N)) as Hs.
  { intros q Hq. apply elem_of_list_to_set, elem_of_seqZ. destruct (H q Hq) as [p Hp].
    apply mem_page_facts in Hp as [? _]; [|done]. fold N in H0. lia. }
  apply subseteq_size in Hs. rewrite size_list_to_set in Hs by apply NoDup_seqZ. rewrite length_seqZ in Hs. lia.
Qed.

(** No tree over 32-bit page ids is higher than six levels. *)
Lemma btree_height v h root S es f n :
  pool_wf (v_pool v) -> subtree (mem v) 1 1 h root None None S es f n -> (h <= 5)%nat.
Proof.
  intros Hwf Hs. assert (forall q, q ∈ S -> is_Some (mem_page (v_pool v) q)) as Ha by (intros; by eapply subtree_alloc).
  apply pages_bound in Ha; [|done]. pose proof (dw_bound _ (pw_disk _ Hwf)) as Hb.
  destruct h as [|h]; [lia|]. destruct Hs as [_ (ls & c & rs & Sf & _ & Him & Hf & Hn & ->)].
  apply (focus_size _ (170 ^ Z.of_nat h)) in Hf; [|intros; by eapply child_size].
  rewrite size_union, size_singleton in Ha by set_solver.
  destruct (decide (h <= 4)%nat); [lia|]. exfalso.
  assert (170 ^ 5 <= 170 ^ Z.of_nat h) by (apply Z.pow_le_mono_r; lia).
  assert (2 ^ 32 < 170 ^ 5) by done. nia.
Qed.

(** ** Search *)

Lemma node_child ls c rs : vec_at (node_children ls c rs) (zlen ls) = Ret c.
Proof.
  apply vec_at_run; [apply zlen_nonneg|]. unfold node_children, zlen. rewrite Nat2Z.id.
  rewrite lookup_app_r by (by rewrite length_fmap). by rewrite length_fmap, Nat.sub_diag.
Qed.

Lemma zip_entries (es : list entry) : zip es.*1 es.*2 = es.
Proof. induction es as [|[k r] es IH]; cbn; [done|]. by rewrite IH. Qed.

Lemma search_loop_run oid key h pid lo hi S es f n lm im v fuel :
  subtree (mem v) lm im h pid lo hi S es f n -> in_range lo hi key -> uncontended v -> (h < fuel)%nat ->
  exists v', search_loop oid fuel key pid v = (Ret (search_entries key es), v') /\ peek v v'.
Proof.
  revert lm im pid lo hi S es f n v fuel. induction h as [|h IH]; intros lm im pid lo hi S es f n v fuel [Hro Hs] Hk Hu Hf;
    (destruct fuel as [|fuel]; [lia|]); cbn [search_loop].
  - destruct Hs as (-> & -> & (Hok & buf & Hb & Hleaf & Hd) & Hso & _).
    destruct (open_shared_run oid pid v buf Hu Hb) as (v1 & H1 & Hp1). exists v1. split; [|done].
    run H1. rewrite Hleaf. rewrite Hd. run (lift_run (leaf_of pid n es) v1). unfold matches, leaf_of. cbn [l_keys l_values].
    by rewrite zip_entries.
  - destruct Hs as (ls & c & rs & Sf & (Hok & buf & Hb & Hleaf & Hd) & Him & Hfo & Hn & ->).
    destruct (open_shared_run oid pid v buf Hu Hb) as (v1 & H1 & Hp1).
    destruct (focus_route _ _ _ _ _ _ _ _ _ _ key Hfo Hk) as (ls' & c' & rs' & Hi & Hke & Hch & Hlen & b1 & b2 & S1 & S2 & S3 & es1 & es2 & es3 & g1 & g2 & Hl & Hc & Hr & _ & _ & _ & -> & -> & Hk').
    destruct (IH 1 kInternalMinKeys c' b1 b2 S2 es2 g1 g2 v1 fuel) as (v2 & H2 & Hp2);
      [by eapply peek_subtree|done|by eapply peek_uncontended|lia|].
    exists v2. split; [|by etrans]. run H1. rewrite Hleaf, Hd. run (lift_run (node_of pid ls c rs) v1).
    unfold node_of. cbn [n_keys n_children]. rewrite <- Hi, <- Hch. fold (zlen ls'). rewrite node_child. run (lift_run c' v1). rewrite H2.
    destruct (parts_around (mem v) h ls' rs' lo hi b1 b2 S1 S3 es1 es3 f g1 g2 n key Hl Hr Hk') as [Ha1 Ha3].
    rewrite search_entries_mid; [done|..]; (eapply Forall_impl; [eassumption|]); intros; cbn in *; lia.
Qed.

Lemma Search_run oid key v es :
  btree v es -> uncontended v -> exists v', Search oid key v = (Ret (search_entries key es), v') /\ peek v v'.
Proof.
  intros [Hwf (hp & root & Hhp & Hr & Ht)] Hu.
  destruct (locked_root oid kShared v hp Hu Hhp) as (v1 & v2 & H1 & H2 & Hp). unfold Search. run H1. run H2. rewrite Hr.
  destruct Ht as [[-> ->]|(h & S & f & Ht & H0)]; [by exists v2|].
  assert (root <> INVALID_PAGE_ID) as Hne.
  { destruct (subtree_alloc _ _ _ _ _ _ _ _ _ _ _ root Ht (subtree_root _ _ _ _ _ _ _ _ _ _ _ Ht)) as [p Hrp].
    apply mem_page_facts in Hrp as [Hrp _]; [|done]. pose proof (dw_bound _ (pw_disk _ Hwf)). unfold INVALID_PAGE_ID. lia. }
  rewrite (proj2 (Z.eqb_neq _ _) Hne). pose proof (btree_height _ _ _ _ _ _ _ Hwf Ht) as Hh.
  destruct (search_loop_run oid key h root None None S es f INVALID_PAGE_ID 1 1 v2 (Z.to_nat kMaxTraversalSteps)) as (v3 & H3 & Hp3);
    [by eapply peek_subtree|done|by eapply peek_uncontended|unfold kMaxTraversalSteps; lia|].
  exists v3. split; [done|by etrans].
Qed.

(** A root is a page of the object, never the invalid id. *)
Lemma root_valid v lm im h root lo hi S es f n :
  pool_wf (v_pool v) -> subtree (mem v) lm im h root lo hi S es f n -> root <> INVALID_PAGE_ID.
Proof.
  intros Hwf Ht. destruct (subtree_alloc _ _ _ _ _ _ _ _ _ _ _ root Ht (subtree_root _ _ _ _ _ _ _ _ _ _ _ Ht)) as [p Hrp].
  apply mem_page_facts in Hrp as [Hrp _]; [|done]. pose proof (dw_bound _ (pw_disk _ Hwf)). unfold INVALID_PAGE_ID. lia.
Qed.

(** ** The leaf chain *)

Inductive chain (m : store) : PageId -> PageId -> nat -> list entry -> Prop :=
| chain_nil f : chain m f f O []
| chain_cons f nx n k es1 es2 :
    leaf_at m f (leaf_of f nx es1) -> chain m nx n k es2 -> chain m f n (S k) (es1 ++ es2).

Lemma chain_app m f g n k1 k2 es1 es2 :
  chain m f g k1 es1 -> chain m g n k2 es2 -> chain m f n (k1 + k2) (es1 ++ es2).
Proof. induction 1; intros; [done|]. cbn. rewrite <- app_assoc. econstructor; eauto. Qed.

(** A run of leaves holding [es]: at least one entry, and at most
    [kLeafMaxKeys], each. *)
Definition leaf_run (m : store) (f n : PageId) (es : list entry) : Prop :=
  exists k, chain m f n k es /\ Z.of_nat k <= zlen es <= Z.of_nat k * kLeafMaxKeys.

Lemma leaf_run_nil m f : leaf_run m f f [].
Proof. exists O. split; [constructor|unfold zlen; cbn; lia]. Qed.

Lemma leaf_run_app m f g n es1 es2 : leaf_run m f g es1 -> leaf_run m g n es2 -> leaf_run m f n (es1 ++ es2).
Proof.
  intros (k1 & H1 & L1) (k2 & H2 & L2). exists (k1 + k2)%nat. split; [by eapply chain_app|]. rewrite zlen_app. lia.
Qed.

Lemma lpart_leaf_run (P : sub_t) m ls a b S es f n :
  (forall c b1 b2 S' es' f' n', P c b1 b2 S' es' f' n' -> leaf_run m f' n' es') ->
  lpart P ls a b S es f n -> leaf_run m f n es.
Proof. intros HP. induction 1; [apply leaf_run_nil|]. eapply leaf_run_app; [done|by eapply HP]. Qed.

Lemma rpart_leaf_run (P : sub_t) m rs a b S es f n :
  (forall c b1 b2 S' es' f' n', P c b1 b2 S' es' f' n' -> leaf_run m f' n' es') ->
  rpart P rs a b S es f n -> leaf_run m f n es.
Proof. intros HP. induction 1; [apply leaf_run_nil|]. eapply leaf_run_app; [by eapply HP|done]. Qed.

Lemma subtree_leaf_run m im h pid lo hi S es f n : subtree m 1 im h pid lo hi S es f n -> leaf_run m f n es.
Proof.
  revert im pid lo hi S es f n. induction h as [|h IH]; intros im pid lo hi S es f n [_ H].
  - destruct H as (-> & -> & Hl & _ & Hlen). exists 1%nat. split.
    + rewrite <- (app_nil_r es). econstructor; [done|constructor].
    + destruct Hl as [Hok _]. apply lo_max in Hok. unfold leaf_of, zlen in Hok. cbn [l_keys] in Hok.
      rewrite length_fmap in Hok. unfold zlen in *. lia.
  - destruct H as (ls & c & rs & Sf & _ & _ & [b1 b2 S1 S2 S3 es1 es2 es3 g1 g2 Hl Hc Hr _ _ _ _ ->] & _).
    assert (forall c b1 b2 S' es' f' n', child m h c b1 b2 S' es' f' n' -> leaf_run m f' n' es') as HP by (intros; by eapply IH).
    eapply leaf_run_app; [by eapply lpart_leaf_run|]. eapply leaf_run_app; [by eapply HP|by eapply rpart_leaf_run].
Qed.

(** ** RangeScanAll and Height *)

(** The first child of a node, where the leftmost descent goes. *)
Lemma first_child (P : sub_t) ls c rs lo hi S es f n :
  focus P ls c rs lo hi S es f n ->
  exists c0 b S' es' g, vec_at (node_children ls c rs) 0 = Ret c0 /\ P c0 lo b S' es' f g /\ S' ⊆ S.
Proof.
  intros Hf. destruct (focus_at P _ _ _ _ _ _ _ _ _ O Hf) as (ls' & c' & rs' & Hl & _ & Hch & _ & Hf'); [lia|].
  apply nil_length_inv in Hl as ->. destruct Hf' as [b1 b2 S1 S2 S3 es1 es2 es3 g1 g2 Hlp Hc Hr _ _ _ -> _].
  inversion Hlp as [|ls0 ? ? ? ? ? ? ? ? ? ? ? ? ? ? Hls]; [subst|by destruct ls0].
  rewrite <- Hch. exists c', b2, S2, es2, g2. split_and!; [apply (node_child [] c' rs')|done|set_solver].
Qed.

Lemma leftmost_loop_run oid h pid lo hi S es f n lm im v fuel buf :
  subtree (mem v) lm im h pid lo hi S es f n -> mem v pid = Some buf -> uncontended v -> (h <= fuel)%nat ->
  exists buf' v', leftmost_loop oid fuel buf v = (Ret buf', v') /\ mem v f = Some buf' /\ peek v v'.
Proof.
  revert lm im pid lo hi S es f n v fuel buf. induction h as [|h IH]; intros lm im pid lo hi S es f n v fuel buf [Hro Hs] Hm Hu Hf.
  - destruct Hs as (-> & -> & (Hok & buf' & Hb & Hleaf & Hd) & _). rewrite Hm in Hb. injection Hb as <-.
    exists buf, v. destruct fuel; cbn [leftmost_loop]; rewrite Hleaf; done.
  - destruct Hs as (ls & c & rs & Sf & (Hok & buf' & Hb & Hleaf & Hd) & Him & Hfo & Hn & ->). rewrite Hm in Hb. injection Hb as <-.
    destruct (first_child _ _ _ _ _ _ _ _ _ _ Hfo) as (c0 & b & S' & es' & g & Hc0 & Hsub & HS).
    destruct (subtree_alloc _ _ _ _ _ _ _ _ _ _ _ c0 Hsub (subtree_root _ _ _ _ _ _ _ _ _ _ _ Hsub)) as [buf1 Hb1].
    destruct (open_shared_run oid c0 v buf1 Hu Hb1) as (v1 & H1 & Hp1).
    destruct fuel as [|fuel]; [lia|].
    destruct (IH 1 kInternalMinKeys c0 lo b S' es' f g v1 fuel buf1) as (buf2 & v2 & H2 & Hm2 & Hp2);
      [by eapply peek_subtree|by rewrite (pk_mem _ _ Hp1)|by eapply peek_uncontended|lia|].
    exists buf2, v2. cbn [leftmost_loop]. rewrite Hleaf, Hd. run (lift_run (node_of pid ls c rs) v).
    unfold node_of. cbn [n_children]. rewrite Hc0. run (lift_run c0 v). run H1. rewrite (pk_mem _ _ Hp1) in Hm2.
    split_and!; [done..|by etrans].
Qed.

Lemma height_loop_run oid h pid lo hi S es f n lm im v fuel buf h0 :
  subtree (mem v) lm im h pid lo hi S es f n -> mem v pid = Some buf -> uncontended v -> (h <= fuel)%nat ->
  exists v', height_loop oid fuel h0 buf v = (Ret (h0 + Z.of_nat h), v') /\ peek v v'.
Proof.
  revert lm im pid lo hi S es f n v fuel buf h0. induction h as [|h IH]; intros lm im pid lo hi S es f n v fuel buf h0 [Hro Hs] Hm Hu Hf.
  - destruct Hs as (-> & -> & (Hok & buf' & Hb & Hleaf & Hd) & _). rewrite Hm in Hb. injection Hb as <-.
    exists v. destruct fuel; cbn [height_loop]; rewrite Hleaf, Z.add_0_r; done.
  - destruct Hs as (ls & c & rs & Sf & (Hok & buf' & Hb & Hleaf & Hd) & Him & Hfo & Hn & ->). rewrite Hm in Hb. injection Hb as <-.
    destruct (first_child _ _ _ _ _ _ _ _ _ _ Hfo) as (c0 & b & S' & es' & g & Hc0 & Hsub & HS).
    destruct (subtree_alloc _ _ _ _ _ _ _ _ _ _ _ c0 Hsub (subtree_root _ _ _ _ _ _ _ _ _ _ _ Hsub)) as [buf1 Hb1].
    destruct (open_shared_run oid c0 v buf1 Hu Hb1) as (v1 & H1 & Hp1).
    destruct fuel as [|fuel]; [lia|].
    destruct (IH 1 kInternalMinKeys c0 lo b S' es' f g v1 fuel buf1 (h0 + 1)) as (v2 & H2 & Hp2);
      [by eapply peek_subtree|by rewrite (pk_mem _ _ Hp1)|by eapply peek_uncontended|lia|].
    exists v2. cbn [height_loop]. rewrite Hleaf, Hd. run (lift_run (node_of pid ls c rs) v).
    unfold node_of. cbn [n_children]. rewrite Hc0. run (lift_run c0 v). run H1. rewrite H2.
    split; [do 2 f_equal; lia|by etrans].
Qed.

(** The walk along the chain: all the entries when the steps suffice, the
    step-count error when there are more leaves than steps. *)
Lemma chain_loop_run oid f k es v fuel buf out :
  chain (mem v) f INVALID_PAGE_ID (S k) es -> pool_wf (v_pool v) -> uncontended v -> mem v f = Some buf ->
  (exists v', chain_loop oid fuel buf out v =
     (if decide (k < fuel)%nat then Ret (out ++ es) else Throw RuntimeError, v') /\ peek v v').
Proof.
  revert f es v fuel buf out. induction k as [|k IH]; intros f es v fuel buf out Hc Hwf Hu Hm;
    inversion Hc as [|? nx ? ? es1 es2 (Hok & buf' & Hb & Hleaf & Hd) Hc' Heq]; subst;
    rewrite Hm in Hb; injection Hb as <-; (destruct fuel as [|fuel]; [exists v; rewrite decide_False by lia; done|]); cbn [chain_loop].
  - inversion Hc'; subst. rewrite Hd. run (lift_run (leaf_of f INVALID_PAGE_ID es1) v). unfold leaf_of. cbn [l_keys l_values l_next_leaf].
    rewrite Z.eqb_refl, zip_entries, app_nil_r. exists v. by rewrite decide_True by lia.
  - rewrite Hd. run (lift_run (leaf_of f nx es1) v). unfold leaf_of. cbn [l_keys l_values l_next_leaf]. rewrite zip_entries.
    assert (exists buf1, mem v nx = Some buf1) as [buf1 Hb1] by (inversion Hc' as [|? ? ? ? ? ? (_ & b1 & ? & _)]; eauto).
    assert (nx <> INVALID_PAGE_ID) as Hne.
    { apply mem_page_facts in Hb1 as [? _]; [|done]. pose proof (dw_bound _ (pw_disk _ Hwf)). unfold INVALID_PAGE_ID. lia. }
    rewrite (proj2 (Z.eqb_neq _ _) Hne).
    destruct (open_shared_run oid nx v buf1 Hu Hb1) as (v1 & H1 & Hp1). run H1.
    assert (chain (mem v1) nx INVALID_PAGE_ID (S k) es2) as Hc1.
    { clear -Hc' Hp1. induction Hc' as [|? ? ? ? ? ? (? & b & ? & ?)]; econstructor; [|done].
      split; [done|]. exists b. by rewrite (pk_mem _ _ Hp1). }
    destruct (IH nx es2 v1 fuel buf1 (out ++ es1)) as (v2 & H2 & Hp2);
      [done|by apply Hp1|by eapply peek_uncontended|by rewrite (pk_mem _ _ Hp1)|].
    exists v2. rewrite H2. split; [|by etrans]. destruct (decide (k < fuel)%nat).
    + rewrite decide_True by lia. by rewrite <- app_assoc.
    + by rewrite decide_False by lia.
Qed.

Lemma RangeScanAll_run oid v es :
  btree v es -> uncontended v ->
  exists k f v', RangeScanAll oid v = (if decide (Z.of_nat k <= kMaxTraversalSteps) then Ret es else Throw RuntimeError, v') /\ peek v v' /\
    chain (mem v) f INVALID_PAGE_ID k es /\ Z.of_nat k <= zlen es <= Z.of_nat k * kLeafMaxKeys.
Proof.
  intros [Hwf (hp & root & Hhp & Hr & Ht)] Hu.
  destruct (locked_root oid kShared v hp Hu Hhp) as (v1 & v2 & H1 & H2 & Hp). unfold RangeScanAll. run H1. run H2. rewrite Hr.
  destruct Ht as [[-> ->]|(h & S & f & Ht & H0)]; [exists O, INVALID_PAGE_ID, v2; split_and!; done || constructor|].
  rewrite (proj2 (Z.eqb_neq _ _) (root_valid _ _ _ _ _ _ _ _ _ _ _ Hwf Ht)).
  pose proof (btree_height _ _ _ _ _ _ _ Hwf Ht) as Hh.
  destruct (subtree_leaf_run _ _ _ _ _ _ _ _ _ _ Ht) as (k & Hc & Hk).
  destruct (subtree_alloc _ _ _ _ _ _ _ _ _ _ _ root Ht (subtree_root _ _ _ _ _ _ _ _ _ _ _ Ht)) as [buf Hb].
  assert (subtree (mem v2) 1 1 h root None None S es f INVALID_PAGE_ID) as Ht2 by (by eapply peek_subtree).
  destruct (open_shared_run oid root v2 buf) as (v3 & H3 & Hp3); [by eapply peek_uncontended|by rewrite (pk_mem _ _ Hp)|].
  run H3. assert (peek v v3) as Hp13 by (by etrans).
  destruct (leftmost_loop_run oid h root None None S es f INVALID_PAGE_ID 1 1 v3 (Z.to_nat kMaxTraversalSteps) buf) as (buf1 & v4 & H4 & Hm4 & Hp4);
    [by eapply peek_subtree|by rewrite (pk_mem _ _ Hp13)|by eapply peek_uncontended|unfold kMaxTraversalSteps; lia|].
  run H4. assert (peek v v4) as Hp14 by (by etrans).
  destruct k as [|k]; [inversion Hc; subst|].
  { exfalso. assert (is_Some (mem v3 INVALID_PAGE_ID)) as [p Hi] by eauto. rewrite (pk_mem _ _ Hp13) in Hi.
    apply mem_page_facts in Hi as [? _]; [|done]. pose proof (dw_bound _ (pw_disk _ Hwf)). unfold INVALID_PAGE_ID in *. lia. }
  assert (chain (mem v4) f INVALID_PAGE_ID (Datatypes.S k) es) as Hc4.
  { clear -Hc Hp14. induction Hc as [|? ? ? ? ? ? (? & b & ? & ?)]; econstructor; [|done].
    split; [done|]. exists b. by rewrite (pk_mem _ _ Hp14). }
  destruct (chain_loop_run oid f k es v4 (Z.to_nat kMaxTraversalSteps) buf1 [] Hc4) as (v5 & H5 & Hp5);
    [by apply Hp14|by eapply peek_uncontended|by rewrite (pk_mem _ _ Hp4)|].
  exists (Datatypes.S k), f, v5. rewrite H5. split_and!; [|by etrans|done|lia|lia]. cbn [app]. f_equal.
  assert (0 <= kMaxTraversalSteps) as H10 by done.
  destruct (decide (k < Z.to_nat kMaxTraversalSteps)%nat); [rewrite decide_True by lia|rewrite decide_False by lia]; done.
Qed.

(** A tree with a root is not empty. *)
Lemma subtree_nonempty m im h pid lo hi S es f n : subtree m 1 im h pid lo hi S es f n -> es <> [].
Proof.
  revert im pid lo hi S es f n. induction h as [|h IH]; intros im pid lo hi S es f n [_ H] ->.
  - destruct H as (_ & _ & _ & _ & Hl). unfold zlen in Hl. cbn in Hl. lia.
  - destruct H as (ls & c1 & rs & Sf & _ & _ & [? ? ? ? ? es1 es2 es3 ? ? _ Hc _ _ _ _ _ He] & _).
    symmetry in He. apply app_eq_nil in He as [-> [-> ->]%app_eq_nil]. by eapply IH.
Qed.

End BTreeReads.
