(* ===== verification/BTreeValid.v ===== *)
(** * BTreeValid: the height of a tree, and what [ValidateInvariants] decides

    [at_height] and [valid_node] describe a tree page by page, without the
    loops and the recursion of the code; a sound tree has a height, and the
    verdict of [ValidateInvariants] on any pages is exactly [valid_tree]. *)
From S2P Require Export BTreeReads.

Module BTreeValid.
Import BTreeNode BTree BTreeSpec BTreeReads.

(** ** Height *)

(** Every path from [pid] down to a leaf has [h] nodes. *)
Fixpoint at_height (m : store) (h : nat) (pid : PageId) : Prop :=
  match h with
  | O => False
  | S h' => exists buf, m pid = Some buf /\
      if is_leaf buf then h' = O
      else exists node, DeserializeInternal buf = Ret node /\ Forall (at_height m h') (n_children node)
  end.

(** The tree whose header page names [root] has [h] levels. *)
Definition tree_height (m : store) (h : nat) : Prop :=
  exists hp, m kRootHeaderPageId = Some hp /\
    let root := DeserializeHeaderRootPageId hp in
    if root =? INVALID_PAGE_ID then h = O else at_height m h root.

(** ** The declarative check *)

(** The bounds child [i] inherits from the separators around it. *)
Definition lower_at (lo : option Z) (keys : list Z) (i : nat) : option Z :=
  match i with O => lo | S j => keys !! j end.
Definition upper_at (hi : option Z) (keys : list Z) (i : nat) : option Z :=
  match keys !! i with Some k => Some k | None => hi end.

(** Less than [depth] levels below [pid], sorted nodes of legal sizes, and
    every leaf key within the separators next to the path to it. *)
Fixpoint valid_node (m : store) (depth : nat) (pid : PageId) (lo hi : option Z) : Prop :=
  match depth with
  | O => False
  | S depth' => exists buf, m pid = Some buf /\
      if is_leaf buf
      then exists leaf, DeserializeLeaf buf = Ret leaf /\
        zlen (l_keys leaf) <= kLeafMaxKeys /\ Sorted Z.le (l_keys leaf) /\ Forall (in_range lo hi) (l_keys leaf)
      else exists node, DeserializeInternal buf = Ret node /\
        zlen (n_keys node) <= kInternalMaxKeys /\ zlen (n_children node) = zlen (n_keys node) + 1 /\ Sorted Z.le (n_keys node) /\
        forall i c, n_children node !! i = Some c -> valid_node m depth' c (lower_at lo (n_keys node) i) (upper_at hi (n_keys node) i)
  end.

Definition valid_tree (m : store) : Prop :=
  exists hp, m kRootHeaderPageId = Some hp /\
    let root := DeserializeHeaderRootPageId hp in
    root = INVALID_PAGE_ID \/ valid_node m (Z.to_nat kMaxValidateDepth + 1) root None None.

(** ** Lemmas: height *)

Lemma lpart_children (P : sub_t) (Q : PageId -> Prop) ls a b S es f n :
  (forall c b1 b2 S' es' f' n', P c b1 b2 S' es' f' n' -> Q c) -> lpart P ls a b S es f n -> Forall Q ls.*1.
Proof.
  intros HP. induction 1 as [|ls a b c k S1 S2 es1 es2 f g n Hl IH Hc Hd]; [constructor|].
  rewrite fmap_app. apply Forall_app. split; [done|]. apply Forall_singleton. by eapply HP.
Qed.

Lemma rpart_children (P : sub_t) (Q : PageId -> Prop) rs a b S es f n :
  (forall c b1 b2 S' es' f' n', P c b1 b2 S' es' f' n' -> Q c) -> rpart P rs a b S es f n -> Forall Q rs.*2.
Proof.
  intros HP. induction 1 as [|rs k c a b S1 S2 es1 es2 f g n Hc Hr IH Hd]; constructor; [|done]. by eapply HP.
Qed.

Lemma focus_children (P : sub_t) (Q : PageId -> Prop) ls c rs lo hi S es f n :
  (forall c b1 b2 S' es' f' n', P c b1 b2 S' es' f' n' -> Q c) ->
  focus P ls c rs lo hi S es f n -> Forall Q (node_children ls c rs).
Proof.
  intros HP [b1 b2 S1 S2 S3 es1 es2 es3 g1 g2 Hl Hc Hr _ _ _ _ _]. unfold node_children.
  apply Forall_app. split; [by eapply lpart_children|]. constructor; [by eapply HP|by eapply rpart_children].
Qed.

Lemma subtree_at_height m lm im h pid lo hi S es f n :
  subtree m lm im h pid lo hi S es f n -> at_height m (Datatypes.S h) pid.
Proof.
  revert lm im pid lo hi S es f n. induction h as [|h IH]; intros lm im pid lo hi S es f n [_ H].
  - destruct H as (_ & _ & (_ & buf & Hb & Hleaf & _) & _). exists buf. by rewrite Hleaf.
  - destruct H as (ls & c & rs & Sf & (_ & buf & Hb & Hleaf & Hd) & _ & Hf & _). exists buf. split; [done|]. rewrite Hleaf.
    exists (node_of pid ls c rs). split; [done|]. eapply focus_children; [|exact Hf]. intros. by eapply IH.
Qed.

Lemma Height_exact oid v es :
  btree v es -> uncontended v ->
  exists h v', Height oid v = (Ret (Z.of_nat h), v') /\ peek v v' /\ tree_height (mem v) h /\ (h <= 6)%nat.
Proof.
  intros [Hwf (hp & root & Hhp & Hr & Ht)] Hu.
  destruct (locked_root oid kShared v hp Hu Hhp) as (v1 & v2 & H1 & H2 & Hp). unfold Height. run H1. run H2. unfold tree_height. rewrite Hhp, Hr.
  destruct Ht as [[-> ->]|(h & S & f & Ht & H0)]; [exists O, v2; split_and!; [done|done|by exists hp; rewrite Hr|lia]|].
  pose proof (root_valid _ _ _ _ _ _ _ _ _ _ _ Hwf Ht) as Hne%Z.eqb_neq. rewrite Hne.
  pose proof (btree_height _ _ _ _ _ _ _ Hwf Ht) as Hh.
  destruct (subtree_alloc _ _ _ _ _ _ _ _ _ _ _ root Ht (subtree_root _ _ _ _ _ _ _ _ _ _ _ Ht)) as [buf Hb].
  destruct (open_shared_run oid root v2 buf) as (v3 & H3 & Hp3); [by eapply peek_uncontended|by rewrite (pk_mem _ _ Hp)|].
  run H3. assert (peek v v3) as Hp13 by (by etrans).
  destruct (height_loop_run oid h root None None S es f INVALID_PAGE_ID 1 1 v3 (Z.to_nat kMaxTraversalSteps) buf 1) as (v4 & H4 & Hp4);
    [by eapply peek_subtree|by rewrite (pk_mem _ _ Hp13)|by eapply peek_uncontended|unfold kMaxTraversalSteps; lia|].
  exists (Datatypes.S h), v4. split_and!; [rewrite H4; do 2 f_equal; lia|by etrans| |lia].
  exists hp. split; [done|]. rewrite Hr. cbv zeta. rewrite Hne. by eapply subtree_at_height.
Qed.

(** ** Lemmas: the key checks *)

Lemma in_range_checks lo hi k :
  in_range lo hi k <->
  match lo with Some l => k <? l | None => false end = false /\ match hi with Some u => u <=? k | None => false end = false.
Proof. unfold in_range, above, below. destruct lo, hi; rewrite ?Z.ltb_ge, ?Z.leb_gt; tauto. Qed.

Definition after (prev : option Z) (keys : list Z) : list Z := match prev with Some p => p :: keys | None => keys end.

Lemma after_cons prev k ks :
  Sorted Z.le (after prev (k :: ks)) <->
  match prev with Some p => k <? p | None => false end = false /\ Sorted Z.le (after (Some k) ks).
Proof.
  destruct prev as [p|]; cbn; [|tauto]. rewrite Z.ltb_ge. split.
  - intros H. apply Sorted_inv in H as [H Hd]. by inversion Hd.
  - intros [H1 H2]. constructor; [done|]. by constructor.
Qed.

Lemma check_leaf_exact pid lo hi prev i keys :
  check_leaf_keys pid lo hi prev i keys = None <->
  Sorted Z.le (after prev keys) /\ Forall (in_range lo hi) keys.
Proof.
  revert prev i. induction keys as [|k ks IH]; intros prev i; cbn [check_leaf_keys].
  - split; [|done]. intros _. split; [|constructor]. destruct prev; repeat constructor.
  - rewrite after_cons, Forall_cons, in_range_checks.
    destruct (match prev with Some p => k <? p | None => false end); [naive_solver|].
    destruct (match lo with Some l => k <? l | None => false end); [naive_solver|].
    destruct (match hi with Some u => u <=? k | None => false end); [naive_solver|]. rewrite IH. tauto.
Qed.

Lemma check_internal_exact pid prev i keys : check_internal_keys pid prev i keys = None <-> Sorted Z.le (after prev keys).
Proof.
  revert prev i. induction keys as [|k ks IH]; intros prev i; cbn [check_internal_keys].
  - split; [|done]. intros _. destruct prev; repeat constructor.
  - rewrite after_cons. destruct (match prev with Some p => k <? p | None => false end); [naive_solver|]. rewrite IH. tauto.
Qed.

Lemma child_bounds_exact (P : PageId * option Z * option Z -> Prop) lo hi keys children :
  length children = S (length keys) ->
  Forall P (child_bounds lo hi keys children) <->
  forall i c, children !! i = Some c -> P (c, lower_at lo keys i, upper_at hi keys i).
Proof.
  revert lo children. induction keys as [|k ks IH]; intros lo children Hl; (destruct children as [|c cs]; [done|]); cbn [child_bounds].
  - destruct cs; [|done]. rewrite Forall_singleton. split; [|intros H; by apply (H O)]. intros H [|i] c' Hi; [by injection Hi as <-|done].
  - rewrite Forall_cons, IH by (cbn in *; lia). split.
    + intros [H1 H2] [|i] c' Hi; [by injection Hi as <-|]. cbn in Hi. specialize (H2 i c' Hi). by destruct i.
    + intros H. split; [by apply (H O)|]. intros i c' Hi. specialize (H (S i) c' Hi). by destruct i.
Qed.

Lemma child_bounds_in lo hi keys children c b1 b2 : (c, b1, b2) ∈ child_bounds lo hi keys children -> c ∈ children.
Proof.
  revert lo keys. induction children as [|c0 cs IH]; intros lo keys; [by destruct keys; intros ?%elem_of_nil|].
  destruct keys as [|k ks]; cbn [child_bounds]; [intros H%list_elem_of_singleton; simplify_eq; by left|].
  intros [He|H]%elem_of_cons; [simplify_eq; by left|right; by eapply IH].
Qed.

(** ** Lemmas: pages read on the way *)

Definition same_mem (v v' : View) : Prop := forall q, mem v' q = mem v q.

#[global] Instance same_mem_preorder : PreOrder same_mem.
Proof. split; [by intros v q|]. intros v1 v2 v3 H1 H2 q. by rewrite H2. Qed.

Lemma FetchPage_same pid a v v' :
  0 <= pid -> FetchPage pid v = (Ret a, v') -> a = pid /\ same_mem v v' /\ exists p, pages_ (v_pool v') !! pid = Some p.
Proof.
  intros H0. unfold FetchPage. destruct (pages_ (v_pool v) !! pid) as [p|] eqn:Ep; [intros [= <- <-]; split_and!; [done..|eauto]|].
  unfold on_disk, ReadPage, mbind, M_bind. cbn. destruct (Z.leb_spec (next_page_id_ (disk_manager_ (v_pool v))) pid); [done|].
  destruct (file _ !! _) as [p|] eqn:Ef; [|done]. cbn. intros [= <- <-]. split; [done|]. split; [|exists p; apply lookup_insert_eq].
  intros q. unfold mem, mem_page. cbn. destruct (decide (q = pid)) as [->|]; [|by rewrite lookup_insert_ne].
  rewrite lookup_insert_eq, Ep. unfold disk_page. by rewrite bool_decide_eq_true_2.
Qed.

Lemma data_of_inv page buf v v' : data_of page v = (Ret buf, v') -> pages_ (v_pool v) !! page = Some buf /\ same_mem v v'.
Proof.
  unfold data_of, on_page, get. destruct (pages_ (v_pool v) !! page) as [p|] eqn:Ep; [|done]. cbn. intros [= <- <-]. split; [done|].
  intros q. unfold mem, mem_page. cbn. destruct (decide (q = page)) as [->|]; [by rewrite lookup_insert_eq, Ep|by rewrite lookup_insert_ne].
Qed.

Lemma lift_inv {A} (o : outcome A) (v : View) a v' : lift o v = (Ret a, v') -> o = Ret a /\ v' = v.
Proof. unfold lift. by intros [= -> ->]. Qed.

(** A page that was fetched and read. *)
Lemma fetched_read pid page buf v v1 v' :
  0 <= pid -> FetchPage pid v = (Ret page, v1) -> data_of page v1 = (Ret buf, v') -> mem v pid = Some buf /\ same_mem v v'.
Proof.
  intros H0 H1 H2. destruct (FetchPage_same _ _ _ _ H0 H1) as (-> & Hs & _). apply data_of_inv in H2 as [Hb Hs2].
  split; [|by etrans]. rewrite <- (Hs pid). unfold mem, mem_page. by rewrite Hb.
Qed.

Lemma children_nonneg buf node c : DeserializeInternal buf = Ret node -> c ∈ n_children node -> 0 <= c.
Proof.
  unfold DeserializeInternal. destruct (_ <? _); [done|]. intros [= <-]. cbn [n_children]. intros [->|Hc]%elem_of_cons; [apply read_at_bound|].
  revert Hc. generalize (kBTreeHeaderSize + kInternalChildSize). induction (Z.to_nat _) as [|k IH]; intros off; cbn; [set_solver|].
  intros [->|Hc]%elem_of_cons; [apply read_at_bound|]. by eapply IH.
Qed.

Lemma valid_node_same m1 m2 depth pid lo hi : (forall q, m2 q = m1 q) -> valid_node m1 depth pid lo hi -> valid_node m2 depth pid lo hi.
Proof.
  intros Hm. revert pid lo hi. induction depth as [|d IH]; intros pid lo hi; cbn [valid_node]; [done|].
  intros (buf & Hb & H). exists buf. rewrite Hm. split; [done|]. destruct (is_leaf buf); [done|].
  destruct H as (node & H1 & H2 & H3 & H4 & H5). exists node. split_and!; [done..|]. intros i c Hc. by apply IH, H5.
Qed.

Lemma find_m_exact {A B} (body : A -> M View (option B)) (P : A -> Prop) l v0 v r v' :
  (forall x w r w', x ∈ l -> same_mem v0 w -> body x w = (Ret r, w') -> same_mem w w' /\ (r = None <-> P x)) ->
  same_mem v0 v -> find_m body l v = (Ret r, v') -> same_mem v v' /\ (r = None <-> Forall P l).
Proof.
  intros Hb. revert v. induction l as [|x l IH]; intros v Hs; cbn [find_m].
  - intros [= <- <-]. split; [done|]. split; [constructor|done].
  - intros H. apply bind_inv in H as (o & w1 & H1 & H2). destruct (Hb x v o w1 ltac:(by left) Hs H1) as [Hs1 Ho].
    rewrite Forall_cons, <- Ho. destruct o as [b|].
    + injection H2 as <- <-. naive_solver.
    + destruct (IH (fun y w r w' Hy => Hb y w r w' ltac:(by right)) w1 ltac:(by etrans) H2) as [? ->]. split; [by etrans|tauto].
Qed.

(** ** The verdict *)

Lemma ValidateSubtree_exact fuel pid lo hi v r v' :
  0 <= pid -> ValidateSubtree fuel pid lo hi v = (Ret r, v') ->
  same_mem v v' /\ (r = None <-> valid_node (mem v) fuel pid lo hi).
Proof.
  revert pid lo hi v r v'. induction fuel as [|fuel IH]; intros pid lo hi v r v' H0; cbn [ValidateSubtree valid_node].
  { intros [= <- <-]. split; [done|]. split; done. }
  intros H. apply bind_inv in H as (page & v1 & H1 & H). apply bind_inv in H as (buf & v2 & H2 & H).
  destruct (fetched_read pid page buf v v1 v2 H0 H1 H2) as [Hb Hs]. rewrite Hb.
  destruct (is_leaf buf) eqn:Hleaf.
  - apply bind_inv in H as (leaf & v3 & Hd & H). apply lift_inv in Hd as [Hd ->].
    destruct (Z.ltb_spec kLeafMaxKeys (zlen (l_keys leaf))); injection H as <- <-; (split; [done|]).
    + split; [done|]. intros (? & [= <-] & H). rewrite Hleaf in H. destruct H as (leaf' & Hd' & ? & _). rewrite Hd in Hd'. injection Hd' as <-. lia.
    + rewrite check_leaf_exact. cbn [after]. split.
      * intros [? ?]. exists buf. rewrite Hleaf. split; [done|]. exists leaf. by split_and!.
      * intros (? & [= <-] & Hn). rewrite Hleaf in Hn. destruct Hn as (leaf' & Hd' & _ & ?). rewrite Hd in Hd'. by injection Hd' as <-.
  - apply bind_inv in H as (node & v3 & Hd & H). apply lift_inv in Hd as [Hd ->].
    enough (same_mem v v' /\ (r = None <-> zlen (n_keys node) <= kInternalMaxKeys /\ zlen (n_children node) = zlen (n_keys node) + 1 /\
      Sorted Z.le (n_keys node) /\ forall i c, n_children node !! i = Some c ->
        valid_node (mem v) fuel c (lower_at lo (n_keys node) i) (upper_at hi (n_keys node) i))) as [? ->].
    { split; [done|]. split.
      - intros Hn. exists buf. rewrite Hleaf. split; [done|]. by exists node.
      - intros (? & [= <-] & Hn). rewrite Hleaf in Hn. destruct Hn as (node' & Hd' & Hn). rewrite Hd in Hd'. by injection Hd' as <-. }
    destruct (Z.ltb_spec kInternalMaxKeys (zlen (n_keys node))); [injection H as <- <-; split; [done|]; split; [done|lia]|].
    destruct (Z.eqb_spec (zlen (n_children node)) (zlen (n_keys node) + 1)) as [Hz|]; [|injection H as <- <-; split; [done|]; split; [done|lia]].
    cbn [negb] in H. destruct (check_internal_keys pid None 0 (n_keys node)) as [err|] eqn:Ec.
    + injection H as <- <-. split; [done|]. split; [done|]. intros (_ & _ & Hk & _). apply (check_internal_exact pid None 0) in Hk. congruence.
    + apply check_internal_exact in Ec. cbn [after] in Ec.
      apply (find_m_exact _ (fun x => valid_node (mem v) fuel x.1.1 x.1.2 x.2) _ v2) in H as [Hs2 ->]; [| |done].
      * rewrite child_bounds_exact by (unfold zlen in *; lia). cbn. split; [by etrans|]. tauto.
      * intros [[c lo'] hi'] w r' w' Hx Hw Hr. cbn.
        assert (0 <= c) as Hc0 by (eapply children_nonneg; [exact Hd|by eapply child_bounds_in]).
        destruct (IH c lo' hi' w r' w' Hc0 Hr) as [Hs3 ->]. split; [by etrans|].
        split; apply valid_node_same; intros q; [by rewrite Hw, Hs|by rewrite Hw, Hs].
Qed.

Lemma ValidateInvariants_exact v r v' :
  ValidateInvariants v = (Ret r, v') -> same_mem v v' /\ (r = None <-> valid_tree (mem v)).
Proof.
  unfold ValidateInvariants, GetRootPageId, valid_tree. intros H. apply bind_inv in H as (root & v1 & H1 & H).
  apply bind_inv in H1 as (page & v2 & H2 & H1). apply bind_inv in H1 as (buf & v3 & H3 & [= <- <-]).
  destruct (fetched_read kRootHeaderPageId page buf v v2 v3 ltac:(done) H2 H3) as [Hb Hs]. rewrite Hb.
  destruct (Z.eqb_spec (DeserializeHeaderRootPageId buf) INVALID_PAGE_ID) as [He|He].
  - injection H as <- <-. split; [done|]. split; [|done]. intros _. exists buf. auto.
  - change (Z.to_nat (kMaxValidateDepth + 1)) with (Z.to_nat kMaxValidateDepth + 1)%nat in H.
    apply ValidateSubtree_exact in H as [Hs2 ->]; [|apply read_at_bound]. split; [by etrans|]. split.
    + intros Hn. exists buf. split; [done|]. right. eapply valid_node_same; [|exact Hn]. intros q. by rewrite Hs.
    + intros (? & [= <-] & [?|Hn]); [done|]. eapply valid_node_same; [|exact Hn]. intros q. by rewrite Hs.
Qed.

End BTreeValid.
