(* ===== verification/BTreeInsert.v ===== *)
(** * BTreeInsert: insertion into the B+ tree

    [Insert] adds exactly one entry, in key order after its equals, and keeps
    every invariant of the tree through leaf splits, internal splits and root
    splits. The writes of a node's pages are collected here for deletion too. *)
From S2P Require Export BTreeReads.

Module BTreeInsert.
Import BTreeNode BTree BTreeSpec BTreeReads.

(** ** Writing nodes *)

(** The state after the page [pid] was given the content [buf] and marked. *)
Record wrote (v v' : View) (pid : PageId) (buf : Page) : Prop := mkWrote {
  wr_step : tstep v v';
  wr_next : next v' = next v;
  wr_mem q : mem v' q = if decide (q = pid) then Some buf else mem v q
}.

Lemma page_allocated v pid : pool_wf (v_pool v) -> is_Some (pages_ (v_pool v) !! pid) -> 0 <= pid < next v.
Proof. intros Hwf [p Hp]. by apply (pw_cached _ Hwf) in Hp as [? _]. Qed.

Lemma mark_cached pid v q : pages_ (v_pool (mark pid v)) !! q = pages_ (v_pool v) !! q.
Proof. by destruct (mark_fields pid v) as (_ & -> & _). Qed.

Lemma write_wrote v pid buf :
  pool_wf (v_pool v) -> is_Some (pages_ (v_pool v) !! pid) -> zlen buf = PAGE_SIZE -> wrote v (write pid buf v) pid buf.
Proof.
  intros Hwf Hc Hl. assert (0 <= pid < next v) as Hr by (by apply page_allocated).
  assert (next (write pid buf v) = next v) as Hn by (unfold next; by rewrite write_disk).
  split; [split|done|]; [apply write_frame|intros _; by apply write_wf|lia| |apply write_page_ids|intros q; apply mem_page_write].
  intros q Hq. unfold write. rewrite mark_cached. cbn.
  destruct (decide (q = pid)) as [->|]; [rewrite lookup_insert_eq; eauto|by rewrite lookup_insert_ne].
Qed.

Lemma set_data_run v pid buf : is_Some (pages_ (v_pool v) !! pid) -> set_data pid buf v = (Ret tt, cache pid buf v).
Proof. intros [p Hp]. by apply (on_page_run _ _ _ p). Qed.

Lemma put_leaf_run v pid l :
  leaf_ok l -> is_Some (pages_ (v_pool v) !! pid) ->
  exists buf, put_leaf pid l v = (Ret tt, cache pid buf v) /\ zlen buf = PAGE_SIZE /\
    is_leaf buf = true /\ DeserializeLeaf buf = Ret l.
Proof.
  intros Hok Hc. destruct (leaf_roundtrip l Hok) as (buf & Hs & Hl & Ht & Hd). exists buf.
  split_and!; [|done|by apply Z.eqb_eq|done]. unfold put_leaf. rewrite Hs. run (lift_run buf v). by apply set_data_run.
Qed.

Lemma put_internal_run v pid n :
  internal_ok n -> is_Some (pages_ (v_pool v) !! pid) ->
  exists buf, put_internal pid n v = (Ret tt, cache pid buf v) /\ zlen buf = PAGE_SIZE /\
    is_leaf buf = false /\ DeserializeInternal buf = Ret n.
Proof.
  intros Hok Hc. destruct (internal_roundtrip n Hok) as (buf & Hs & Hl & Ht & Hd). exists buf.
  split_and!; [|done|unfold is_leaf; by rewrite Ht|done]. unfold put_internal. rewrite Hs. run (lift_run buf v). by apply set_data_run.
Qed.

Lemma cache_mark p b q v : cache p b (mark q v) = mark q (cache p b v).
Proof. unfold cache, mark. destruct v as [[d pg di ob] ids t lm cu th]. cbn. by destruct (ob !! th) as [[]|]. Qed.

(** Two pages written through their pointers, then marked. *)
Lemma two_writes v a b x y :
  mark b (mark a (cache b y (cache a x v))) = write b y (write a x v).
Proof. unfold write. by rewrite cache_mark. Qed.

Lemma cache_cached v p b q : is_Some (pages_ (v_pool v) !! q) -> is_Some (pages_ (v_pool (cache p b v)) !! q).
Proof. cbn. intros. destruct (decide (q = p)) as [->|]; [rewrite lookup_insert_eq; eauto|by rewrite lookup_insert_ne]. Qed.

Lemma wrote_two v a b x y :
  pool_wf (v_pool v) -> is_Some (pages_ (v_pool v) !! a) -> is_Some (pages_ (v_pool v) !! b) ->
  zlen x = PAGE_SIZE -> zlen y = PAGE_SIZE -> a <> b ->
  let v' := write b y (write a x v) in
  tstep v v' /\ next v' = next v /\
  forall q, mem v' q = if decide (q = b) then Some y else if decide (q = a) then Some x else mem v q.
Proof.
  intros Hwf Ha Hb Hx Hy Hne v'. destruct (write_wrote v a x Hwf Ha Hx) as [H1 H2 H3].
  destruct (write_wrote (write a x v) b y) as [H4 H5 H6]; [by apply H1|by apply H1|done|].
  split_and!; [by etrans|subst v'; congruence|]. intros q. subst v'. rewrite H6, H3. done.
Qed.

(** The code rewrites two nodes at a time: both pages first, then both marks. *)
Lemma two_puts {A} v a b (m1 m2 : M View unit) (P Q : Page -> Prop) (k : M View A) :
  pool_wf (v_pool v) -> is_Some (pages_ (v_pool v) !! a) -> is_Some (pages_ (v_pool v) !! b) -> a <> b ->
  (forall v, is_Some (pages_ (v_pool v) !! a) -> exists x, m1 v = (Ret tt, cache a x v) /\ zlen x = PAGE_SIZE /\ P x) ->
  (forall v, is_Some (pages_ (v_pool v) !! b) -> exists y, m2 v = (Ret tt, cache b y v) /\ zlen y = PAGE_SIZE /\ Q y) ->
  exists v', (m1;; m2;; MarkDirty a;; MarkDirty b;; k) v = k v' /\ tstep v v' /\ next v' = next v /\
    (exists x, mem v' a = Some x /\ P x) /\ (exists y, mem v' b = Some y /\ Q y) /\ forall q, q <> a -> q <> b -> mem v' q = mem v q.
Proof.
  intros Hwf Ha Hb Hne H1 H2. destruct (H1 v Ha) as (x & E1 & Hx & HP). destruct (H2 (cache a x v)) as (y & E2 & Hy & HQ); [by apply cache_cached|].
  destruct (wrote_two v a b x y Hwf Ha Hb Hx Hy Hne) as (Hst & Hn & Hm). exists (write b y (write a x v)). split_and!; [|done|done|..].
  - run E1. run E2. run (MarkDirty_run a (cache b y (cache a x v))). run (MarkDirty_run b (mark a (cache b y (cache a x v)))). by rewrite two_writes.
  - exists x. by rewrite Hm, decide_False, decide_True.
  - exists y. by rewrite Hm, decide_True.
  - intros q ? ?. by rewrite Hm, !decide_False.
Qed.

Lemma put_leaves_run {A} v a b la lb (k : M View A) :
  pool_wf (v_pool v) -> is_Some (pages_ (v_pool v) !! a) -> is_Some (pages_ (v_pool v) !! b) -> a <> b -> leaf_ok la -> leaf_ok lb ->
  exists v', (put_leaf a la;; put_leaf b lb;; MarkDirty a;; MarkDirty b;; k) v = k v' /\ tstep v v' /\ next v' = next v /\
    leaf_at (mem v') a la /\ leaf_at (mem v') b lb /\ forall q, q <> a -> q <> b -> mem v' q = mem v q.
Proof.
  intros Hwf Ha Hb Hne Hla Hlb. destruct (two_puts v a b _ _ (fun x => is_leaf x = true /\ DeserializeLeaf x = Ret la) (fun y => is_leaf y = true /\ DeserializeLeaf y = Ret lb) k
    Hwf Ha Hb Hne (fun v => put_leaf_run v a la Hla) (fun v => put_leaf_run v b lb Hlb)) as (v' & ? & ? & ? & (x & ? & ?) & (y & ? & ?) & ?).
  exists v'. split_and!; [done..|split; [done|by exists x]|split; [done|by exists y]|done].
Qed.

Lemma put_internals_run {A} v a b na nb (k : M View A) :
  pool_wf (v_pool v) -> is_Some (pages_ (v_pool v) !! a) -> is_Some (pages_ (v_pool v) !! b) -> a <> b -> internal_ok na -> internal_ok nb ->
  exists v', (put_internal a na;; put_internal b nb;; MarkDirty a;; MarkDirty b;; k) v = k v' /\ tstep v v' /\ next v' = next v /\
    internal_at (mem v') a na /\ internal_at (mem v') b nb /\ forall q, q <> a -> q <> b -> mem v' q = mem v q.
Proof.
  intros Hwf Ha Hb Hne Hna Hnb. destruct (two_puts v a b _ _ (fun x => is_leaf x = false /\ DeserializeInternal x = Ret na) (fun y => is_leaf y = false /\ DeserializeInternal y = Ret nb) k
    Hwf Ha Hb Hne (fun v => put_internal_run v a na Hna) (fun v => put_internal_run v b nb Hnb)) as (v' & ? & ? & ? & (x & ? & ?) & (y & ? & ?) & ?).
  exists v'. split_and!; [done..|split; [done|by exists x]|split; [done|by exists y]|done].
Qed.

(** [NewPage] followed by the bookkeeping lock. *)
Lemma new_page oid v :
  pool_wf (v_pool v) -> uncontended v -> next v + 1 < 2 ^ 32 ->
  exists v1 v2, NewPage v = (Ret (next v), v1) /\ LockPage oid (next v) kExclusive v1 = (Ret tt, v2) /\
    tstep v v2 /\ next v2 = next v + 1 /\ is_Some (pages_ (v_pool v2) !! next v) /\ mem v (next v) = None /\
    forall q, mem v2 q = if decide (q = next v) then Some zero_page else mem v q.
Proof.
  intros Hwf Hu Hmax. destruct (NewPage_run v Hwf Hmax) as (v1 & Hn & Hwf1 & Hf & Hids & Hnext & Hc & Hm).
  fold (next v) in Hn, Hnext, Hc, Hm. fold (next v1) in Hnext.
  destruct (lock_peek oid (next v) kExclusive v1) as (v2 & Hl & Hp & Hpool); [by apply Hf|].
  exists v1, v2. rewrite Hpool. split_and!; [done..| |by rewrite (pk_next _ _ Hp)|eauto| |intros q; rewrite (pk_mem _ _ Hp); apply Hm].
  - etrans; [|apply Hp]. split; [done|done|lia| |done]. intros q Hq.
    unfold NewPage in Hn. inv_bind Hn pid w Ha. inv_bind Hn u w' Hmod. inv_bind Hn u' w'' Hmark. injection Hn as -> ->.
    unfold on_disk in Ha. destruct (AllocatePage _) as [o d]. injection Ha as -> <-. injection Hmod as <-.
    change (MarkDirtyLocked (next v)) with (MarkDirty (next v)) in Hmark. rewrite MarkDirty_run in Hmark. injection Hmark as <- <-.
    rewrite mark_cached. subst w'. cbn. destruct (decide (q = next v)) as [->|]; [rewrite lookup_insert_eq; eauto|by rewrite lookup_insert_ne].
  - destruct (mem v (next v)) as [p|] eqn:E; [|done]. apply mem_page_facts in E as [? _]; [|done]. unfold next in *. lia.
Qed.

Lemma SetRootPageId_run v r hp :
  pool_wf (v_pool v) -> mem v kRootHeaderPageId = Some hp -> u32_ok r ->
  exists v', SetRootPageId r v = (Ret tt, v') /\ wrote v v' kRootHeaderPageId (SerializeHeader r).
Proof.
  intros Hwf Hm Hr. destruct (fetch_peek _ _ _ Hm) as (v1 & H1 & Hp & _ & Hc).
  exists (write kRootHeaderPageId (SerializeHeader r) v1). split.
  - unfold SetRootPageId. run H1. run (set_data_run v1 kRootHeaderPageId (SerializeHeader r) ltac:(eauto)). apply MarkDirty_run.
  - destruct (write_wrote v1 kRootHeaderPageId (SerializeHeader r)) as [Ha Hb Hd]; [by apply Hp|eauto|by apply header_roundtrip|].
    split; [etrans; [apply Hp|done]|rewrite Hb; apply Hp|]. intros q. rewrite Hd. case_decide; [done|apply Hp].
Qed.

(** ** Well-formedness of the nodes written *)

Lemma Forall_both {A} (P Q : A -> Prop) l : Forall (fun x => P x /\ Q x) l <-> Forall P l /\ Forall Q l.
Proof. apply Forall_and. Qed.

Lemma leaf_of_ok pid n es :
  leaf_ok (leaf_of pid n es) <-> u32_ok pid /\ u32_ok n /\ zlen es <= kLeafMaxKeys /\ Forall entry_ok es.
Proof.
  unfold leaf_of. split.
  - intros [Hp Hn _ Hm Hk Hv]. cbn in *. split_and!; [done..|by unfold zlen in *; rewrite length_fmap in Hm|].
    rewrite Forall_fmap in Hk. rewrite Forall_fmap in Hv. apply (Forall_both (fun e => int64_ok e.1) (fun e => rid_ok e.2)). by split.
  - intros (Hp & Hn & Hm & He). apply (Forall_both (fun e => int64_ok e.1) (fun e => rid_ok e.2)) in He as [Hk Hv].
    split; cbn; [done|done|by rewrite !length_fmap|by unfold zlen in *; rewrite length_fmap|by apply Forall_fmap..].
Qed.

Lemma node_of_ok pid ls c rs :
  internal_ok (node_of pid ls c rs) <->
  u32_ok pid /\ u32_ok c /\ zlen ls + zlen rs <= kInternalMaxKeys /\
  Forall (fun x => u32_ok x.1 /\ int64_ok x.2) ls /\ Forall (fun x => int64_ok x.1 /\ u32_ok x.2) rs.
Proof.
  unfold node_of, node_keys, node_children. split.
  - intros [Hp Hl Hm Hk Hc]. cbn in *. apply Forall_app in Hk as [Hk1 Hk2], Hc as [Hc1 [Hc Hc2]%Forall_cons].
    rewrite Forall_fmap in Hk1. rewrite Forall_fmap in Hk2. rewrite Forall_fmap in Hc1. rewrite Forall_fmap in Hc2. unfold zlen in *. rewrite length_app, !length_fmap in Hm.
    split_and!; [done|done|lia|by apply (Forall_both (fun x => u32_ok x.1) (fun x => int64_ok x.2))|
      by apply (Forall_both (fun x => int64_ok x.1) (fun x => u32_ok x.2))].
  - intros (Hp & Hc & Hm & Hl & Hr).
    apply (Forall_both (fun x => u32_ok x.1) (fun x => int64_ok x.2)) in Hl as [Hl1 Hl2].
    apply (Forall_both (fun x => int64_ok x.1) (fun x => u32_ok x.2)) in Hr as [Hr1 Hr2].
    split; cbn; [done| | | |].
    + rewrite !length_app. cbn. rewrite !length_fmap. lia.
    + unfold zlen in *. rewrite length_app, !length_fmap. lia.
    + apply Forall_app. split; by rewrite Forall_fmap.
    + apply Forall_app. split; [by rewrite Forall_fmap|]. constructor; [done|]. by rewrite Forall_fmap.
Qed.

Lemma insert_key_at ls c rs k d :
  insert_at (length ls) k (node_keys ls rs) = node_keys ls ((k, d) :: rs) /\
  insert_at (S (length ls)) d (node_children ls c rs) = node_children ls c ((k, d) :: rs).
Proof.
  unfold node_keys, node_children. split.
  - replace (length ls) with (length ls.*2) at 1 by apply length_fmap. by rewrite insert_at_app_len.
  - replace (S (length ls)) with (length (ls.*1 ++ [c])) by (rewrite length_app, length_fmap; cbn; lia).
    change (ls.*1 ++ c :: rs.*2) with (ls.*1 ++ [c] ++ rs.*2). rewrite app_assoc, insert_at_app_len, <- app_assoc. done.
Qed.

(** ** The outcome of an insertion below a node *)

(** Only the pages of [S] changed, the pages of [S'] beyond them are new. *)
Definition grown (v v' : View) (S S' : gset PageId) : Prop :=
  (forall q, ~ (q ∈ S) -> is_Some (mem v q) -> mem v' q = mem v q) /\
  (forall q, q ∈ S' -> q ∈ S \/ mem v q = None).

Definition inserted (v v' : View) (lm im : Z) (h : nat) (pid : PageId) (lo hi : option Z)
    (S : gset PageId) (es : list entry) (f n : PageId) (r : option SplitResult) : Prop :=
  match r with
  | None => exists S', subtree (mem v') lm im h pid lo hi S' es f n /\ grown v v' S S'
  | Some sp => exists S1 S2 es1 es2 g,
      child (mem v') h pid lo (Some (split_key sp)) S1 es1 f g /\
      child (mem v') h (new_right_page_id sp) (Some (split_key sp)) hi S2 es2 g n /\
      S1 ## S2 /\ grown v v' S (S1 ∪ S2) /\ es = es1 ++ es2 /\ int64_ok (split_key sp)
  end.

Lemma key_count_app k es1 es2 : key_count k (es1 ++ es2) = key_count k es1 + key_count k es2.
Proof. unfold key_count. by rewrite filter_app, zlen_app. Qed.

Lemma key_count_nonneg k es : 0 <= key_count k es.
Proof. apply zlen_nonneg. Qed.

Lemma key_count_replicate k (es : list entry) : es.*1 = replicate (length es) k -> key_count k es = zlen es.
Proof.
  intros H. unfold key_count. rewrite list_filter_all; [done|]. apply Forall_forall. intros e He.
  assert (e.1 ∈ es.*1) as He1 by (by apply list_elem_of_fmap_2). rewrite H in He1. by apply elem_of_replicate in He1 as [? _].
Qed.

(** Where two neighbouring entries differ in key. *)
Lemma boundary_entries (es : list entry) i :
  1 <= i < zlen es -> boundary es.*1 i ->
  exists es1 x k r es2, es = es1 ++ [x] ++ (k, r) :: es2 /\ x.1 <> k /\
    take (Z.to_nat i) es = es1 ++ [x] /\ drop (Z.to_nat i) es = (k, r) :: es2.
Proof.
  intros Hi (a & b & Ha & Hb & Hne). rewrite list_lookup_fmap in Ha, Hb.
  destruct (es !! Z.to_nat (i - 1)) as [x|] eqn:Ex; [|done]. destruct (es !! Z.to_nat i) as [[k r]|] eqn:Ek; [|done].
  injection Ha as <-. injection Hb as <-.
  exists (take (Z.to_nat (i - 1)) es), x, k, r, (drop (S (Z.to_nat i)) es).
  assert (take (Z.to_nat i) es = take (Z.to_nat (i - 1)) es ++ [x]) as Ht.
  { replace (Z.to_nat i) with (S (Z.to_nat (i - 1))) by lia. by apply take_S_r. }
  assert (drop (Z.to_nat i) es = (k, r) :: drop (S (Z.to_nat i)) es) as Hd by (by apply drop_S).
  split_and!; [|done|done|done]. rewrite <- Hd, app_assoc, <- Ht. by rewrite take_drop.
Qed.

(** ** A leaf takes an entry *)

Lemma insert_leaf_fits oid pid buf key rid v lo hi es n lm im :
  pool_wf (v_pool v) -> pages_ (v_pool v) !! pid = Some buf ->
  DeserializeLeaf buf = Ret (leaf_of pid n es) -> leaf_ok (leaf_of pid n es) ->
  range_ok lo hi -> sorted_in lo hi es -> lm <= zlen es -> in_range lo hi key -> entry_ok (key, rid) ->
  zlen es + 1 <= kLeafMaxKeys ->
  exists v', insert_leaf oid pid pid buf key rid v = (Ret None, v') /\ tstep v v' /\ next v' = next v /\
    inserted v v' lm im 0 pid lo hi {[pid]} (insert_entry key rid es) pid n None.
Proof.
  intros Hwf Hc Hd Hok Hro Hs Hlm Hk He Hlen. unfold insert_leaf. rewrite Hd. run (lift_run (leaf_of pid n es) v).
  unfold leaf_of. cbn [l_keys l_values l_page_id l_next_leaf]. rewrite <- (insert_entry_fst key rid es), <- (insert_entry_snd key rid es).
  set (es' := insert_entry key rid es). assert (zlen es' = zlen es + 1) as Hl'.
  { unfold es', insert_entry, zlen. rewrite insert_at_length. lia. }
  assert (zlen es'.*1 = zlen es') as Hz by (unfold zlen; by rewrite length_fmap). rewrite Hz, Hl'.
  rewrite (proj2 (Z.leb_le _ _)) by lia.
  assert (leaf_ok (leaf_of pid n es')) as Hok'.
  { apply leaf_of_ok in Hok as (? & ? & ? & ?). apply leaf_of_ok. split_and!; [done|done|lia|].
    unfold es', insert_entry. rewrite insert_at_Permutation. by constructor. }
  destruct (put_leaf_run v pid (leaf_of pid n es') Hok' ltac:(eauto)) as (b & Hp & Hbl & Ht & Hdb).
  run Hp. run (MarkDirty_run pid (cache pid b v)). fold (write pid b v).
  destruct (write_wrote v pid b Hwf ltac:(eauto) Hbl) as [H1 H2 H3].
  exists (write pid b v). split_and!; [done..|]. exists {[pid]}. split; [split; [done|split_and!]|split].
  - done.
  - done.
  - split; [done|]. exists b. rewrite H3, decide_True by done. done.
  - by apply insert_entry_sorted.
  - lia.
  - intros q Hq _. rewrite H3, decide_False; [done|set_solver].
  - set_solver.
Qed.

(** A leaf split at a key boundary: both halves are leaves, chained. *)
Lemma leaf_halves m pid rp n es lo hi i k r es1 es2 x f :
  es = es1 ++ [x] ++ (k, r) :: es2 -> x.1 <> k -> take i es = es1 ++ [x] -> drop i es = (k, r) :: es2 ->
  leaf_at m pid (leaf_of pid rp (take i es)) -> leaf_at m rp (leaf_of rp n (drop i es)) -> sorted_in lo hi es ->
  range_ok lo hi -> f = pid ->
  child m 0 pid lo (Some k) {[pid]} (take i es) f rp /\ child m 0 rp (Some k) hi {[rp]} (drop i es) rp n.
Proof.
  intros He Hx Ht Hd Hl Hr Hs Hro ->. rewrite He in Hs.
  destruct (sorted_in_cut _ _ _ _ _ _ _ Hs Hx) as (H1 & H2 & [Ha Hb] & H4).
  split; (split; [|split_and!; [done|done|done|congruence|]]).
  - destruct lo; done.
  - rewrite Ht. unfold zlen. rewrite length_app. cbn. lia.
  - destruct hi; cbn in *; done.
  - rewrite Hd. unfold zlen. cbn. lia.
Qed.

Lemma next_u32 v : pool_wf (v_pool v) -> u32_ok (next v).
Proof.
  intros Hwf. pose proof (dw_bound _ (pw_disk _ Hwf)). pose proof (dw_next _ (pw_disk _ Hwf)) as Hn.
  unfold u32_ok, next. rewrite Hn in *. unfold zlen in *. lia.
Qed.

Lemma cached_mem v pid : is_Some (pages_ (v_pool v) !! pid) -> is_Some (mem v pid).
Proof. intros [p Hp]. unfold mem, mem_page. rewrite Hp. eauto. Qed.

(** The overflow branch, wherever [FindSplitBoundary] cuts. *)
Lemma insert_leaf_cut oid pid buf key rid v es n i k :
  pool_wf (v_pool v) -> uncontended v -> pages_ (v_pool v) !! pid = Some buf ->
  DeserializeLeaf buf = Ret (leaf_of pid n es) -> leaf_ok (leaf_of pid n es) -> entry_ok (key, rid) ->
  kLeafMaxKeys < zlen es + 1 -> next v + 1 < 2 ^ 32 ->
  let es' := insert_entry key rid es in
  FindSplitBoundary es'.*1 146 = Ret i -> 1 <= i < zlen es' -> vec_at (drop (Z.to_nat i) es').*1 0 = Ret k ->
  exists v', insert_leaf oid pid pid buf key rid v = (Ret (Some (mkSplit k (next v))), v') /\ tstep v v' /\ next v' = next v + 1 /\
    pid <> next v /\ mem v (next v) = None /\
    leaf_at (mem v') pid (leaf_of pid (next v) (take (Z.to_nat i) es')) /\ leaf_at (mem v') (next v) (leaf_of (next v) n (drop (Z.to_nat i) es')) /\
    forall q, q <> pid -> q <> next v -> mem v' q = mem v q.
Proof.
  intros Hwf Hu Hc Hd Hok He Hlen Hmax es' Hi Hir Hk. unfold insert_leaf. rewrite Hd. run (lift_run (leaf_of pid n es) v).
  unfold leaf_of. cbn [l_keys l_values l_page_id l_next_leaf]. rewrite <- (insert_entry_fst key rid es), <- (insert_entry_snd key rid es).
  fold es'. assert (Forall entry_ok es') as He'.
  { unfold es', insert_entry. rewrite insert_at_Permutation. constructor; [done|]. by apply leaf_of_ok in Hok as (_ & _ & _ & ?). }
  assert (zlen es' = zlen es + 1) as Hl' by (unfold es', insert_entry, zlen; rewrite insert_at_length; lia).
  clearbody es'. apply leaf_of_ok in Hok as (Hpid & Hn & Hmaxk & _).
  assert (zlen es'.*1 = zlen es') as Hz by (unfold zlen; by rewrite length_fmap). rewrite Hz, Hl'.
  rewrite (proj2 (Z.leb_gt _ _)) by lia. rewrite <- Hl'. rewrite kLeafMaxKeys_eq in *.
  assert (zlen es' = 292) as Hn' by lia. rewrite Hn'. change (292 / 2) with 146. rewrite Hi. run (lift_run i v).
  destruct (new_page oid v Hwf Hu Hmax) as (v1 & v2 & H1 & H2 & Hst & Hnx & Hca & Hnone & Hm).
  run H1. run H2. rewrite <- !fmap_take, <- !fmap_drop.
  set (rp := next v) in *. set (j := Z.to_nat i) in *. assert (u32_ok rp) as Hrp by (by apply next_u32).
  assert (leaf_ok (leaf_of pid rp (take j es'))) as Hokl.
  { apply leaf_of_ok. split_and!; [done|done| |by apply Forall_take]. unfold zlen in *. rewrite length_take. rewrite kLeafMaxKeys_eq. lia. }
  assert (leaf_ok (leaf_of rp n (drop j es'))) as Hokr.
  { apply leaf_of_ok. split_and!; [done|done| |by apply Forall_drop]. unfold zlen in *. rewrite length_drop. rewrite kLeafMaxKeys_eq. lia. }
  assert (is_Some (pages_ (v_pool v2) !! pid)) as Hcp by (apply Hst; eauto).
  assert (pid <> rp) as Hne by (intros ->; destruct (cached_mem v rp) as [p Hp]; [eauto|congruence]).
  destruct (put_leaves_run v2 pid rp _ _ (lift (vec_at (drop j es').*1 0) ≫= fun k => mret (Some (mkSplit k rp)))
    (ts_wf _ _ Hst Hwf) Hcp Hca Hne Hokl Hokr) as (v3 & E & Hst3 & Hn3 & Hl3 & Hr3 & Hm3).
  exists v3. split_and!; [etrans; [exact E|]; rewrite Hk; by run (lift_run k v3)|by etrans|lia|done|done|done|done|].
  intros q H3 H4. by rewrite Hm3, Hm, decide_False.
Qed.

Lemma insert_leaf_splits oid pid buf key rid v lo hi es n lm im :
  pool_wf (v_pool v) -> uncontended v -> pages_ (v_pool v) !! pid = Some buf ->
  DeserializeLeaf buf = Ret (leaf_of pid n es) -> leaf_ok (leaf_of pid n es) ->
  range_ok lo hi -> sorted_in lo hi es -> in_range lo hi key -> entry_ok (key, rid) ->
  kLeafMaxKeys < zlen es + 1 -> next v + 1 < 2 ^ 32 ->
  (forall k, key_count k (insert_entry key rid es) <= kLeafMaxKeys) ->
  exists sp v', insert_leaf oid pid pid buf key rid v = (Ret (Some sp), v') /\ tstep v v' /\ next v' = next v + 1 /\
    u32_ok (new_right_page_id sp) /\
    inserted v v' lm im 0 pid lo hi {[pid]} (insert_entry key rid es) pid n (Some sp).
Proof.
  intros Hwf Hu Hc Hd Hok Hro Hs Hk He Hlen Hmax Hdup.
  pose proof (insert_entry_sorted lo hi key rid es Hs Hk) as Hs'.
  assert (zlen (insert_entry key rid es) = zlen es + 1) as Hl' by (unfold insert_entry, zlen; rewrite insert_at_length; lia).
  assert (zlen (insert_entry key rid es).*1 = zlen (insert_entry key rid es)) as Hz by (unfold zlen; by rewrite length_fmap).
  assert (zlen es <= 291) as Hmaxk by (apply leaf_of_ok in Hok; rewrite kLeafMaxKeys_eq in Hok; tauto). rewrite kLeafMaxKeys_eq in *.
  destruct (FindSplitBoundary_run (insert_entry key rid es).*1 146) as (i & Hi & Hcase); [lia|].
  assert (1 <= i < zlen (insert_entry key rid es) /\ boundary (insert_entry key rid es).*1 i) as [Hir Hib].
  { destruct Hcase as [|[_ Hnb]]; [rewrite <- Hz; done|]. exfalso. destruct (no_boundary_replicate _ Hnb) as [k Hrep].
    rewrite length_fmap in Hrep. apply key_count_replicate in Hrep. specialize (Hdup k). lia. }
  destruct (boundary_entries _ i Hir Hib) as (es1 & x & k & r & es2 & Hes & Hx & Htake & Hdrop).
  destruct (insert_leaf_cut oid pid buf key rid v es n i k) as (v' & E & Hst & Hnx & Hne & Hnone & Hl & Hr & Hm); [done..|by rewrite Hdrop|].
  exists (mkSplit k (next v)), v'. split_and!; [done..|by apply next_u32|].
  destruct (leaf_halves (mem v') pid (next v) n _ lo hi (Z.to_nat i) k r es1 es2 x pid Hes Hx Htake Hdrop Hl Hr Hs' Hro eq_refl) as [Hcl Hcr].
  exists {[pid]}, {[next v]}, (take (Z.to_nat i) (insert_entry key rid es)), (drop (Z.to_nat i) (insert_entry key rid es)), (next v).
  split_and!; [done|done|set_solver| |by rewrite take_drop|].
  - split.
    + intros q Hq [p Hp]. apply Hm; [set_solver|congruence].
    + intros q [->%elem_of_singleton| ->%elem_of_singleton]%elem_of_union; [left; set_solver|by right].
  - destruct Hr as [Hokr _]. apply leaf_of_ok in Hokr as (_ & _ & _ & Hokr). rewrite Hdrop in Hokr. by apply Forall_cons in Hokr as [[? _] _].
Qed.

(** ** An internal node takes a child's split *)

Lemma focus_frame (m m' : store) h ls c rs lo hi S es f n :
  (forall q, q ∈ S -> m' q = m q) -> focus (child m h) ls c rs lo hi S es f n -> focus (child m' h) ls c rs lo hi S es f n.
Proof. intros Hm. apply focus_mono. intros. eapply subtree_frame; [|done]. intros. apply Hm. set_solver. Qed.

Lemma focus_alloc (m : store) h ls c rs lo hi S es f n q :
  focus (child m h) ls c rs lo hi S es f n -> q ∈ S -> is_Some (m q).
Proof.
  intros [b1 b2 S1 S2 S3 es1 es2 es3 g1 g2 Hl Hc Hr _ _ _ -> _] Hq.
  apply elem_of_union in Hq as [[Hq|Hq]%elem_of_union|Hq]; [|by eapply subtree_alloc|].
  - eapply lpart_alloc; [|exact Hl|exact Hq]. intros. by eapply subtree_alloc.
  - eapply rpart_alloc; [|exact Hr|exact Hq]. intros. by eapply subtree_alloc.
Qed.

Lemma focus_child_sorted (m : store) h ls c rs lo hi S es f n :
  focus (child m h) ls c rs lo hi S es f n -> range_ok lo hi /\ sorted_in lo hi es.
Proof. apply focus_sorted. intros. by eapply subtree_sorted. Qed.

(** The node of a focus, once its page holds it. *)
Lemma focus_subtree m lm im h pid ls c rs lo hi S es f n :
  internal_at m pid (node_of pid ls c rs) -> im <= zlen ls + zlen rs -> ~ (pid ∈ S) ->
  focus (child m h) ls c rs lo hi S es f n -> subtree m lm im (Datatypes.S h) pid lo hi ({[pid]} ∪ S) es f n.
Proof.
  intros Hat Him Hn Hf. split; [by eapply focus_child_sorted|]. exists ls, c, rs, S. done.
Qed.

Lemma insert_internal_fits oid pid ls c rs sp v h lo hi Sf es f n lm im :
  pool_wf (v_pool v) -> is_Some (pages_ (v_pool v) !! pid) ->
  internal_ok (node_of pid ls c rs) -> zlen ls + zlen rs + 1 <= kInternalMaxKeys ->
  int64_ok (split_key sp) -> u32_ok (new_right_page_id sp) -> im <= zlen ls + zlen rs -> ~ (pid ∈ Sf) ->
  focus (child (mem v) h) ls c ((split_key sp, new_right_page_id sp) :: rs) lo hi Sf es f n ->
  exists v', insert_internal oid pid pid (node_of pid ls c rs) (length ls) sp v = (Ret None, v') /\ tstep v v' /\
    next v' = next v /\ inserted v v' lm im (S h) pid lo hi ({[pid]} ∪ Sf) es f n None.
Proof.
  intros Hwf Hc Hok Hlen Hk Hr Him Hn Hf. destruct sp as [k d]. cbn [split_key new_right_page_id] in *.
  unfold insert_internal. cbn [split_key new_right_page_id node_of n_keys n_children n_page_id].
  destruct (insert_key_at ls c rs k d) as [-> ->].
  assert (zlen (node_keys ls ((k, d) :: rs)) = zlen ls + zlen rs + 1) as ->.
  { unfold node_keys, zlen. rewrite length_app, !length_fmap. cbn. lia. }
  rewrite (proj2 (Z.leb_le _ _)) by lia.
  assert (internal_ok (node_of pid ls c ((k, d) :: rs))) as Hok'.
  { apply node_of_ok in Hok as (? & ? & ? & ? & ?). apply node_of_ok. split_and!; [done|done| |done|by constructor].
    rewrite zlen_cons. lia. }
  destruct (put_internal_run v pid _ Hok' Hc) as (b & Hp & Hbl & Ht & Hd).
  run Hp. run (MarkDirty_run pid (cache pid b v)). fold (write pid b v).
  destruct (write_wrote v pid b Hwf Hc Hbl) as [H1 H2 H3].
  exists (write pid b v). split_and!; [done..|]. exists ({[pid]} ∪ Sf). split.
  - apply (focus_subtree _ lm im h pid ls c ((k, d) :: rs)); [|rewrite zlen_cons; lia|done|eapply focus_frame; [|exact Hf]].
    + split; [done|]. exists b. rewrite H3, decide_True by done. done.
    + intros q Hq. rewrite H3, decide_False; [done|congruence].
  - split; [|set_solver]. intros q Hq _. rewrite H3, decide_False; [done|set_solver].
Qed.

Lemma zlen_node_keys ls rs : zlen (node_keys ls rs) = zlen ls + zlen rs.
Proof. unfold node_keys, zlen. rewrite length_app, !length_fmap. lia. Qed.

(** The separators are strictly increasing, so every position is a boundary. *)
Lemma focus_boundary (m : store) h ls c k d rs lo hi S es f n :
  focus (child m h) ls c ((k, d) :: rs) lo hi S es f n -> ls <> [] ->
  boundary (node_keys ls ((k, d) :: rs)) (zlen ls).
Proof.
  intros [b1 b2 S1 S2 S3 es1 es2 es3 g1 g2 Hl Hc Hr _ _ _ _ _] Hne.
  destruct (lpart_bound _ _ _ _ _ _ _ _ Hl) as [[-> _]|(ls0 & b & k0 & -> & ->)]; [done|].
  destruct (rpart_bound _ _ _ _ _ _ _ _ Hr) as [[? _]|(k' & d' & rs' & [= <- <- <-] & ->)]; [done|].
  apply subtree_range in Hc. cbn in Hc. exists k0, k.
  assert (node_keys (ls0 ++ [(b, k0)]) ((k, d) :: rs) = ls0.*2 ++ [k0] ++ k :: rs.*1) as ->.
  { unfold node_keys. rewrite fmap_app, <- app_assoc. done. }
  assert (zlen (ls0 ++ [(b, k0)]) = Z.of_nat (length ls0.*2) + 1) as -> by (unfold zlen; rewrite length_app, length_fmap; cbn; lia).
  split_and!; [|rewrite app_assoc|lia]; apply list_lookup_middle; [lia|rewrite length_app; cbn; lia].
Qed.

(** The keys and children on the two sides of a separator. *)
Lemma node_cut ls c k d rs :
  take (length ls) (node_keys ls ((k, d) :: rs)) = node_keys ls [] /\
  drop (S (length ls)) (node_keys ls ((k, d) :: rs)) = node_keys [] rs /\
  vec_at (node_keys ls ((k, d) :: rs)) (zlen ls) = Ret k /\
  take (S (length ls)) (node_children ls c ((k, d) :: rs)) = node_children ls c [] /\
  drop (S (length ls)) (node_children ls c ((k, d) :: rs)) = node_children [] d rs.
Proof.
  unfold node_keys, node_children. cbn [fmap list_fmap fst snd]. split_and!.
  - rewrite app_nil_r, take_app_length' by (by rewrite length_fmap). done.
  - change (ls.*2 ++ k :: rs.*1) with (ls.*2 ++ [k] ++ rs.*1). rewrite app_assoc.
    by rewrite drop_app_length' by (rewrite length_app, length_fmap; cbn; lia).
  - apply vec_at_run; [apply zlen_nonneg|]. unfold zlen. rewrite Nat2Z.id. apply list_lookup_middle. by rewrite length_fmap.
  - change (ls.*1 ++ c :: d :: rs.*2) with (ls.*1 ++ [c] ++ d :: rs.*2). rewrite app_assoc.
    by rewrite take_app_length' by (rewrite length_app, length_fmap; cbn; lia).
  - change (ls.*1 ++ c :: d :: rs.*2) with (ls.*1 ++ [c] ++ d :: rs.*2). rewrite app_assoc.
    by rewrite drop_app_length' by (rewrite length_app, length_fmap; cbn; lia).
Qed.

(** The children on the two sides of a separator. *)
Lemma focus_cut (P : sub_t) ls c k d rs lo hi S es f n :
  focus P ls c ((k, d) :: rs) lo hi S es f n ->
  exists S1 S2 es1 es2 g, focus P ls c [] lo (Some k) S1 es1 f g /\ focus P [] d rs (Some k) hi S2 es2 g n /\
    S1 ## S2 /\ S = S1 ∪ S2 /\ es = es1 ++ es2.
Proof.
  intros [b1 b2 S1 S2 S3 es1 es2 es3 g1 g2 Hl Hc Hr H12 H13 H23 -> ->].
  apply rpart_cons_inv in Hr as (b3 & S4 & S5 & es4 & es5 & g3 & -> & -> & -> & H45 & Hd & Hr).
  exists (S1 ∪ S2 ∪ ∅), (∅ ∪ S4 ∪ S5), (es1 ++ es2 ++ []), ([] ++ es4 ++ es5), g2. split_and!.
  - by econstructor; [exact Hl|exact Hc|constructor|set_solver..| |].
  - by econstructor; [constructor|exact Hd|exact Hr|set_solver..| |].
  - set_solver.
  - set_solver.
  - cbn. by rewrite app_nil_r, <- app_assoc.
Qed.

(** The parts of a cut of a node with one more child are values of its fields. *)
Lemma cut_ok ls c rs k d ls' c' k' d' rs' :
  Forall (fun x => u32_ok x.1 /\ int64_ok x.2) ls -> u32_ok c -> int64_ok k -> u32_ok d -> Forall (fun x => int64_ok x.1 /\ u32_ok x.2) rs ->
  node_keys ls' ((k', d') :: rs') = node_keys ls ((k, d) :: rs) -> node_children ls' c' ((k', d') :: rs') = node_children ls c ((k, d) :: rs) ->
  Forall (fun x => u32_ok x.1 /\ int64_ok x.2) ls' /\ u32_ok c' /\ int64_ok k' /\ u32_ok d' /\ Forall (fun x => int64_ok x.1 /\ u32_ok x.2) rs'.
Proof.
  intros Hls Hc Hk Hd Hrs Hke Hch. assert (Forall int64_ok (node_keys ls ((k, d) :: rs)) /\ Forall u32_ok (node_children ls c ((k, d) :: rs))) as [Ha Hb].
  { unfold node_keys, node_children. apply Forall_both in Hls as [? ?], Hrs as [? ?].
    split; (apply Forall_app; split; [by apply Forall_fmap|]); repeat (constructor; [done|]); by apply Forall_fmap. }
  rewrite <- Hke in Ha. rewrite <- Hch in Hb. unfold node_keys, node_children in Ha, Hb. cbn in Ha, Hb.
  apply Forall_app in Ha as [Ha1 [Ha2 Ha3]%Forall_cons], Hb as [Hb1 [Hb2 [Hb3 Hb4]%Forall_cons]%Forall_cons].
  rewrite Forall_fmap in Ha1. rewrite Forall_fmap in Hb1. rewrite Forall_fmap in Ha3. rewrite Forall_fmap in Hb4.
  split_and!; [|done..|].
  - apply (Forall_both (fun x => u32_ok x.1) (fun x => int64_ok x.2)). split; assumption.
  - apply (Forall_both (fun x => int64_ok x.1) (fun x => u32_ok x.2)). split; assumption.
Qed.

(** The two halves of a node, the right one on a new page. *)
Lemma cut_inserted v v3 h lm im pid rp ls c k d rs lo hi Sf es f n :
  internal_at (mem v3) pid (node_of pid ls c []) -> internal_at (mem v3) rp (node_of rp [] d rs) ->
  mem v rp = None -> ~ (pid ∈ Sf) -> (forall q, q <> pid -> q <> rp -> mem v3 q = mem v q) ->
  int64_ok k -> kInternalMinKeys <= zlen ls -> kInternalMinKeys <= zlen rs -> pid <> rp ->
  focus (child (mem v) h) ls c ((k, d) :: rs) lo hi Sf es f n ->
  inserted v v3 lm im (S h) pid lo hi ({[pid]} ∪ Sf) es f n (Some (mkSplit k rp)).
Proof.
  intros Hl Hr Hnone Hn Hm Hk Hzl Hzr Hne Hf.
  assert (~ (rp ∈ Sf)) as Hrn by (intros Hq; destruct (focus_alloc _ _ _ _ _ _ _ _ _ _ _ _ Hf Hq); congruence).
  assert (forall q, q ∈ Sf -> mem v3 q = mem v q) as Hsame by (intros q Hq; apply Hm; intros ->; done).
  destruct (focus_cut _ _ _ _ _ _ _ _ _ _ _ _ (focus_frame _ _ _ _ _ _ _ _ _ _ _ _ Hsame Hf)) as (S1 & S2 & es1 & es2 & g & Hf1 & Hf2 & H12 & -> & ->).
  exists ({[pid]} ∪ S1), ({[rp]} ∪ S2), es1, es2, g. split_and!; [..|done|done].
  - apply (focus_subtree _ 1 kInternalMinKeys h pid ls c []); [done|unfold zlen in *; cbn; lia|set_solver|done].
  - apply (focus_subtree _ 1 kInternalMinKeys h rp [] d rs); [done|unfold zlen in *; cbn; lia|set_solver|done].
  - set_solver.
  - split; [intros q Hq Hs; apply Hm; [set_solver|intros ->; destruct Hs; congruence]|].
    intros q Hq. destruct (decide (q = rp)) as [->|]; [by right|left; set_solver].
Qed.

Lemma insert_internal_splits oid pid ls c rs sp v h lo hi Sf es f n lm im :
  pool_wf (v_pool v) -> uncontended v -> is_Some (pages_ (v_pool v) !! pid) ->
  internal_ok (node_of pid ls c rs) -> kInternalMaxKeys < zlen ls + zlen rs + 1 ->
  int64_ok (split_key sp) -> u32_ok (new_right_page_id sp) -> ~ (pid ∈ Sf) -> next v + 1 < 2 ^ 32 ->
  focus (child (mem v) h) ls c ((split_key sp, new_right_page_id sp) :: rs) lo hi Sf es f n ->
  exists sp' v', insert_internal oid pid pid (node_of pid ls c rs) (length ls) sp v = (Ret (Some sp'), v') /\ tstep v v' /\
    next v' = next v + 1 /\ u32_ok (new_right_page_id sp') /\
    inserted v v' lm im (S h) pid lo hi ({[pid]} ∪ Sf) es f n (Some sp').
Proof.
  intros Hwf Hu Hc Hok Hlen Hk Hr Hn Hmax Hf. destruct sp as [k d]. cbn [split_key new_right_page_id] in *.
  unfold insert_internal. cbn [split_key new_right_page_id node_of n_keys n_children n_page_id].
  destruct (insert_key_at ls c rs k d) as [-> ->].
  assert (internal_ok (node_of pid ls c rs)) as Hok0 by done.
  apply node_of_ok in Hok as (Hpid & Hcu & Hmaxk & Hlsok & Hrsok). rewrite kInternalMaxKeys_eq in *.
  destruct (focus_at _ _ _ _ _ _ _ _ _ _ 170 Hf) as (ls' & c' & rs1 & Hll & Hke & Hch & Hln & Hf');
    [unfold zlen in *; cbn; lia|].
  rewrite <- Hke, <- Hch. assert (zlen ls' = 170) as Hzl by (unfold zlen; lia).
  destruct rs1 as [|[k' d'] rs']; [unfold zlen in *; cbn in *; lia|].
  assert (zlen rs' = 169) as Hzr by (unfold zlen in *; cbn in *; lia).
  destruct (cut_ok ls c rs k d ls' c' k' d' rs' Hlsok Hcu Hk Hr Hrsok Hke Hch) as (Hok1 & Hok2 & Hok3 & Hok4 & Hok5).
  rewrite zlen_node_keys, zlen_cons, Hzl, Hzr. cbn [Z.leb Z.compare Z.add Pos.add Pos.add_carry Pos.succ Pos.compare Pos.compare_cont].
  change (170 + (1 + 169) <=? 339) with false. change ((170 + (1 + 169)) / 2) with 170.
  assert (ls' <> []) as Hne by (intros ->; done).
  rewrite (FindSplitBoundary_mid _ 170); [|rewrite zlen_node_keys, zlen_cons; lia|rewrite <- Hzl; by eapply focus_boundary].
  run (lift_run 170 v). destruct (node_cut ls' c' k' d' rs') as (Hn1 & Hn2 & Hn3 & Hn4 & Hn5). rewrite Hzl in Hn3. rewrite Hn3.
  run (lift_run k' v). destruct (new_page oid v Hwf Hu Hmax) as (v1 & v2 & H1 & H2 & Hst & Hnx & Hca & Hnone & Hm).
  run H1. run H2. change (Z.to_nat 170) with 170%nat. rewrite <- Hll, Hn1, Hn2, Hn4, Hn5. set (rp := next v) in *.
  assert (internal_ok (node_of pid ls' c' [])) as Hokl.
  { apply node_of_ok. split_and!; [done|done| |done|constructor]. rewrite kInternalMaxKeys_eq. unfold zlen in *. cbn. lia. }
  assert (internal_ok (node_of rp [] d' rs')) as Hokr.
  { apply node_of_ok. split_and!; [by apply next_u32|done| |constructor|done]. rewrite kInternalMaxKeys_eq. unfold zlen in *. cbn. lia. }
  assert (is_Some (pages_ (v_pool v2) !! pid)) as Hcp by (by apply Hst).
  assert (pid <> rp) as Hpr' by (intros ->; destruct (cached_mem v rp) as [p Hp]; [done|congruence]).
  destruct (put_internals_run v2 pid rp _ _ (mret (Some (mkSplit k' rp))) (ts_wf _ _ Hst Hwf) Hcp Hca Hpr' Hokl Hokr) as (v3 & E & Hst3 & Hnx3 & Hl3 & Hr3 & Hm3).
  exists (mkSplit k' rp), v3. split_and!; [exact E|by etrans|lia|by apply next_u32|].
  change kInternalMinKeys with 169. apply (cut_inserted v v3 h lm im pid rp ls' c' k' d' rs'); try done; [|by rewrite Hzl|by rewrite Hzr].
  intros q Hq Hqr. by rewrite Hm3, Hm, decide_False.
Qed.

(** ** InsertRecursive *)

Lemma tstep_alloc v v' q : tstep v v' -> is_Some (mem v q) -> is_Some (mem v' q).
Proof. intros H. apply H. Qed.

Lemma grown_trans v v1 v2 S2 S2' S S' S'' :
  tstep v v1 -> grown v v1 S2 S2' -> grown v1 v2 S' S'' -> S2 ⊆ S -> (forall q, q ∈ S' -> q ∈ S \/ mem v q = None) ->
  grown v v2 S S''.
Proof.
  intros Hst [G1 G2] [G3 G4] Hsub HS'. split.
  - intros q Hq Hs. rewrite G3; [by apply G1; [set_solver|]| |by rewrite G1 by (done || set_solver)].
    intros [?|Hn]%HS'; [done|]. destruct Hs. congruence.
  - intros q Hq. apply G4 in Hq as [Hq|Hq]; [by apply HS'|]. right.
    destruct (mem v q) as [p|] eqn:E; [|done]. destruct (tstep_alloc _ _ q Hst) as [p' Hp']; [eauto|]. congruence.
Qed.

Lemma inserted_peek v v1 v2 lm im h pid lo hi S es f n r :
  peek v v1 -> inserted v1 v2 lm im h pid lo hi S es f n r -> inserted v v2 lm im h pid lo hi S es f n r.
Proof.
  intros Hp. assert (forall S S', grown v1 v2 S S' -> grown v v2 S S') as Hg.
  { intros A B [G1 G2]. split; [intros q; rewrite <- (pk_mem _ _ Hp); apply G1|intros q Hq; rewrite <- (pk_mem _ _ Hp); by apply G2]. }
  destruct r as [sp|]; cbn.
  - intros (S1 & S2 & es1 & es2 & g & ? & ? & ? & ? & ? & ?). exists S1, S2, es1, es2, g. split_and!; auto.
  - intros (S' & ? & ?). exists S'. auto.
Qed.

Lemma lpart_kept v v' h ls a b S2 S2' S es f n :
  grown v v' S2 S2' -> S ## S2 -> lpart (child (mem v) h) ls a b S es f n -> lpart (child (mem v') h) ls a b S es f n.
Proof.
  intros [G1 _] Hd H. eapply lpart_mono; [|exact H]. intros c b1 b2 S' es' f' n' HS' Hc. eapply subtree_frame; [|exact Hc].
  intros q Hq. apply G1; [set_solver|]. by eapply subtree_alloc.
Qed.

Lemma rpart_kept v v' h rs a b S2 S2' S es f n :
  grown v v' S2 S2' -> S ## S2 -> rpart (child (mem v) h) rs a b S es f n -> rpart (child (mem v') h) rs a b S es f n.
Proof.
  intros [G1 _] Hd H. eapply rpart_mono; [|exact H]. intros c b1 b2 S' es' f' n' HS' Hc. eapply subtree_frame; [|exact Hc].
  intros q Hq. apply G1; [set_solver|]. by eapply subtree_alloc.
Qed.

Lemma lpart_allocated v h ls a b S es f n q : lpart (child (mem v) h) ls a b S es f n -> q ∈ S -> is_Some (mem v q).
Proof. intros H Hq. eapply lpart_alloc; [|exact H|exact Hq]. intros. by eapply subtree_alloc. Qed.

Lemma rpart_allocated v h rs a b S es f n q : rpart (child (mem v) h) rs a b S es f n -> q ∈ S -> is_Some (mem v q).
Proof. intros H Hq. eapply rpart_alloc; [|exact H|exact Hq]. intros. by eapply subtree_alloc. Qed.

(** The pages a child gained are none of its siblings'. *)
Lemma grown_disjoint v v' S2 S2' S : grown v v' S2 S2' -> S ## S2 -> (forall q, q ∈ S -> is_Some (mem v q)) -> S ## S2'.
Proof. intros [_ G] Hd Ha q Hq Hq'. destruct (G q Hq') as [?|Hn]; [by apply (Hd q)|]. destruct (Ha q Hq). congruence. Qed.

(** A child was replaced by its new version: the node's children again. *)
Lemma focus_replace v v' h ls c rs lo hi b1 b2 S1 S2 S3 S2' es1 es2' es3 f g1 g2 n :
  lpart (child (mem v) h) ls lo b1 S1 es1 f g1 -> rpart (child (mem v) h) rs b2 hi S3 es3 g2 n ->
  S1 ## S2 -> S1 ## S3 -> S2 ## S3 -> grown v v' S2 S2' ->
  child (mem v') h c b1 b2 S2' es2' g1 g2 ->
  focus (child (mem v') h) ls c rs lo hi (S1 ∪ S2' ∪ S3) (es1 ++ es2' ++ es3) f n.
Proof.
  intros Hl Hr H12 H13 H23 Hg Hc. pose proof (grown_disjoint _ _ _ _ _ Hg H12 (fun q => lpart_allocated _ _ _ _ _ _ _ _ _ q Hl)).
  pose proof (grown_disjoint _ _ _ _ S3 Hg ltac:(by symmetry) (fun q => rpart_allocated _ _ _ _ _ _ _ _ _ q Hr)).
  assert (S3 ## S2) as Hs32 by (by symmetry). econstructor; [exact (lpart_kept _ _ _ _ _ _ _ _ _ _ _ _ Hg H12 Hl)|exact Hc|exact (rpart_kept _ _ _ _ _ _ _ _ _ _ _ _ Hg Hs32 Hr)|done|done|by symmetry|done..].
Qed.

(** A child was split in two. *)
Lemma focus_replace_split v v' h ls c k d rs lo hi b1 b2 S1 S2 S3 A B es1 ea eb es3 f g1 g g2 n :
  lpart (child (mem v) h) ls lo b1 S1 es1 f g1 -> rpart (child (mem v) h) rs b2 hi S3 es3 g2 n ->
  S1 ## S2 -> S1 ## S3 -> S2 ## S3 -> grown v v' S2 (A ∪ B) -> A ## B ->
  child (mem v') h c b1 (Some k) A ea g1 g -> child (mem v') h d (Some k) b2 B eb g g2 ->
  focus (child (mem v') h) ls c ((k, d) :: rs) lo hi (S1 ∪ (A ∪ B) ∪ S3) (es1 ++ (ea ++ eb) ++ es3) f n.
Proof.
  intros Hl Hr H12 H13 H23 Hg HAB Ha Hb. pose proof (grown_disjoint _ _ _ _ _ Hg H12 (fun q => lpart_allocated _ _ _ _ _ _ _ _ _ q Hl)).
  pose proof (grown_disjoint _ _ _ _ S3 Hg ltac:(by symmetry) (fun q => rpart_allocated _ _ _ _ _ _ _ _ _ q Hr)).
  assert (S3 ## S2) as Hs32 by (by symmetry). econstructor; [exact (lpart_kept _ _ _ _ _ _ _ _ _ _ _ _ Hg H12 Hl)|exact Ha|econstructor; [exact Hb|exact (rpart_kept _ _ _ _ _ _ _ _ _ _ _ _ Hg Hs32 Hr)|set_solver]|set_solver..|by rewrite <- !app_assoc].
Qed.

Lemma InsertRecursive_leaf oid key rid lm im pid lo hi S es f n v frames :
  subtree (mem v) lm im 0 pid lo hi S es f n -> pool_wf (v_pool v) -> uncontended v ->
  in_range lo hi key -> entry_ok (key, rid) -> next v + 1 < 2 ^ 32 ->
  (forall k, key_count k (insert_entry key rid es) <= kLeafMaxKeys) ->
  exists r v', InsertRecursive oid (Datatypes.S frames) pid key rid v = (Ret r, v') /\ tstep v v' /\
    next v' <= next v + 1 /\ (forall sp, r = Some sp -> u32_ok (new_right_page_id sp)) /\
    inserted v v' lm im 0 pid lo hi S (insert_entry key rid es) f n r.
Proof.
  intros [Hro Hs] Hwf Hu Hk He Hmax Hdup. cbn [InsertRecursive].
  destruct Hs as (-> & -> & (Hok & buf & Hb & Hleaf & Hd) & Hso & Hlm).
  destruct (lock_fetch oid pid kExclusive v buf Hu Hb) as (v1 & v2 & H1 & H2 & H3 & Hp & Hc). run H1. run H2. run H3. rewrite Hleaf.
  pose proof (pk_next _ _ Hp) as Hpn.
  destruct (Z.le_gt_cases (zlen es + 1) kLeafMaxKeys) as [Hfit|Hfull].
  - destruct (insert_leaf_fits oid pid buf key rid v2 lo hi es n lm im) as (v3 & H4 & Hst & Hn & Hi); [by apply Hp|done..|].
    exists None, v3. split_and!; [done|etrans; [apply Hp|done]|lia|done|by eapply inserted_peek].
  - destruct (insert_leaf_splits oid pid buf key rid v2 lo hi es n lm im) as (sp & v3 & H4 & Hst & Hn & Hsp & Hi);
      [by apply Hp|by eapply peek_uncontended|done..|lia|done|].
    exists (Some sp), v3. split_and!; [done|etrans; [apply Hp|done]|lia|by intros ? [= <-]|by eapply inserted_peek].
Qed.

(** Above a child that kept its page: the node itself is not written. *)
Lemma insert_kept v v3 h lm im pid ls c rs lo hi b1 b2 S1 S2 S3 S2' es1 es2' es3 f g1 g2 n :
  internal_at (mem v) pid (node_of pid ls c rs) -> im <= zlen ls + zlen rs -> ~ (pid ∈ S1 ∪ S2 ∪ S3) ->
  lpart (child (mem v) h) ls lo b1 S1 es1 f g1 -> rpart (child (mem v) h) rs b2 hi S3 es3 g2 n ->
  S1 ## S2 -> S1 ## S3 -> S2 ## S3 -> grown v v3 S2 S2' -> child (mem v3) h c b1 b2 S2' es2' g1 g2 ->
  inserted v v3 lm im (Datatypes.S h) pid lo hi ({[pid]} ∪ (S1 ∪ S2 ∪ S3)) (es1 ++ es2' ++ es3) f n None.
Proof.
  intros (Hok & buf & Hb & Hd) Him Hn Hl Hr H12 H13 H23 Hg Hc'. pose proof (focus_replace _ _ _ _ _ _ _ _ _ _ _ _ _ _ _ _ _ _ _ _ _ Hl Hr H12 H13 H23 Hg Hc') as Hf3.
  assert (mem v3 pid = mem v pid) as Hsame by (apply Hg; [set_solver|rewrite Hb; eauto]).
  exists ({[pid]} ∪ (S1 ∪ S2' ∪ S3)). split.
  - eapply focus_subtree; [split; [exact Hok|]; exists buf; by rewrite Hsame|lia| |exact Hf3].
    assert (~ (pid ∈ S2')); [|set_solver]. intros Hq. apply Hg in Hq as [?|Hq]; [set_solver|congruence].
  - split; [intros q Hq Hs; apply Hg; [set_solver|done]|]. intros q Hq.
    destruct (decide (q ∈ S2')) as [Hq2|]; [apply Hg in Hq2 as [?|?]; [left; set_solver|by right]|left; set_solver].
Qed.

(** Above a child that was split: the node takes the new key, or is split too. *)
Lemma insert_carried oid v v3 h lm im pid ls c rs lo hi b1 b2 S1 S2 S3 es1 es2' es3 f g1 g2 n sp :
  internal_at (mem v) pid (node_of pid ls c rs) -> im <= zlen ls + zlen rs -> ~ (pid ∈ S1 ∪ S2 ∪ S3) ->
  lpart (child (mem v) h) ls lo b1 S1 es1 f g1 -> rpart (child (mem v) h) rs b2 hi S3 es3 g2 n ->
  S1 ## S2 -> S1 ## S3 -> S2 ## S3 -> tstep v v3 -> pool_wf (v_pool v3) -> uncontended v3 -> is_Some (pages_ (v_pool v3) !! pid) ->
  next v3 + 1 < 2 ^ 32 -> u32_ok (new_right_page_id sp) -> inserted v v3 1 kInternalMinKeys h c b1 b2 S2 es2' g1 g2 (Some sp) ->
  exists r v4, insert_internal oid pid pid (node_of pid ls c rs) (length ls) sp v3 = (Ret r, v4) /\ tstep v3 v4 /\
    next v4 <= next v3 + 1 /\ (forall sp', r = Some sp' -> u32_ok (new_right_page_id sp')) /\
    inserted v v4 lm im (Datatypes.S h) pid lo hi ({[pid]} ∪ (S1 ∪ S2 ∪ S3)) (es1 ++ es2' ++ es3) f n r.
Proof.
  intros (Hok & buf & Hb & _) Him Hn Hl Hr H12 H13 H23 Hst Hwf Hu Hc3 Hmax Hsp Hins. destruct sp as [k d].
  destruct Hins as (A & B & ea & eb & g & Hca & Hcb & HAB & Hg & -> & Hkok). cbn [split_key new_right_page_id] in *.
  pose proof (focus_replace_split _ _ _ _ _ _ _ _ _ _ _ _ _ _ _ _ _ _ _ _ _ _ _ _ _ _ Hl Hr H12 H13 H23 Hg HAB Hca Hcb) as Hf3.
  assert (~ (pid ∈ S1 ∪ (A ∪ B) ∪ S3)) as Hpid.
  { assert (~ (pid ∈ A ∪ B)); [|set_solver]. intros Hq. apply Hg in Hq as [?|Hq]; [set_solver|congruence]. }
  assert (forall q, q ∈ {[pid]} ∪ (S1 ∪ (A ∪ B) ∪ S3) -> q ∈ {[pid]} ∪ (S1 ∪ S2 ∪ S3) \/ mem v q = None) as Hsub.
  { intros q Hq. destruct (decide (q ∈ A ∪ B)) as [HqAB|]; [apply Hg in HqAB as [?|?]; [left; set_solver|by right]|left; set_solver]. }
  destruct (Z.le_gt_cases (zlen ls + zlen rs + 1) kInternalMaxKeys) as [Hfit|Hfull].
  - destruct (insert_internal_fits oid pid ls c rs (mkSplit k d) v3 h lo hi (S1 ∪ (A ∪ B) ∪ S3) (es1 ++ (ea ++ eb) ++ es3) f n lm im)
      as (v4 & H5 & Hst4 & Hn4 & S' & Hsub' & Hg'); [done..|].
    exists None, v4. split_and!; [done|done|lia|done|]. exists S'. split; [done|]. eapply grown_trans; [exact Hst|exact Hg|exact Hg'|set_solver|done].
  - destruct (insert_internal_splits oid pid ls c rs (mkSplit k d) v3 h lo hi (S1 ∪ (A ∪ B) ∪ S3) (es1 ++ (ea ++ eb) ++ es3) f n lm im)
      as (sp' & v4 & H5 & Hst4 & Hn4 & Hu4 & A' & B' & ea' & eb' & g' & ? & ? & ? & Hg' & ? & ?); try done.
    exists (Some sp'), v4. split_and!; [done|done|lia|by intros ? [= <-]|]. exists A', B', ea', eb', g'. split_and!; [done..| |done|done].
    eapply grown_trans; [exact Hst|exact Hg|exact Hg'|set_solver|done].
Qed.

Lemma InsertRecursive_run oid key rid h lm im pid lo hi S es f n v frames :
  subtree (mem v) lm im h pid lo hi S es f n -> pool_wf (v_pool v) -> uncontended v ->
  in_range lo hi key -> entry_ok (key, rid) -> (h < frames)%nat -> next v + Z.of_nat h + 1 < 2 ^ 32 ->
  (forall k, key_count k (insert_entry key rid es) <= kLeafMaxKeys) ->
  exists r v', InsertRecursive oid frames pid key rid v = (Ret r, v') /\ tstep v v' /\
    next v' <= next v + Z.of_nat h + 1 /\ (forall sp, r = Some sp -> u32_ok (new_right_page_id sp)) /\
    inserted v v' lm im h pid lo hi S (insert_entry key rid es) f n r.
Proof.
  revert lm im pid lo hi S es f n v frames.
  induction h as [|h IH]; intros lm im pid lo hi S es f n v frames Hs Hwf Hu Hk He Hfr Hmax Hdup; (destruct frames as [|frames]; [lia|]).
  - destruct (InsertRecursive_leaf oid key rid lm im pid lo hi S es f n v frames Hs Hwf Hu Hk He) as (r & v' & H & Hst & Hn & Hr); [lia|done|].
    exists r, v'. split_and!; [done|done|lia|apply Hr..].
  - cbn [InsertRecursive]. destruct Hs as [Hro Hs].
    destruct Hs as (ls0 & c0 & rs0 & Sf & (Hok & buf & Hb & Hleaf & Hd) & Him & Hfo & Hn & ->).
    destruct (lock_fetch oid pid kExclusive v buf Hu Hb) as (v1 & v2 & H1 & H2 & H3 & Hp & Hc). run H1. run H2. run H3. rewrite Hleaf, Hd.
    pose proof (pk_next _ _ Hp) as Hpn.
    run (lift_run (node_of pid ls0 c0 rs0) v2).
    assert (focus (child (mem v2) h) ls0 c0 rs0 lo hi Sf es f n) as Hfo2 by (eapply focus_frame; [intros; apply Hp|exact Hfo]).
    destruct (focus_route _ _ _ _ _ _ _ _ _ _ key Hfo2 Hk) as (ls & c & rs & Hi & Hke & Hch & Hlen & b1 & b2 & S1 & S2 & S3 & es1 & es2 & es3 & g1 & g2 & Hl & Hcd & Hr & H12 & H13 & H23 & -> & -> & Hk').
    assert (node_of pid ls0 c0 rs0 = node_of pid ls c rs) as Hnode by (unfold node_of; by rewrite Hke, Hch).
    rewrite Hnode in *. change (n_children (node_of pid ls c rs)) with (node_children ls c rs).
    change (n_keys (node_of pid ls c rs)) with (node_keys ls rs). rewrite Hke, <- Hi. fold (zlen ls). rewrite node_child. run (lift_run c v2).
    destruct (parts_around (mem v2) h ls rs lo hi b1 b2 S1 S3 es1 es3 f g1 g2 n key Hl Hr Hk') as [Ha1 Ha3].
    rewrite insert_entry_mid in * by (done || (eapply Forall_impl; [exact Ha1|]; intros; cbn in *; lia)).
    destruct (IH 1 kInternalMinKeys c b1 b2 S2 es2 g1 g2 v2 frames) as (r & v3 & H4 & Hst & Hnx & Hsp & Hins);
      [done|by apply Hp|by eapply peek_uncontended|done|done|lia|lia| |].
    { intros k. specialize (Hdup k). rewrite !key_count_app in Hdup.
      pose proof (key_count_nonneg k es1). pose proof (key_count_nonneg k es3). lia. }
    run H4. assert (im <= zlen ls + zlen rs) as Hz by (unfold zlen in *; lia).
    assert (internal_at (mem v2) pid (node_of pid ls c rs)) as Hat by (split; [exact Hok|]; exists buf; by rewrite (pk_mem _ _ Hp)).
    destruct r as [sp|].
    + destruct (insert_carried oid v2 v3 h lm im pid ls c rs lo hi b1 b2 S1 S2 S3 es1 (insert_entry key rid es2) es3 f g1 g2 n sp) as (r & v4 & H5 & Hst4 & Hn4 & Hsp4 & Hi4);
        [done..|by apply Hst, Hp|apply Hst; by eapply peek_uncontended|apply Hst; eauto|lia|by apply Hsp|done|].
      exists r, v4. split_and!; [done|etrans; [apply Hp|by etrans]|lia|done|]. by eapply inserted_peek.
    + destruct Hins as (S2' & Hc' & Hg).
      exists None, v3. split_and!; [done|etrans; [apply Hp|done]|lia|done|]. eapply inserted_peek; [exact Hp|]. by eapply insert_kept.
Qed.

(** ** Insert *)

(** A new root page, written and named by the header. *)
Lemma install_root v v1 pid buf hp es h S f :
  pool_wf (v_pool v) -> wrote v v1 pid buf -> mem v kRootHeaderPageId = Some hp -> u32_ok pid -> pid <> kRootHeaderPageId ->
  subtree (mem v1) 1 1 h pid None None S es f INVALID_PAGE_ID -> ~ (kRootHeaderPageId ∈ S) ->
  exists v2, SetRootPageId pid v1 = (Ret tt, v2) /\ tstep v v2 /\ next v2 = next v /\ btree v2 es.
Proof.
  intros Hwf [Hst Hn Hm] Hh Hpid Hne Hs H0.
  destruct (SetRootPageId_run v1 pid hp) as (v2 & H2 & [Hst2 Hn2 Hm2]); [by apply Hst|by rewrite Hm, decide_False by done|done|].
  exists v2. split_and!; [done|by etrans|lia|]. split; [by apply Hst2, Hst|].
  exists (SerializeHeader pid), pid. split_and!; [by rewrite Hm2, decide_True by done|by apply header_roundtrip|].
  right. exists h, S, f. split; [|done]. eapply subtree_frame; [|exact Hs]. intros q Hq. rewrite Hm2, decide_False; [done|congruence].
Qed.

Lemma header_fresh v pid hp : mem v kRootHeaderPageId = Some hp -> mem v pid = None -> pid <> kRootHeaderPageId.
Proof. intros H1 H2 ->. congruence. Qed.

Lemma Insert_first oid frames key rid v hp :
  pool_wf (v_pool v) -> uncontended v -> mem v kRootHeaderPageId = Some hp ->
  DeserializeHeaderRootPageId hp = INVALID_PAGE_ID -> entry_ok (key, rid) -> next v + 1 < 2 ^ 32 ->
  exists v', Insert oid frames key rid v = (Ret tt, v') /\ tstep v v' /\ next v' = next v + 1 /\ btree v' [(key, rid)].
Proof.
  intros Hwf Hu Hh Hr He Hmax.
  destruct (locked_root oid kExclusive v hp Hu Hh) as (v1 & v2 & H1 & H2 & Hp). unfold Insert. run H1. run H2. rewrite Hr, Z.eqb_refl.
  assert (pool_wf (v_pool v2)) as Hwf2 by (by apply Hp). pose proof (pk_next _ _ Hp) as Hn2.
  destruct (new_page oid v2 Hwf2) as (v3 & v4 & H3 & H4 & Hst & Hnx & Hca & Hnone & Hm); [by eapply peek_uncontended|lia|].
  run H3. run H4. set (pid := next v2) in *. assert (u32_ok pid) as Hpid by (by apply next_u32).
  assert (leaf_ok (leaf_of pid INVALID_PAGE_ID [(key, rid)])) as Hok.
  { apply leaf_of_ok. split_and!; [done| |done|by constructor]. unfold INVALID_PAGE_ID, u32_ok. lia. }
  destruct (put_leaf_run v4 pid _ Hok Hca) as (b & Hp4 & Hbl & Ht & Hd).
  change (mkLeaf pid INVALID_PAGE_ID [key] [rid]) with (leaf_of pid INVALID_PAGE_ID [(key, rid)]).
  run Hp4. run (MarkDirty_run pid (cache pid b v4)). fold (write pid b v4).
  assert (pool_wf (v_pool v4)) as Hwf4 by (by apply Hst). pose proof (write_wrote v4 pid b Hwf4 Hca Hbl) as Hw.
  rewrite <- (pk_mem _ _ Hp) in Hh. assert (pid <> kRootHeaderPageId) as Hne by (by eapply header_fresh).
  assert (mem v4 kRootHeaderPageId = Some hp) as Hh4 by (by rewrite Hm, decide_False by done).
  assert (subtree (mem (write pid b v4)) 1 1 0 pid None None {[pid]} [(key, rid)] pid INVALID_PAGE_ID) as Hsub.
  { split; [done|]. split_and!; [done|done| | |done].
    - split; [done|]. exists b. by rewrite (wr_mem _ _ _ _ Hw), decide_True.
    - split; [repeat constructor|by repeat constructor]. }
  destruct (install_root v4 _ pid b hp _ _ _ _ Hwf4 Hw Hh4 Hpid Hne Hsub) as (v5 & H5 & Hst5 & Hn5 & Hbt); [set_solver|].
  exists v5. split_and!; [done|etrans; [apply Hp|by etrans]|lia|done].
Qed.

(** The code after a root split. *)
Definition new_root (oid : ObjectId) (root : PageId) (sp : SplitResult) : M View unit :=
  new_root_pid ← NewPage;
  LockPage oid new_root_pid kExclusive;;
  put_internal new_root_pid (mkInternal new_root_pid [split_key sp] [root; new_right_page_id sp]);;
  MarkDirty new_root_pid;;
  SetRootPageId new_root_pid.

Lemma new_root_run oid v root sp hp :
  pool_wf (v_pool v) -> uncontended v -> mem v kRootHeaderPageId = Some hp -> next v + 1 < 2 ^ 32 ->
  int64_ok (split_key sp) -> u32_ok root -> u32_ok (new_right_page_id sp) ->
  exists v', new_root oid root sp v = (Ret tt, v') /\ tstep v v' /\ next v' = next v + 1 /\
    next v <> kRootHeaderPageId /\ mem v (next v) = None /\
    mem v' kRootHeaderPageId = Some (SerializeHeader (next v)) /\
    internal_at (mem v') (next v) (node_of (next v) [] root [(split_key sp, new_right_page_id sp)]) /\
    forall q, q <> kRootHeaderPageId -> q <> next v -> mem v' q = mem v q.
Proof.
  destruct sp as [k d]. cbn [split_key new_right_page_id]. intros Hwf Hu Hh Hmax Hk Hroot Hd.
  destruct (new_page oid v Hwf Hu Hmax) as (v3 & v4 & H3 & H4 & Hst & Hnx & Hca & Hnone & Hm).
  unfold new_root. run H3. run H4. set (pid := next v) in *. assert (u32_ok pid) as Hpid by (by apply next_u32).
  assert (internal_ok (node_of pid [] root [(k, d)])) as Hok by (apply node_of_ok; split_and!; [done|done|done|constructor|by apply Forall_singleton]).
  destruct (put_internal_run v4 pid _ Hok Hca) as (b & Hp4 & Hbl & Ht & Hdb). cbn [split_key new_right_page_id].
  change (mkInternal pid [k] [root; d]) with (node_of pid [] root [(k, d)]).
  run Hp4. run (MarkDirty_run pid (cache pid b v4)). fold (write pid b v4).
  assert (pool_wf (v_pool v4)) as Hwf4 by (by apply Hst). destruct (write_wrote v4 pid b Hwf4 Hca Hbl) as [Hst5 Hn5 Hm5].
  assert (pid <> kRootHeaderPageId) as Hne by (by eapply header_fresh).
  destruct (SetRootPageId_run (write pid b v4) pid hp) as (v6 & E6 & [Hst6 Hn6 Hm6]);
    [by apply Hst5|by rewrite Hm5, decide_False, Hm, decide_False by done|done|].
  exists v6. split_and!; [done|by repeat (etrans; [eassumption|])|lia|done|done|by rewrite Hm6, decide_True| |].
  - split; [done|]. exists b. by rewrite Hm6, decide_False, Hm5, decide_True by done.
  - intros q H1 H2. by rewrite Hm6, decide_False, Hm5, decide_False, Hm, decide_False by done.
Qed.

Lemma grow_root oid v root sp hp h S1 S2 es1 es2 f g :
  pool_wf (v_pool v) -> uncontended v -> mem v kRootHeaderPageId = Some hp -> next v + 1 < 2 ^ 32 ->
  child (mem v) h root None (Some (split_key sp)) S1 es1 f g ->
  child (mem v) h (new_right_page_id sp) (Some (split_key sp)) None S2 es2 g INVALID_PAGE_ID ->
  S1 ## S2 -> ~ (kRootHeaderPageId ∈ S1 ∪ S2) -> int64_ok (split_key sp) -> u32_ok root -> u32_ok (new_right_page_id sp) ->
  exists v', new_root oid root sp v = (Ret tt, v') /\ tstep v v' /\ next v' = next v + 1 /\ btree v' (es1 ++ es2).
Proof.
  intros Hwf Hu Hh Hmax Ha Hb H12 H0 Hk Hroot Hd.
  destruct (new_root_run oid v root sp hp Hwf Hu Hh Hmax Hk Hroot Hd) as (v' & E & Hst & Hn & Hne & Hnone & Hhd & Hat & Hm).
  exists v'. split_and!; [done..|]. destruct sp as [k d]. cbn [split_key new_right_page_id] in *. set (pid := next v) in *.
  assert (forall q, q ∈ S1 ∪ S2 -> q <> pid) as Hfresh.
  { intros q [Hq|Hq]%elem_of_union ->; [destruct (subtree_alloc _ _ _ _ _ _ _ _ _ _ _ _ Ha Hq)|destruct (subtree_alloc _ _ _ _ _ _ _ _ _ _ _ _ Hb Hq)]; congruence. }
  assert (forall q, q ∈ S1 ∪ S2 -> mem v' q = mem v q) as Hsame by (intros q Hq; apply Hm; [congruence|by apply Hfresh]).
  assert (child (mem v') h root None (Some k) S1 es1 f g) as Ha' by (eapply subtree_frame; [|exact Ha]; intros; apply Hsame; set_solver).
  assert (child (mem v') h d (Some k) None S2 es2 g INVALID_PAGE_ID) as Hb' by (eapply subtree_frame; [|exact Hb]; intros; apply Hsame; set_solver).
  split; [by apply Hst|]. eexists _, pid. split_and!; [exact Hhd|by apply header_roundtrip, next_u32|]. right.
  exists (Datatypes.S h), ({[pid]} ∪ (∅ ∪ S1 ∪ (S2 ∪ ∅))), f. split; [|set_solver].
  apply (focus_subtree _ 1 1 h pid [] root [(k, d)]); [done|done|intros Hq; apply (Hfresh pid); [set_solver|done]|].
  econstructor; [constructor|exact Ha'|econstructor; [exact Hb'|constructor|set_solver]|set_solver..|by rewrite app_nil_r].
Qed.

Lemma tree_Insert_run oid frames key rid v es :
  btree v es -> uncontended v -> entry_ok (key, rid) -> (6 <= frames)%nat -> next v + 7 < 2 ^ 32 ->
  (forall k, key_count k (insert_entry key rid es) <= kLeafMaxKeys) ->
  exists v', Insert oid frames key rid v = (Ret tt, v') /\ tstep v v' /\ next v' <= next v + 7 /\
    btree v' (insert_entry key rid es).
Proof.
  intros [Hwf (hp & root & Hhp & Hr & Ht)] Hu He Hfr Hmax Hdup.
  destruct Ht as [[-> ->]|(h & S & f & Ht & H0)].
  { destruct (Insert_first oid frames key rid v hp Hwf Hu Hhp Hr He) as (v' & H1 & Hst & Hn & Hb); [lia|].
    exists v'. split_and!; [done|done|lia|done]. }
  destruct (locked_root oid kExclusive v hp Hu Hhp) as (v1 & v2 & H1 & H2 & Hp). unfold Insert. run H1. run H2. rewrite Hr.
  rewrite (proj2 (Z.eqb_neq _ _) (root_valid _ _ _ _ _ _ _ _ _ _ _ Hwf Ht)).
  pose proof (btree_height _ _ _ _ _ _ _ Hwf Ht) as Hh. pose proof (pk_next _ _ Hp) as Hn2.
  assert (mem v2 kRootHeaderPageId = Some hp) as Hhp2 by (by rewrite (pk_mem _ _ Hp)).
  destruct (InsertRecursive_run oid key rid h 1 1 root None None S es f INVALID_PAGE_ID v2 frames) as (r & v3 & H3 & Hst & Hnx & Hsp & Hins);
    [by eapply peek_subtree|by apply Hp|by eapply peek_uncontended|done|done|lia|lia|done|].
  run H3. assert (pool_wf (v_pool v3)) as Hwf3 by (by apply Hst, Hp).
  assert (forall S', grown v2 v3 S S' -> mem v3 kRootHeaderPageId = Some hp /\ ~ (kRootHeaderPageId ∈ S')) as Hhdr.
  { intros S' [G1 G2]. split; [rewrite G1; [done|done|eauto]|]. intros [?|?]%G2; [done|congruence]. }
  destruct r as [sp|].
  - destruct Hins as (S1 & S2 & es1 & es2 & g & Ha & Hb & H12 & Hg & -> & Hk). destruct (Hhdr _ Hg) as [Hh3 Hn0].
    assert (u32_ok root) as Hroot.
    { subst root. apply read_at_bound. }
    destruct (grow_root oid v3 root sp hp h S1 S2 es1 es2 f g) as (v4 & H4 & Hst4 & Hn4 & Hb4);
      [done|apply Hst; by eapply peek_uncontended|done|lia|done|done|done|done|done|done|by apply Hsp|].
    exists v4. split_and!; [done|etrans; [apply Hp|by etrans]|lia|done].
  - destruct Hins as (S' & Hs' & Hg). destruct (Hhdr _ Hg) as [Hh3 Hn0]. exists v3.
    split_and!; [done|etrans; [apply Hp|done]|lia|]. split; [done|]. exists hp, root. split_and!; [done..|]. right. eauto.
Qed.

End BTreeInsert.
