(* ===== verification/BTreeDelete.v ===== *)
(** * BTreeDelete: deletion from the B+ tree

    [Delete] removes exactly the first entry equal to the pair and keeps every
    invariant through redistribution, borrowing, merging and root collapse. The
    rebalancing works on two adjacent children: it either joins them or moves
    the separator between them. *)
From S2P Require Export BTreeInsert.

Module BTreeDelete.
Import BTreeNode BTree BTreeSpec BTreeReads BTreeInsert.

(** ** Steps that only touch known pages *)

Record shrunk (v v' : View) (S : gset PageId) : Prop := mkShrunk {
  sh_step : tstep v v';
  sh_next : next v' = next v;
  sh_mem q : ~ (q ∈ S) -> mem v' q = mem v q
}.

Lemma shrunk_trans v1 v2 v3 A B S : shrunk v1 v2 A -> shrunk v2 v3 B -> A ⊆ S -> B ⊆ S -> shrunk v1 v3 S.
Proof.
  intros [H1 H2 H3] [H4 H5 H6] HA HB. split; [by etrans|congruence|]. intros q Hq. rewrite H6, H3; [done|set_solver..].
Qed.

Lemma peek_shrunk v v' S : peek v v' -> shrunk v v' S.
Proof. intros [H1 H2 H3]. split; auto. Qed.

Lemma wrote_shrunk v v' pid buf : wrote v v' pid buf -> shrunk v v' {[pid]}.
Proof. intros [H1 H2 H3]. split; [done..|]. intros q Hq. rewrite H3, decide_False; [done|set_solver]. Qed.

(** ** Two adjacent children *)

(** What a rebalancing makes of the children [a] and [b] that hold the
    entries [e] together: one child [a], or both with a new separator. *)
Definition pair_ok (v : View) (h : nat) (a b : PageId) (b0 b3 : option Z) (Sab : gset PageId)
    (e : list entry) (ga gc : PageId) (r : option Z) : Prop :=
  match r with
  | None => exists S', S' ⊆ Sab /\ child (mem v) h a b0 b3 S' e ga gc
  | Some k => exists Sa Sb ea eb g, Sa ∪ Sb ⊆ Sab /\ Sa ## Sb /\ child (mem v) h a b0 (Some k) Sa ea ga g /\
      child (mem v) h b (Some k) b3 Sb eb g gc /\ ea ++ eb = e /\ int64_ok k
  end.

(** The parent after it. *)
Definition paired (pid : PageId) (ls : list (PageId * Z)) (a b : PageId) (rs : list (Z * PageId)) (r : option Z) : InternalNode :=
  match r with
  | None => node_of pid ls a rs
  | Some k => node_of pid ls a ((k, b) :: rs)
  end.

Lemma pair_lookups ls a k b rs :
  vec_at (node_children ls a ((k, b) :: rs)) (Z.of_nat (length ls)) = Ret a /\
  vec_at (node_children ls a ((k, b) :: rs)) (Z.of_nat (length ls) + 1) = Ret b /\
  vec_at (node_keys ls ((k, b) :: rs)) (Z.of_nat (length ls)) = Ret k.
Proof.
  split_and!; [apply node_child| |apply node_cut; done].
  rewrite node_children_right. replace (Z.of_nat (length ls) + 1) with (zlen (ls ++ [(a, k)])); [apply node_child|].
  unfold zlen. rewrite length_app. cbn. lia.
Qed.

Lemma pair_joined ls a k b rs pid :
  mkInternal pid (erase_at (length ls) (node_keys ls ((k, b) :: rs))) (erase_at (S (length ls)) (node_children ls a ((k, b) :: rs)))
  = node_of pid ls a rs.
Proof.
  destruct (node_cut ls a k b rs) as (H1 & H2 & _ & H4 & H5). unfold erase_at. rewrite H1, H2, H4.
  unfold node_of. f_equal.
  - unfold node_keys. cbn. by rewrite app_nil_r.
  - rewrite <- Nat.add_1_r, <- drop_drop, H5. unfold node_children. cbn. rewrite <- app_assoc. done.
Qed.

Lemma pair_moved ls a k k' b rs pid :
  mkInternal pid (<[length ls := k']> (node_keys ls ((k, b) :: rs))) (node_children ls a ((k, b) :: rs))
  = node_of pid ls a ((k', b) :: rs).
Proof.
  unfold node_of, node_keys, node_children. f_equal. cbn.
  replace (length ls) with (length ls.*2 + 0)%nat by (rewrite length_fmap; lia). by rewrite insert_app_r.
Qed.

(** The parent's children after it. *)
Lemma pair_focus v v' h ls a b rs lo hi b0 b3 S1 Sab S3 es1 e es3 f ga gc n r pid :
  lpart (child (mem v) h) ls lo b0 S1 es1 f ga -> rpart (child (mem v) h) rs b3 hi S3 es3 gc n ->
  S1 ## Sab -> S1 ## S3 -> Sab ## S3 -> shrunk v v' Sab -> pair_ok v' h a b b0 b3 Sab e ga gc r ->
  exists ls' c' rs' Sf, paired pid ls a b rs r = node_of pid ls' c' rs' /\ Sf ⊆ S1 ∪ Sab ∪ S3 /\
    zlen ls + zlen rs <= zlen ls' + zlen rs' /\
    focus (child (mem v') h) ls' c' rs' lo hi Sf (es1 ++ e ++ es3) f n.
Proof.
  intros Hl Hr H1 H2 H3 [_ _ Hm] Hp.
  assert (lpart (child (mem v') h) ls lo b0 S1 es1 f ga) as Hl'.
  { eapply lpart_mono; [|exact Hl]. intros. eapply subtree_frame; [|done]. intros. apply Hm. set_solver. }
  assert (rpart (child (mem v') h) rs b3 hi S3 es3 gc n) as Hr'.
  { eapply rpart_mono; [|exact Hr]. intros. eapply subtree_frame; [|done]. intros. apply Hm. set_solver. }
  destruct r as [k|]; cbn in Hp.
  - destruct Hp as (Sa & Sb & ea & eb & g & Hsub & Hd & Ha & Hb & <- & _).
    exists ls, a, ((k, b) :: rs), (S1 ∪ Sa ∪ (Sb ∪ S3)). split_and!; [done|set_solver|rewrite zlen_cons; lia|].
    econstructor; [exact Hl'|exact Ha|econstructor; [exact Hb|exact Hr'|set_solver]|set_solver..|by rewrite <- app_assoc].
  - destruct Hp as (S' & Hsub & Ha). exists ls, a, rs, (S1 ∪ S' ∪ S3). split_and!; [done|set_solver|lia|].
    econstructor; [exact Hl'|exact Ha|exact Hr'|set_solver..|done].
Qed.

(** *** Leaves *)

Lemma leaf_merge m a b0 k b3 ea eb gc :
  leaf_at m a (leaf_of a gc (ea ++ eb)) -> range_ok b0 (Some k) -> range_ok (Some k) b3 ->
  sorted_in b0 (Some k) ea -> sorted_in (Some k) b3 eb -> 1 <= zlen (ea ++ eb) ->
  child m 0 a b0 b3 {[a]} (ea ++ eb) a gc.
Proof.
  intros Hl Hr1 Hr2 Ha Hb Hlen. split; [destruct b0, b3; cbn in *; try done; lia|]. split_and!; [done..| |done].
  apply (sorted_in_app b0 k); [done|done|destruct b0; cbn in *; [lia|done]|left; by destruct b3].
Qed.

(** The boundary the two leaves already have. *)
Lemma pair_boundary b0 k b3 (ea eb : list entry) :
  sorted_in b0 (Some k) ea -> sorted_in (Some k) b3 eb -> 1 <= zlen ea -> 1 <= zlen eb ->
  boundary (ea ++ eb).*1 (zlen ea).
Proof.
  intros [_ Ha] [_ Hb] H1 H2. rewrite Forall_forall in Ha, Hb.
  destruct ea as [|x ea _] using rev_ind; [done|]. destruct eb as [|y eb]; [done|].
  exists x.1, y.1. assert (zlen (ea ++ [x]) = Z.of_nat (length ea.*1) + 1) as -> by (unfold zlen; rewrite length_app, length_fmap; cbn; lia).
  assert (((ea ++ [x]) ++ y :: eb).*1 = ea.*1 ++ [x.1] ++ y.1 :: eb.*1) as -> by (rewrite !fmap_app, <- app_assoc; done).
  split_and!; [apply list_lookup_middle; lia|rewrite app_assoc; apply list_lookup_middle; rewrite length_app; cbn; lia|].
  specialize (Ha x ltac:(set_solver)) as [_ Ha]. specialize (Hb y ltac:(set_solver)) as [Hb _]. cbn in *. lia.
Qed.

(** The split point [FixUnderflow] chooses is a boundary that leaves both
    leaves within capacity. *)
Lemma rebalance_split b0 k b3 (ea eb : list entry) ideal :
  sorted_in b0 (Some k) ea -> sorted_in (Some k) b3 eb ->
  zlen ea <= kLeafMaxKeys -> zlen eb <= kLeafMaxKeys -> kLeafMaxKeys < zlen (ea ++ eb) ->
  exists i, FindRebalanceSplit (ea ++ eb).*1 (zlen (ea ++ eb) - kLeafMaxKeys) kLeafMaxKeys ideal = Ret (Some i) /\
    zlen (ea ++ eb) - kLeafMaxKeys <= i <= kLeafMaxKeys /\ boundary (ea ++ eb).*1 i.
Proof.
  intros Ha Hb H1 H2 H3. rewrite kLeafMaxKeys_eq in *. rewrite zlen_app in *.
  assert (zlen (ea ++ eb).*1 = zlen ea + zlen eb) as Hz by (rewrite <- zlen_app; unfold zlen; by rewrite length_fmap).
  destruct (FindRebalanceSplit_run (ea ++ eb).*1 (zlen ea + zlen eb - 291) 291 ideal) as (r & -> & Hr); [lia|lia|].
  destruct r as [i|]; [by exists i|]. exfalso. apply (Hr (zlen ea)); [lia|]. apply (pair_boundary b0 k b3); [done|done|lia|lia].
Qed.

(** The first key of the right part. *)
Lemma boundary_key (es : list entry) i : 1 <= i < zlen es -> boundary es.*1 i -> exists k, vec_at (drop (Z.to_nat i) es).*1 0 = Ret k.
Proof. intros Hi Hbd. destruct (boundary_entries _ _ Hi Hbd) as (es1 & x & k & r & es2 & _ & _ & _ & ->). by exists k. Qed.

(** Both leaves rewritten around a boundary. *)
Lemma leaf_move m a b b0 k b3 ea eb gc i k' :
  sorted_in b0 (Some k) ea -> sorted_in (Some k) b3 eb -> range_ok b0 (Some k) -> range_ok (Some k) b3 -> a <> b ->
  1 <= i < zlen (ea ++ eb) -> boundary (ea ++ eb).*1 i -> vec_at (drop (Z.to_nat i) (ea ++ eb)).*1 0 = Ret k' ->
  leaf_at m a (leaf_of a b (take (Z.to_nat i) (ea ++ eb))) -> leaf_at m b (leaf_of b gc (drop (Z.to_nat i) (ea ++ eb))) ->
  int64_ok k' /\ child m 0 a b0 (Some k') {[a]} (take (Z.to_nat i) (ea ++ eb)) a b /\
    child m 0 b (Some k') b3 {[b]} (drop (Z.to_nat i) (ea ++ eb)) b gc.
Proof.
  intros Ha Hb Hr1 Hr2 Hne Hi Hbd Hk' Hla Hlb.
  destruct (boundary_entries _ _ Hi Hbd) as (es1 & x & k1 & r & es2 & Hes & Hx & Ht & Hd).
  assert (k1 = k') as -> by (rewrite Hd in Hk'; by injection Hk').
  assert (sorted_in b0 b3 (ea ++ eb)) as Hs.
  { apply (sorted_in_app b0 k); [done|done|destruct b0; cbn in *; [lia|done]|left; by destruct b3]. }
  assert (range_ok b0 b3) as Hr by (destruct b0, b3; cbn in *; try done; lia).
  destruct (leaf_halves m a b gc _ b0 b3 _ _ _ _ _ _ a Hes Hx Ht Hd Hla Hlb Hs Hr eq_refl) as [Hca Hcb].
  split_and!; [|done|done].
  destruct Hlb as [Hok _]. apply leaf_of_ok in Hok as (_ & _ & _ & Hok). rewrite Hd in Hok. by apply Forall_cons in Hok as [[? _] _].
Qed.

Lemma wrote_leaf_at v v' pid buf l : wrote v v' pid buf -> leaf_ok l -> is_leaf buf = true -> DeserializeLeaf buf = Ret l -> leaf_at (mem v') pid l.
Proof. intros Hw Hok H1 H2. split; [done|]. exists buf. by rewrite (wr_mem _ _ _ _ Hw), decide_True. Qed.

(** The parts of [FixUnderflow] on leaves share this: both leaves known, the
    sibling fetched. *)
Lemma fix_leaf_left_run oid v pid ls a k b rs b0 b3 Sa Sb ea eb ga gb gc ia ib :
  pool_wf (v_pool v) -> uncontended v -> is_Some (pages_ (v_pool v) !! b) ->
  subtree (mem v) 1 ia 0 a b0 (Some k) Sa ea ga gb -> subtree (mem v) 0 ib 0 b (Some k) b3 Sb eb gb gc -> Sa ## Sb ->
  exists r v', fix_leaf_left oid (node_of pid ls a ((k, b) :: rs)) (S (length ls)) b b (leaf_of b gc eb) v
      = (Ret (paired pid ls a b rs r), v') /\
    shrunk v v' (Sa ∪ Sb) /\ pair_ok v' 0 a b b0 b3 (Sa ∪ Sb) (ea ++ eb) ga gc r.
Proof.
  intros Hwf Hu Hcb [Hr1 (-> & -> & (Hoka & bufa & Hba & Hta & Hda) & Hsa & Hla)] [Hr2 (-> & -> & (Hokb & bufb & Hbb & Htb & Hdb) & Hsb & Hlb)] Hdis.
  assert (a <> b) as Hne by set_solver.
  unfold fix_leaf_left. cbn [n_children n_keys n_page_id node_of]. rewrite Nat2Z.inj_succ. replace (Z.succ (Z.of_nat (length ls)) - 1) with (Z.of_nat (length ls)) by lia.
  destruct (pair_lookups ls a k b rs) as (Hx1 & Hx2 & Hx3). rewrite Hx1. run (lift_run a v).
  destruct (lock_fetch oid a kExclusive v bufa Hu Hba) as (v1 & v2 & H1 & H2 & H3 & Hp & Hca). run H1. run H2. run H3. rewrite Hda.
  run (lift_run (leaf_of a b ea) v2). unfold leaf_of. cbn [l_keys l_values l_page_id l_next_leaf]. rewrite <- !fmap_app.
  assert (pool_wf (v_pool v2)) as Hwf2 by (by apply Hp). assert (is_Some (pages_ (v_pool v2) !! b)) as Hcb2 by (by apply Hp).
  apply leaf_of_ok in Hoka as (Hua & Hub & Hma & Hea). apply leaf_of_ok in Hokb as (_ & Hugc & Hmb & Heb).
  assert (Forall entry_ok (ea ++ eb)) as Heab by (by apply Forall_app).
  assert (zlen (ea ++ eb).*1 = zlen (ea ++ eb)) as Hz by (unfold zlen; by rewrite length_fmap). rewrite Hz.
  destruct (Z.leb_spec (zlen (ea ++ eb)) kLeafMaxKeys) as [Hfit|Hfull].
  - assert (leaf_ok (leaf_of a gc (ea ++ eb))) as Hok by (by apply leaf_of_ok).
    destruct (put_leaf_run v2 a _ Hok) as (bl & Hpl & Hbl & Htl & Hdl); [eauto|]. run Hpl. run (MarkDirty_run a (cache a bl v2)). fold (write a bl v2).
    pose proof (write_wrote v2 a bl Hwf2 ltac:(eauto) Hbl) as Hw. exists None, (write a bl v2). split_and!.
    + cbn [paired]. rewrite <- (pair_joined ls a k b rs pid), Nat.sub_succ, Nat.sub_0_r. done.
    + eapply shrunk_trans; [by apply peek_shrunk|by eapply wrote_shrunk|set_solver..].
    + exists {[a]}. split; [set_solver|]. eapply leaf_merge; [by eapply wrote_leaf_at|exact Hr1|done|done|done|rewrite zlen_app; pose proof (zlen_nonneg eb); lia].
  - destruct (rebalance_split b0 k b3 ea eb (zlen (ea ++ eb) - kLeafMinKeys) Hsa Hsb Hma Hmb Hfull) as (i & Hi & Hir & Hib).
    rewrite Hi. run (lift_run (Some i) v2). cbn [default from_option id]. rewrite <- !fmap_take, <- !fmap_drop.
    rewrite kLeafMaxKeys_eq in *. assert (1 <= i < zlen (ea ++ eb)) as Hir' by lia.
    set (j := Z.to_nat i) in *.
    assert (leaf_ok (leaf_of a b (take j (ea ++ eb)))) as Hoka'.
    { apply leaf_of_ok. split_and!; [done|done| |by apply Forall_take]. unfold zlen in *. rewrite length_take, kLeafMaxKeys_eq. lia. }
    assert (leaf_ok (leaf_of b gc (drop j (ea ++ eb)))) as Hokb'.
    { apply leaf_of_ok. split_and!; [done|done| |by apply Forall_drop]. unfold zlen in *. rewrite length_drop, kLeafMaxKeys_eq. lia. }
    assert (is_Some (pages_ (v_pool v2) !! a)) as Hca2 by eauto.
    destruct (boundary_key (ea ++ eb) i Hir' Hib) as (k' & Hk'). fold j in Hk'. rewrite Hk'. run (lift_run k' v2).
    destruct (put_leaves_run v2 a b _ _ (mret (paired pid ls a b rs (Some k'))) Hwf2 Hca2 Hcb2 Hne Hoka' Hokb') as (v3 & E & Hst & Hn & Hl3 & Hr3 & Hm).
    destruct (leaf_move (mem v3) a b b0 k b3 ea eb gc i k') as (Hk64 & Hka & Hkb); [done..|]. fold j in Hka, Hkb.
    exists (Some k'), v3. split_and!.
    + etrans; [|exact E]. cbn [paired]. rewrite <- (pair_moved ls a k k' b rs pid), Nat.sub_succ, Nat.sub_0_r. done.
    + eapply (shrunk_trans v v2 _ ∅); [by apply peek_shrunk| |set_solver|reflexivity]. split; [done|done|]. intros q Hq. apply Hm; set_solver.
    + exists {[a]}, {[b]}, (take j (ea ++ eb)), (drop j (ea ++ eb)), b. split_and!; [done|set_solver|done|done|apply take_drop|done].
Qed.

Lemma fix_leaf_right_run oid v pid ls a k b rs b0 b3 Sa Sb ea eb ga gb gc ia ib :
  pool_wf (v_pool v) -> uncontended v -> is_Some (pages_ (v_pool v) !! a) ->
  subtree (mem v) 0 ia 0 a b0 (Some k) Sa ea ga gb -> subtree (mem v) 1 ib 0 b (Some k) b3 Sb eb gb gc -> Sa ## Sb ->
  exists r v', fix_leaf_right oid (node_of pid ls a ((k, b) :: rs)) (length ls) a a (leaf_of a gb ea) v
      = (Ret (paired pid ls a b rs r), v') /\
    shrunk v v' (Sa ∪ Sb) /\ pair_ok v' 0 a b b0 b3 (Sa ∪ Sb) (ea ++ eb) ga gc r.
Proof.
  intros Hwf Hu Hca [Hr1 (-> & -> & (Hoka & bufa & Hba & Hta & Hda) & Hsa & Hla)] [Hr2 (-> & -> & (Hokb & bufb & Hbb & Htb & Hdb) & Hsb & Hlb)] Hdis.
  assert (a <> b) as Hne by set_solver.
  unfold fix_leaf_right. cbn [n_children n_keys n_page_id node_of].
  destruct (pair_lookups ls a k b rs) as (Hx1 & Hx2 & Hx3). rewrite Hx2. run (lift_run b v).
  destruct (lock_fetch oid b kExclusive v bufb Hu Hbb) as (v1 & v2 & H1 & H2 & H3 & Hp & Hcb). run H1. run H2. run H3. rewrite Hdb.
  run (lift_run (leaf_of b gc eb) v2). unfold leaf_of. cbn [l_keys l_values l_page_id l_next_leaf]. rewrite <- !fmap_app.
  assert (pool_wf (v_pool v2)) as Hwf2 by (by apply Hp). assert (is_Some (pages_ (v_pool v2) !! a)) as Hca2 by (by apply Hp).
  apply leaf_of_ok in Hoka as (Hua & Hub & Hma & Hea). apply leaf_of_ok in Hokb as (_ & Hugc & Hmb & Heb).
  assert (Forall entry_ok (ea ++ eb)) as Heab by (by apply Forall_app).
  assert (zlen (ea ++ eb).*1 = zlen (ea ++ eb)) as Hz by (unfold zlen; by rewrite length_fmap). rewrite Hz.
  destruct (Z.leb_spec (zlen (ea ++ eb)) kLeafMaxKeys) as [Hfit|Hfull].
  - assert (leaf_ok (leaf_of a gc (ea ++ eb))) as Hok by (by apply leaf_of_ok).
    destruct (put_leaf_run v2 a _ Hok) as (bl & Hpl & Hbl & Htl & Hdl); [eauto|]. run Hpl. run (MarkDirty_run a (cache a bl v2)). fold (write a bl v2).
    pose proof (write_wrote v2 a bl Hwf2 ltac:(eauto) Hbl) as Hw. exists None, (write a bl v2). split_and!.
    + cbn [paired]. rewrite <- (pair_joined ls a k b rs pid). done.
    + eapply shrunk_trans; [by apply peek_shrunk|by eapply wrote_shrunk|set_solver..].
    + exists {[a]}. split; [set_solver|]. eapply leaf_merge; [by eapply wrote_leaf_at|exact Hr1|done|done|done|rewrite zlen_app; pose proof (zlen_nonneg ea); lia].
  - destruct (rebalance_split b0 k b3 ea eb kLeafMinKeys Hsa Hsb Hma Hmb Hfull) as (i & Hi & Hir & Hib).
    rewrite Hi. run (lift_run (Some i) v2). cbn [default from_option id]. rewrite <- !fmap_take, <- !fmap_drop.
    rewrite kLeafMaxKeys_eq in *. assert (1 <= i < zlen (ea ++ eb)) as Hir' by lia.
    set (j := Z.to_nat i) in *.
    assert (leaf_ok (leaf_of a b (take j (ea ++ eb)))) as Hoka'.
    { apply leaf_of_ok. split_and!; [done|done| |by apply Forall_take]. unfold zlen in *. rewrite length_take, kLeafMaxKeys_eq. lia. }
    assert (leaf_ok (leaf_of b gc (drop j (ea ++ eb)))) as Hokb'.
    { apply leaf_of_ok. split_and!; [done|done| |by apply Forall_drop]. unfold zlen in *. rewrite length_drop, kLeafMaxKeys_eq. lia. }
    assert (is_Some (pages_ (v_pool v2) !! b)) as Hcb2 by eauto.
    destruct (boundary_key (ea ++ eb) i Hir' Hib) as (k' & Hk'). fold j in Hk'. rewrite Hk'. run (lift_run k' v2).
    destruct (put_leaves_run v2 b a _ _ (mret (paired pid ls a b rs (Some k'))) Hwf2 Hcb2 Hca2 ltac:(done) Hokb' Hoka') as (v3 & E & Hst & Hn & Hr3 & Hl3 & Hm).
    destruct (leaf_move (mem v3) a b b0 k b3 ea eb gc i k') as (Hk64 & Hka & Hkb); [done..|]. fold j in Hka, Hkb.
    exists (Some k'), v3. split_and!.
    + etrans; [|exact E]. cbn [paired]. rewrite <- (pair_moved ls a k k' b rs pid). done.
    + eapply (shrunk_trans v v2 _ ∅); [by apply peek_shrunk| |set_solver|reflexivity]. split; [done|done|]. intros q Hq. apply Hm; set_solver.
    + exists {[a]}, {[b]}, (take j (ea ++ eb)), (drop j (ea ++ eb)), b. split_and!; [done|set_solver|done|done|apply take_drop|done].
Qed.

(** *** Internal nodes *)

Lemma focus_glue (P : sub_t) l1 x1 k x2 r2 b0 b3 S1 S2 ea eb f g n :
  focus P l1 x1 [] b0 (Some k) S1 ea f g -> focus P [] x2 r2 (Some k) b3 S2 eb g n -> S1 ## S2 ->
  focus P l1 x1 ((k, x2) :: r2) b0 b3 (S1 ∪ S2) (ea ++ eb) f n.
Proof.
  intros [b1 b2 A1 A2 A3 e1 e2 e3 g1 g2 Hl Hc Hr H12 H13 H23 -> ->] [c1 c2 B1 B2 B3 d1 d2 d3 h1 h2 Hl' Hc' Hr' H12' H13' H23' -> ->] Hd.
  inversion Hr; subst. inversion Hl' as [|l0 ? ? ? ? ? ? ? ? ? ? ? ? ? ? He]; [subst|by destruct l0].
  econstructor; [exact Hl|exact Hc|econstructor; [exact Hc'|exact Hr'|set_solver]|set_solver..|].
  cbn. rewrite app_nil_r, <- !app_assoc. done.
Qed.

Lemma open_internal_run oid v pid n :
  uncontended v -> internal_at (mem v) pid n ->
  exists v', open_internal oid pid v = (Ret (pid, n), v') /\ peek v v' /\ is_Some (pages_ (v_pool v') !! pid).
Proof.
  intros Hu (Hok & buf & Hb & Ht & Hd). destruct (lock_fetch oid pid kExclusive v buf Hu Hb) as (v1 & v2 & H1 & H2 & H3 & Hp & Hc).
  exists v2. split; [|eauto]. unfold open_internal. run H1. run H2. run H3. rewrite Hd. by run (lift_run n v2).
Qed.

Lemma internal_at_peek v v' pid n : peek v v' -> internal_at (mem v) pid n -> internal_at (mem v') pid n.
Proof. intros Hp (Hok & buf & Hb & Hrest). split; [done|]. exists buf. by rewrite (pk_mem _ _ Hp). Qed.

Section InternalPair.
Context (oid : ObjectId) (pid : PageId) (ls : list (PageId * Z)) (a : PageId) (k : Z) (b : PageId) (rs : list (Z * PageId)).
Context (h : nat) (l1 : list (PageId * Z)) (x1 x2 : PageId) (r2 : list (Z * PageId)) (b0 b3 : option Z).
Context (Sa Sb : gset PageId) (ea eb : list entry) (ga gb gc : PageId).

(** Two adjacent internal nodes, the left one seen from its last child and
    the right one from its first. *)
Record internal_pair (v : View) : Prop := mkInternalPair {
  ip_a : internal_at (mem v) a (node_of a l1 x1 []);
  ip_b : internal_at (mem v) b (node_of b [] x2 r2);
  ip_fa : focus (child (mem v) h) l1 x1 [] b0 (Some k) Sa ea ga gb;
  ip_fb : focus (child (mem v) h) [] x2 r2 (Some k) b3 Sb eb gb gc;
  ip_key : int64_ok k;
  ip_ne : a <> b;
  ip_disj : Sa ## Sb;
  ip_na : ~ (a ∈ Sa ∪ Sb);
  ip_nb : ~ (b ∈ Sa ∪ Sb)
}.

Lemma internal_pair_peek v v' : peek v v' -> internal_pair v -> internal_pair v'.
Proof.
  intros Hp [H1 H2 H3 H4 H5 H6 H7 H8 H9]. split; [by eapply internal_at_peek|by eapply internal_at_peek| | |done..].
  - eapply focus_frame; [|exact H3]. intros. apply Hp.
  - eapply focus_frame; [|exact H4]. intros. apply Hp.
Qed.

Definition pair_pages : gset PageId := ({[a]} ∪ Sa) ∪ ({[b]} ∪ Sb).

Lemma internal_pair_ok v : internal_pair v ->
  u32_ok a /\ u32_ok b /\ u32_ok x1 /\ u32_ok x2 /\ Forall (fun x => u32_ok x.1 /\ int64_ok x.2) l1 /\
  Forall (fun x => int64_ok x.1 /\ u32_ok x.2) r2.
Proof. intros H. destruct (ip_a _ H) as [Ha _], (ip_b _ H) as [Hb _]. apply node_of_ok in Ha, Hb. tauto. Qed.

(** Both nodes rewritten around a separator [k'] of the joined children. *)
Lemma internal_move v v' l1' x1' k' x2' r2' :
  internal_pair v -> tstep v v' -> next v' = next v -> (forall q, q <> a -> q <> b -> mem v' q = mem v q) ->
  internal_at (mem v') a (node_of a l1' x1' []) -> internal_at (mem v') b (node_of b [] x2' r2') ->
  (forall P : sub_t, forall lo hi S es f n, focus P l1 x1 ((k, x2) :: r2) lo hi S es f n -> focus P l1' x1' ((k', x2') :: r2') lo hi S es f n) ->
  kInternalMinKeys <= zlen l1' -> kInternalMinKeys <= zlen r2' -> int64_ok k' ->
  shrunk v v' pair_pages /\ pair_ok v' (S h) a b b0 b3 pair_pages (ea ++ eb) ga gc (Some k').
Proof.
  intros [Ha Hb Hfa Hfb Hk Hne Hd Hna Hnb] Hst Hn Hm Hat1 Hat2 Hshift Hm1 Hm2 Hk'. unfold pair_pages. split.
  { split; [done..|]. intros q Hq. apply Hm; set_solver. }
  pose proof (Hshift _ _ _ _ _ _ _ (focus_glue _ _ _ _ _ _ _ _ _ _ _ _ _ _ _ Hfa Hfb Hd)) as Hf.
  apply (focus_frame _ (mem v')) in Hf; [|intros q Hq; apply Hm; intros ->; done].
  destruct (focus_cut _ _ _ _ _ _ _ _ _ _ _ _ Hf) as (A & B & e1 & e2 & g & HA & HB & HAB & Heq & ->).
  assert (A ∪ B ⊆ Sa ∪ Sb) as Hsub by (rewrite Heq; done).
  exists ({[a]} ∪ A), ({[b]} ∪ B), e1, e2, g. split_and!; [set_solver|set_solver| | |done|done].
  - apply (focus_subtree _ 1 kInternalMinKeys h a l1' x1' []); [done|unfold zlen in *; cbn; lia|set_solver|done].
  - apply (focus_subtree _ 1 kInternalMinKeys h b [] x2' r2'); [done|unfold zlen in *; cbn; lia|set_solver|done].
Qed.

(** Both nodes joined in the left one. *)
Lemma internal_join v v' bl :
  internal_pair v -> wrote v v' a bl -> internal_ok (node_of a l1 x1 ((k, x2) :: r2)) -> is_leaf bl = false ->
  DeserializeInternal bl = Ret (node_of a l1 x1 ((k, x2) :: r2)) -> kInternalMinKeys <= zlen l1 + zlen r2 + 1 ->
  shrunk v v' pair_pages /\ pair_ok v' (S h) a b b0 b3 pair_pages (ea ++ eb) ga gc None.
Proof.
  intros [Ha Hb Hfa Hfb Hk Hne Hd Hna Hnb] Hw Hok Ht Hdd Hmin. pose proof (wrote_shrunk _ _ _ _ Hw) as [H1 H2 H3]. unfold pair_pages. split.
  { split; [done..|]. intros q Hq. apply H3. set_solver. }
  pose proof (focus_glue _ _ _ _ _ _ _ _ _ _ _ _ _ _ _ Hfa Hfb Hd) as Hf.
  apply (focus_frame _ (mem v')) in Hf; [|intros q Hq; apply H3; intros ->%elem_of_singleton; done].
  exists ({[a]} ∪ (Sa ∪ Sb)). split; [set_solver|].
  apply (focus_subtree _ 1 kInternalMinKeys h a l1 x1 ((k, x2) :: r2)); [|rewrite zlen_cons; lia|done|done].
  split; [done|]. exists bl. by rewrite (wr_mem _ _ _ _ Hw), decide_True.
Qed.

(** What [borrow_left] computes from the left node's vectors. *)
Lemma last_child l (y : PageId) ka x :
  vec_at (node_children (l ++ [(y, ka)]) x []) (zlen (node_children (l ++ [(y, ka)]) x []) - 1) = Ret x /\
  vec_at (node_keys (l ++ [(y, ka)]) []) (zlen (l ++ [(y, ka)]) - 1) = Ret ka /\
  removelast (node_keys (l ++ [(y, ka)]) []) = node_keys l [] /\
  removelast (node_children (l ++ [(y, ka)]) x []) = node_children l y [].
Proof.
  unfold node_keys, node_children. cbn [fmap list_fmap]. rewrite !fmap_app, !app_nil_r. cbn. split_and!.
  - apply vec_at_run; [unfold zlen; rewrite !length_app; cbn; lia|]. apply list_lookup_middle. unfold zlen. rewrite !length_app. cbn. lia.
  - apply vec_at_run; [unfold zlen; rewrite !length_app; cbn; lia|]. apply list_lookup_middle. unfold zlen. rewrite !length_app, length_fmap. cbn. lia.
  - by rewrite removelast_last.
  - by rewrite removelast_last.
Qed.

Lemma borrow_left_run v :
  pool_wf (v_pool v) -> uncontended v -> is_Some (pages_ (v_pool v) !! b) -> internal_pair v -> zlen r2 = 168 ->
  exists r v', borrow_left oid (node_of pid ls a ((k, b) :: rs)) (S (length ls)) b b (node_of b [] x2 r2) v = (Ret r, v') /\
    match r with
    | Some p => exists k', p = paired pid ls a b rs (Some k') /\ shrunk v v' pair_pages /\
        pair_ok v' (S h) a b b0 b3 pair_pages (ea ++ eb) ga gc (Some k')
    | None => peek v v' /\ zlen l1 <= kInternalMinKeys
    end.
Proof.
  intros Hwf Hu Hcb Hip Hr2. destruct (open_internal_run oid v a _ Hu (ip_a _ Hip)) as (v1 & H1 & Hp & Hca).
  unfold borrow_left. cbn [n_children n_keys n_page_id node_of]. replace (Z.of_nat (S (length ls)) - 1) with (Z.of_nat (length ls)) by lia.
  destruct (pair_lookups ls a k b rs) as (Hx1 & Hx2 & Hx3). rewrite Hx1. run (lift_run a v). run H1. cbn [n_children n_keys n_page_id node_of].
  rewrite zlen_node_keys. replace (zlen l1 + zlen (@nil (Z * PageId))) with (zlen l1) by (unfold zlen; cbn; lia).
  destruct (Z.ltb_spec kInternalMinKeys (zlen l1)) as [Hlt|Hge]; [|exists None, v1; done].
  destruct (internal_pair_ok v Hip) as (Hua & Hub & Hux1 & Hux2 & Hl1 & Hr2ok).
  assert (zlen l1 <= 339) as Hl1max by (destruct (ip_a _ Hip) as [Hok _]; apply node_of_ok in Hok as (_ & _ & Hok & _); unfold zlen in *; cbn in Hok; rewrite kInternalMaxKeys_eq in Hok; lia).
  assert (exists l y ka, l1 = l ++ [(y, ka)]) as (l & y & ka & El1).
  { destruct l1 as [|[y ka] l _] using rev_ind; [done|eauto]. }
  destruct (last_child l y ka x1) as (L1 & L2 & L3 & L4). rewrite El1, L1, L2, L3, L4. run (lift_run x1 v1). rewrite Hx3. run (lift_run k v1). run (lift_run ka v1).
  rewrite El1 in Hl1. apply Forall_app in Hl1 as [Hlok [[Hyok Hkaok] _]%Forall_cons]. cbn [fst snd] in *.
  assert (zlen l1 = zlen l + 1) as Hzl by (rewrite El1; unfold zlen; rewrite length_app; cbn; lia).
  change kInternalMinKeys with 169 in Hlt.
  assert (internal_ok (node_of a l y [])) as Hoka.
  { apply node_of_ok. split_and!; [done|done| |done|constructor]. rewrite kInternalMaxKeys_eq. unfold zlen in *. cbn. lia. }
  assert (internal_ok (node_of b [] x1 ((k, x2) :: r2))) as Hokb.
  { apply node_of_ok. split_and!; [done|done| |constructor|constructor; [split; [apply Hip|done]|done]]. rewrite kInternalMaxKeys_eq. unfold zlen in *. cbn. lia. }
  destruct (put_internals_run v1 a b _ _ (mret (Some (paired pid ls a b rs (Some ka)))) ltac:(by apply Hp) Hca ltac:(by apply Hp) (ip_ne _ Hip) Hoka Hokb)
    as (v2 & E & Hst & Hn & Hat1 & Hat2 & Hm).
  destruct (internal_move v1 v2 l y ka x1 ((k, x2) :: r2)) as [Hsh Hpair];
    [by eapply internal_pair_peek|done..| |change kInternalMinKeys with 169; lia|change kInternalMinKeys with 169; rewrite zlen_cons; lia|done|].
  - intros P lo hi S es f n Hf. apply focus_left. by rewrite <- El1.
  - eexists (Some _), v2. split; [etrans; [|exact E]|exists ka; split_and!; [done|eapply (shrunk_trans v v1 _ ∅); [by apply peek_shrunk|exact Hsh|set_solver|done]|exact Hpair]].
    cbn [paired]. rewrite <- (pair_moved ls a k ka b rs pid), Nat.sub_succ, Nat.sub_0_r. done.
Qed.

Lemma borrow_right_run v :
  pool_wf (v_pool v) -> uncontended v -> is_Some (pages_ (v_pool v) !! a) -> internal_pair v -> zlen l1 = 168 ->
  exists r v', borrow_right oid (node_of pid ls a ((k, b) :: rs)) (length ls) a a (node_of a l1 x1 []) v = (Ret r, v') /\
    match r with
    | Some p => exists k', p = paired pid ls a b rs (Some k') /\ shrunk v v' pair_pages /\
        pair_ok v' (S h) a b b0 b3 pair_pages (ea ++ eb) ga gc (Some k')
    | None => peek v v' /\ zlen r2 <= kInternalMinKeys
    end.
Proof.
  intros Hwf Hu Hca Hip Hl1. destruct (open_internal_run oid v b _ Hu (ip_b _ Hip)) as (v1 & H1 & Hp & Hcb).
  unfold borrow_right. cbn [n_children n_keys n_page_id node_of].
  destruct (pair_lookups ls a k b rs) as (Hx1 & Hx2 & Hx3). rewrite Hx2. run (lift_run b v). run H1. cbn [n_children n_keys n_page_id node_of].
  rewrite zlen_node_keys. replace (zlen (@nil (PageId * Z)) + zlen r2) with (zlen r2) by (unfold zlen; cbn; lia).
  destruct (Z.ltb_spec kInternalMinKeys (zlen r2)) as [Hlt|Hge]; [|exists None, v1; done].
  destruct (internal_pair_ok v Hip) as (Hua & Hub & Hux1 & Hux2 & Hl1ok & Hr2ok).
  assert (zlen r2 <= 339) as Hr2max by (destruct (ip_b _ Hip) as [Hok _]; apply node_of_ok in Hok as (_ & _ & Hok & _); unfold zlen in *; cbn in Hok; rewrite kInternalMaxKeys_eq in Hok; lia).
  change kInternalMinKeys with 169 in Hlt.
  assert (exists kb y r, r2 = (kb, y) :: r) as (kb & y & r & Er2) by (destruct r2 as [|[]]; [done|eauto]).
  assert (zlen r2 = 1 + zlen r) as Hzr by (rewrite Er2; apply zlen_cons).
  rewrite Er2 in Hr2ok. apply Forall_cons in Hr2ok as [[Hkb Hy] Hrok]. cbn [fst snd] in *.
  rewrite Er2. change (vec_at (node_children [] x2 ((kb, y) :: r)) 0) with (Ret x2). run (lift_run x2 v1). rewrite Hx3. run (lift_run k v1).
  change (vec_at (node_keys [] ((kb, y) :: r)) 0) with (Ret kb). run (lift_run kb v1).
  assert (internal_ok (node_of b [] y r)) as Hokb.
  { apply node_of_ok. split_and!; [done|done| |constructor|done]. rewrite kInternalMaxKeys_eq. unfold zlen in *. cbn. lia. }
  assert (internal_ok (node_of a (l1 ++ [(x1, k)]) x2 [])) as Hoka.
  { apply node_of_ok. split_and!; [done|done| |apply Forall_app; split; [done|apply Forall_singleton; split; [done|apply Hip]]|constructor].
    rewrite kInternalMaxKeys_eq. unfold zlen in *. rewrite length_app. cbn. lia. }
  destruct (put_internals_run v1 b a _ _ (mret (Some (paired pid ls a b rs (Some kb)))) ltac:(by apply Hp) Hcb ltac:(by apply Hp) ltac:(by apply not_eq_sym, Hip) Hokb Hoka)
    as (v2 & E & Hst & Hn & Hat2 & Hat1 & Hm).
  change (mkInternal b (tail (node_keys [] ((kb, y) :: r))) (tail (node_children [] x2 ((kb, y) :: r)))) with (node_of b [] y r).
  assert (mkInternal a (node_keys l1 [] ++ [k]) (node_children l1 x1 [] ++ [x2]) = node_of a (l1 ++ [(x1, k)]) x2 []) as ->.
  { unfold node_of, node_keys, node_children. by rewrite !fmap_app, !app_nil_r. }
  destruct (internal_move v1 v2 (l1 ++ [(x1, k)]) x2 kb y r) as [Hsh Hpair];
    [by eapply internal_pair_peek|done|done|by intros; apply Hm|done|done| |change kInternalMinKeys with 169; unfold zlen in *; rewrite length_app; cbn; lia|change kInternalMinKeys with 169; lia|done|].
  - intros P lo hi S es f n Hf. apply focus_right. by rewrite <- Er2.
  - eexists (Some _), v2. split; [etrans; [|exact E]|exists kb; split_and!; [done|eapply (shrunk_trans v v1 _ ∅); [by apply peek_shrunk|exact Hsh|set_solver|done]|exact Hpair]].
    cbn [paired]. rewrite <- (pair_moved ls a k kb b rs pid). done.
Qed.

Lemma joined_ok v : internal_pair v -> zlen l1 + zlen r2 + 1 <= 339 -> internal_ok (node_of a l1 x1 ((k, x2) :: r2)).
Proof.
  intros Hip Hz. destruct (internal_pair_ok v Hip) as (Hua & Hub & Hux1 & Hux2 & Hl1ok & Hr2ok).
  apply node_of_ok. split_and!; [done|done| |done|constructor; [split; [apply Hip|done]|done]]. rewrite kInternalMaxKeys_eq, zlen_cons. lia.
Qed.

Lemma joined_eq : mkInternal a (node_keys l1 [] ++ [k] ++ node_keys [] r2) (node_children l1 x1 [] ++ node_children [] x2 r2) = node_of a l1 x1 ((k, x2) :: r2).
Proof. unfold node_of, node_keys, node_children. cbn. rewrite app_nil_r, <- app_assoc. done. Qed.

Lemma merge_left_run v :
  pool_wf (v_pool v) -> uncontended v -> internal_pair v -> zlen l1 + zlen r2 + 1 <= 339 -> kInternalMinKeys <= zlen l1 + zlen r2 + 1 ->
  exists v', merge_left oid (node_of pid ls a ((k, b) :: rs)) (S (length ls)) (node_of b [] x2 r2) v = (Ret (paired pid ls a b rs None), v') /\
    shrunk v v' pair_pages /\ pair_ok v' (S h) a b b0 b3 pair_pages (ea ++ eb) ga gc None.
Proof.
  intros Hwf Hu Hip Hmax Hmin. destruct (open_internal_run oid v a _ Hu (ip_a _ Hip)) as (v1 & H1 & Hp & Hca).
  unfold merge_left. cbn [n_children n_keys n_page_id node_of]. replace (Z.of_nat (S (length ls)) - 1) with (Z.of_nat (length ls)) by lia.
  destruct (pair_lookups ls a k b rs) as (Hx1 & Hx2 & Hx3). rewrite Hx1. run (lift_run a v). run H1. rewrite Hx3. run (lift_run k v1).
  cbn [n_children n_keys n_page_id node_of]. rewrite joined_eq.
  pose proof (joined_ok v Hip Hmax) as Hok. destruct (put_internal_run v1 a _ Hok Hca) as (bl & Hpl & Hbl & Htl & Hdl).
  run Hpl. run (MarkDirty_run a (cache a bl v1)). fold (write a bl v1).
  destruct (internal_join v1 (write a bl v1) bl) as [Hsh Hpair];
    [by eapply internal_pair_peek|by apply write_wrote; [apply Hp| |]|done..|].
  exists (write a bl v1). split_and!; [|eapply (shrunk_trans v v1 _ ∅); [by apply peek_shrunk|exact Hsh|set_solver|done]|exact Hpair].
  cbn [paired]. rewrite <- (pair_joined ls a k b rs pid), Nat.sub_succ, Nat.sub_0_r. done.
Qed.

Lemma merge_right_run v :
  pool_wf (v_pool v) -> uncontended v -> is_Some (pages_ (v_pool v) !! a) -> internal_pair v ->
  zlen l1 + zlen r2 + 1 <= 339 -> kInternalMinKeys <= zlen l1 + zlen r2 + 1 ->
  exists v', merge_right oid (node_of pid ls a ((k, b) :: rs)) (length ls) a a (node_of a l1 x1 []) v = (Ret (paired pid ls a b rs None), v') /\
    shrunk v v' pair_pages /\ pair_ok v' (S h) a b b0 b3 pair_pages (ea ++ eb) ga gc None.
Proof.
  intros Hwf Hu Hca Hip Hmax Hmin. destruct (open_internal_run oid v b _ Hu (ip_b _ Hip)) as (v1 & H1 & Hp & Hcb).
  unfold merge_right. cbn [n_children n_keys n_page_id node_of].
  destruct (pair_lookups ls a k b rs) as (Hx1 & Hx2 & Hx3). rewrite Hx2. run (lift_run b v). run H1. rewrite Hx3. run (lift_run k v1).
  cbn [n_children n_keys n_page_id node_of]. rewrite joined_eq.
  pose proof (joined_ok v Hip Hmax) as Hok. destruct (put_internal_run v1 a _ Hok ltac:(by apply Hp)) as (bl & Hpl & Hbl & Htl & Hdl).
  run Hpl. run (MarkDirty_run a (cache a bl v1)). fold (write a bl v1).
  destruct (internal_join v1 (write a bl v1) bl) as [Hsh Hpair];
    [by eapply internal_pair_peek|by apply write_wrote; [apply Hp|apply Hp|]|done..|].
  exists (write a bl v1). split_and!; [|eapply (shrunk_trans v v1 _ ∅); [by apply peek_shrunk|exact Hsh|set_solver|done]|exact Hpair].
  cbn [paired]. rewrite <- (pair_joined ls a k b rs pid). done.
Qed.

End InternalPair.

(** ** FixUnderflow *)

(** The parent and its children after the rebalancing. *)
Definition fixed (v v' : View) (pid : PageId) (h : nat) (lo hi : option Z) (Sall : gset PageId)
    (es : list entry) (f n : PageId) (size : Z) (node' : InternalNode) : Prop :=
  shrunk v v' Sall /\ exists ls' c' rs' Sf, node' = node_of pid ls' c' rs' /\ internal_ok node' /\
    size <= zlen ls' + zlen rs' /\ Sf ⊆ Sall /\ focus (child (mem v') h) ls' c' rs' lo hi Sf es f n.

Lemma pair_fixed v v' pid h ls a k b rs lo hi b0 b3 S1 Sab S3 es1 e es3 f ga gc n r :
  internal_ok (node_of pid ls a ((k, b) :: rs)) ->
  lpart (child (mem v) h) ls lo b0 S1 es1 f ga -> rpart (child (mem v) h) rs b3 hi S3 es3 gc n ->
  S1 ## Sab -> S1 ## S3 -> Sab ## S3 -> shrunk v v' Sab -> pair_ok v' h a b b0 b3 Sab e ga gc r ->
  fixed v v' pid h lo hi (S1 ∪ Sab ∪ S3) (es1 ++ e ++ es3) f n (zlen ls + zlen rs) (paired pid ls a b rs r).
Proof.
  intros Hok Hl Hr H1 H2 H3 Hsh Hp. destruct (pair_focus _ _ _ _ _ _ _ _ _ _ _ _ _ _ _ _ _ _ _ _ _ r pid Hl Hr H1 H2 H3 Hsh Hp)
    as (ls' & c' & rs' & Sf & Heq & Hsub & Hz & Hf).
  split; [eapply (shrunk_trans v v v' ∅ Sab); [by apply peek_shrunk|done|set_solver..]|].
  exists ls', c', rs', Sf. split_and!; [done| |done..].
  apply node_of_ok in Hok as (? & ? & Hm & ? & [[? ?] ?]%Forall_cons). cbn [fst snd] in *. rewrite zlen_cons in Hm.
  destruct r as [k'|]; apply node_of_ok; (split_and!; [done|done| |done|]).
  - rewrite zlen_cons. lia.
  - destruct Hp as (? & ? & ? & ? & ? & _ & _ & _ & _ & _ & ?). by constructor.
  - lia.
  - done.
Qed.

(** An internal node seen from its first and from its last child. *)
Lemma see_first (P : sub_t) pid l x r lo hi S es f n :
  focus P l x r lo hi S es f n -> exists x2 r2, node_of pid l x r = node_of pid [] x2 r2 /\ zlen r2 = zlen l + zlen r /\
    focus P [] x2 r2 lo hi S es f n.
Proof.
  intros Hf. destruct (focus_at _ _ _ _ _ _ _ _ _ _ O Hf) as (l' & x' & r' & Hl & Hk & Hc & Hn & Hf'); [lia|].
  apply nil_length_inv in Hl as ->. exists x', r'. split_and!; [unfold node_of; by rewrite Hk, Hc|unfold zlen; cbn in *; lia|done].
Qed.

Lemma see_last (P : sub_t) pid l x r lo hi S es f n :
  focus P l x r lo hi S es f n -> exists l1 x1, node_of pid l x r = node_of pid l1 x1 [] /\ zlen l1 = zlen l + zlen r /\
    focus P l1 x1 [] lo hi S es f n.
Proof.
  intros Hf. destruct (focus_at _ _ _ _ _ _ _ _ _ _ (length l + length r) Hf) as (l' & x' & r' & Hl & Hk & Hc & Hn & Hf'); [lia|].
  assert (r' = []) as -> by (apply nil_length_inv; lia).
  exists l', x'. split_and!; [unfold node_of; by rewrite Hk, Hc|unfold zlen; cbn in *; lia|done].
Qed.

Lemma make_pair v h a k b b0 b3 Sa Sb ea eb ga gb gc la ia lb ib :
  subtree (mem v) la ia (S h) a b0 (Some k) Sa ea ga gb -> subtree (mem v) lb ib (S h) b (Some k) b3 Sb eb gb gc -> Sa ## Sb ->
  int64_ok k ->
  exists l1 x1 x2 r2 Sa' Sb', internal_pair a k b h l1 x1 x2 r2 b0 b3 Sa' Sb' ea eb ga gb gc v /\
    pair_pages a b Sa' Sb' = Sa ∪ Sb /\ ia <= zlen l1 /\ ib <= zlen r2.
Proof.
  intros [_ (ls1 & c1 & rs1 & Sfa & Ha & Hia & Hfa & Hna & ->)] [_ (ls2 & c2 & rs2 & Sfb & Hb & Hib & Hfb & Hnb & ->)] Hd Hk.
  destruct (see_last _ a _ _ _ _ _ _ _ _ _ Hfa) as (l1 & x1 & E1 & Z1 & F1). destruct (see_first _ b _ _ _ _ _ _ _ _ _ Hfb) as (x2 & r2 & E2 & Z2 & F2).
  rewrite E1 in Ha. rewrite E2 in Hb. exists l1, x1, x2, r2, Sfa, Sfb. split_and!; [|done|lia|lia].
  split; [done|done|done|done|done|set_solver..].
Qed.

Lemma internal_at_inj m pid n1 n2 : internal_at m pid n1 -> internal_at m pid n2 -> n1 = n2.
Proof. intros (_ & b1 & H1 & _ & D1) (_ & b2 & H2 & _ & D2). congruence. Qed.

Lemma zlen_node_children_first b x2 r2 : zlen (n_keys (node_of b [] x2 r2)) = zlen r2.
Proof. cbn [n_keys node_of]. rewrite zlen_node_keys. unfold zlen. cbn. lia. Qed.

Lemma zlen_node_children_last a l1 x1 : zlen (n_keys (node_of a l1 x1 [])) = zlen l1.
Proof. cbn [n_keys node_of]. rewrite zlen_node_keys. unfold zlen. cbn. lia. Qed.

(** A child on the left can lend or take in the underfull child. *)
Lemma fix_with_left oid v pid h ls0 a k c cnode rs lo hi b0 b2 S1 Sa S2 S3 es1 ea es2 es3 f ga g1 g2 n :
  pool_wf (v_pool v) -> uncontended v -> is_Some (pages_ (v_pool v) !! c) ->
  internal_ok (node_of pid ls0 a ((k, c) :: rs)) ->
  lpart (child (mem v) (S h)) ls0 lo b0 S1 es1 f ga -> child (mem v) (S h) a b0 (Some k) Sa ea ga g1 ->
  subtree (mem v) 0 168 (S h) c (Some k) b2 S2 es2 g1 g2 -> rpart (child (mem v) (S h)) rs b2 hi S3 es3 g2 n ->
  S1 ## Sa ∪ S2 -> S1 ## S3 -> Sa ∪ S2 ## S3 -> Sa ## S2 -> internal_at (mem v) c cnode -> zlen (n_keys cnode) < kInternalMinKeys ->
  exists r v1, borrow_left oid (node_of pid ls0 a ((k, c) :: rs)) (S (length ls0)) c c cnode v = (Ret r, v1) /\
    match r with
    | Some p => fixed v v1 pid (S h) lo hi (S1 ∪ (Sa ∪ S2) ∪ S3) (es1 ++ (ea ++ es2) ++ es3) f n (zlen ls0 + zlen rs) p
    | None => peek v v1 /\ forall v2, peek v v2 -> exists p v3,
        merge_left oid (node_of pid ls0 a ((k, c) :: rs)) (S (length ls0)) cnode v2 = (Ret p, v3) /\
        fixed v v3 pid (S h) lo hi (S1 ∪ (Sa ∪ S2) ∪ S3) (es1 ++ (ea ++ es2) ++ es3) f n (zlen ls0 + zlen rs) p
    end.
Proof.
  intros Hwf Hu Hc Hok Hl Ha Hcs Hr H1 H13 H3 Hd Hcn Hlt. assert (int64_ok k) as Hk.
  { apply node_of_ok in Hok as (_ & _ & _ & _ & [[? _] _]%Forall_cons). done. }
  destruct (make_pair v h a k c b0 b2 Sa S2 ea es2 ga g1 g2 1 kInternalMinKeys 0 168 Ha Hcs Hd Hk) as (l1 & x1 & x2 & r2 & Sa' & Sb' & Hip & Hpp & Hia & Hib).
  pose proof (internal_at_inj _ _ _ _ Hcn (ip_b _ _ _ _ _ _ _ _ _ _ _ _ _ _ _ _ _ _ Hip)) as ->.
  rewrite zlen_node_children_first in Hlt. change kInternalMinKeys with 169 in *. assert (zlen r2 = 168) as Hr2 by lia.
  destruct (borrow_left_run oid pid ls0 a k c rs h l1 x1 x2 r2 b0 b2 Sa' Sb' ea es2 ga g1 g2 v Hwf Hu Hc Hip Hr2) as (r & v1 & E1 & Hres).
  exists r, v1. split; [done|]. rewrite Hpp in Hres. destruct r as [p|].
  - destruct Hres as (k' & -> & Hsh & Hpo). by eapply (pair_fixed v v1 pid (S h) ls0 a k c rs).
  - destruct Hres as [Hp Hl1]. split; [done|]. intros v2 Hp2. change kInternalMinKeys with 169 in Hl1.
    destruct (merge_left_run oid pid ls0 a k c rs h l1 x1 x2 r2 b0 b2 Sa' Sb' ea es2 ga g1 g2 v2) as (v3 & E3 & Hsh & Hpo);
      [by apply Hp2|by eapply peek_uncontended|by eapply internal_pair_peek|lia|change kInternalMinKeys with 169; lia|].
    rewrite Hpp in Hsh, Hpo. eexists _, v3. split; [exact E3|].
    eapply (pair_fixed v v3 pid (S h) ls0 a k c rs); [done..| |exact Hpo].
    eapply (shrunk_trans v v2 v3 ∅); [by apply peek_shrunk|exact Hsh|set_solver|done].
Qed.

(** The same with the sibling on the right. *)
Lemma fix_with_right oid v pid h ls c cnode k b rs lo hi b1 b3 S1 S2 Sb S3 es1 es2 eb es3 f g1 g2 gc n :
  pool_wf (v_pool v) -> uncontended v -> is_Some (pages_ (v_pool v) !! c) ->
  internal_ok (node_of pid ls c ((k, b) :: rs)) ->
  lpart (child (mem v) (S h)) ls lo b1 S1 es1 f g1 -> subtree (mem v) 0 168 (S h) c b1 (Some k) S2 es2 g1 g2 ->
  child (mem v) (S h) b (Some k) b3 Sb eb g2 gc -> rpart (child (mem v) (S h)) rs b3 hi S3 es3 gc n ->
  S1 ## S2 ∪ Sb -> S1 ## S3 -> S2 ∪ Sb ## S3 -> S2 ## Sb -> internal_at (mem v) c cnode -> zlen (n_keys cnode) < kInternalMinKeys ->
  exists r v1, borrow_right oid (node_of pid ls c ((k, b) :: rs)) (length ls) c c cnode v = (Ret r, v1) /\
    match r with
    | Some p => fixed v v1 pid (S h) lo hi (S1 ∪ (S2 ∪ Sb) ∪ S3) (es1 ++ (es2 ++ eb) ++ es3) f n (zlen ls + zlen rs) p
    | None => peek v v1 /\ exists p v3,
        merge_right oid (node_of pid ls c ((k, b) :: rs)) (length ls) c c cnode v1 = (Ret p, v3) /\
        fixed v v3 pid (S h) lo hi (S1 ∪ (S2 ∪ Sb) ∪ S3) (es1 ++ (es2 ++ eb) ++ es3) f n (zlen ls + zlen rs) p
    end.
Proof.
  intros Hwf Hu Hc Hok Hl Hcs Hb Hr H1 H13 H3 Hd Hcn Hlt. assert (int64_ok k) as Hk.
  { apply node_of_ok in Hok as (_ & _ & _ & _ & [[? _] _]%Forall_cons). done. }
  destruct (make_pair v h c k b b1 b3 S2 Sb es2 eb g1 g2 gc 0 168 1 kInternalMinKeys Hcs Hb Hd Hk) as (l1 & x1 & x2 & r2 & Sa' & Sb' & Hip & Hpp & Hia & Hib).
  pose proof (internal_at_inj _ _ _ _ Hcn (ip_a _ _ _ _ _ _ _ _ _ _ _ _ _ _ _ _ _ _ Hip)) as ->.
  rewrite zlen_node_children_last in Hlt. change kInternalMinKeys with 169 in *. assert (zlen l1 = 168) as Hl1 by lia.
  destruct (borrow_right_run oid pid ls c k b rs h l1 x1 x2 r2 b1 b3 Sa' Sb' es2 eb g1 g2 gc v Hwf Hu Hc Hip Hl1) as (r & v1 & E1 & Hres).
  exists r, v1. split; [done|]. rewrite Hpp in Hres. destruct r as [p|].
  - destruct Hres as (k' & -> & Hsh & Hpo). by eapply (pair_fixed v v1 pid (S h) ls c k b rs).
  - destruct Hres as [Hp Hr2]. split; [done|]. change kInternalMinKeys with 169 in Hr2.
    destruct (merge_right_run oid pid ls c k b rs h l1 x1 x2 r2 b1 b3 Sa' Sb' es2 eb g1 g2 gc v1) as (v3 & E3 & Hsh & Hpo);
      [by apply Hp|by eapply peek_uncontended|by apply Hp|by eapply internal_pair_peek|lia|change kInternalMinKeys with 169; lia|].
    rewrite Hpp in Hsh, Hpo. eexists _, v3. split; [exact E3|].
    eapply (pair_fixed v v3 pid (S h) ls c k b rs); [done..| |exact Hpo].
    eapply (shrunk_trans v v1 v3 ∅); [by apply peek_shrunk|exact Hsh|set_solver|done].
Qed.

Lemma fixed_peek v v1 v' pid h lo hi S es f n K p : peek v v1 -> fixed v1 v' pid h lo hi S es f n K p -> fixed v v' pid h lo hi S es f n K p.
Proof.
  intros Hp [Hs H]. split; [|exact H]. eapply (shrunk_trans v v1 v' ∅ S); [by apply peek_shrunk|done|set_solver|done].
Qed.

Lemma fixed_weaken v v' pid h lo hi S es f n K K' S' es' p :
  fixed v v' pid h lo hi S es f n K p -> S = S' -> es = es' -> K' <= K -> fixed v v' pid h lo hi S' es' f n K' p.
Proof.
  intros [Hs (ls & c & rs & Sf & H1 & H2 & H3 & H4 & H5)] <- <- HK. split; [done|]. exists ls, c, rs, Sf. split_and!; [done|done|lia|done..].
Qed.

Lemma lpart_peek v v' h ls a b S es f n : peek v v' -> lpart (child (mem v) h) ls a b S es f n -> lpart (child (mem v') h) ls a b S es f n.
Proof. intros Hp. apply lpart_mono. intros. eapply peek_subtree; [exact Hp|done]. Qed.

Lemma rpart_peek v v' h rs a b S es f n : peek v v' -> rpart (child (mem v) h) rs a b S es f n -> rpart (child (mem v') h) rs a b S es f n.
Proof. intros Hp. apply rpart_mono. intros. eapply peek_subtree; [exact Hp|done]. Qed.

Lemma has_right_spec ls c rs : (S (length ls) <? length (node_children ls c rs))%nat = bool_decide (rs <> []).
Proof.
  assert (length (node_children ls c rs) = (length ls + S (length rs))%nat) as ->.
  { unfold node_children. rewrite length_app. cbn. by rewrite !length_fmap. }
  case_bool_decide as H; [apply Nat.ltb_lt|apply Nat.ltb_ge]; destruct rs; (done || (cbn [length]; lia) || by destruct H).
Qed.

Section Fix.
Context (oid : ObjectId) (pid : PageId) (ls : list (PageId * Z)) (c : PageId) (rs : list (Z * PageId)) (lo hi b1 b2 : option Z).
Context (S1 S2 S3 : gset PageId) (es1 es2 es3 : list entry) (f g1 g2 n : PageId).

(** The parent with one possibly underfull child. *)
Record underfull (h : nat) (v : View) : Prop := mkUnderfull {
  uf_wf : pool_wf (v_pool v);
  uf_u : uncontended v;
  uf_cached : is_Some (pages_ (v_pool v) !! c);
  uf_ok : internal_ok (node_of pid ls c rs);
  uf_size : 1 <= zlen ls + zlen rs;
  uf_l : lpart (child (mem v) h) ls lo b1 S1 es1 f g1;
  uf_c : subtree (mem v) 0 168 h c b1 b2 S2 es2 g1 g2;
  uf_r : rpart (child (mem v) h) rs b2 hi S3 es3 g2 n;
  uf_12 : S1 ## S2;
  uf_13 : S1 ## S3;
  uf_23 : S2 ## S3
}.

Lemma underfull_peek h v v' : peek v v' -> underfull h v -> underfull h v'.
Proof.
  intros Hp [H1 H2 H3 H4 H5 H6 H7 H8 H9 H10 H11]. split; [by apply Hp|by eapply peek_uncontended|by apply Hp|done|done|
    by eapply lpart_peek|by eapply peek_subtree|by eapply rpart_peek|done..].
Qed.

Definition fixed_to (h : nat) (v v' : View) (p : InternalNode) : Prop :=
  fixed v v' pid h lo hi (S1 ∪ S2 ∪ S3) (es1 ++ es2 ++ es3) f n (zlen ls + zlen rs - 1) p.

Lemma uf_left h v cnode :
  underfull (S h) v -> internal_at (mem v) c cnode -> zlen (n_keys cnode) < kInternalMinKeys -> ls <> [] ->
  exists r v1, borrow_left oid (node_of pid ls c rs) (length ls) c c cnode v = (Ret r, v1) /\
    match r with
    | Some p => fixed_to (S h) v v1 p
    | None => peek v v1 /\ forall v2, peek v v2 -> exists p v3,
        merge_left oid (node_of pid ls c rs) (length ls) cnode v2 = (Ret p, v3) /\ fixed_to (S h) v v3 p
    end.
Proof.
  intros Hs Hcn Hlt Hne. unfold fixed_to. destruct Hs as [Hwf Hu Hc Hok Hsz Hl Hcs Hr H12 H13 H23].
  destruct ls as [|[a k] ls0 _] using rev_ind; [done|].
  apply lpart_snoc_inv in Hl as (b0 & A & B & e1 & ea & ga & -> & -> & -> & HAB & Hl & Ha).
  assert (node_of pid (ls0 ++ [(a, k)]) c rs = node_of pid ls0 a ((k, c) :: rs)) as Hn.
  { unfold node_of. by rewrite node_children_right, (node_keys_right ls0 a k c rs). }
  rewrite Hn in Hok |- *. assert (length (ls0 ++ [(a, k)]) = S (length ls0)) as -> by (rewrite length_app; cbn; lia).
  destruct (fix_with_left oid v pid h ls0 a k c cnode rs lo hi b0 b2 A B S2 S3 e1 ea es2 es3 f ga g1 g2 n) as (r & v1 & E & Hres);
    [done..|set_solver|set_solver|set_solver|set_solver|done|done|].
  assert (forall v' p, fixed v v' pid (S h) lo hi (A ∪ (B ∪ S2) ∪ S3) (e1 ++ (ea ++ es2) ++ es3) f n (zlen ls0 + zlen rs) p ->
    fixed v v' pid (S h) lo hi (A ∪ B ∪ S2 ∪ S3) ((e1 ++ ea) ++ es2 ++ es3) f n (zlen (ls0 ++ [(a, k)]) + zlen rs - 1) p) as Hw.
  { intros v' p Hf. eapply fixed_weaken; [exact Hf|set_solver|by rewrite <- !app_assoc|unfold zlen; rewrite length_app; cbn; lia]. }
  exists r, v1. split; [done|]. destruct r as [p|]; [by apply Hw|]. destruct Hres as [Hp Hm]. split; [done|]. intros v2 Hp2.
  destruct (Hm v2 Hp2) as (p & v3 & E3 & Hf). exists p, v3. split; [done|]. by apply Hw.
Qed.

Lemma uf_right h v cnode :
  underfull (S h) v -> internal_at (mem v) c cnode -> zlen (n_keys cnode) < kInternalMinKeys -> rs <> [] ->
  exists r v1, borrow_right oid (node_of pid ls c rs) (length ls) c c cnode v = (Ret r, v1) /\
    match r with
    | Some p => fixed_to (S h) v v1 p
    | None => peek v v1 /\ exists p v3,
        merge_right oid (node_of pid ls c rs) (length ls) c c cnode v1 = (Ret p, v3) /\ fixed_to (S h) v v3 p
    end.
Proof.
  intros Hs Hcn Hlt Hne. unfold fixed_to. destruct Hs as [Hwf Hu Hc Hok Hsz Hl Hcs Hr H12 H13 H23].
  destruct rs as [|[k d] rs']; [done|].
  apply rpart_cons_inv in Hr as (b3 & A & B & ed & e3 & gc & -> & -> & -> & HAB & Hd & Hr).
  destruct (fix_with_right oid v pid h ls c cnode k d rs' lo hi b1 b3 S1 S2 A B es1 es2 ed e3 f g1 g2 gc n) as (r & v1 & E & Hres);
    [done..|set_solver|set_solver|set_solver|set_solver|done|done|].
  assert (forall v' p, fixed v v' pid (S h) lo hi (S1 ∪ (S2 ∪ A) ∪ B) (es1 ++ (es2 ++ ed) ++ e3) f n (zlen ls + zlen rs') p ->
    fixed v v' pid (S h) lo hi (S1 ∪ S2 ∪ (A ∪ B)) (es1 ++ es2 ++ ed ++ e3) f n (zlen ls + zlen ((k, d) :: rs') - 1) p) as Hw.
  { intros v' p Hf. eapply fixed_weaken; [exact Hf|set_solver|by rewrite <- !app_assoc|rewrite zlen_cons; lia]. }
  exists r, v1. split; [done|]. destruct r as [p|]; [by apply Hw|]. destruct Hres as [Hp (p & v3 & E3 & Hf)]. split; [done|].
  exists p, v3. split; [done|]. by apply Hw.
Qed.

Lemma fix_internal_run h v cnode :
  underfull (S h) v -> internal_at (mem v) c cnode -> zlen (n_keys cnode) < kInternalMinKeys ->
  exists p v', fix_internal oid (node_of pid ls c rs) (length ls) c c cnode v = (Ret p, v') /\ fixed_to (S h) v v' p.
Proof.
  intros Hs Hcn Hlt. unfold fix_internal. change (n_children (node_of pid ls c rs)) with (node_children ls c rs).
  rewrite has_right_spec. pose proof (uf_size _ _ Hs) as Hsz. destruct (decide (ls = [])) as [Hls|Hls].
  - assert ((0 <? length ls)%nat = false) as -> by (by rewrite Hls). run (mret_run (@None InternalNode) v).
    assert (rs <> []) as Hrs by (intros Hrs; rewrite Hls, Hrs in Hsz; unfold zlen in Hsz; cbn in Hsz; lia).
    rewrite bool_decide_eq_true_2 by done. destruct (uf_right h v cnode Hs Hcn Hlt Hrs) as (r & v1 & E & Hres). run E.
    destruct r as [p|]; [by exists p, v1|]. destruct Hres as [_ (p & v3 & E3 & Hf)]. by exists p, v3.
  - assert ((0 <? length ls)%nat = true) as -> by (destruct ls; done).
    destruct (uf_left h v cnode Hs Hcn Hlt Hls) as (r & v1 & E & Hres). run E. destruct r as [p|]; [by exists p, v1|].
    destruct Hres as [Hp1 Hmerge]. case_bool_decide as Hrs.
    + destruct (uf_right h v1 cnode) as (r & v2 & E2 & Hres); [by eapply underfull_peek|by eapply internal_at_peek|done|done|].
      run E2. destruct r as [p|]; [exists p, v2; split; [done|by eapply fixed_peek]|]. destruct Hres as [Hp2 _].
      destruct (Hmerge v2) as (p & v3 & E3 & Hf); [by etrans|]. by exists p, v3.
    + run (mret_run (@None InternalNode) v1). destruct (Hmerge v1 Hp1) as (p & v3 & E3 & Hf). by exists p, v3.
Qed.

Lemma fix_leaf_run v :
  underfull 0 v ->
  exists p v', (if (0 <? length ls)%nat then fix_leaf_left oid (node_of pid ls c rs) (length ls) c c (leaf_of c g2 es2)
                else fix_leaf_right oid (node_of pid ls c rs) (length ls) c c (leaf_of c g2 es2)) v = (Ret p, v') /\
    fixed_to 0 v v' p.
Proof.
  intros [Hwf Hu Hc Hok Hsz Hl Hcs Hr H12 H13 H23]. unfold fixed_to. destruct ls as [|[a k] ls0 _] using rev_ind.
  - cbn [length Nat.ltb Nat.leb]. destruct rs as [|[k d] rs']; [unfold zlen in Hsz; cbn in Hsz; lia|].
    apply rpart_cons_inv in Hr as (b3 & A & B & ed & e3 & gc & -> & -> & -> & HAB & Hd & Hr).
    destruct (fix_leaf_right_run oid v pid [] c k d rs' b1 b3 S2 A es2 ed g1 g2 gc 168 kInternalMinKeys) as (r & v' & E & Hsh & Hpo); [done..|set_solver|].
    eexists _, v'. split; [exact E|]. eapply fixed_weaken;
      [eapply (pair_fixed v v' pid 0 [] c k d rs' lo hi b1 b3 S1 (S2 ∪ A) B); [done|exact Hl|exact Hr|set_solver..|exact Hsh|exact Hpo]|set_solver|by rewrite <- !app_assoc|rewrite zlen_cons; lia].
  - apply lpart_snoc_inv in Hl as (b0 & A & B & e1 & ea & ga & -> & -> & -> & HAB & Hl & Ha).
    assert (node_of pid (ls0 ++ [(a, k)]) c rs = node_of pid ls0 a ((k, c) :: rs)) as Hn.
    { unfold node_of. by rewrite node_children_right, (node_keys_right ls0 a k c rs). }
    rewrite Hn in Hok |- *. assert (length (ls0 ++ [(a, k)]) = S (length ls0)) as -> by (rewrite length_app; cbn; lia). cbn [Nat.ltb Nat.leb].
    destruct (fix_leaf_left_run oid v pid ls0 a k c rs b0 b2 B S2 ea es2 ga g1 g2 kInternalMinKeys 168) as (r & v' & E & Hsh & Hpo); [done..|set_solver|].
    eexists _, v'. split; [exact E|]. eapply fixed_weaken;
      [eapply (pair_fixed v v' pid 0 ls0 a k c rs lo hi b0 b2 A (B ∪ S2) S3); [done|exact Hl|exact Hr|set_solver..|exact Hsh|exact Hpo]|set_solver|by rewrite <- !app_assoc|unfold zlen; rewrite length_app; cbn; lia].
Qed.

(** The child's page says whether it is a leaf; an internal child has been
    left one key short. *)
Lemma FixUnderflow_run h v :
  underfull h v -> (forall cnode, internal_at (mem v) c cnode -> zlen (n_keys cnode) < kInternalMinKeys) ->
  exists p v', FixUnderflow oid (node_of pid ls c rs) (length ls) v = (Ret p, v') /\ fixed_to h v v' p.
Proof.
  intros Hs Hsmall. unfold FixUnderflow. change (n_children (node_of pid ls c rs)) with (node_children ls c rs).
  fold (zlen ls). rewrite node_child. run (lift_run c v).
  destruct (subtree_alloc _ _ _ _ _ _ _ _ _ _ _ c (uf_c _ _ Hs) (subtree_root _ _ _ _ _ _ _ _ _ _ _ (uf_c _ _ Hs))) as [buf Hb].
  destruct (lock_fetch oid c kExclusive v buf (uf_u _ _ Hs) Hb) as (v1 & v2 & H1 & H2 & H3 & Hp & Hcc). run H1. run H2. run H3.
  pose proof (underfull_peek _ _ _ Hp Hs) as Hs2.
  destruct h as [|h].
  - destruct (uf_c _ _ Hs) as [_ (_ & _ & (Hok & buf' & Hb' & Ht & Hd) & _)]. rewrite Hb in Hb'. injection Hb' as <-. rewrite Ht, Hd.
    run (lift_run (leaf_of c g2 es2) v2). destruct (fix_leaf_run v2 Hs2) as (p & v' & E & Hf). exists p, v'. split; [done|by eapply fixed_peek].
  - destruct (uf_c _ _ Hs) as [_ (lc & cc & rc & Sfc & Hat & _)]. destruct (Hat) as (Hok & buf' & Hb' & Ht & Hd). rewrite Hb in Hb'. injection Hb' as <-. rewrite Ht, Hd.
    run (lift_run (node_of c lc cc rc) v2).
    destruct (fix_internal_run h v2 (node_of c lc cc rc) Hs2) as (p & v' & E & Hf); [by eapply internal_at_peek|by apply Hsmall|].
    exists p, v'. split; [done|by eapply fixed_peek].
Qed.

End Fix.

(** ** DeleteRecursive *)

Lemma shrunk_grown v v' S S' : shrunk v v' S -> S' ⊆ S -> grown v v' S S'.
Proof. intros [_ _ H] Hs. split; [intros q Hq _; by apply H|intros q Hq; left; by apply Hs]. Qed.

Lemma shrunk_wf v v' S : shrunk v v' S -> pool_wf (v_pool v) -> pool_wf (v_pool v').
Proof. intros [H _ _]. apply H. Qed.

Lemma shrunk_uncontended v v' S : shrunk v v' S -> uncontended v -> uncontended v'.
Proof. intros [H _ _]. apply H. Qed.

(** What a deletion that found its entry leaves below a node: the node may be
    one entry or key short, and says so. *)
Definition removed (v' : View) (is_root : bool) (im : Z) (h : nat) (pid : PageId) (lo hi : option Z)
    (S : gset PageId) (es : list entry) (f n : PageId) (uf : bool) : Prop :=
  is_Some (pages_ (v_pool v') !! pid) /\
  exists S', S' ⊆ S /\ subtree (mem v') 0 (im - 1) h pid lo hi S' es f n /\
    (is_root = false -> if uf then forall node, internal_at (mem v') pid node -> zlen (n_keys node) < kInternalMinKeys
                        else child (mem v') h pid lo hi S' es f n).

Lemma delete_leaf_run pid v buf is_root key rid lo hi es n im i :
  pool_wf (v_pool v) -> pages_ (v_pool v) !! pid = Some buf -> DeserializeLeaf buf = Ret (leaf_of pid n es) ->
  leaf_ok (leaf_of pid n es) -> range_ok lo hi -> sorted_in lo hi es -> find_entry es key rid = Some i ->
  exists uf v', delete_leaf pid pid is_root buf key rid v = (Ret (mkDeleteResult true uf), v') /\ shrunk v v' {[pid]} /\
    removed v' is_root im 0 pid lo hi {[pid]} (delete_entry key rid es) pid n uf.
Proof.
  intros Hwf Hc Hd Hok Hro Hs Hfind. unfold delete_leaf. rewrite Hd. run (lift_run (leaf_of pid n es) v).
  unfold leaf_of. cbn [l_keys l_values l_page_id l_next_leaf]. rewrite zip_entries, Hfind, <- !erase_at_fmap.
  assert (delete_entry key rid es = erase_at i es) as Hde by (unfold delete_entry; by rewrite Hfind). rewrite Hde.
  pose proof (delete_entry_sublist key rid es) as Hsub. rewrite Hde in Hsub. set (es' := erase_at i es) in *.
  assert (zlen es'.*1 = zlen es') as Hz by (unfold zlen; by rewrite length_fmap). rewrite Hz.
  assert (leaf_ok (leaf_of pid n es')) as Hok'.
  { apply leaf_of_ok in Hok as (? & ? & Hm & He). apply leaf_of_ok. split_and!; [done|done| |].
    - apply sublist_length in Hsub. unfold zlen in *. lia.
    - rewrite Forall_forall in *. intros e Hin. apply He. by eapply elem_of_sublist. }
  destruct (put_leaf_run v pid _ Hok') as (b & Hp & Hbl & Ht & Hdb); [eauto|]. run Hp. run (MarkDirty_run pid (cache pid b v)). fold (write pid b v).
  pose proof (write_wrote v pid b Hwf ltac:(eauto) Hbl) as Hw. eexists _, (write pid b v). split; [done|]. split; [by eapply wrote_shrunk|].
  assert (leaf_at (mem (write pid b v)) pid (leaf_of pid n es')) as Hat by (by eapply wrote_leaf_at).
  split; [apply (ts_cached _ _ (wr_step _ _ _ _ Hw)); eauto|]. exists {[pid]}. split; [done|].
  assert (forall lm, lm <= zlen es' -> subtree (mem (write pid b v)) lm (im - 1) 0 pid lo hi {[pid]} es' pid n) as Hsub0.
  { intros lm Hlm. split; [done|]. split_and!; [done|done|done|by eapply sorted_in_sublist|done]. }
  split; [apply Hsub0, zlen_nonneg|]. intros ->. cbn [negb andb]. destruct (Z.ltb_spec (zlen es') kLeafMinKeys) as [Hlt|Hge].
  - intros node (_ & b' & Hb' & Ht' & _). destruct Hat as (_ & b2 & Hb2 & Ht2 & _). congruence.
  - change kLeafMinKeys with 145 in Hge. destruct (Hsub0 1 ltac:(lia)) as [H1 H2]. split; [exact H1|exact H2].
Qed.

Lemma not_routed key rid es1 es2 es3 :
  Forall (fun e : entry => e.1 < key) es1 -> Forall (fun e : entry => key < e.1) es3 ->
  Forall (fun e : entry => e.1 <> key) es1 /\ Forall (fun e : entry => e.1 <> key) es3 /\
  ((key, rid) ∈ es1 ++ es2 ++ es3 <-> (key, rid) ∈ es2).
Proof.
  intros H1 H3. assert (Forall (fun e : entry => e.1 <> key) es1) as N1 by (eapply Forall_impl; [exact H1|]; intros e He; cbn in He; lia).
  assert (Forall (fun e : entry => e.1 <> key) es3) as N3 by (eapply Forall_impl; [exact H3|]; intros e He; cbn in He; lia).
  split_and!; [done|done|]. rewrite !elem_of_app. rewrite Forall_forall in N1, N3. split; [|tauto].
  intros [Hin|[Hin|Hin]]; [by apply N1 in Hin|done|by apply N3 in Hin].
Qed.

(** The last write of [DeleteRecursive] on an internal node. *)
Lemma close_internal v pid h lo hi ls c rs Sf es f n (is_root : bool) im :
  pool_wf (v_pool v) -> is_Some (pages_ (v_pool v) !! pid) -> internal_ok (node_of pid ls c rs) -> im - 1 <= zlen ls + zlen rs ->
  focus (child (mem v) h) ls c rs lo hi Sf es f n -> ~ (pid ∈ Sf) ->
  exists v', (put_internal pid (node_of pid ls c rs);; MarkDirty pid;;
      mret (mkDeleteResult true (negb is_root && (zlen (n_keys (node_of pid ls c rs)) <? kInternalMinKeys)))) v
      = (Ret (mkDeleteResult true (negb is_root && (zlen ls + zlen rs <? kInternalMinKeys))), v') /\ shrunk v v' {[pid]} /\
    removed v' is_root im (S h) pid lo hi ({[pid]} ∪ Sf) es f n (negb is_root && (zlen ls + zlen rs <? kInternalMinKeys)).
Proof.
  intros Hwf Hc Hok Him Hf Hn. destruct (put_internal_run v pid _ Hok Hc) as (b & Hp & Hbl & Ht & Hd).
  run Hp. run (MarkDirty_run pid (cache pid b v)). fold (write pid b v).
  pose proof (write_wrote v pid b Hwf Hc Hbl) as Hw. exists (write pid b v). cbn [n_keys node_of]. rewrite zlen_node_keys.
  split; [done|]. split; [by eapply wrote_shrunk|]. split; [by apply (ts_cached _ _ (wr_step _ _ _ _ Hw))|].
  assert (internal_at (mem (write pid b v)) pid (node_of pid ls c rs)) as Hat.
  { split; [done|]. exists b. by rewrite (wr_mem _ _ _ _ Hw), decide_True. }
  assert (focus (child (mem (write pid b v)) h) ls c rs lo hi Sf es f n) as Hf'.
  { eapply focus_frame; [|exact Hf]. intros q Hq. rewrite (wr_mem _ _ _ _ Hw), decide_False; [done|congruence]. }
  exists ({[pid]} ∪ Sf). split; [done|]. split; [by apply (focus_subtree _ 0 (im - 1) h pid ls c rs)|].
  intros ->. cbn [negb andb]. destruct (Z.ltb_spec (zlen ls + zlen rs) kInternalMinKeys).
  - intros node Hnode. rewrite (internal_at_inj _ _ _ _ Hnode Hat). cbn [n_keys node_of]. by rewrite zlen_node_keys.
  - by apply (focus_subtree _ 1 kInternalMinKeys h pid ls c rs).
Qed.

(** What happens at an internal node once the child has lost the entry. *)
Lemma delete_at_internal oid v pid h ls c rs lo hi b1 b2 S1 S2 S3 es1 es2 es3 f g1 g2 n is_root im uf :
  im = (if is_root : bool then 1 else kInternalMinKeys) ->
  pool_wf (v_pool v) -> uncontended v -> is_Some (pages_ (v_pool v) !! pid) ->
  internal_ok (node_of pid ls c rs) -> im <= zlen ls + zlen rs ->
  lpart (child (mem v) h) ls lo b1 S1 es1 f g1 -> rpart (child (mem v) h) rs b2 hi S3 es3 g2 n ->
  S1 ## S2 -> S1 ## S3 -> S2 ## S3 -> ~ (pid ∈ S1 ∪ S2 ∪ S3) ->
  removed v false kInternalMinKeys h c b1 b2 S2 es2 g1 g2 uf ->
  exists uf' v', (node' ← (if uf : bool then FixUnderflow oid (node_of pid ls c rs) (length ls) else mret (node_of pid ls c rs));
      put_internal pid node';; MarkDirty pid;;
      mret (mkDeleteResult true (negb is_root && (zlen (n_keys node') <? kInternalMinKeys)))) v = (Ret (mkDeleteResult true uf'), v') /\
    shrunk v v' ({[pid]} ∪ (S1 ∪ S2 ∪ S3)) /\
    removed v' is_root im (S h) pid lo hi ({[pid]} ∪ (S1 ∪ S2 ∪ S3)) (es1 ++ es2 ++ es3) f n uf'.
Proof.
  intros Him Hwf Hu Hc Hok Hsz Hl Hr H12 H13 H23 Hpid (Hcc & S2' & Hsub & Hcs & Huf). specialize (Huf eq_refl).
  assert (1 <= im) as Him1 by (rewrite Him; by destruct is_root).
  assert (exists v1 ls' c' rs' Sf, (if uf : bool then FixUnderflow oid (node_of pid ls c rs) (length ls) else mret (node_of pid ls c rs)) v = (Ret (node_of pid ls' c' rs'), v1) /\
    shrunk v v1 (S1 ∪ S2 ∪ S3) /\ internal_ok (node_of pid ls' c' rs') /\ im - 1 <= zlen ls' + zlen rs' /\ Sf ⊆ S1 ∪ S2 ∪ S3 /\
    focus (child (mem v1) h) ls' c' rs' lo hi Sf (es1 ++ es2 ++ es3) f n) as (v1 & ls' & c' & rs' & Sf & E & Hsh & Hok' & Hsz' & HSf & Hf).
  { destruct uf.
    - destruct (FixUnderflow_run oid pid ls c rs lo hi b1 b2 S1 S2' S3 es1 es2 es3 f g1 g2 n h v) as (p & v1 & E & [Hsh (ls' & c' & rs' & Sf & -> & Hok' & Hz' & HSf & Hf)]); [|exact Huf|].
      { split; [done..|lia|done|exact Hcs|done|set_solver|done|set_solver]. }
      exists v1, ls', c', rs', Sf. split_and!; [done| |done|lia|set_solver|done].
      eapply (shrunk_trans v v v1 ∅); [by apply peek_shrunk|exact Hsh|set_solver|set_solver].
    - exists v, ls, c, rs, (S1 ∪ S2' ∪ S3). split_and!; [done|by apply peek_shrunk|done|lia|set_solver|].
      econstructor; [exact Hl|exact Huf|exact Hr|set_solver|done|set_solver|done|done]. }
  run E. destruct (close_internal v1 pid h lo hi ls' c' rs' Sf (es1 ++ es2 ++ es3) f n is_root im) as (v2 & E2 & Hsh2 & (Hcc2 & S' & HS' & Hrem));
    [by eapply shrunk_wf|by apply (sh_step _ _ _ Hsh)|done|done|exact Hf|set_solver|].
  eexists _, v2. split; [exact E2|]. split; [eapply shrunk_trans; [exact Hsh|exact Hsh2|set_solver..]|].
  split; [done|]. exists S'. split; [set_solver|done].
Qed.

Lemma DeleteRecursive_run oid key rid h is_root im pid lo hi S es f n v frames :
  im = (if is_root : bool then 1 else kInternalMinKeys) ->
  subtree (mem v) 1 im h pid lo hi S es f n -> pool_wf (v_pool v) -> uncontended v -> in_range lo hi key -> (h < frames)%nat ->
  exists res v', DeleteRecursive oid frames pid is_root key rid v = (Ret res, v') /\
    found res = bool_decide ((key, rid) ∈ es) /\
    if found res then shrunk v v' S /\ removed v' is_root im h pid lo hi S (delete_entry key rid es) f n (underflow res)
    else peek v v'.
Proof.
  intros Him. revert is_root im pid lo hi S es f n v frames Him.
  induction h as [|h IH]; intros is_root im pid lo hi S es f n v frames Him [Hro Hs] Hwf Hu Hk Hfr;
    (destruct frames as [|frames]; [lia|]); cbn [DeleteRecursive].
  - destruct Hs as (-> & -> & (Hok & buf & Hb & Hleaf & Hd) & Hso & Hlm).
    destruct (lock_fetch oid pid kExclusive v buf Hu Hb) as (v1 & v2 & H1 & H2 & H3 & Hp & Hc). run H1. run H2. run H3. rewrite Hleaf.
    destruct (find_entry es key rid) as [i|] eqn:Ef.
    + destruct (delete_leaf_run pid v2 buf is_root key rid lo hi es n im i) as (uf & v3 & E & Hsh & Hrem); [by apply Hp|done..|].
      eexists _, v3. split; [exact E|]. cbn [found underflow]. rewrite bool_decide_eq_true_2 by (apply find_entry_Some in Ef; by eapply list_elem_of_lookup_2).
      split; [done|]. split; [|done]. eapply (shrunk_trans v v2 v3 ∅); [by apply peek_shrunk|exact Hsh|set_solver|done].
    + eexists (mkDeleteResult false false), v2. split.
      * unfold delete_leaf. rewrite Hd. run (lift_run (leaf_of pid n es) v2). unfold leaf_of. cbn [l_keys l_values]. by rewrite zip_entries, Ef.
      * cbn [found]. rewrite bool_decide_eq_false_2 by (by apply find_entry_None). done.
  - destruct Hs as (ls0 & c0 & rs0 & Sf & (Hok & buf & Hb & Hleaf & Hd) & Hsz & Hfo & Hn & ->).
    destruct (lock_fetch oid pid kExclusive v buf Hu Hb) as (v1 & v2 & H1 & H2 & H3 & Hp & Hc). run H1. run H2. run H3. rewrite Hleaf, Hd.
    run (lift_run (node_of pid ls0 c0 rs0) v2).
    assert (focus (child (mem v2) h) ls0 c0 rs0 lo hi Sf es f n) as Hfo2 by (eapply focus_frame; [intros; apply Hp|exact Hfo]).
    destruct (focus_route _ _ _ _ _ _ _ _ _ _ key Hfo2 Hk) as (ls & c & rs & Hi & Hke & Hch & Hlen & b1 & b2 & S1 & S2 & S3 & es1 & es2 & es3 & g1 & g2 & Hl & Hcd & Hr & H12 & H13 & H23 & -> & -> & Hk').
    assert (node_of pid ls0 c0 rs0 = node_of pid ls c rs) as Hnode by (unfold node_of; by rewrite Hke, Hch).
    rewrite Hnode in *. change (n_children (node_of pid ls c rs)) with (node_children ls c rs).
    change (upper_bound (n_keys (node_of pid ls c rs)) key) with (upper_bound (node_keys ls rs) key). rewrite Hke, <- Hi. fold (zlen ls). rewrite node_child. run (lift_run c v2).
    destruct (parts_around (mem v2) h ls rs lo hi b1 b2 S1 S3 es1 es3 f g1 g2 n key Hl Hr Hk') as [Ha1 Ha3].
    destruct (not_routed key rid es1 es2 es3 Ha1 Ha3) as (N1 & N3 & Hin).
    rewrite (bool_decide_ext _ _ Hin), delete_entry_mid by done.
    destruct (IH false kInternalMinKeys c b1 b2 S2 es2 g1 g2 v2 frames) as (res & v3 & E & Hfd & Hres);
      [done|done|by apply Hp|by eapply peek_uncontended|done|lia|]. run E.
    destruct (found res) eqn:Efd; cbn [negb].
    + destruct Hres as [Hsh Hrem]. assert (shrunk v v3 S2) as Hsh' by (eapply (shrunk_trans v v2 v3 ∅); [by apply peek_shrunk|exact Hsh|set_solver|done]).
      assert (lpart (child (mem v3) h) ls lo b1 S1 es1 f g1) as Hl3 by (eapply lpart_kept; [exact (shrunk_grown _ _ _ ∅ Hsh ltac:(set_solver))|done|done]).
      assert (rpart (child (mem v3) h) rs b2 hi S3 es3 g2 n) as Hr3 by (eapply rpart_kept; [exact (shrunk_grown _ _ _ ∅ Hsh ltac:(set_solver))|by symmetry|done]).
      destruct (delete_at_internal oid v3 pid h ls c rs lo hi b1 b2 S1 S2 S3 es1 (delete_entry key rid es2) es3 f g1 g2 n is_root im (underflow res) Him) as (uf' & v4 & E4 & Hsh4 & Hrem4);
        [by eapply shrunk_wf|by eapply shrunk_uncontended|apply (sh_step _ _ _ Hsh); eauto|done|unfold zlen in *; lia|done|done|done|done|done|done|done|].
      eexists (mkDeleteResult true uf'), v4. split; [exact E4|]. cbn [found underflow]. split; [done|]. split; [|done].
      eapply shrunk_trans; [exact Hsh'|exact Hsh4|set_solver|done].
    + eexists (mkDeleteResult false false), v3. split; [done|]. cbn [found]. split; [done|]. by etrans.
Qed.

(** ** Delete *)

Lemma retarget v r hp h S es f :
  pool_wf (v_pool v) -> mem v kRootHeaderPageId = Some hp -> u32_ok r ->
  subtree (mem v) 1 1 h r None None S es f INVALID_PAGE_ID -> ~ (kRootHeaderPageId ∈ S) ->
  exists v', SetRootPageId r v = (Ret tt, v') /\ tstep v v' /\ next v' = next v /\ btree v' es.
Proof.
  intros Hwf Hh Hr Ht H0. destruct (SetRootPageId_run v r hp Hwf Hh Hr) as (v' & E & [Hst Hn Hm]).
  exists v'. split_and!; [done..|]. split; [by apply Hst|]. exists (SerializeHeader r), r.
  rewrite Hm, decide_True by done. split_and!; [done|by apply header_roundtrip|]. right. exists h, S, f. split; [|done].
  eapply subtree_frame; [|exact Ht]. intros q Hq. rewrite Hm, decide_False; [done|congruence].
Qed.

Lemma retarget_empty v hp :
  pool_wf (v_pool v) -> mem v kRootHeaderPageId = Some hp ->
  exists v', SetRootPageId INVALID_PAGE_ID v = (Ret tt, v') /\ tstep v v' /\ next v' = next v /\ btree v' [].
Proof.
  intros Hwf Hh. destruct (SetRootPageId_run v INVALID_PAGE_ID hp Hwf Hh) as (v' & E & [Hst Hn Hm]); [done|].
  exists v'. split_and!; [done..|]. split; [by apply Hst|]. eexists _, INVALID_PAGE_ID.
  rewrite Hm, decide_True by done. split_and!; [done|by apply header_roundtrip|]. by left.
Qed.

(** The end of [Delete]: an empty leaf root or a root with one child goes. *)
Definition collapse (root : PageId) : M View bool :=
  root_page ← FetchPage root;
  buf ← data_of root_page;
  if is_leaf buf then
    root_leaf ← lift (DeserializeLeaf buf);
    match l_keys root_leaf with
    | [] => SetRootPageId INVALID_PAGE_ID;; mret true
    | _ => mret true
    end
  else
    root_internal ← lift (DeserializeInternal buf);
    match n_children root_internal with
    | [c] => SetRootPageId c;; mret true
    | _ => mret true
    end.

(** A node with a single child holds exactly that child's entries. *)
Lemma only_child v h c lo hi Sf es f n :
  focus (child (mem v) h) [] c [] lo hi Sf es f n -> exists Sc, Sc ⊆ Sf /\ child (mem v) h c lo hi Sc es f n.
Proof.
  intros [b1 b2 A B C e1 e2 e3 g1 g2 Hl Hc Hr _ _ _ -> ->].
  inversion Hl as [|l0 ? ? ? ? ? ? ? ? ? ? ? ? ? ? He]; [subst|by destruct l0]. inversion Hr; subst.
  exists B. split; [set_solver|]. cbn. by rewrite app_nil_r.
Qed.

Lemma many_children {A} ls c rs (k : PageId -> A) (d : A) :
  zlen ls + zlen rs <> 0 -> match node_children ls c rs with [c'] => k c' | _ => d end = d.
Proof.
  intros Hz. unfold node_children. destruct ls as [|[] [|[] ls]]; cbn; [|done|done]. destruct rs as [|[] rs]; [|done]. by cbn in Hz.
Qed.

Lemma collapse_run v hp root h S es f :
  pool_wf (v_pool v) -> mem v kRootHeaderPageId = Some hp -> DeserializeHeaderRootPageId hp = root ->
  subtree (mem v) 0 0 h root None None S es f INVALID_PAGE_ID -> ~ (kRootHeaderPageId ∈ S) ->
  exists v', collapse root v = (Ret true, v') /\ tstep v v' /\ next v' = next v /\ btree v' es.
Proof.
  intros Hwf Hh Hr Hsub H0.
  destruct (subtree_alloc _ _ _ _ _ _ _ _ _ _ _ root Hsub (subtree_root _ _ _ _ _ _ _ _ _ _ _ Hsub)) as [buf Hb].
  destruct (fetch_peek root v buf Hb) as (v1 & H1 & Hp & Hd1 & _). pose proof (pk_next _ _ Hp) as Hn1.
  unfold collapse. run H1. run Hd1. assert (pool_wf (v_pool v1)) as Hwf1 by (by apply Hp).
  assert (mem v1 kRootHeaderPageId = Some hp) as Hh1 by (by rewrite (pk_mem _ _ Hp)).
  apply (peek_subtree _ _ _ _ _ _ _ _ _ _ _ _ Hp) in Hsub. rewrite <- (pk_mem _ _ Hp) in Hb.
  assert (forall v2, tstep v1 v2 -> next v2 = next v1 -> tstep v v2 /\ next v2 = next v) as Hend.
  { intros v2 Hst Hn. split; [etrans; [apply Hp|done]|lia]. }
  assert (subtree (mem v1) 1 1 h root None None S es f INVALID_PAGE_ID -> btree v1 es) as Hkeep.
  { intros Ht. split; [done|]. exists hp, root. split_and!; [done..|]. right. eauto. }
  destruct h as [|h]; destruct Hsub as [Hr0 Hsub].
  - destruct Hsub as (-> & -> & (Hok & buf' & Hb' & Hleaf & Hd) & Hso & _). rewrite Hb in Hb'. injection Hb' as <-. rewrite Hleaf, Hd.
    run (lift_run (leaf_of root INVALID_PAGE_ID es) v1). destruct es as [|e es].
    + destruct (retarget_empty v1 hp Hwf1 Hh1) as (v2 & E & Hst & Hn & Hbt). cbn. run E. exists v2. destruct (Hend v2 Hst Hn). done.
    + exists v1. destruct (Hend v1) as [? ?]; [done..|]. split_and!; [done..|]. apply Hkeep. split; [done|].
      split_and!; [done|done| |done|rewrite zlen_cons; pose proof (zlen_nonneg es); lia]. split; [done|]. by exists buf.
  - destruct Hsub as (ls & c & rs & Sf & Hat & _ & Hf & Hn & ->). destruct (Hat) as (Hok & buf' & Hb' & Hleaf & Hd).
    rewrite Hb in Hb'. injection Hb' as <-. rewrite Hleaf, Hd. run (lift_run (node_of root ls c rs) v1).
    change (n_children (node_of root ls c rs)) with (node_children ls c rs).
    destruct (decide (zlen ls + zlen rs = 0)) as [Hz|Hz].
    + assert (ls = []) as -> by (apply nil_length_inv; unfold zlen in *; lia). assert (rs = []) as -> by (apply nil_length_inv; unfold zlen in *; cbn in *; lia).
      destruct (only_child _ _ _ _ _ _ _ _ _ Hf) as (Sc & HSc & Hc).
      destruct (retarget v1 c hp h Sc es f Hwf1 Hh1) as (v2 & E & Hst & Hn2 & Hbt);
        [by apply node_of_ok in Hok as (_ & ? & _)|by apply (subtree_weaken _ 1 kInternalMinKeys)|set_solver|].
      change (node_children [] c []) with [c]. cbv beta iota. run E. exists v2. destruct (Hend v2 Hst Hn2). done.
    + rewrite many_children by done. exists v1. destruct (Hend v1) as [? ?]; [done..|]. split_and!; [done..|].
      apply Hkeep. apply (focus_subtree _ 1 1 h root ls c rs); [done| |done|done].
      pose proof (zlen_nonneg ls). pose proof (zlen_nonneg rs). lia.
Qed.

Lemma tree_Delete_run oid frames key rid v es :
  btree v es -> uncontended v -> (6 <= frames)%nat ->
  exists v', Delete oid frames key rid v = (Ret (bool_decide ((key, rid) ∈ es)), v') /\ tstep v v' /\ next v' = next v /\
    btree v' (delete_entry key rid es).
Proof.
  intros [Hwf (hp & root & Hhp & Hr & Ht)] Hu Hfr.
  destruct (locked_root oid kExclusive v hp Hu Hhp) as (v1 & v2 & H1 & H2 & Hp). unfold Delete. run H1. run H2. rewrite Hr.
  destruct Ht as [[-> ->]|(h & S & f & Ht & H0)].
  { exists v2. split_and!; [done|apply Hp|apply Hp|]. split; [by apply Hp|]. exists hp, INVALID_PAGE_ID. rewrite (pk_mem _ _ Hp). auto. }
  rewrite (proj2 (Z.eqb_neq _ _) (root_valid _ _ _ _ _ _ _ _ _ _ _ Hwf Ht)).
  pose proof (btree_height _ _ _ _ _ _ _ Hwf Ht) as Hh.
  destruct (DeleteRecursive_run oid key rid h true 1 root None None S es f INVALID_PAGE_ID v2 frames) as (res & v3 & E & Hfd & Hres);
    [done|by eapply peek_subtree|by apply Hp|by eapply peek_uncontended|done|lia|].
  run E. rewrite <- Hfd. destruct (found res) eqn:Efd; cbn [negb].
  - destruct Hres as [Hsh (_ & S' & HS' & Hsub & _)].
    destruct (collapse_run v3 hp root h S' (delete_entry key rid es) f) as (v4 & E4 & Hst & Hn & Hbt);
      [by eapply shrunk_wf, Hp|by rewrite (sh_mem _ _ _ Hsh), (pk_mem _ _ Hp)|done|done|set_solver|].
    exists v4. split_and!; [exact E4|etrans; [apply Hp|etrans; [apply Hsh|done]]|rewrite Hn, (sh_next _ _ _ Hsh); apply Hp|done].
  - assert (peek v v3) as Hp3 by (by etrans). exists v3. split_and!; [done|apply Hp3|apply Hp3|].
    split; [by apply Hp3|]. exists hp, root. rewrite (pk_mem _ _ Hp3). split_and!; [done..|]. right. exists h, S, f. split; [|done].
    symmetry in Hfd. apply bool_decide_eq_false in Hfd. apply find_entry_None in Hfd. unfold delete_entry. rewrite Hfd. by eapply peek_subtree.
Qed.

End BTreeDelete.
