(* ===== verification/BTreeContract.v ===== *)
(** * BTreeContract: what a B+ tree promises its users

    The constructor, [ValidateInvariants], and the theorems about each public
    operation: the tree is a multimap of keys to record ids, kept as the list
    of its entries sorted by key. *)
From S2P Require Export BTreeValid BTreeDelete.

Module BTreeContract.
Import BTreeNode BTree BTreeSpec BTreeReads BTreeValid BTreeInsert BTreeDelete.

(** ** ValidateInvariants accepts every tree *)

Lemma check_leaf_ok pid lo hi es prev i :
  sorted_in lo hi es -> (match prev with Some p => Forall (fun e : entry => p <= e.1) es | None => True end) ->
  check_leaf_keys pid lo hi prev i es.*1 = None.
Proof.
  revert prev i. induction es as [|[k r] es IH]; intros prev i Hs Hp; cbn; [done|].
  destruct Hs as [Hs Hr]. apply StronglySorted_inv in Hs as [Hs Hle]. apply Forall_cons in Hr as [[Hlo Hhi] Hr]. cbn in *.
  assert ((match prev with Some p => k <? p | None => false end) = false) as ->.
  { destruct prev as [p|]; [|done]. apply Forall_cons in Hp as [Hp _]. apply Z.ltb_ge. exact Hp. }
  assert ((match lo with Some l => k <? l | None => false end) = false) as -> by (destruct lo; [by apply Z.ltb_ge|done]).
  assert ((match hi with Some u => u <=? k | None => false end) = false) as -> by (destruct hi; [by apply Z.leb_gt|done]).
  apply IH; [by split|]. eapply Forall_impl; [exact Hle|]. intros e He. exact He.
Qed.

Lemma check_internal_ok (P : sub_t) pid rs a b S es f n prev i :
  (forall c b1 b2 S' es' f' n', P c b1 b2 S' es' f' n' -> range_ok b1 b2) ->
  rpart P rs a b S es f n -> (match prev, rs with Some p, (k, _) :: _ => p <= k | _, _ => True end) ->
  check_internal_keys pid prev i rs.*1 = None.
Proof.
  intros HP H. revert prev i. induction H as [|rs k c a b S1 S2 es1 es2 f g n Hc Hr IH Hd]; intros prev i Hp; cbn; [done|].
  assert ((match prev with Some p => k <? p | None => false end) = false) as -> by (destruct prev; [by apply Z.ltb_ge|done]).
  apply IH. destruct rs as [|[k' c'] rs]; [done|]. apply HP in Hc. inversion Hr; subst. cbn in Hc. lia.
Qed.

(** The children are checked between the bounds they have. *)
Lemma child_bounds_sub (P : sub_t) rs c lo b2 hi S2 S3 es2 es3 g1 g2 n x :
  P c lo b2 S2 es2 g1 g2 -> rpart P rs b2 hi S3 es3 g2 n -> x ∈ child_bounds lo hi rs.*1 (c :: rs.*2) ->
  exists S es f n, P x.1.1 x.1.2 x.2 S es f n.
Proof.
  revert c lo b2 S2 S3 es2 es3 g1 g2. induction rs as [|[k d] rs IH]; intros c lo b2 S2 S3 es2 es3 g1 g2 Hc Hr Hx; cbn in Hx.
  - inversion Hr; subst. apply list_elem_of_singleton in Hx as ->. eauto.
  - apply rpart_cons_inv in Hr as (b3 & A & B & ed & e3 & g & -> & -> & -> & _ & Hd & Hr).
    apply elem_of_cons in Hx as [->|Hx]; [eauto|]. by eapply IH.
Qed.

Lemma ValidateSubtree_run h pid lo hi S es f n lm im v fuel :
  subtree (mem v) lm im h pid lo hi S es f n -> (h < fuel)%nat ->
  exists v', ValidateSubtree fuel pid lo hi v = (Ret None, v') /\ peek v v'.
Proof.
  revert lm im pid lo hi S es f n v fuel. induction h as [|h IH]; intros lm im pid lo hi S es f n v fuel [Hro Hs] Hf;
    (destruct fuel as [|fuel]; [lia|]); cbn [ValidateSubtree].
  - destruct Hs as (-> & -> & (Hok & buf & Hb & Hleaf & Hd) & Hso & _).
    destruct (fetch_peek pid v buf Hb) as (v1 & H1 & Hp & Hd1 & _). exists v1. split; [|done]. run H1. run Hd1. rewrite Hleaf, Hd.
    run (lift_run (leaf_of pid n es) v1). unfold leaf_of. cbn [l_keys]. apply leaf_of_ok in Hok as (_ & _ & Hm & _).
    rewrite (proj2 (Z.ltb_ge _ _)) by (unfold zlen in *; by rewrite length_fmap). by rewrite check_leaf_ok.
  - destruct Hs as (ls & c & rs & Sf & (Hok & buf & Hb & Hleaf & Hd) & Him & Hfo & Hn & ->).
    destruct (fetch_peek pid v buf Hb) as (v1 & H1 & Hp & Hd1 & _). run H1. run Hd1. rewrite Hleaf, Hd.
    run (lift_run (node_of pid ls c rs) v1). destruct (see_first _ pid _ _ _ _ _ _ _ _ _ Hfo) as (x2 & r2 & E & Hz & Hfo2). rewrite E in *.
    destruct (Hok) as [_ Hlen Hmax _ _]. rewrite (proj2 (Z.ltb_ge _ _)) by done.
    assert (zlen (n_children (node_of pid [] x2 r2)) = zlen (n_keys (node_of pid [] x2 r2)) + 1) as -> by (unfold zlen; rewrite Hlen; lia).
    rewrite Z.eqb_refl. cbn [negb]. destruct Hfo2 as [b1 b2 S1 S2 S3 es1 es2 es3 g1 g2 Hl Hc Hr _ _ _ -> ->].
    inversion Hl as [|l0 ? ? ? ? ? ? ? ? ? ? ? ? ? ? He]; [subst|by destruct l0].
    change (n_keys (node_of pid [] x2 r2)) with (r2.*1). change (n_children (node_of pid [] x2 r2)) with (x2 :: r2.*2).
    rewrite (check_internal_ok (child (mem v) h) pid r2 b2 hi S3 es3 g2 n) by (done || (intros; by eapply subtree_range)).
    destruct (find_m_run (fun '(c, lo, hi) => ValidateSubtree fuel c lo hi) (fun _ => None) (peek v) peek (child_bounds b1 hi r2.*1 (x2 :: r2.*2)) v1)
      as (v2 & E2 & Hp2 & _); [|done|].
    + intros [[c' lo'] hi'] w Hx Hw. destruct (child_bounds_sub (child (mem v) h) _ _ _ _ _ _ _ _ _ _ _ _ _ Hc Hr Hx) as (S' & es' & f' & n' & Hsub). cbn in Hsub.
      destruct (IH 1 kInternalMinKeys c' lo' hi' S' es' f' n' w fuel) as (w' & E' & Hw'); [by eapply peek_subtree|lia|].
      exists w'. split_and!; [done|by etrans|done].
    + exists v2. split; [|done]. rewrite E2. f_equal. clear. induction (child_bounds b1 hi r2.*1 (x2 :: r2.*2)) as [|? ? IH]; [done|exact IH].
Qed.

Lemma ValidateInvariants_run v es :
  btree v es -> exists v', ValidateInvariants v = (Ret None, v') /\ peek v v'.
Proof.
  intros [Hwf (hp & root & Hhp & Hr & Ht)]. destruct (GetRootPageId_run v hp Hhp) as (v1 & H1 & Hp). unfold ValidateInvariants. run H1. rewrite Hr.
  destruct Ht as [[-> ->]|(h & S & f & Ht & H0)]; [by exists v1|].
  rewrite (proj2 (Z.eqb_neq _ _) (root_valid _ _ _ _ _ _ _ _ _ _ _ Hwf Ht)). pose proof (btree_height _ _ _ _ _ _ _ Hwf Ht) as Hh.
  destruct (ValidateSubtree_run h root None None S es f INVALID_PAGE_ID 1 1 v1 (Z.to_nat (kMaxValidateDepth + 1))) as (v2 & H2 & Hp2);
    [by eapply peek_subtree|unfold kMaxValidateDepth; lia|]. exists v2. split; [done|by etrans].
Qed.

(** ** The constructor *)

Lemma Open_run v :
  pool_wf (v_pool v) -> next v = 0 ->
  exists v', Open v = (Ret tt, v') /\ btree v' [] /\ next v' = 1 /\ v_current v' = v_current v.
Proof.
  intros Hwf Hn. unfold Open. run (gets_run NumPagesOnDisk v). assert (NumPagesOnDisk v = 0) as -> by exact Hn. cbn [Z.eqb].
  destruct (NewPage_run v Hwf) as (v1 & H1 & Hwf1 & Hf & Hids & Hnx & Hc & Hm); [fold (next v); lia|]. fold (next v) in H1, Hnx, Hc, Hm. fold (next v1) in Hnx.
  rewrite Hn in *. run H1. set (hd := SerializeHeader INVALID_PAGE_ID).
  run (set_data_run v1 0 hd ltac:(eauto)). run (MarkDirty_run 0 (cache 0 hd v1)). fold (write 0 hd v1).
  destruct (write_wrote v1 0 hd) as [Hst2 Hn2 Hm2]; [done|eauto|by apply header_roundtrip|].
  destruct (FlushPages_run {[0]} (write 0 hd v1)) as (v3 & H3 & Hfl); [by apply Hst2|]. exists v3. split; [exact H3|].
  destruct (Hfl) as ([Hwf3 _ _ Hn3 (_ & _ & _ & Hcu & _)] & _ & _).
  split_and!; [|unfold next in *; lia|rewrite Hcu, (fr_current _ _ (ts_frame _ _ Hst2)); apply Hf].
  split; [done|]. exists hd, INVALID_PAGE_ID. split_and!; [|by apply header_roundtrip|by left].
  change (mem v3 0 = Some hd). unfold mem. rewrite (flushed_mem _ _ _ 0 Hfl). exact (Hm2 0).
Qed.

(** A fresh index: the constructor on an empty file. *)
Definition fresh_index : View := (Open (mkView (mkPool (mkDisk [] 0) ∅ ∅ ∅) [] ∅ empty_lm None 0)).2.

Lemma fresh_index_ok : btree fresh_index [] /\ uncontended fresh_index /\ next fresh_index = 1.
Proof.
  set (v0 := mkView (mkPool (mkDisk [] 0) ∅ ∅ ∅) [] ∅ empty_lm None 0).
  assert (pool_wf (v_pool v0)) as Hwf.
  { split; cbn; [split; cbn; [done|lia|constructor]|..]; intros pid p H; by rewrite lookup_empty in H. }
  destruct (Open_run v0 Hwf eq_refl) as (v' & E & Hb & Hn & Hc). unfold fresh_index. fold v0. rewrite E. cbn [snd].
  split_and!; [done| |done]. unfold uncontended. by rewrite Hc.
Qed.

(** ** Filling an index *)

Lemma key_count_le k es : key_count k es <= zlen es.
Proof.
  unfold key_count, zlen. pose proof (length_filter (fun e : entry => e.1 = k) es). lia.
Qed.

Lemma fill (oid : ObjectId) v l :
  btree v [] -> uncontended v -> Forall entry_ok l -> (forall k, key_count k l <= kLeafMaxKeys) -> next v + 7 * zlen l < 2 ^ 32 ->
  exists v' es, btree v' es /\ uncontended v' /\ es ≡ₚ l /\ next v' <= next v + 7 * zlen l.
Proof.
  intros Hb Hu. induction l as [|[key rid] l IH]; intros Hok Hdup Hmax; [exists v, []; unfold zlen; cbn; split_and!; done || lia|].
  apply Forall_cons in Hok as [He Hok]. rewrite zlen_cons in *.
  assert (forall k, key_count k l <= key_count k ((key, rid) :: l)) as Hmono.
  { intros k. change ((key, rid) :: l) with ([(key, rid)] ++ l). rewrite key_count_app. pose proof (key_count_nonneg k [(key, rid)]). lia. }
  destruct IH as (v1 & es & Hb1 & Hu1 & Hp & Hn); [done|intros k; specialize (Hmono k); specialize (Hdup k); lia|lia|].
  destruct (tree_Insert_run oid 6 key rid v1 es Hb1 Hu1 He ltac:(lia)) as (v2 & _ & Hst & Hn2 & Hb2); [lia| |].
  { intros k. rewrite (key_count_perm k _ ((key, rid) :: l)); [done|]. by rewrite insert_entry_perm, Hp. }
  exists v2, (insert_entry key rid es). split_and!; [done|by apply Hst|by rewrite insert_entry_perm, Hp|lia].
Qed.

(** ** The contract *)

(** C29: serializing a well-formed node and deserializing the page gives the
    node back, for leaves and internal nodes alike, and the page says which of
    the two it is; the header page gives back the root pointer. *)
Theorem node_roundtrip (l : LeafNode) (n : InternalNode) (root : PageId) :
  leaf_ok l -> internal_ok n -> u32_ok root ->
  (exists buf, SerializeLeaf l = Ret buf /\ zlen buf = PAGE_SIZE /\ is_leaf buf = true /\ DeserializeLeaf buf = Ret l) /\
  (exists buf, SerializeInternal n = Ret buf /\ zlen buf = PAGE_SIZE /\ is_leaf buf = false /\ DeserializeInternal buf = Ret n) /\
  DeserializeHeaderRootPageId (SerializeHeader root) = root.
Proof.
  intros Hl Hn Hr. split_and!; [| |by apply header_roundtrip].
  - destruct (leaf_roundtrip l Hl) as (buf & H1 & H2 & H3 & H4). exists buf. split_and!; [done|done|by apply Z.eqb_eq|done].
  - destruct (internal_roundtrip n Hn) as (buf & H1 & H2 & H3 & H4). exists buf. unfold is_leaf. by rewrite H3.
Qed.

Lemma node_roundtrip_witness :
  DeserializeHeaderRootPageId (SerializeHeader 7) = 7 /\
  exists buf, SerializeLeaf (leaf_of 3 INVALID_PAGE_ID [(-5, mkRID 1 2)]) = Ret buf /\ DeserializeLeaf buf = Ret (leaf_of 3 INVALID_PAGE_ID [(-5, mkRID 1 2)]).
Proof.
  destruct (node_roundtrip (leaf_of 3 INVALID_PAGE_ID [(-5, mkRID 1 2)]) (node_of 4 [] 3 [(9, 5)]) 7) as ((buf & H1 & _ & _ & H2) & _ & H3).
  - apply leaf_of_ok. split_and!; [done|done|done|]. apply Forall_singleton. done.
  - apply node_of_ok. split_and!; [done|done|done|constructor|]. apply Forall_singleton. done.
  - done.
  - split; [exact H3|]. exists buf. split; [exact H1|exact H2].
Defined.

(** C13: [Insert] puts exactly the pair into the tree, after the entries whose
    key is not greater, and changes nothing else: leaf splits, internal splits
    and root splits included, with a stack of six frames, as long as no key
    has more entries than a leaf holds and page ids do not run out. Every page
    changed is reported dirty and the data file is untouched. *)
Theorem Insert_refines (oid : ObjectId) (frames : nat) (key : Z) (rid : RID) (v : View) (es : list entry) :
  btree v es -> uncontended v -> entry_ok (key, rid) -> (6 <= frames)%nat -> next v + 7 < 2 ^ 32 ->
  (forall k, key_count k (insert_entry key rid es) <= kLeafMaxKeys) ->
  exists v', Insert oid frames key rid v = (Ret tt, v') /\ btree v' (insert_entry key rid es) /\ frame v v'.
Proof.
  intros Hb Hu He Hf Hn Hd. destruct (tree_Insert_run oid frames key rid v es Hb Hu He Hf Hn Hd) as (v' & H1 & H2 & _ & H3).
  exists v'. split_and!; [done|done|apply H2].
Qed.

Lemma Insert_refines_witness :
  btree fresh_index [] /\ exists v', Insert 1 6 42 (mkRID 3 4) fresh_index = (Ret tt, v') /\ btree v' [(42, mkRID 3 4)].
Proof.
  destruct fresh_index_ok as (Hb & Hu & Hn). split; [exact Hb|].
  destruct (Insert_refines 1 6 42 (mkRID 3 4) fresh_index [] Hb Hu) as (v' & H1 & H2 & _).
  - done.
  - lia.
  - rewrite Hn. done.
  - intros k. etrans; [apply key_count_le|done].
  - exists v'. split; [exact H1|exact H2].
Defined.

(** C14: [Delete] answers whether the pair is in the tree and removes exactly
    its first occurrence, through redistribution, borrowing, merging and the
    collapse of the root, keeping every invariant of the tree. *)
Theorem Delete_refines (oid : ObjectId) (frames : nat) (key : Z) (rid : RID) (v : View) (es : list entry) :
  btree v es -> uncontended v -> (6 <= frames)%nat ->
  exists v', Delete oid frames key rid v = (Ret (bool_decide ((key, rid) ∈ es)), v') /\
    btree v' (delete_entry key rid es) /\ frame v v'.
Proof.
  intros Hb Hu Hf. destruct (tree_Delete_run oid frames key rid v es Hb Hu Hf) as (v' & H1 & H2 & _ & H3).
  exists v'. split_and!; [done|done|apply H2].
Qed.

(** An index with one entry. *)
Lemma one_entry : exists v, btree v [(42, mkRID 3 4)] /\ uncontended v.
Proof.
  destruct fresh_index_ok as (Hb & Hu & Hn).
  destruct (fill 1 fresh_index [(42, mkRID 3 4)] Hb Hu) as (v & es & Hb' & Hu' & Hp & _).
  - by apply Forall_singleton.
  - intros k. etrans; [apply key_count_le|done].
  - by rewrite Hn.
  - symmetry in Hp. apply Permutation_singleton_l in Hp as ->. eauto.
Qed.

Lemma Delete_refines_witness :
  exists v v', btree v [(42, mkRID 3 4)] /\ Delete 1 6 42 (mkRID 3 4) v = (Ret true, v') /\ btree v' [].
Proof.
  destruct one_entry as (v & Hb & Hu).
  destruct (Delete_refines 1 6 42 (mkRID 3 4) v _ Hb Hu ltac:(lia)) as (v' & H1 & H2 & _).
  exists v, v'. split; [exact Hb|]. split; [exact H1|exact H2].
Defined.

(** C28: the reads agree with the entries and change no page. On a sound tree
    [Search] returns the record ids of the key in order, [Empty] whether there
    are no entries, and [Height] the number of nodes on every path from the
    root to a leaf, at most six. The entries lie in a chain of [k] leaves, each
    with at least one; [RangeScanAll] returns all of them in key order when
    [k] is at most [kMaxTraversalSteps], and throws the error meant for a cycle
    otherwise. [ValidateInvariants] finds nothing wrong; and on any pages
    whatever, when it answers, it reports no violation exactly when every node
    has a legal size and sorted keys and every leaf key is within the
    separators next to its path. *)
Theorem tree_reads_return (oid : ObjectId) (key : Z) (v : View) :
  (forall es, btree v es -> uncontended v ->
    (exists v', Search oid key v = (Ret (search_entries key es), v') /\ peek v v') /\
    (exists v', Empty v = (Ret (bool_decide (es = [])), v') /\ peek v v') /\
    (exists k f v', chain (mem v) f INVALID_PAGE_ID k es /\ Z.of_nat k <= zlen es <= Z.of_nat k * kLeafMaxKeys /\
      RangeScanAll oid v = (if decide (Z.of_nat k <= kMaxTraversalSteps) then Ret es else Throw RuntimeError, v') /\ peek v v') /\
    (exists v', ValidateInvariants v = (Ret None, v') /\ peek v v') /\
    (exists h v', Height oid v = (Ret (Z.of_nat h), v') /\ peek v v' /\ tree_height (mem v) h /\ (h <= 6)%nat)) /\
  (forall r v', ValidateInvariants v = (Ret r, v') ->
    (forall q, mem v' q = mem v q) /\ (r = None <-> valid_tree (mem v))).
Proof.
  split; [|apply ValidateInvariants_exact]. intros es Hb Hu. split_and!.
  - by apply Search_run.
  - destruct Hb as [Hwf (hp & root & Hhp & Hr & Ht)]. destruct (GetRootPageId_run v hp Hhp) as (v1 & H1 & Hp). exists v1. split; [|done].
    unfold Empty. run H1. rewrite Hr. destruct Ht as [[-> ->]|(h & S & f & Ht & H0)]; [done|].
    rewrite (proj2 (Z.eqb_neq _ _) (root_valid _ _ _ _ _ _ _ _ _ _ _ Hwf Ht)). rewrite bool_decide_eq_false_2; [done|by eapply subtree_nonempty].
  - destruct (RangeScanAll_run oid v es Hb Hu) as (k & f & v' & H1 & Hp & Hc & Hk). by exists k, f, v'.
  - by eapply ValidateInvariants_run.
  - by apply Height_exact with es.
Qed.

Lemma tree_reads_return_witness :
  exists v v', btree v [(42, mkRID 3 4)] /\ Search 1 42 v = (Ret [mkRID 3 4], v') /\ valid_tree (mem v).
Proof.
  destruct one_entry as (v & Hb & Hu). destruct (tree_reads_return 1 42 v) as [H1 H2].
  destruct (H1 _ Hb Hu) as ((v' & Hs & _) & _ & _ & (w & Hv & _) & _).
  exists v, v'. split; [exact Hb|]. split; [exact Hs|]. exact (proj1 (proj2 (H2 _ _ Hv)) eq_refl).
Defined.

(** [RangeScanAll] rejects correct data: on a sound tree with more entries
    than [kMaxTraversalSteps] full leaves hold, the walk along the leaf chain
    runs out of steps and throws the error that is meant for a cycle. *)
Lemma RangeScanAll_rejects_large (oid : ObjectId) (v : View) (es : list entry) :
  btree v es -> uncontended v -> kMaxTraversalSteps * kLeafMaxKeys < zlen es ->
  exists v', RangeScanAll oid v = (Throw RuntimeError, v') /\ peek v v'.
Proof.
  intros Hb Hu Hl. destruct (RangeScanAll_run oid v es Hb Hu) as (k & f & v' & H1 & Hp & _ & Hk). exists v'.
  change (kMaxTraversalSteps * kLeafMaxKeys) with (10000 * 291) in Hl. change kLeafMaxKeys with 291 in Hk. change kMaxTraversalSteps with 10000 in H1.
  rewrite H1, decide_False by lia. done.
Qed.

(** [n] entries with distinct keys. *)
Lemma distinct_entries n :
  0 <= n < 2 ^ 63 -> exists l : list entry, zlen l = n /\ Forall entry_ok l /\ forall k, key_count k l <= 1.
Proof.
  intros Hn. set (l := (fun i => (i, mkRID 0 0)) <$> seqZ 0 n). exists l. split_and!.
  - unfold l, zlen. rewrite length_fmap, length_seqZ. lia.
  - apply Forall_fmap, Forall_forall. intros i Hi. apply elem_of_seqZ in Hi. split; [unfold int64_ok; cbn; lia|done].
  - intros k. assert (filter (fun e : entry => e.1 = k) l ⊆ [(k, mkRID 0 0)]) as Hsub.
    { intros e [He Hin]%list_elem_of_filter. unfold l in Hin. apply list_elem_of_fmap in Hin as (i & -> & _). cbn in He. subst. by left. }
    assert (NoDup (filter (fun e : entry => e.1 = k) l)) as Hndf.
    { apply NoDup_filter, NoDup_fmap_2; [intros ?? E; by injection E|apply NoDup_seqZ]. }
    pose proof (submseteq_length _ _ (NoDup_submseteq _ _ Hndf Hsub)) as Hlen. unfold key_count, zlen. cbn in Hlen. lia.
Qed.

(** An index on three million distinct keys. *)
Lemma large_index : exists v es, btree v es /\ uncontended v /\ zlen es = 3000000.
Proof.
  destruct fresh_index_ok as (Hb & Hu & Hn). destruct (distinct_entries 3000000) as (l & Hl & Hok & Hc); [lia|].
  destruct (fill 1 fresh_index l Hb Hu Hok) as (v & es & Hb' & Hu' & Hp & _); [|rewrite Hl, Hn; lia|].
  { intros k. etrans; [apply Hc|]. change kLeafMaxKeys with 291. lia. }
  exists v, es. split_and!; [done..|]. apply Permutation_length in Hp. unfold zlen in *. lia.
Qed.

Lemma RangeScanAll_rejects_large_witness :
  exists v es v', btree v es /\ RangeScanAll 1 v = (Throw RuntimeError, v').
Proof.
  destruct large_index as (v & es & Hb & Hu & Hl).
  destruct (RangeScanAll_rejects_large 1 v es Hb Hu) as (v' & H & _); [rewrite Hl; vm_compute; reflexivity|].
  exists v, es, v'. split; [exact Hb|exact H].
Defined.

(** ** A misrouted key the structural check accepts *)

Definition page_of_node (o : outcome bytes) : Page := match o with Ret p => p | _ => zero_page end.

(** Below the separator 10 of the root, an internal node with the separator 5:
    its own keys are sorted, and each of its leaves is checked against 5 and
    never against the 10 above it. *)
Definition misrouted : View :=
  mkView (mkPool (mkDisk [] 0) (list_to_map (zip [0; 1; 2; 3; 4; 5]
    [SerializeHeader 1;
     page_of_node (SerializeInternal (mkInternal 1 [10] [2; 3]));
     page_of_node (SerializeLeaf (mkLeaf 2 4 [1] [mkRID 8 0]));
     page_of_node (SerializeInternal (mkInternal 3 [5] [4; 5]));
     page_of_node (SerializeLeaf (mkLeaf 4 5 [] []));
     page_of_node (SerializeLeaf (mkLeaf 5 INVALID_PAGE_ID [7] [mkRID 9 0]))])) ∅ ∅) [] ∅ empty_lm None 0.

(** Nothing wrong is reported, the scan finds the key 7, the search does not. *)
Lemma validate_accepts_misrouted :
  (ValidateInvariants misrouted).1 = Ret None /\ (Search 1 7 misrouted).1 = Ret [] /\
  (RangeScanAll 1 misrouted).1 = Ret [(1, mkRID 8 0); (7, mkRID 9 0)].
Proof. vm_compute. done. Qed.

(** ** More duplicates of a key than a leaf holds *)

Definition all_key (k : Z) (es : list entry) : Prop := Forall (fun e : entry => e.1 = k) es.

Lemma focus_two_keys m h ls c rs lo hi S es f n k :
  focus (child m h) ls c rs lo hi S es f n -> 1 <= zlen ls + zlen rs -> ~ all_key k es.
Proof.
  intros Hf Hz Hall. destruct (focus_at _ _ _ _ _ _ _ _ _ _ O Hf) as (ls' & c' & rs' & Hl & _ & _ & Hn & Hf'); [lia|].
  destruct rs' as [|[k' d] rs']; [unfold zlen in *; cbn in *; lia|].
  destruct Hf' as [b1 b2 S1 S2 S3 es1 es2 es3 g1 g2 _ Hc Hr _ _ _ _ ->].
  apply rpart_cons_inv in Hr as (b3 & A & B & ed & e3 & g & -> & -> & -> & _ & Hd & _).
  assert (exists e, e ∈ es2) as [x Hx] by (destruct es2 as [|x ?]; [by eapply subtree_nonempty in Hc|exists x; by left]).
  assert (exists e, e ∈ ed) as [y Hy] by (destruct ed as [|y ?]; [by eapply subtree_nonempty in Hd|exists y; by left]).
  apply subtree_sorted in Hc as [_ [_ Hc]], Hd as [_ [_ Hd]]. unfold all_key in Hall. rewrite Forall_forall in Hall, Hc, Hd.
  assert (x.1 = k) as Hxk by (apply Hall; set_solver). assert (y.1 = k) as Hyk by (apply Hall; set_solver).
  apply Hc in Hx as [_ Hx]. apply Hd in Hy as [Hy _]. cbn in *. lia.
Qed.

Lemma same_key_leaf m h root S es f n k : subtree m 1 1 h root None None S es f n -> all_key k es -> h = O.
Proof.
  intros Hs Hall. destruct h as [|h]; [done|]. exfalso. destruct Hs as [_ (ls & c & rs & Sf & _ & Hz & Hf & _)]. by eapply focus_two_keys.
Qed.

Lemma insert_same_key k rid es : all_key k es -> insert_entry k rid es = es ++ [(k, rid)].
Proof.
  intros H. pose proof (insert_entry_mid k rid es [] []) as Hm. rewrite !app_nil_r in Hm. apply Hm; [|constructor].
  eapply Forall_impl; [exact H|]. intros e He. cbn in He. lia.
Qed.

Lemma all_key_boundary k es j : all_key k es -> ~ boundary es.*1 j.
Proof.
  intros H (a & b & Ha & Hb & Hne). rewrite list_lookup_fmap in Ha, Hb.
  destruct (es !! Z.to_nat (j - 1)) eqn:E1; [|done]. destruct (es !! Z.to_nat j) eqn:E2; [|done].
  unfold all_key in H. rewrite Forall_forall in H. apply list_elem_of_lookup_2 in E1, E2. apply H in E1, E2. cbn in *. congruence.
Qed.

(** Both halves of a leaf of equal keys below a new root. *)
Record stranded (v : View) (k : Z) (es1 es2 : list entry) (root a b : PageId) : Prop := mkStranded {
  st_header : mem v kRootHeaderPageId = Some (SerializeHeader root);
  st_root : internal_at (mem v) root (node_of root [] a [(k, b)]);
  st_a : leaf_at (mem v) a (leaf_of a b es1);
  st_b : leaf_at (mem v) b (leaf_of b INVALID_PAGE_ID es2)
}.

(** A full leaf of one key is cut in the middle. *)
Lemma same_key_cut k rid es :
  all_key k es -> zlen es = 291 ->
  let es' := insert_entry k rid es in
  zlen es' = 292 /\ FindSplitBoundary es'.*1 146 = Ret 146 /\ vec_at (drop 146 es').*1 0 = Ret k /\
  take 146 es' = take 146 es /\ drop 146 es' = drop 146 es ++ [(k, rid)].
Proof.
  intros Hall Hlen es'. assert (es' = es ++ [(k, rid)]) as Hes by (by apply insert_same_key). clearbody es'. subst es'.
  assert (all_key k (es ++ [(k, rid)])) as Hall' by (apply Forall_app; split; [done|by apply Forall_singleton]).
  assert (zlen (es ++ [(k, rid)]) = 292) as Hl292 by (rewrite zlen_app, Hlen; done).
  assert (zlen (es ++ [(k, rid)]).*1 = 292) as Hl292' by (unfold zlen in *; by rewrite length_fmap).
  destruct (FindSplitBoundary_run (es ++ [(k, rid)]).*1 146) as (i & Hi & Hcase); [lia|].
  destruct Hcase as [[_ Hbd]|[-> _]]; [by apply all_key_boundary with (k := k) in Hbd|]. split_and!; [done|done| |..].
  - destruct (drop 146 (es ++ [(k, rid)])) as [|e0 l0] eqn:E.
    + apply (f_equal length) in E. rewrite length_drop in E. unfold zlen in Hl292. cbn in E. lia.
    + assert (e0 ∈ es ++ [(k, rid)]) as Hin by (apply (subseteq_drop 146); rewrite E; by left).
      unfold all_key in Hall'. rewrite Forall_forall in Hall'. apply Hall' in Hin. cbn. by rewrite <- Hin.
  - unfold zlen in Hlen. apply take_app_le. lia.
  - unfold zlen in Hlen. apply drop_app_le. lia.
Qed.

Lemma Insert_strands oid frames k rid v es :
  btree v es -> uncontended v -> entry_ok (k, rid) -> (6 <= frames)%nat -> next v + 7 < 2 ^ 32 ->
  all_key k es -> zlen es = kLeafMaxKeys ->
  exists v' root a b, Insert oid frames k rid v = (Ret tt, v') /\ tstep v v' /\ u32_ok root /\ root <> INVALID_PAGE_ID /\
    stranded v' k (take 146 es) (drop 146 es ++ [(k, rid)]) root a b.
Proof.
  intros [Hwf (hp & root & Hhp & Hr & Ht)] Hu He Hfr Hmax Hall Hlen.
  destruct Ht as [[-> ->]|(h & S & f & Ht & H0)]; [by cbn in Hlen|].
  pose proof (root_valid _ _ _ _ _ _ _ _ _ _ _ Hwf Ht) as Hrv. rewrite (same_key_leaf _ _ _ _ _ _ _ _ Ht Hall) in Ht.
  destruct Ht as [_ (-> & -> & (Hok & buf & Hb & Hleaf & Hd) & _)].
  destruct (locked_root oid kExclusive v hp Hu Hhp) as (v1 & v2 & H1 & H2 & Hp). unfold Insert. run H1. run H2. rewrite Hr.
  rewrite (proj2 (Z.eqb_neq _ _) Hrv). pose proof (pk_next _ _ Hp) as Hn2. destruct frames as [|frames]; [lia|]. cbn [InsertRecursive].
  destruct (lock_fetch oid root kExclusive v2 buf) as (v3 & v4 & H3 & H4 & H5 & Hp4 & Hc); [by eapply peek_uncontended|by rewrite (pk_mem _ _ Hp)|].
  assert (peek v v4) as Hpk by (by etrans). pose proof (pk_next _ _ Hpk) as Hn4.
  destruct (same_key_cut k rid es Hall Hlen) as (Hl292 & Hi & Hv & Htk & Hdk). change kLeafMaxKeys with 291 in Hlen.
  destruct (insert_leaf_cut oid root buf k rid v4 es INVALID_PAGE_ID 146 k) as (v5 & E5 & Hst5 & Hn5 & Hne5 & Hnone5 & Hla & Hlb & Hm5);
    [by apply Hpk|by eapply peek_uncontended|done|done|done|done|change kLeafMaxKeys with 291; lia|lia|exact Hi|lia|exact Hv|].
  change (Z.to_nat 146) with 146%nat in *. rewrite Htk in Hla. rewrite Hdk in Hlb.
  assert (mem v5 kRootHeaderPageId = Some hp) as Hh5.
  { rewrite Hm5; [by rewrite (pk_mem _ _ Hpk)|set_solver|]. intros Hq. rewrite <- Hq, (pk_mem _ _ Hpk) in Hnone5. congruence. }
  destruct (new_root_run oid v5 root (mkSplit k (next v4)) hp) as (v6 & E6 & Hst6 & Hn6 & Hne6 & Hnone6 & Hh6 & Hat6 & Hm6);
    [by apply Hst5, Hpk|apply Hst5; by eapply peek_uncontended|done|lia|apply He|subst root; apply read_at_bound|by apply next_u32, Hpk|].
  assert (InsertRecursive oid (S frames) root k rid v2 = (Ret (Some (mkSplit k (next v4))), v5)) as HI.
  { cbn [InsertRecursive]. run H3. run H4. run H5. by rewrite Hleaf. }
  cbn [split_key new_right_page_id] in Hat6. run HI.
  assert (tstep v v6) as Hst by (etrans; [apply Hpk|by etrans]).
  assert (u32_ok (next v4)) as Hu4 by (by apply next_u32, Hpk).
  assert (root <> kRootHeaderPageId /\ next v4 <> kRootHeaderPageId) as [Hr0 H40].
  { split; [set_solver|]. intros Hq. rewrite Hq, (pk_mem _ _ Hpk) in Hnone5. congruence. }
  assert (forall q es' n, q <> kRootHeaderPageId -> leaf_at (mem v5) q (leaf_of q n es') -> leaf_at (mem v6) q (leaf_of q n es')) as Hkeep.
  { intros q es' n Hq0 [Hok' (b' & Hb' & Hrest)]. split; [done|]. exists b'. rewrite Hm6; [done|done|]. intros ->. congruence. }
  exists v6, (next v5), root, (next v4). split_and!; [done|done|..].
  - by apply next_u32, Hst5, Hpk.
  - assert (next v5 < 2 ^ 32 - 1) by lia. unfold INVALID_PAGE_ID. lia.
  - split; [done|done|by apply Hkeep|by apply Hkeep].
Qed.

(** What [Search] finds in such a tree: it descends to the right-hand leaf. *)
Lemma Search_stranded oid v k es1 es2 root a b :
  stranded v k es1 es2 root a b -> uncontended v -> u32_ok root -> root <> INVALID_PAGE_ID -> all_key k es2 ->
  exists v', Search oid k v = (Ret es2.*2, v') /\ peek v v'.
Proof.
  intros [Hh (_ & rbuf & Hrb & Hrl & Hrd) _ (_ & bbuf & Hbb & Hbl & Hbd)] Hu Hro Hri Hall.
  destruct (locked_root oid kShared v _ Hu Hh) as (v1 & v2 & H1 & H2 & Hp). unfold Search. run H1. run H2.
  rewrite (proj2 (header_roundtrip root Hro)), (proj2 (Z.eqb_neq _ _) Hri).
  destruct (Z.to_nat kMaxTraversalSteps) as [|[|fuel]] eqn:Hfuel; [unfold kMaxTraversalSteps in Hfuel; lia..|]. cbn [search_loop].
  destruct (open_shared_run oid root v2 rbuf) as (v3 & H3 & Hp3); [by eapply peek_uncontended|by rewrite (pk_mem _ _ Hp)|].
  assert (peek v v3) as Hpk by (by etrans).
  destruct (open_shared_run oid b v3 bbuf) as (v4 & H4 & Hp4); [by eapply peek_uncontended|by rewrite (pk_mem _ _ Hpk)|].
  run H3. rewrite Hrl, Hrd. run (lift_run (node_of root [] a [(k, b)]) v3). assert (upper_bound [k] k = 1%nat) as Hub by (unfold upper_bound; cbn; by rewrite Z.leb_refl).
  change (n_keys (node_of root [] a [(k, b)])) with [k]. change (n_children (node_of root [] a [(k, b)])) with [a; b]. rewrite Hub.
  run (lift_run b v3). run H4. rewrite Hbl, Hbd. run (lift_run (leaf_of b INVALID_PAGE_ID es2) v4). exists v4. split; [|by etrans].
  unfold matches, leaf_of. cbn [l_keys l_values]. rewrite zip_entries. unfold mret, M_ret. f_equal. f_equal. f_equal.
  clear -Hall. induction Hall as [|e es He Hes IH]; [done|]. rewrite filter_cons_True by done. by rewrite IH.
Qed.

(** Once a leaf is full of one key, inserting that key again hides half
    of its entries: [Insert] cuts the leaf inside the run of equal keys, puts
    the key itself above both halves, and the next [Search] for the key goes
    right and returns only the second half, although the first [146] entries
    are still in the left leaf. *)
Theorem Insert_strands_duplicates (oid : ObjectId) (frames : nat) (k : Z) (rid : RID) (v : View) (es : list entry) :
  btree v es -> uncontended v -> entry_ok (k, rid) -> (6 <= frames)%nat -> next v + 7 < 2 ^ 32 ->
  all_key k es -> zlen es = kLeafMaxKeys ->
  exists v1 v2 left nx, Insert oid frames k rid v = (Ret tt, v1) /\
    leaf_at (mem v1) left (leaf_of left nx (take 146 es)) /\
    Search oid k v1 = (Ret ((drop 146 es).*2 ++ [rid]), v2).
Proof.
  intros Hb Hu He Hfr Hmax Hall Hlen.
  destruct (Insert_strands oid frames k rid v es Hb Hu He Hfr Hmax Hall Hlen) as (v1 & root & a & b & H1 & Hst & Hro & Hri & Hs).
  destruct (Search_stranded oid v1 k _ _ root a b Hs) as (v2 & H2 & _); [by apply Hst|done|done| |].
  - apply Forall_app. split; [by apply Forall_drop|by apply Forall_singleton].
  - rewrite fmap_app in H2. exists v1, v2, a, b. split_and!; [done|apply Hs|exact H2].
Qed.

(** An index with [n] entries under one key. *)
Lemma same_key_index n k :
  0 <= n <= kLeafMaxKeys -> int64_ok k -> exists v es, btree v es /\ uncontended v /\ all_key k es /\ zlen es = n /\ next v + 7 < 2 ^ 32.
Proof.
  change kLeafMaxKeys with 291. intros Hn Hk. set (l := (fun i => (k, mkRID i 0)) <$> seqZ 0 n).
  assert (zlen l = n) as Hl by (unfold l, zlen; rewrite length_fmap, length_seqZ; lia).
  destruct fresh_index_ok as (Hb & Hu & Hn1). destruct (fill 1 fresh_index l Hb Hu) as (v & es & Hb' & Hu' & Hp & Hv).
  - apply Forall_fmap, Forall_forall. intros i Hi. apply elem_of_seqZ in Hi. split; [done|]. split; cbn; unfold u32_ok; lia.
  - intros k'. etrans; [apply key_count_le|]. rewrite Hl. apply Hn.
  - rewrite Hl, Hn1. lia.
  - exists v, es. split_and!; [done|done|..].
    + apply Forall_forall. intros e He. rewrite Hp in He. unfold l in He. by apply list_elem_of_fmap in He as (i & -> & _).
    + apply Permutation_length in Hp. unfold zlen in *. lia.
    + rewrite Hl, Hn1 in Hv. lia.
Qed.

Lemma Insert_strands_duplicates_witness :
  exists v es v1 v2 rids, zlen es = 291 /\ btree v es /\ Insert 1 6 7 (mkRID 1000 0) v = (Ret tt, v1) /\
    Search 1 7 v1 = (Ret rids, v2) /\ zlen rids = 146.
Proof.
  destruct (same_key_index 291 7) as (v & es & Hb & Hu & Hall & Hl & Hn); [done|done|].
  destruct (Insert_strands_duplicates 1 6 7 (mkRID 1000 0) v es Hb Hu) as (v1 & v2 & lf & nx & H1 & _ & H2); [done|lia|exact Hn|exact Hall|exact Hl|].
  exists v, es, v1, v2, ((drop 146 es).*2 ++ [mkRID 1000 0]). split_and!; [exact Hl|exact Hb|exact H1|exact H2|].
  unfold zlen in *. rewrite length_app, length_fmap, length_drop. cbn. lia.
Defined.

End BTreeContract.
