(* ===== verification/LockDiscipline.v ===== *)
(** * LockDiscipline: storage operations lock what they write

    Whatever an operation of a heap file or a B+ tree meets on its way, and
    whether it returns, throws or has to wait: every page it marks dirty, and
    every page whose content it changes, is one its transaction holds an
    exclusive lock on; locks it held it keeps, and nobody else's change. The
    triples [guarded n L m L'] carry the pages locked so far through an
    operation that allocates at most [n] pages. *)
From S2P Require Import Prelude Config Page LockManager DiskManager Transaction BufferPool HeapFile BTreeNode BTree.

(** ** Exclusive locks under grants *)

(** Nobody else holds a page that is locked exclusively. *)
Lemma exclusive_alone lm t h k : lm_wf lm -> holds_exclusive lm t k -> lm_holds lm h k -> h = t.
Proof.
  intros Hwf (e & He & Hx) (e' & He' & Hh). assert (e' = e) as -> by congruence.
  pose proof (eo_excl _ (lw_entries _ Hwf _ _ He) t Hx) as Hs. destruct Hh as [Hh|Hh]; [congruence|rewrite Hs in Hh; set_solver].
Qed.

(** A request nobody else's lock is in the way of. *)
Lemma AcquireLock_free t k m lm :
  lm_wf lm -> (forall h, h <> t -> ~ lm_holds lm h k) -> exists lm', AcquireLock t k m lm = Granted lm'.
Proof.
  intros Hwf Hn. pose proof (AcquireLock_cases t k m lm Hwf) as H.
  assert (forall h, ~ blocks lm h t k m) as Hb.
  { intros h [Hne Hl]. apply (Hn h Hne). destruct m; [by apply exclusive_holds|done]. }
  destruct (AcquireLock t k m lm) as [lm'| |]; [eauto|destruct H as [[h Hh] _]; by destruct (Hb h)..].
Qed.

(** ** The file *)

(** Its page count is right. *)
Definition file_ok (d : DiskManager) : Prop := next_page_id_ d = zlen (file d).

Lemma AllocatePage_file d :
  file_ok d -> next_page_id_ d + 1 < 2 ^ 32 ->
  exists d', AllocatePage d = (Ret (next_page_id_ d), d') /\ file_ok d' /\ next_page_id_ d' = next_page_id_ d + 1 /\
    forall q, q < next_page_id_ d -> disk_page d' q = disk_page d q.
Proof.
  unfold file_ok. intros Hn Hmax. unfold AllocatePage. eexists. split; [reflexivity|]. cbn.
  assert (0 <= next_page_id_ d) by (unfold zlen in *; lia). rewrite u32_small by lia.
  assert (ftruncate_pages (next_page_id_ d + 1) (file d) = file d ++ [zero_page]) as Hft.
  { unfold ftruncate_pages. rewrite take_ge by (unfold zlen in *; lia).
    replace (Z.to_nat (next_page_id_ d + 1) - length (file d))%nat with 1%nat by (unfold zlen in *; lia). done. }
  rewrite Hft. split_and!; [unfold zlen in *; rewrite length_app; cbn; lia|lia|]. intros q Hq. unfold disk_page. cbn.
  destruct (decide (0 <= q)); [|by rewrite !bool_decide_eq_false_2 by lia]. rewrite !bool_decide_eq_true_2 by lia.
  apply lookup_app_l. unfold zlen in *. lia.
Qed.

(** ** Triples *)

(** [fixed] says that the operation does not extend the list of page ids. *)
Section Discipline.
Context (oid : ObjectId) (t : TxnId) (fixed : bool).

Definition mine (v : View) (pid : PageId) : Prop := holds_exclusive (v_locks v) t (mkPageKey oid pid).
Definition pages_next (v : View) : Z := next_page_id_ (disk_manager_ (v_pool v)).

(** Transaction [t] runs on this thread and is told of dirty pages; no other
    transaction has locked a page that is not there yet. *)
Record acting (v : View) : Prop := mkActing {
  ac_current : v_current v = Some t;
  ac_observer : observers_by_thread_ (v_pool v) !! v_thread v = Some (mkObserver t oid);
  ac_locks : lm_wf (v_locks v);
  ac_alloc h pid : h <> t -> lm_holds (v_locks v) h (mkPageKey oid pid) -> pid < pages_next v;
  ac_file : file_ok (disk_manager_ (v_pool v))
}.

Record disciplined (n : Z) (v v' : View) : Prop := mkDisciplined {
  di_current : v_current v' = v_current v;
  di_thread : v_thread v' = v_thread v;
  di_observers : observers_by_thread_ (v_pool v') = observers_by_thread_ (v_pool v);
  di_locks : lm_wf (v_locks v) -> lm_wf (v_locks v');
  di_others h k : h <> t -> lm_holds (v_locks v') h k <-> lm_holds (v_locks v) h k;
  di_exclusive h k : holds_exclusive (v_locks v) h k -> holds_exclusive (v_locks v') h k;
  di_next : pages_next v <= pages_next v' <= pages_next v + n;
  di_file : file_ok (disk_manager_ (v_pool v)) -> file_ok (disk_manager_ (v_pool v'));
  di_live t' : is_Some (v_txns v' !! t') <-> is_Some (v_txns v !! t');
  di_dirty t' k : k ∈ DirtiedPages t' (v_txns v') ->
    k ∈ DirtiedPages t' (v_txns v) \/ t' = t /\ key_object k = oid /\ mine v' (key_page k);
  di_grow : v_page_ids v `prefix_of` v_page_ids v';
  di_fixed : fixed = true -> v_page_ids v' = v_page_ids v;
  di_content q : 0 <= q < pages_next v -> mem_page (v_pool v') q = mem_page (v_pool v) q \/ mine v' q
}.

Lemma disciplined_refl v : disciplined 0 v v.
Proof. split; try reflexivity; auto; lia. Qed.

Lemma disciplined_trans n1 n2 v1 v2 v3 : disciplined n1 v1 v2 -> disciplined n2 v2 v3 -> disciplined (n1 + n2) v1 v3.
Proof.
  intros [A1 A2 A3 A4 A5 A6 A7 A8 A9 A10 A12 A13 A11] [B1 B2 B3 B4 B5 B6 B7 B8 B9 B10 B12 B13 B11]. split; try congruence; try lia; auto.
  - intros h k Hh. by rewrite B5, A5.
  - intros t'. by rewrite B9, A9.
  - intros t' k [Hk|?]%B10; [|by right]. destruct (A10 _ _ Hk) as [?|(-> & Ho & Hm)]; [by left|]. right. split_and!; [done|done|by apply B6].
  - by etrans.
  - intros Hf. by rewrite B13, A13.
  - intros q Hq. destruct (B11 q ltac:(lia)) as [->|?]; [|by right]. destruct (A11 q Hq) as [?|Hm]; [by left|right; by apply B6].
Qed.

Lemma disciplined_le n m v v' : disciplined n v v' -> n <= m -> disciplined m v v'.
Proof. intros [] Hle. split; auto; lia. Qed.

Lemma acting_step n v v' : acting v -> disciplined n v v' -> acting v'.
Proof.
  intros [A1 A2 A3 A4 A5] [B1 B2 B3 B4 B5 B6 B7 B8 B9 B10 B12 B13 B11]. split; try congruence; auto.
  intros h pid Hne Hh. rewrite B5 in Hh by done. specialize (A4 h pid Hne Hh). lia.
Qed.

Lemma mine_step n v v' pid : disciplined n v v' -> mine v pid -> mine v' pid.
Proof. intros H. apply (di_exclusive _ _ _ H). Qed.

(** What is locked on the way in, and what more on the way out. *)
Definition guarded {A} (n : Z) (L : list PageId) (m : M View A) (L' : A -> list PageId) : Prop :=
  forall v, acting v -> pages_next v + n < 2 ^ 32 -> Forall (mine v) L ->
    disciplined n v (m v).2 /\ forall a, (m v).1 = Ret a -> Forall (mine (m v).2) (L' a).

Lemma guarded_ret {A} L (a : A) L' : L' a ⊆ L -> guarded 0 L (mret a) L'.
Proof.
  intros Hs v _ _ HL. split; [apply disciplined_refl|]. intros b [= <-]. rewrite Forall_forall in *. intros pid Hp. by apply HL, Hs.
Qed.

Lemma guarded_stop {A} L (m : M View A) L' : (forall v, (m v).2 = v /\ forall a, (m v).1 <> Ret a) -> guarded 0 L m L'.
Proof. intros H v _ _ _. destruct (H v) as [-> Hn]. split; [apply disciplined_refl|]. intros a Ha. by destruct (Hn a). Qed.

Lemma guarded_throw {A} L e (L' : A -> list PageId) : guarded 0 L (throw e) L'.
Proof. by apply guarded_stop. Qed.

Lemma guarded_undefined {A} L (L' : A -> list PageId) : guarded 0 L undefined L'.
Proof. by apply guarded_stop. Qed.

Lemma guarded_pure {A} L (m : M View A) : (forall v, (m v).2 = v) -> guarded 0 L m (fun _ => []).
Proof. intros H v _ _ _. rewrite H. split; [apply disciplined_refl|by intros]. Qed.

Lemma guarded_lift {A} L (o : outcome A) : guarded 0 L (lift o) (fun _ => []).
Proof. by apply guarded_pure. Qed.

Lemma guarded_gets {A} L (g : View -> A) : guarded 0 L (gets g) (fun _ => []).
Proof. by apply guarded_pure. Qed.

Lemma guarded_bind {A B} n1 n2 L (m : M View A) (f : A -> M View B) L1 L2 :
  0 <= n1 -> 0 <= n2 -> guarded n1 L m L1 -> (forall a, guarded n2 (L1 a ++ L) (f a) L2) -> guarded (n1 + n2) L (m ≫= f) L2.
Proof.
  intros H1 H2 Hm Hf v Ha Hn HL. destruct (Hm v Ha ltac:(lia) HL) as [Hd HL1]. unfold mbind, M_bind.
  destruct (m v) as [r v1]. cbn in Hd, HL1. destruct r as [a|e|key|]; cbn [fst snd]; try (split; [eapply disciplined_le; [done|lia]|done]).
  pose proof (di_next _ _ _ Hd). destruct (Hf a v1) as [Hd2 HL2]; [by eapply acting_step|lia| |].
  - apply Forall_app. split; [by apply HL1|]. eapply Forall_impl; [exact HL|]. intros pid. by apply (mine_step n1).
  - split; [|done]. by eapply disciplined_trans.
Qed.

Lemma guarded_bind0 {A B} n L (m : M View A) (f : A -> M View B) L1 L2 :
  0 <= n -> guarded 0 L m L1 -> (forall a, guarded n (L1 a ++ L) (f a) L2) -> guarded n L (m ≫= f) L2.
Proof. intros Hn. exact (guarded_bind 0 n L m f L1 L2 ltac:(lia) Hn). Qed.

Lemma guarded_le {A} n m L (x : M View A) L' : guarded n L x L' -> n <= m -> guarded m L x L'.
Proof. intros H Hle v Ha Hn HL. destruct (H v Ha ltac:(lia) HL) as [Hd Hr]. split; [by eapply disciplined_le|done]. Qed.

Lemma guarded_weaken {A} n L1 L2 (x : M View A) L' : guarded n L1 x L' -> L1 ⊆ L2 -> guarded n L2 x L'.
Proof. intros H Hs v Ha Hn HL. apply H; [done|done|]. rewrite Forall_forall in *. intros pid Hp. by apply HL, Hs. Qed.

(** ** The buffer pool and the locks *)

(** What is plainly the same. *)
Ltac fields := cbn [fst snd set_txns set_locks upd_pool set_pool set_page_ids v_pool v_page_ids v_txns v_locks v_current v_thread set_dirty set_pages set_disk
  disk_manager_ pages_ dirty_ observers_by_thread_ ob_txn ob_object].
Ltac same := split; fields; try reflexivity; try done; try (unfold pages_next; cbn; lia); try (by left); try (by intros; left).

Lemma set_locks_disciplined v k m lm' :
  acting v -> AcquireLock t k m (v_locks v) = Granted lm' ->
  disciplined 0 v (set_locks lm' v) /\ sufficient lm' t k m.
Proof.
  intros Ha Hg. destruct (AcquireLock_granted _ _ _ _ _ (ac_locks _ Ha) Hg) as (Hwf & Hs & _ & Ho). split; [|done].
  same.
  intros h k'. by eapply AcquireLock_exclusive; [apply Ha|].
Qed.

Lemma guarded_LockPage L pid mode : guarded 0 L (LockPage oid pid mode) (fun _ => match mode with kExclusive => [pid] | kShared => [] end).
Proof.
  intros v Ha _ _. unfold LockPage. rewrite (ac_current _ Ha). destruct (AcquireLock t (mkPageKey oid pid) mode (v_locks v)) as [lm'| |] eqn:E.
  - destruct (set_locks_disciplined v _ _ _ Ha E) as [Hd Hs]. split; [done|]. intros [] _. destruct mode; [constructor|by apply Forall_singleton].
  - split; [apply disciplined_refl|done].
  - split; [apply disciplined_refl|done].
Qed.

Lemma guarded_FetchPage L pid : guarded 0 L (FetchPage pid) (fun a => if bool_decide (pid ∈ L) then [a] else []).
Proof.
  intros v Ha _ HL. assert ((FetchPage pid v).1 = Ret pid \/ forall a, (FetchPage pid v).1 <> Ret a) as Hres.
  { unfold FetchPage. destruct (pages_ (v_pool v) !! pid); [by left|]. unfold on_disk, ReadPage, mbind, M_bind. cbn. repeat case_match; simplify_eq; auto. }
  assert (disciplined 0 v (FetchPage pid v).2) as Hd.
  { unfold FetchPage. destruct (pages_ (v_pool v) !! pid) eqn:E; [apply disciplined_refl|].
    unfold on_disk, ReadPage, mbind, M_bind. cbn. destruct (next_page_id_ (disk_manager_ (v_pool v)) <=? pid) eqn:En; [by same|].
    destruct (file (disk_manager_ (v_pool v)) !! Z.to_nat pid) as [p|] eqn:Ep; cbn; [|by same].
    same. intros q Hq. left. unfold mem_page. cbn. destruct (decide (q = pid)) as [->|Hne].
    - rewrite lookup_insert_eq, E. unfold disk_page. unfold pages_next in Hq. by rewrite bool_decide_eq_true_2.
    - by rewrite lookup_insert_ne. }
  split; [done|]. intros a Hr. case_bool_decide as Hp; [|constructor]. assert (a = pid) as -> by (destruct Hres as [Hres|Hres]; [congruence|by destruct (Hres a)]).
  apply Forall_singleton. rewrite Forall_forall in HL. eapply mine_step; [done|by apply HL].
Qed.

Lemma guarded_MarkDirty L pid : pid ∈ L -> guarded 0 L (MarkDirty pid) (fun _ => []).
Proof.
  intros Hp v Ha _ HL. rewrite Forall_forall in HL. pose proof (HL pid Hp) as Hm. unfold MarkDirty, MarkDirtyLocked. rewrite (ac_observer _ Ha). fields.
  split; [|by intros; constructor]. same.
  - intros t'. unfold NotifyDirty. rewrite lookup_alter_is_Some. done.
  - intros t' k. destruct (v_txns v !! t) as [s|] eqn:Es.
    + rewrite DirtiedPages_NotifyDirty by eauto. case_decide as Ht; [|by left]. intros [->%elem_of_singleton|?]%elem_of_union; [|by left].
      right. split_and!; done.
    + unfold NotifyDirty. rewrite alter_id; [by left|]. intros x Hx. congruence.
Qed.

Lemma guarded_on_page {A} L ptr (m : M Page A) : ptr ∈ L -> guarded 0 L (on_page ptr m) (fun _ => []).
Proof.
  intros Hp v Ha _ HL. rewrite Forall_forall in HL. pose proof (HL ptr Hp) as Hm. unfold on_page.
  destruct (pages_ (v_pool v) !! ptr) as [p|] eqn:E; [|split; [apply disciplined_refl|by intros; constructor]]. destruct (m p) as [r p']. cbn.
  split; [|by intros; constructor]. same.
  intros q _. destruct (decide (q = ptr)) as [->|Hne]; [by right|left]. unfold mem_page. cbn. by rewrite lookup_insert_ne.
Qed.

(** Reading a page. *)
Lemma guarded_read_page {A} L ptr (m : M Page A) : (forall p, (m p).2 = p) -> guarded 0 L (on_page ptr m) (fun _ => []).
Proof.
  intros H v Ha _ HL. unfold on_page. destruct (pages_ (v_pool v) !! ptr) as [p|] eqn:E; [|split; [apply disciplined_refl|by intros; constructor]].
  specialize (H p). destruct (m p) as [r p']. cbn in *. subst p'. split; [|by intros; constructor]. same.
  intros q _. left. unfold mem_page. cbn. destruct (decide (q = ptr)) as [->|Hne]; [by rewrite lookup_insert_eq, E|by rewrite lookup_insert_ne].
Qed.

Lemma guarded_page_ids L pid : fixed = false -> guarded 0 L (modify (fun v => set_page_ids (v_page_ids v ++ [pid]) v)) (fun _ => []).
Proof. intros Hf v _ _ _. split; [|by intros; constructor]. same; [by apply prefix_app_r|congruence]. Qed.

(** A new page is locked next: no one can have a lock on it. *)
Lemma new_page_locked v :
  acting v -> pages_next v + 1 < 2 ^ 32 -> exists v', NewPage v = (Ret (pages_next v), v') /\ exists lm',
    AcquireLock t (mkPageKey oid (pages_next v)) kExclusive (v_locks v') = Granted lm' /\ disciplined 1 v (set_locks lm' v') /\
    mine (set_locks lm' v') (pages_next v) /\ v_current v' = Some t /\ pages_ (v_pool v') !! pages_next v = Some zero_page.
Proof.
  intros Ha Hn. destruct (AllocatePage_file _ (ac_file _ Ha) Hn) as (d' & Hal & Hok & Hnx & Hd). fold (pages_next v) in *.
  exists (set_txns (NotifyDirty t oid (pages_next v) (v_txns v)) (upd_pool (fun bp => set_dirty ({[pages_next v]} ∪ dirty_ bp) bp)
    (upd_pool (fun bp => set_pages (<[pages_next v := zero_page]> (pages_ bp)) bp) (upd_pool (set_disk d') v)))).
  split; [unfold NewPage, on_disk, mbind, M_bind; rewrite Hal; unfold modify; cbn; unfold MarkDirtyLocked; cbn; by rewrite (ac_observer _ Ha)|].
  assert (forall h, h <> t -> ~ lm_holds (v_locks v) h (mkPageKey oid (pages_next v))) as Hfree.
  { intros h Hne Hh. pose proof (ac_alloc _ Ha h _ Hne Hh). lia. }
  destruct (AcquireLock_free t _ kExclusive _ (ac_locks _ Ha) Hfree) as [lm' Hg]. exists lm'. split; [exact Hg|].
  destruct (AcquireLock_granted _ _ _ _ _ (ac_locks _ Ha) Hg) as (Hwf & Hs & _ & Ho).
  split_and!; [|exact Hs|apply Ha|cbn; apply lookup_insert_eq]. split; fields; try done.
  - intros h k. by eapply AcquireLock_exclusive; [apply Ha|].
  - unfold pages_next in *. cbn. lia.
  - intros t'. unfold NotifyDirty. rewrite lookup_alter_is_Some. done.
  - intros t' k. destruct (v_txns v !! t) as [s|] eqn:Es.
    + rewrite DirtiedPages_NotifyDirty by eauto. case_decide as Ht; [|by left]. intros [->%elem_of_singleton|?]%elem_of_union; [|by left].
      right. split_and!; done.
    + unfold NotifyDirty. rewrite alter_id; [by left|]. intros x Hx. congruence.
  - intros q Hq. left. unfold mem_page. cbn. rewrite lookup_insert_ne by lia. destruct (pages_ (v_pool v) !! q); [done|]. apply Hd. lia.
Qed.

Lemma guarded_new {A} n L (k : PageId -> M View A) L' :
  0 <= n -> (forall pid, guarded n (pid :: L) (k pid) L') -> guarded (n + 1) L (pid ← NewPage; LockPage oid pid kExclusive;; k pid) L'.
Proof.
  intros H0 Hk v Ha Hn HL. destruct (new_page_locked v Ha ltac:(lia)) as (v1 & E & lm' & Hg & Hd & Hm & Hc & _). set (v2 := set_locks lm' v1) in *.
  assert (LockPage oid (pages_next v) kExclusive v1 = (Ret tt, v2)) as El by (unfold LockPage; by rewrite Hc, Hg).
  run E. run El. pose proof (di_next _ _ _ Hd). destruct (Hk (pages_next v) v2) as [Hd2 Hr]; [by eapply acting_step|lia| |].
  - constructor; [done|]. eapply Forall_impl; [exact HL|]. intros pid. by apply (mine_step 1).
  - split; [|done]. eapply disciplined_le; [by eapply disciplined_trans|lia].
Qed.

Lemma guarded_new_heap {A} n L (k : PageId -> M View A) L' :
  0 <= n -> (forall pid, guarded n (pid :: L) (k pid) L') -> guarded (n + 1) L (pid ← NewHeapPage; LockPage oid pid kExclusive;; k pid) L'.
Proof.
  intros H0 Hk v Ha Hn HL. destruct (new_page_locked v Ha ltac:(lia)) as (v1 & E & lm' & Hg & Hd & Hm & Hc & Hp). set (v2 := set_locks lm' v1) in *.
  set (pid := pages_next v) in *. destruct (guarded_on_page [pid] pid (modify (InitHeapPage pid)) ltac:(by left) v2) as [Hd' _];
    [by eapply acting_step|pose proof (di_next _ _ _ Hd); lia|by constructor|].
  set (v3 := (on_page pid (modify (InitHeapPage pid)) v2).2) in *.
  set (v1' := upd_pool (fun bp => set_pages (<[pid := InitHeapPage pid zero_page]> (pages_ bp)) bp) v1).
  assert (NewHeapPage v = (Ret pid, v1')) as E'.
  { unfold NewHeapPage. run E. assert (on_page pid (modify (InitHeapPage pid)) v1 = (Ret tt, v1')) as Eo by (unfold on_page; by rewrite Hp). by run Eo. }
  assert (LockPage oid pid kExclusive v1' = (Ret tt, set_locks lm' v1')) as El.
  { unfold LockPage. change (v_current v1') with (v_current v1). change (v_locks v1') with (v_locks v1). by rewrite Hc, Hg. }
  assert (set_locks lm' v1' = v3) as E3 by (unfold v3, on_page; change (pages_ (v_pool v2)) with (pages_ (v_pool v1)); by rewrite Hp).
  run E'. run El. rewrite E3. pose proof (disciplined_trans _ _ _ _ _ Hd Hd') as Hd3. pose proof (di_next _ _ _ Hd3).
  destruct (Hk pid v3) as [Hd2 Hr]; [by eapply acting_step|lia| |].
  - constructor; [by apply (mine_step 0 v2)|]. eapply Forall_impl; [exact HL|]. intros q. by apply (mine_step (1 + 0)).
  - split; [|done]. eapply disciplined_le; [by eapply disciplined_trans|lia].
Qed.

(** ** Loops *)

Lemma guarded_fold_m {A B} L (body : B -> A -> M View B) l acc :
  (forall b a, guarded 0 L (body b a) (fun _ => [])) -> guarded 0 L (fold_m body acc l) (fun _ => []).
Proof.
  intros Hb. revert acc. induction l as [|a l IH]; intros acc; [by apply guarded_pure|]. cbn [fold_m].
  apply (guarded_bind0 0 _ _ _ (fun _ => [])); [done|apply Hb|]. intros b. exact (IH b).
Qed.

Lemma guarded_find_m {A B} L (body : A -> M View (option B)) l :
  (forall a, guarded 0 L (body a) (fun _ => [])) -> guarded 0 L (find_m body l) (fun _ => []).
Proof.
  intros Hb. induction l as [|a l IH]; [by apply guarded_pure|]. cbn [find_m].
  apply (guarded_bind0 0 _ _ _ (fun _ => [])); [done|apply Hb|]. intros [b|]; [by apply guarded_pure|exact IH].
Qed.

(** ** Operations, step by step *)

Lemma guarded_fetch_mine L pid : pid ∈ L -> guarded 0 L (FetchPage pid) (fun a => [a]).
Proof. intros Hp v Ha Hn HL. destruct (guarded_FetchPage L pid v Ha Hn HL) as [Hd Hr]. split; [done|]. intros a E. specialize (Hr a E). by rewrite bool_decide_eq_true_2 in Hr. Qed.

Lemma guarded_fetch L pid : guarded 0 L (FetchPage pid) (fun _ => []).
Proof. intros v Ha Hn HL. destruct (guarded_FetchPage L pid v Ha Hn HL) as [Hd _]. split; [done|constructor]. Qed.

Lemma guarded_data_of L page : guarded 0 L (BTree.data_of page) (fun _ => []).
Proof. by apply guarded_read_page. Qed.

Lemma guarded_set_data L page buf : page ∈ L -> guarded 0 L (BTree.set_data page buf) (fun _ => []).
Proof. apply guarded_on_page. Qed.

Lemma guarded_put_leaf L page leaf : page ∈ L -> guarded 0 L (BTree.put_leaf page leaf) (fun _ => []).
Proof. intros Hp. apply (guarded_bind0 0 _ _ _ (fun _ => [])); [done|apply guarded_lift|]. intros buf. by apply guarded_set_data. Qed.

Lemma guarded_put_internal L page node : page ∈ L -> guarded 0 L (BTree.put_internal page node) (fun _ => []).
Proof. intros Hp. apply (guarded_bind0 0 _ _ _ (fun _ => [])); [done|apply guarded_lift|]. intros buf. by apply guarded_set_data. Qed.

Create HintDb locking.

(** Membership among the pages listed. *)
Ltac listed := solve [repeat first [apply list_elem_of_here | apply list_elem_of_further]].

(** One primitive. *)
Ltac primitive := first
  [ apply guarded_LockPage | apply guarded_lift | apply guarded_gets | apply guarded_data_of | apply guarded_page_ids; assumption
  | apply guarded_fetch_mine; listed | apply guarded_fetch
  | apply guarded_MarkDirty; listed | apply guarded_put_leaf; listed | apply guarded_put_internal; listed | apply guarded_set_data; listed
  | apply guarded_on_page; listed | apply guarded_read_page; done
  | eassumption | solve [eauto with locking] ].

(** Along the operation. *)
Ltac guarding := repeat match goal with
  | |- 0 <= _ => lia
  | |- guarded _ _ (mret _) (fun _ => []) => eapply guarded_le; [by apply guarded_pure|lia]
  | |- guarded _ _ (throw _) _ => eapply guarded_le; [apply guarded_throw|lia]
  | |- guarded _ _ undefined _ => eapply guarded_le; [apply guarded_undefined|lia]
  | |- guarded _ _ (if ?b then _ else _) _ => destruct b
  | |- guarded _ _ (match ?x with _ => _ end) _ => destruct x
  | |- guarded ?n _ (mbind (fun pid => mbind (fun _ => _) (LockPage _ pid kExclusive)) NewPage) _ => eapply guarded_le; [apply (guarded_new (n - 1)); [lia|intros ?]|lia]
  | |- guarded ?n _ (mbind (fun pid => mbind (fun _ => _) (LockPage _ pid kExclusive)) NewHeapPage) _ => eapply guarded_le; [apply (guarded_new_heap (n - 1)); [lia|intros ?]|lia]
  | |- guarded _ _ (mbind _ _) _ => eapply guarded_bind0; [|primitive|intros ?; cbn [app]]
  | |- guarded _ _ _ _ => eapply guarded_le; [primitive|lia]
  end.

(** *** Heap files *)

Lemma guarded_IsDeleted L ptr s : guarded 0 L (on_page ptr (IsDeleted s)) (fun _ => []).
Proof. apply guarded_read_page. intros p. unfold IsDeleted. by destruct (negb _). Qed.

Lemma guarded_GetRecord L ptr s : guarded 0 L (on_page ptr (GetRecord s)) (fun _ => []).
Proof. apply guarded_read_page. intros p. unfold GetRecord. cbn zeta. by repeat case_match. Qed.

#[local] Hint Resolve guarded_IsDeleted guarded_GetRecord : locking.

Lemma guarded_insert_into L pid page row : pid ∈ L -> page ∈ L -> guarded 0 L (HeapFile.insert_into pid page row) (fun _ => []).
Proof.
  intros H1 H2. unfold HeapFile.insert_into. eapply guarded_bind0; [done|by apply guarded_on_page|]. intros [s|]; cbn [app]; [|guarding].
  eapply guarded_bind0; [done|by apply guarded_MarkDirty|]. intros ?. guarding.
Qed.

#[local] Hint Extern 1 (guarded _ _ (HeapFile.insert_into _ _ _) _) => apply guarded_insert_into; listed : locking.

Lemma guarded_heap_Insert L row : fixed = false -> guarded 1 L (HeapFile.Insert oid row) (fun _ => []).
Proof.
  intros Hf. assert (guarded 0 L (HeapFile.insert_last oid row) (fun _ => [])) as Hl by (unfold HeapFile.insert_last; guarding).
  unfold HeapFile.Insert, HeapFile.insert_new. guarding.
Qed.

(** The list of page ids grows only behind an exclusive lock on its last page. *)
Lemma heap_Insert_last row v :
  fixed = false -> acting v -> pages_next v + 1 < 2 ^ 32 -> let v' := (HeapFile.Insert oid row v).2 in
  v_page_ids v' = v_page_ids v \/ forall l, last (v_page_ids v) = Some l -> mine v' l.
Proof.
  intros Hf Ha Hn v'. subst v'. unfold HeapFile.Insert. destruct (_ <? _); [by left|]. destruct (last (v_page_ids v)) as [l|] eqn:El; [|by right].
  set (rest := (page ← FetchPage l; HeapFile.insert_into l page row) ≫= fun r => match r with Some rid => mret rid | None => HeapFile.insert_new oid row end).
  assert ((r ← HeapFile.insert_last oid row; match r with Some rid => mret rid | None => HeapFile.insert_new oid row end) v = (LockPage oid l kExclusive;; rest) v) as ->.
  { unfold HeapFile.insert_last, rest, gets, mbind, M_bind. rewrite El. by destruct (LockPage oid l kExclusive v) as [[]]. }
  destruct (guarded_LockPage [] l kExclusive v Ha ltac:(lia) ltac:(constructor)) as [Hd Hl]. unfold mbind, M_bind.
  destruct (LockPage oid l kExclusive v) as [[u|e|k|] v1] eqn:E; cbn [fst snd] in *; try (left; unfold LockPage in E; rewrite (ac_current _ Ha) in E; destruct (AcquireLock _ _ _ _); by simplify_eq).
  right. intros l' [= <-]. specialize (Hl u eq_refl). assert (guarded 1 [l] rest (fun _ => [])) as Hg by (unfold rest, HeapFile.insert_new; eapply guarded_bind0; [done|guarding|intros ?; cbn [app]; guarding]).
  destruct (Hg v1) as [Hd' _]; [by eapply acting_step|pose proof (di_next _ _ _ Hd); lia|done|]. apply (mine_step _ _ _ _ Hd'). by inversion Hl.
Qed.

Lemma guarded_heap_Delete L rid : guarded 0 L (HeapFile.Delete oid rid) (fun _ => []).
Proof. unfold HeapFile.Delete. guarding. Qed.

Lemma guarded_heap_GetRow L rid : guarded 0 L (HeapFile.GetRow oid rid) (fun _ => []).
Proof. unfold HeapFile.GetRow. guarding.
Qed.

Lemma guarded_scan_page L out pid : guarded 0 L (HeapFile.scan_page oid out pid) (fun _ => []).
Proof. unfold HeapFile.scan_page. guarding. eapply guarded_le; [apply guarded_fold_m; intros ? ?; unfold HeapFile.scan_slot; guarding|lia]. Qed.

Lemma guarded_heap_Scan L : guarded 0 L (HeapFile.Scan oid) (fun _ => []).
Proof. unfold HeapFile.Scan. guarding. apply guarded_fold_m. intros ? ?. apply guarded_scan_page. Qed.

Lemma guarded_heap_Find L pred : guarded 0 L (HeapFile.Find oid pred) (fun _ => []).
Proof.
  unfold HeapFile.Find. guarding. apply guarded_find_m. intros pid. unfold HeapFile.find_page. guarding.
  apply guarded_find_m. intros s. unfold HeapFile.find_slot. guarding.
Qed.

(** *** B+ trees *)

Lemma guarded_GetRoot L : guarded 0 L BTree.GetRootPageId (fun _ => []).
Proof. unfold BTree.GetRootPageId. guarding. Qed.

(** The header page is locked by [LockRoot]. *)
Lemma guarded_SetRoot L pid : BTreeNode.kRootHeaderPageId ∈ L -> guarded 0 L (BTree.SetRootPageId pid) (fun _ => []).
Proof.
  intros H. unfold BTree.SetRootPageId. eapply guarded_bind0; [done|by apply guarded_fetch_mine|]. intros page. cbn [app]. guarding.
  eapply guarded_le; [apply guarded_MarkDirty|done]. by apply list_elem_of_further.
Qed.

Lemma guarded_open_shared L pid : guarded 0 L (BTree.open_shared oid pid) (fun _ => []).
Proof. unfold BTree.open_shared. guarding. Qed.

#[local] Hint Resolve guarded_GetRoot guarded_open_shared : locking.
#[local] Hint Extern 1 (guarded _ _ (BTree.SetRootPageId _) _) => apply guarded_SetRoot; listed : locking.

Lemma guarded_search_loop L fuel key cur : guarded 0 L (BTree.search_loop oid fuel key cur) (fun _ => []).
Proof. revert L cur. induction fuel as [|fuel IH]; intros L cur; cbn [BTree.search_loop]; guarding. Qed.

Lemma guarded_height_loop L fuel h buf : guarded 0 L (BTree.height_loop oid fuel h buf) (fun _ => []).
Proof. revert L h buf. induction fuel as [|fuel IH]; intros L h buf; cbn [BTree.height_loop]; guarding. Qed.

Lemma guarded_leftmost_loop L fuel buf : guarded 0 L (BTree.leftmost_loop oid fuel buf) (fun _ => []).
Proof. revert L buf. induction fuel as [|fuel IH]; intros L buf; cbn [BTree.leftmost_loop]; guarding. Qed.

Lemma guarded_chain_loop L fuel buf out : guarded 0 L (BTree.chain_loop oid fuel buf out) (fun _ => []).
Proof. revert L buf out. induction fuel as [|fuel IH]; intros L buf out; cbn [BTree.chain_loop]; cbn zeta; guarding. Qed.

#[local] Hint Resolve guarded_search_loop guarded_height_loop guarded_leftmost_loop guarded_chain_loop : locking.

Lemma guarded_Search L key : guarded 0 L (BTree.Search oid key) (fun _ => []).
Proof. unfold BTree.Search, BTree.LockRoot. guarding. Qed.

Lemma guarded_Height L : guarded 0 L (BTree.Height oid) (fun _ => []).
Proof. unfold BTree.Height, BTree.LockRoot. guarding. Qed.

Lemma guarded_RangeScanAll L : guarded 0 L (BTree.RangeScanAll oid) (fun _ => []).
Proof. unfold BTree.RangeScanAll, BTree.LockRoot. guarding. Qed.

(** Pages listed by hypothesis. *)
Ltac listed ::= solve [repeat first [assumption | apply list_elem_of_here | apply list_elem_of_further]].

Lemma guarded_insert_leaf L pid page buf key rid : pid ∈ L -> page ∈ L -> guarded 1 L (BTree.insert_leaf oid pid page buf key rid) (fun _ => []).
Proof. intros H1 H2. unfold BTree.insert_leaf. cbn zeta. guarding. Qed.

Lemma guarded_insert_internal L pid page node idx s : pid ∈ L -> page ∈ L -> guarded 1 L (BTree.insert_internal oid pid page node idx s) (fun _ => []).
Proof. intros H1 H2. unfold BTree.insert_internal. cbn zeta. guarding. Qed.

Lemma guarded_InsertRecursive L frames pid key rid : guarded (Z.of_nat frames) L (BTree.InsertRecursive oid frames pid key rid) (fun _ => []).
Proof.
  revert L pid. induction frames as [|frames IH]; intros L pid; [apply guarded_undefined|]. cbn [BTree.InsertRecursive]. cbn zeta.
  eapply guarded_bind0; [lia|primitive|intros ?; cbn [app]]. eapply guarded_bind0; [lia|primitive|intros page; cbn [app]].
  eapply guarded_bind0; [lia|primitive|intros buf; cbn [app]]. destruct (BTree.is_leaf buf).
  - eapply guarded_le; [apply guarded_insert_leaf; listed|lia].
  - eapply guarded_bind0; [lia|primitive|intros node; cbn [app]]. eapply guarded_bind0; [lia|primitive|intros child; cbn [app]].
    eapply guarded_le; [|instantiate (1 := Z.of_nat frames + 1); lia]. eapply guarded_bind; [lia|lia|apply IH|]. intros [s|]; cbn [app]; [|guarding].
    apply guarded_insert_internal; listed.
Qed.

Lemma guarded_tree_Insert L frames key rid : guarded (Z.of_nat frames + 1) L (BTree.Insert oid frames key rid) (fun _ => []).
Proof.
  unfold BTree.Insert, BTree.LockRoot. eapply guarded_bind0; [lia|primitive|intros ?; cbn [app]].
  eapply guarded_bind0; [lia|primitive|intros root; cbn [app]]. destruct (root =? _); [guarding|].
  eapply guarded_bind; [lia|lia|apply guarded_InsertRecursive|]. intros [s|]; cbn [app]; guarding.
Qed.

(** What the rebalancing of a child does with its pages, which are locked. *)
Lemma guarded_fix_leaf_left L parent idx pid page child :
  pid ∈ L -> page ∈ L -> guarded 0 L (BTree.fix_leaf_left oid parent idx pid page child) (fun _ => []).
Proof. intros H1 H2. unfold BTree.fix_leaf_left. cbn zeta. guarding. Qed.

Lemma guarded_fix_leaf_right L parent idx pid page child :
  pid ∈ L -> page ∈ L -> guarded 0 L (BTree.fix_leaf_right oid parent idx pid page child) (fun _ => []).
Proof. intros H1 H2. unfold BTree.fix_leaf_right. cbn zeta. guarding. Qed.

(** The sibling's page is locked and so is the one it was fetched into. *)
Lemma guarded_open_internal L pid :
  guarded 0 L (BTree.open_internal oid pid) (fun x => [x.1; pid]).
Proof.
  unfold BTree.open_internal. eapply guarded_bind0; [done|apply guarded_LockPage|intros ?; cbn [app]].
  eapply guarded_bind0; [done|apply guarded_fetch_mine; listed|intros page; cbn [app]]. do 2 (eapply guarded_bind0; [done|primitive|intros ?; cbn [app]]).
  apply guarded_ret. set_solver.
Qed.

#[local] Hint Resolve guarded_open_internal : locking.
#[local] Hint Extern 1 (guarded _ _ (BTree.fix_leaf_left _ _ _ _ _ _) _) => apply guarded_fix_leaf_left; listed : locking.
#[local] Hint Extern 1 (guarded _ _ (BTree.fix_leaf_right _ _ _ _ _ _) _) => apply guarded_fix_leaf_right; listed : locking.

Lemma guarded_borrow_left L parent idx pid page child :
  pid ∈ L -> page ∈ L -> guarded 0 L (BTree.borrow_left oid parent idx pid page child) (fun _ => []).
Proof.
  intros H1 H2. unfold BTree.borrow_left. eapply guarded_bind0; [done|primitive|intros left_pid; cbn [app]].
  eapply guarded_bind0; [done|apply guarded_open_internal|intros [left_page lsib]; cbn [app fst]]. guarding.
Qed.

Lemma guarded_borrow_right L parent idx pid page child :
  pid ∈ L -> page ∈ L -> guarded 0 L (BTree.borrow_right oid parent idx pid page child) (fun _ => []).
Proof.
  intros H1 H2. unfold BTree.borrow_right. eapply guarded_bind0; [done|primitive|intros right_pid; cbn [app]].
  eapply guarded_bind0; [done|apply guarded_open_internal|intros [right_page rsib]; cbn [app fst]]. guarding.
Qed.

Lemma guarded_merge_left L parent idx child : guarded 0 L (BTree.merge_left oid parent idx child) (fun _ => []).
Proof.
  unfold BTree.merge_left. eapply guarded_bind0; [done|primitive|intros left_pid; cbn [app]].
  eapply guarded_bind0; [done|apply guarded_open_internal|intros [left_page lsib]; cbn [app fst]]. guarding.
Qed.

Lemma guarded_merge_right L parent idx pid page child :
  pid ∈ L -> page ∈ L -> guarded 0 L (BTree.merge_right oid parent idx pid page child) (fun _ => []).
Proof.
  intros H1 H2. unfold BTree.merge_right. eapply guarded_bind0; [done|primitive|intros right_pid; cbn [app]].
  eapply guarded_bind0; [done|apply guarded_open_internal|intros [right_page rsib]; cbn [app fst]]. guarding.
Qed.

#[local] Hint Resolve guarded_merge_left : locking.
#[local] Hint Extern 1 (guarded _ _ (BTree.borrow_left _ _ _ _ _ _) _) => apply guarded_borrow_left; listed : locking.
#[local] Hint Extern 1 (guarded _ _ (BTree.borrow_right _ _ _ _ _ _) _) => apply guarded_borrow_right; listed : locking.
#[local] Hint Extern 1 (guarded _ _ (BTree.merge_right _ _ _ _ _ _) _) => apply guarded_merge_right; listed : locking.

Lemma guarded_if {A} L (b : bool) (m1 m2 : M View A) L' : guarded 0 L m1 L' -> guarded 0 L m2 L' -> guarded 0 L (if b then m1 else m2) L'.
Proof. by destruct b. Qed.

Lemma guarded_fix_internal L parent idx pid page child :
  pid ∈ L -> page ∈ L -> guarded 0 L (BTree.fix_internal oid parent idx pid page child) (fun _ => []).
Proof.
  intros H1 H2. unfold BTree.fix_internal. cbn zeta. eapply guarded_bind0; [done|apply guarded_if; [primitive|by apply guarded_pure]|intros [?|]; cbn [app]; [guarding|]].
  eapply guarded_bind0; [done|apply guarded_if; [primitive|by apply guarded_pure]|intros [?|]; cbn [app]; guarding].
Qed.

#[local] Hint Extern 1 (guarded _ _ (BTree.fix_internal _ _ _ _ _ _) _) => apply guarded_fix_internal; listed : locking.

Lemma guarded_FixUnderflow L parent idx : guarded 0 L (BTree.FixUnderflow oid parent idx) (fun _ => []).
Proof. unfold BTree.FixUnderflow. guarding. Qed.

Lemma guarded_delete_leaf L pid page is_root buf key rid :
  pid ∈ L -> page ∈ L -> guarded 0 L (BTree.delete_leaf pid page is_root buf key rid) (fun _ => []).
Proof. intros H1 H2. unfold BTree.delete_leaf. cbn zeta. guarding. Qed.

#[local] Hint Resolve guarded_FixUnderflow : locking.
#[local] Hint Extern 1 (guarded _ _ (BTree.delete_leaf _ _ _ _ _ _) _) => apply guarded_delete_leaf; listed : locking.

Lemma guarded_DeleteRecursive L frames pid is_root key rid : guarded 0 L (BTree.DeleteRecursive oid frames pid is_root key rid) (fun _ => []).
Proof.
  revert L pid is_root. induction frames as [|frames IH]; intros L pid is_root; [apply guarded_undefined|]. cbn [BTree.DeleteRecursive]. cbn zeta.
  do 3 (eapply guarded_bind0; [done|primitive|intros ?; cbn [app]]). destruct (BTree.is_leaf _); [guarding|].
  do 3 (eapply guarded_bind0; [done|primitive|intros ?; cbn [app]]). destruct (negb _); [guarding|].
  eapply guarded_bind0; [done|apply guarded_if; [primitive|by apply guarded_pure]|intros ?; cbn [app]]. guarding.
Qed.

Lemma guarded_tree_Delete L frames key rid : guarded 0 L (BTree.Delete oid frames key rid) (fun _ => []).
Proof.
  unfold BTree.Delete, BTree.LockRoot. do 2 (eapply guarded_bind0; [done|primitive|intros ?; cbn [app]]). destruct (_ =? _); [guarding|].
  eapply guarded_bind0; [done|apply guarded_DeleteRecursive|intros result; cbn [app]]. guarding.
Qed.

End Discipline.
