(* ===== verification/LogManager.v ===== *)
(** * LogManager: the write-ahead log ([src/wal/log_manager.{h,cpp}], [src/wal/log_record.h])

    The log file is a byte string; [synced] is how many of its bytes the last
    successful [fsync] covered, which is all a crash is sure to leave. Records
    are laid out and scanned at the byte offsets of the code, checksum
    included. [FlushThrough] is modelled twice: as the loop one thread runs on
    its own, and as a step relation over any number of threads (group commit). *)
From S2P Require Import Prelude Config LockManager DiskManager.

Abbreviation Lsn := Z (only parsing).

(** ** The record format *)

Inductive LogRecordType := kBegin | kUpdate | kCommit | kAbort.

#[global] Instance LogRecordType_eq_dec : EqDecision LogRecordType.
Proof. solve_decision. Defined.

Definition LogRecordType_value (t : LogRecordType) : Z :=
  match t with kBegin => 1 | kUpdate => 2 | kCommit => 3 | kAbort => 4 end.

Record LogRecord := mkRecord {
  r_lsn : Lsn;
  r_type : LogRecordType;
  r_txn_id : TxnId;
  r_object_id : ObjectId;
  r_page_id : PageId;
  r_page_image : bytes
}.

(** Byte offsets within a record (they shadow the page's in this file). *)
Module Wal.
Definition kOffLsn : Z := 0.
Definition kOffType : Z := 8.
Definition kOffTxnId : Z := 9.
Definition kOffObjectId : Z := 17.
Definition kOffPageId : Z := 21.
Definition kOffPayloadLen : Z := 25.
Definition kHeaderSize : Z := 29.
Definition kChecksumSize : Z := 4.
End Wal.
Import Wal.

(** One turn of the hash loop, on [uint32_t]. *)
Definition Fnv1a_step (hash : Z) (b : byte) : Z := u32 (Z.lxor hash (Z_of_byte b) * 16777619).

Definition Fnv1a32 (data : bytes) : Z := foldl Fnv1a_step 2166136261 data.

Definition IsValidType (raw_type : Z) : bool :=
  (raw_type =? LogRecordType_value kBegin) || (raw_type =? LogRecordType_value kUpdate) ||
  (raw_type =? LogRecordType_value kCommit) || (raw_type =? LogRecordType_value kAbort).

(** [static_cast<LogRecordType>(raw_type)] of a valid tag. *)
Definition LogRecordType_of (raw_type : Z) : LogRecordType :=
  if raw_type =? 1 then kBegin else if raw_type =? 2 then kUpdate else if raw_type =? 3 then kCommit else kAbort.

Definition ExpectedPayloadLen (t : LogRecordType) : Z :=
  match t with kUpdate => PAGE_SIZE | _ => 0 end.

(** The buffer [AppendRecord] fills and writes. *)
Definition record_buffer (lsn : Lsn) (type : LogRecordType) (txn_id : TxnId) (object_id : ObjectId)
    (page_id : PageId) (payload : bytes) : bytes :=
  let payload_len := zlen payload in
  let buf := replicate (Z.to_nat (kHeaderSize + payload_len + kChecksumSize)) x00 in
  let buf := write_at 8 kOffLsn lsn buf in
  let buf := write_at 1 kOffType (LogRecordType_value type) buf in
  let buf := write_at 8 kOffTxnId txn_id buf in
  let buf := write_at 4 kOffObjectId object_id buf in
  let buf := write_at 4 kOffPageId page_id buf in
  let buf := write_at 4 kOffPayloadLen payload_len buf in
  let buf := if 0 <? payload_len then splice kHeaderSize payload buf else buf in
  let checksum := Fnv1a32 (slice 0 (kHeaderSize + payload_len) buf) in
  write_at 4 (kHeaderSize + payload_len) checksum buf.

(** One turn of the constructor's scan: the record at [offset] and its length,
    or the [break]. *)
Definition scan_record (data : bytes) (offset : Z) : option (LogRecord * Z) :=
  if negb (offset + kHeaderSize <=? zlen data) then None else
  let lsn := read_at 8 (offset + kOffLsn) data in
  let raw_type := read_at 1 (offset + kOffType) data in
  let txn_id := read_at 8 (offset + kOffTxnId) data in
  let object_id := read_at 4 (offset + kOffObjectId) data in
  let page_id := read_at 4 (offset + kOffPageId) data in
  let payload_len := read_at 4 (offset + kOffPayloadLen) data in
  if negb (IsValidType raw_type) then None else
  let type := LogRecordType_of raw_type in
  if negb (payload_len =? ExpectedPayloadLen type) then None else
  let record_len := kHeaderSize + payload_len + kChecksumSize in
  if zlen data <? offset + record_len then None else
  let stored_checksum := read_at 4 (offset + kHeaderSize + payload_len) data in
  let actual_checksum := Fnv1a32 (slice offset (kHeaderSize + payload_len) data) in
  if negb (stored_checksum =? actual_checksum) then None else
  let page_image := if 0 <? payload_len then slice (offset + kHeaderSize) payload_len data else zero_page in
  Some (mkRecord lsn type txn_id object_id page_id page_image, record_len).

(** The scan loop; every turn advances, so the file's length is fuel enough. *)
Fixpoint scan (fuel : nat) (data : bytes) (offset : Z) (records : list LogRecord) : list LogRecord * Z :=
  match fuel with
  | O => (records, offset)
  | S fuel' =>
      match scan_record data offset with
      | None => (records, offset)
      | Some (record, record_len) => scan fuel' data (offset + record_len) (records ++ [record])
      end
  end.

(** ** State and operations *)

Record LogManager := mkLog {
  wal : bytes;
  synced : Z;
  next_lsn_ : Lsn;
  records_on_open_ : list LogRecord;
  durable_lsn_ : Lsn;
  flush_in_progress_ : bool
}.

(** [ReadWholeFile] of the [size] bytes [fstat] reported, over the answers of
    the [read] calls; a call that finds no more ends the loop early. *)
Fixpoint ReadWholeFile (src : bytes) (size : nat) (sys : list io_result) (done : nat) : option (outcome bytes) :=
  if (size <=? done)%nat then Some (Ret (take done src)) else
  match sys with
  | [] => None
  | r :: sys' =>
      match r with
      | IoEintr => ReadWholeFile src size sys' done
      | IoError => Some (Throw RuntimeError)
      | IoBytes n =>
          let n := Nat.min n (Nat.min (size - done) (length src - done)) in
          if (n =? 0)%nat then Some (Ret (take done src))
          else ReadWholeFile src size sys' (done + n)
      end
  end.

(** The constructor, on the bytes found in the file. *)
Definition OpenLogManager (data : bytes) : LogManager :=
  let '(records, offset) := scan (length data) data 0 [] in
  let file := if offset <? zlen data then take (Z.to_nat offset) data else data in
  let next := match last records with Some r => u64 (r_lsn r + 1) | None => 1 end in
  mkLog file (zlen file) next records 0 false.

(** [FullWrite] to the end of the file, over the answers of the [write] calls. *)
Fixpoint FullWrite (buf : bytes) (sys : list io_result) (done : nat) (f : bytes) : option (outcome unit * bytes) :=
  if (length buf <=? done)%nat then Some (Ret tt, f) else
  match sys with
  | [] => None
  | r :: sys' =>
      match r with
      | IoEintr => FullWrite buf sys' done f
      | IoError => Some (Throw RuntimeError, f)
      | IoBytes n =>
          let n := Nat.min n (length buf - done) in
          FullWrite buf sys' (done + n) (f ++ take n (drop done buf))
      end
  end.

Definition set_wal (f : bytes) (lm : LogManager) : LogManager :=
  mkLog f (synced lm) (next_lsn_ lm) (records_on_open_ lm) (durable_lsn_ lm) (flush_in_progress_ lm).
Definition set_next_lsn (n : Lsn) (lm : LogManager) : LogManager :=
  mkLog (wal lm) (synced lm) n (records_on_open_ lm) (durable_lsn_ lm) (flush_in_progress_ lm).
Definition set_synced (n : Z) (lm : LogManager) : LogManager :=
  mkLog (wal lm) n (next_lsn_ lm) (records_on_open_ lm) (durable_lsn_ lm) (flush_in_progress_ lm).
Definition set_durable (n : Lsn) (lm : LogManager) : LogManager :=
  mkLog (wal lm) (synced lm) (next_lsn_ lm) (records_on_open_ lm) n (flush_in_progress_ lm).
Definition set_flushing (b : bool) (lm : LogManager) : LogManager :=
  mkLog (wal lm) (synced lm) (next_lsn_ lm) (records_on_open_ lm) (durable_lsn_ lm) b.

(** [AppendRecord]; [sys] are the answers of its [write] calls, [None] when
    they have not all been given. *)
Definition AppendRecord_sys (sys : list io_result) (type : LogRecordType) (txn_id : TxnId) (object_id : ObjectId)
    (page_id : PageId) (payload : bytes) (lm : LogManager) : option (outcome Lsn * LogManager) :=
  let lsn := next_lsn_ lm in
  let lm := set_next_lsn (u64 (lsn + 1)) lm in
  let buf := record_buffer lsn type txn_id object_id page_id payload in
  match FullWrite buf sys 0 (wal lm) with
  | None => None
  | Some (Ret _, f) => Some (Ret lsn, set_wal f lm)
  | Some (Throw e, f) => Some (Throw e, set_wal f lm)
  | Some (_, f) => Some (Undefined, set_wal f lm)
  end.

(** The same when the first [write] takes the whole record. *)
Definition AppendRecord (type : LogRecordType) (txn_id : TxnId) (object_id : ObjectId) (page_id : PageId)
    (payload : bytes) : M LogManager Lsn := fun lm =>
  let buf := record_buffer (next_lsn_ lm) type txn_id object_id page_id payload in
  default (Undefined, lm) (AppendRecord_sys [IoBytes (length buf)] type txn_id object_id page_id payload lm).

Definition AppendBegin (txn_id : TxnId) : M LogManager Lsn :=
  AppendRecord kBegin txn_id INVALID_OBJECT_ID INVALID_PAGE_ID [].
Definition AppendUpdate (txn_id : TxnId) (object_id : ObjectId) (page_id : PageId) (page_image : bytes) : M LogManager Lsn :=
  AppendRecord kUpdate txn_id object_id page_id page_image.
Definition AppendCommit (txn_id : TxnId) : M LogManager Lsn :=
  AppendRecord kCommit txn_id INVALID_OBJECT_ID INVALID_PAGE_ID [].
Definition AppendAbort (txn_id : TxnId) : M LogManager Lsn :=
  AppendRecord kAbort txn_id INVALID_OBJECT_ID INVALID_PAGE_ID [].

Definition RecordsOnOpen (lm : LogManager) : list LogRecord := records_on_open_ lm.
Definition NextLsn (lm : LogManager) : Lsn := next_lsn_ lm.
Definition DurableLsn (lm : LogManager) : Lsn := durable_lsn_ lm.

(** [fsync] of the log: when it succeeds, everything written is on disk. *)
Definition fsync_wal (fsync_ok : bool) : M LogManager unit := fun lm =>
  if fsync_ok then (Ret tt, set_synced (zlen (wal lm)) lm) else (Throw RuntimeError, lm).

Definition Flush (fsync_ok : bool) : M LogManager unit := fsync_wal fsync_ok.

(** [FlushThrough] run by one thread: [None] when it would wait for another
    thread's flush, or when the fuel, the turns of its loop, runs out. *)
Fixpoint FlushThrough_loop (fuel : nat) (fsync_ok : bool) (target_lsn : Lsn) (lm : LogManager) : option (outcome unit * LogManager) :=
  match fuel with
  | O => None
  | S fuel' =>
      if negb (durable_lsn_ lm <? target_lsn) then Some (Ret tt, lm) else
      if flush_in_progress_ lm then None else
      let lm := set_flushing true lm in
      let to_cover := Z.max target_lsn (u64 (NextLsn lm - 1)) in
      match fsync_wal fsync_ok lm with
      | (Ret _, lm) =>
          let lm := set_flushing false lm in
          FlushThrough_loop fuel' fsync_ok target_lsn (set_durable (Z.max (durable_lsn_ lm) to_cover) lm)
      | (Throw e, lm) => Some (Throw e, set_flushing false lm)
      | (_, lm) => Some (Undefined, lm)
      end
  end.

(** Two turns are enough ([FlushThrough_run]): the second re-checks. *)
Definition FlushThrough (fsync_ok : bool) (target_lsn : Lsn) : M LogManager unit := fun lm =>
  default (Undefined, lm) (FlushThrough_loop 2 fsync_ok target_lsn lm).

Definition Checkpoint : M LogManager unit := fun lm =>
  let lm := set_synced 0 (set_wal [] lm) in
  (Ret tt, set_next_lsn 1 lm).

(** What a crash can leave of the file: everything synced, and any part of
    what was written after. *)
Definition crash_wal (lm : LogManager) (data : bytes) : Prop :=
  exists n, synced lm <= n <= zlen (wal lm) /\ data = take (Z.to_nat n) (wal lm).

(** ** The log as a sequence of records *)

Definition payload (r : LogRecord) : bytes := match r_type r with kUpdate => r_page_image r | _ => [] end.

(** The bytes of a record on disk. *)
Definition encode (r : LogRecord) : bytes :=
  record_buffer (r_lsn r) (r_type r) (r_txn_id r) (r_object_id r) (r_page_id r) (payload r).

Definition encode_log (rs : list LogRecord) : bytes := concat (encode <$> rs).

(** The fields fit their widths, and only an update carries a page. *)
Record record_ok (r : LogRecord) : Prop := mkRecordOk {
  ro_lsn : 0 <= r_lsn r < 2 ^ 64;
  ro_txn : 0 <= r_txn_id r < 2 ^ 64;
  ro_object : 0 <= r_object_id r < 2 ^ 32;
  ro_page : 0 <= r_page_id r < 2 ^ 32;
  ro_image : zlen (r_page_image r) = PAGE_SIZE;
  ro_no_image : r_type r <> kUpdate -> r_page_image r = zero_page
}.

(** ** Lemmas: the hash *)

Lemma Fnv1a_step_range h b : 0 <= Fnv1a_step h b < 2 ^ 32.
Proof. unfold Fnv1a_step, u32. apply Z.mod_pos_bound. lia. Qed.

Lemma Fnv1a32_range data : 0 <= Fnv1a32 data < 2 ^ 32.
Proof.
  unfold Fnv1a32. assert (0 <= 2166136261 < 2 ^ 32) as H by lia. revert H. generalize 2166136261.
  induction data as [|b data IH]; intros h Hh; [done|]. cbn. apply IH, Fnv1a_step_range.
Qed.

(** ** Lemmas: the fields of a record *)

Ltac wal_consts :=
  unfold kOffLsn, kOffType, kOffTxnId, kOffObjectId, kOffPageId, kOffPayloadLen, kHeaderSize, kChecksumSize in *.

Ltac wal_side :=
  wal_consts; repeat (rewrite zlen_write_at by wal_side); repeat (rewrite zlen_splice by wal_side);
  zlens; rewrite ?length_replicate; lia.

Ltac wal_read :=
  repeat first
    [ rewrite read_write_eq by wal_side
    | rewrite read_write_ne by wal_side
    | rewrite slice_write_ne by wal_side
    | rewrite read_splice_ne by wal_side
    | rewrite slice_splice_ne by wal_side ].

(** What the scan reads back from a record's own buffer. *)
Record reads_back (lsn : Z) (t : LogRecordType) (txn oid pid : Z) (pl buf : bytes) : Prop := mkReadsBack {
  rb_len : zlen buf = 33 + zlen pl;
  rb_lsn : read_at 8 kOffLsn buf = lsn mod 2 ^ 64;
  rb_type : read_at 1 kOffType buf = LogRecordType_value t;
  rb_txn : read_at 8 kOffTxnId buf = txn mod 2 ^ 64;
  rb_object : read_at 4 kOffObjectId buf = oid mod 2 ^ 32;
  rb_page : read_at 4 kOffPageId buf = pid mod 2 ^ 32;
  rb_payload_len : read_at 4 kOffPayloadLen buf = zlen pl;
  rb_payload : slice kHeaderSize (zlen pl) buf = pl;
  rb_checksum : read_at 4 (kHeaderSize + zlen pl) buf = Fnv1a32 (slice 0 (kHeaderSize + zlen pl) buf)
}.

Lemma record_buffer_reads_back lsn t txn oid pid pl :
  zlen pl < 2 ^ 32 -> reads_back lsn t txn oid pid pl (record_buffer lsn t txn oid pid pl).
Proof.
  intros Hpl. assert (0 <= zlen pl) as Hpos by (unfold zlen; lia). unfold record_buffer.
  set (b0 := replicate _ x00).
  assert (zlen b0 = 33 + zlen pl) as H0 by (subst b0; unfold zlen at 1; rewrite length_replicate; wal_consts; lia).
  clearbody b0. set (b1 := write_at 4 kOffPayloadLen (zlen pl) _).
  assert (zlen b1 = 33 + zlen pl) as H1 by (subst b1; wal_side).
  set (b2 := if 0 <? zlen pl then splice kHeaderSize pl b1 else b1).
  assert (zlen b2 = 33 + zlen pl) as H2 by (subst b2; destruct (0 <? zlen pl); [rewrite zlen_splice; wal_consts; lia|done]).
  assert (slice kHeaderSize (zlen pl) b2 = pl) as Hdata.
  { subst b2. destruct (Z.ltb_spec 0 (zlen pl)); [apply slice_splice_eq; wal_consts; lia|].
    destruct pl; [done|]. unfold zlen in *. cbn in *. lia. }
  assert (forall w o, 0 <= o -> o + Z.of_nat w <= kHeaderSize -> read_at w o b2 = read_at w o b1) as Hhdr.
  { intros w o Ho Hw. subst b2. destruct (0 <? zlen pl); [|done]. apply read_splice_ne; wal_consts; lia. }
  clearbody b2. split; rewrite ?zlen_write_at by wal_side; [done|..].
  1-6: rewrite read_write_ne by wal_side; rewrite Hhdr by wal_side; subst b1; wal_read; try reflexivity.
  - destruct t; reflexivity.
  - apply Z.mod_small. lia.
  - rewrite slice_write_ne by wal_side. done.
  - rewrite read_write_eq by wal_side. rewrite slice_write_ne by wal_side.
    apply Z.mod_small, Fnv1a32_range.
Qed.

Lemma ExpectedPayloadLen_payload r : record_ok r -> zlen (payload r) = ExpectedPayloadLen (r_type r).
Proof. intros Hr. unfold payload. destruct (r_type r); [done|apply Hr|done|done]. Qed.

Lemma payload_small r : record_ok r -> zlen (payload r) <= PAGE_SIZE.
Proof. intros Hr. rewrite ExpectedPayloadLen_payload by done. by destruct (r_type r). Qed.

Lemma encode_reads_back r :
  record_ok r -> reads_back (r_lsn r) (r_type r) (r_txn_id r) (r_object_id r) (r_page_id r) (payload r) (encode r).
Proof.
  intros Hr. apply record_buffer_reads_back. pose proof (payload_small r Hr). unfold PAGE_SIZE in *. lia.
Qed.

Lemma zlen_encode r : record_ok r -> zlen (encode r) = 33 + ExpectedPayloadLen (r_type r).
Proof. intros Hr. rewrite (rb_len _ _ _ _ _ _ _ (encode_reads_back r Hr)). by rewrite ExpectedPayloadLen_payload. Qed.

Lemma LogRecordType_of_value t : LogRecordType_of (LogRecordType_value t) = t.
Proof. by destruct t. Qed.

Lemma IsValidType_value t : IsValidType (LogRecordType_value t) = true.
Proof. by destruct t. Qed.

(** ** Lemmas: one turn of the scan *)

(** The record at the front of [d], when the bytes of its header and the rest
    say so. *)
Definition parses_to (d : bytes) (r : LogRecord) : Prop := scan_record d 0 = Some (r, zlen (encode r)).

Lemma scan_record_shift pre d : scan_record (pre ++ d) (zlen pre) = scan_record d 0.
Proof.
  unfold scan_record. wal_consts. rewrite zlen_app.
  rewrite !Z.add_0_l, !Z.add_0_r.
  replace (zlen pre + 29 <=? zlen pre + zlen d) with (29 <=? zlen d)
    by (destruct (Z.leb_spec 29 (zlen d)), (Z.leb_spec (zlen pre + 29) (zlen pre + zlen d)); lia).
  destruct (29 <=? zlen d); cbn [negb]; [|done].
  assert (forall w off, 0 <= off -> read_at w (zlen pre + off) (pre ++ d) = read_at w off d) as Hr by (intros; by apply read_at_app_r).
  assert (forall w, read_at w (zlen pre) (pre ++ d) = read_at w 0 d) as Hr0.
  { intros w. rewrite <- (Hr w 0) by lia. by rewrite Z.add_0_r. }
  rewrite Hr0, !Hr by lia. destruct (IsValidType _); cbn [negb]; [|done].
  pose proof (read_at_bound 4 25 d) as Hb.
  destruct (_ =? ExpectedPayloadLen _); cbn [negb]; [|done]. set (pl := read_at 4 25 d) in *. clearbody pl.
  replace (zlen pre + zlen d <? zlen pre + (29 + pl + 4)) with (zlen d <? 29 + pl + 4)
    by (destruct (Z.ltb_spec (zlen d) (29 + pl + 4)), (Z.ltb_spec (zlen pre + zlen d) (zlen pre + (29 + pl + 4))); lia).
  destruct (_ <? _); [done|]. rewrite <- Z.add_assoc, Hr by lia.
  rewrite <- (Z.add_0_r (zlen pre)) at 1. rewrite !slice_app_r by lia. done.
Qed.

Lemma scan_record_encode r tail : record_ok r -> scan_record (encode r ++ tail) 0 = Some (r, zlen (encode r)).
Proof.
  intros Hr. pose proof (encode_reads_back r Hr) as [Hlen Hlsn Hty Htx Hob Hpg Hpl Hpay Hck].
  pose proof (zlen_nonneg (payload r)) as Hnn. pose proof (zlen_nonneg tail). pose proof (payload_small r Hr).
  unfold scan_record. rewrite !Z.add_0_l. wal_consts.
  rewrite (proj2 (Z.leb_le 29 (zlen (encode r ++ tail)))) by (rewrite zlen_app; lia). cbn [negb].
  rewrite !(read_at_app_l) by lia. rewrite Hlsn, Hty, Htx, Hob, Hpg, Hpl.
  rewrite IsValidType_value, LogRecordType_of_value. cbn [negb].
  rewrite (ExpectedPayloadLen_payload r Hr). rewrite Z.eqb_refl. cbn [negb].
  rewrite <- (ExpectedPayloadLen_payload r Hr).
  rewrite (proj2 (Z.ltb_ge (zlen (encode r ++ tail)) _)) by (rewrite zlen_app; lia).
  rewrite !slice_app_l by lia. rewrite Hck, Z.eqb_refl. cbn [negb].
  do 2 f_equal; [|lia]. destruct Hr as [H1 H2 H3 H4 H5 H6]. rewrite !Z.mod_small by lia. rewrite Hpay.
  destruct r as [l t tx ob pg im]. cbn in *. f_equal.
  unfold payload in *. cbn [r_type r_page_image] in *. destruct t; cbn; try (symmetry; by apply H6).
  rewrite H5. done.
Qed.

(** A record cut short does not parse. *)
Lemma scan_record_torn r n :
  record_ok r -> 0 <= n < zlen (encode r) -> scan_record (take (Z.to_nat n) (encode r)) 0 = None.
Proof.
  intros Hr Hn. pose proof (encode_reads_back r Hr) as [Hlen Hlsn Hty Htx Hob Hpg Hpl Hpay Hck].
  pose proof (zlen_nonneg (payload r)) as Hnn. set (d := take (Z.to_nat n) (encode r)).
  assert (zlen d = n) as Hd by (subst d; unfold zlen in *; rewrite length_take; lia).
  assert (forall w o, 0 <= o -> o + Z.of_nat w <= n -> read_at w o d = read_at w o (encode r)) as Hrd.
  { intros w o Ho Hw. rewrite <- (take_drop (Z.to_nat n) (encode r)). fold d. symmetry. apply read_at_app_l; lia. }
  unfold scan_record. rewrite !Z.add_0_l. wal_consts. rewrite Hd.
  destruct (Z.leb_spec 29 n); [|done]. cbn [negb]. rewrite !Hrd by lia. rewrite Hty, Hpl.
  rewrite IsValidType_value, LogRecordType_of_value, (ExpectedPayloadLen_payload r Hr), Z.eqb_refl. cbn [negb].
  rewrite <- (ExpectedPayloadLen_payload r Hr).
  rewrite (proj2 (Z.ltb_lt n _)) by lia. done.
Qed.

Lemma scan_record_nil : scan_record [] 0 = None.
Proof. done. Qed.

(** ** Lemmas: the whole scan *)

Lemma encode_log_app rs1 rs2 : encode_log (rs1 ++ rs2) = encode_log rs1 ++ encode_log rs2.
Proof. unfold encode_log. by rewrite fmap_app, concat_app. Qed.

Lemma encode_log_cons r rs : encode_log (r :: rs) = encode r ++ encode_log rs.
Proof. done. Qed.

Lemma length_encode_log rs : Forall record_ok rs -> (length rs <= length (encode_log rs))%nat.
Proof.
  induction 1 as [|r rs Hr _ IH]; [done|]. rewrite encode_log_cons, length_app. cbn.
  pose proof (zlen_encode r Hr) as Hz. unfold zlen in Hz.
  assert (0 <= ExpectedPayloadLen (r_type r)) by (destruct (r_type r); cbn; unfold PAGE_SIZE; lia). lia.
Qed.

(** Whole records, then bytes that are not one: the scan returns exactly the
    records and stops where they end. *)
Lemma scan_run rs pre tail fuel acc :
  Forall record_ok rs -> scan_record tail 0 = None -> (length rs <= fuel)%nat ->
  scan fuel (pre ++ encode_log rs ++ tail) (zlen pre) acc = (acc ++ rs, zlen pre + zlen (encode_log rs)).
Proof.
  intros Hrs Ht. revert pre fuel acc. induction Hrs as [|r rs Hr Hrs IH]; intros pre fuel acc Hf.
  - rewrite app_nil_r, Z.add_0_r. cbn. destruct fuel as [|fuel]; [done|]. cbn [scan].
    by rewrite scan_record_shift, Ht.
  - destruct fuel as [|fuel]; [cbn in Hf; lia|]. cbn [scan].
    rewrite scan_record_shift. rewrite encode_log_cons, <- app_assoc.
    rewrite (scan_record_encode r _ Hr). rewrite app_assoc, <- zlen_app.
    rewrite IH by (cbn in Hf; lia). rewrite <- app_assoc. f_equal. rewrite !zlen_app. lia.
Qed.

Lemma OpenLogManager_run rs tail :
  Forall record_ok rs -> scan_record tail 0 = None ->
  OpenLogManager (encode_log rs ++ tail) =
    mkLog (encode_log rs) (zlen (encode_log rs))
      (match last rs with Some r => u64 (r_lsn r + 1) | None => 1 end) rs 0 false.
Proof.
  intros Hrs Ht. unfold OpenLogManager.
  pose proof (scan_run rs [] tail (length (encode_log rs ++ tail)) [] Hrs Ht) as Hs.
  rewrite app_nil_l in Hs. change (zlen []) with 0 in Hs. rewrite Hs; clear Hs.
  2: { rewrite length_app. pose proof (length_encode_log rs Hrs). lia. }
  rewrite app_nil_l, Z.add_0_l, zlen_app.
  destruct (Z.ltb_spec (zlen (encode_log rs)) (zlen (encode_log rs) + zlen tail)) as [Hlt|Hge].
  - rewrite take_app_length' by (unfold zlen; lia). done.
  - assert (tail = []) as -> by (destruct tail; [done|unfold zlen in *; cbn in *; lia]). by rewrite app_nil_r.
Qed.

(** Any prefix of a log is whole records and a torn one. *)
Lemma log_prefix rs n :
  Forall record_ok rs -> 0 <= n <= zlen (encode_log rs) ->
  exists k, (k <= length rs)%nat /\
    zlen (encode_log (take k rs)) <= n /\
    (forall r, rs !! k = Some r -> n < zlen (encode_log (take k rs)) + zlen (encode r)) /\
    exists tail, take (Z.to_nat n) (encode_log rs) = encode_log (take k rs) ++ tail /\ scan_record tail 0 = None.
Proof.
  intros Hrs. revert n. induction Hrs as [|r rs Hr Hrs IH]; intros n Hn.
  - exists 0%nat. cbn in *. split_and!; [lia|change (zlen []) with 0; lia|done|].
    exists []. by rewrite take_nil.
  - rewrite encode_log_cons, zlen_app in Hn. destruct (decide (n < zlen (encode r))) as [Hlt|Hge].
    + exists 0%nat. cbn [take]. change (zlen (encode_log [])) with 0. split_and!; [lia|lia|intros ? [= <-]; lia|].
      exists (take (Z.to_nat n) (encode r)). split; [|apply scan_record_torn; [done|lia]].
      rewrite encode_log_cons, take_app_le by (unfold zlen in *; lia). done.
    + destruct (IH (n - zlen (encode r))) as (k & Hk & Hle & Hmax & tail & Ht & Hs); [lia|].
      exists (S k). cbn [length take]. rewrite !encode_log_cons, zlen_app. split_and!; [lia|lia| |].
      * intros r' Hr'. specialize (Hmax r' Hr'). lia.
      * exists tail. split; [|done]. rewrite take_app_ge by (unfold zlen in *; lia).
        rewrite <- app_assoc, <- Ht. do 2 f_equal. unfold zlen. lia.
Qed.

(** ** Lemmas: corruption *)

Lemma Fnv1a_step_inj_hash h h' b :
  0 <= h < 2 ^ 32 -> 0 <= h' < 2 ^ 32 -> Fnv1a_step h b = Fnv1a_step h' b -> h = h'.
Proof.
  intros Hh Hh' H. pose proof (Z_of_byte_range b).
  eapply (lxor_inj_l h h' (Z_of_byte b)), (mul_mod_inj 16777619 899433627 (2 ^ 32)); [lia|done|..|exact H];
    apply lxor_bound; lia.
Qed.

Lemma Fnv1a_step_inj_byte h b b' : 0 <= h < 2 ^ 32 -> Fnv1a_step h b = Fnv1a_step h b' -> b = b'.
Proof.
  intros Hh H. pose proof (Z_of_byte_range b). pose proof (Z_of_byte_range b').
  apply Z_of_byte_inj. apply (lxor_inj_l _ _ h).
  rewrite (Z.lxor_comm _ h), (Z.lxor_comm _ h).
  eapply (mul_mod_inj 16777619 899433627 (2 ^ 32)); [lia|done|..|exact H]; apply lxor_bound; lia.
Qed.

Lemma Fnv1a_fold_inj l h h' :
  0 <= h < 2 ^ 32 -> 0 <= h' < 2 ^ 32 -> foldl Fnv1a_step h l = foldl Fnv1a_step h' l -> h = h'.
Proof.
  revert h h'. induction l as [|b l IH]; intros h h' Hh Hh' H; [done|]. cbn in H.
  apply IH in H; [|apply Fnv1a_step_range..]. by eapply Fnv1a_step_inj_hash.
Qed.

(** The checksum detects every change of a single byte. *)
Lemma Fnv1a32_detects (l : bytes) i b b' :
  l !! i = Some b -> b <> b' -> Fnv1a32 (<[i := b']> l) <> Fnv1a32 l.
Proof.
  intros Hi Hne H. apply Hne. assert (i < length l)%nat as Hlt by (by eapply lookup_lt_Some).
  rewrite insert_take_drop in H by done. rewrite <- (take_drop_middle l i b Hi) in H at 3.
  unfold Fnv1a32 in H. rewrite !foldl_app in H. cbn in H. fold (Fnv1a32 (take i l)) in H.
  apply Fnv1a_fold_inj in H; [|apply Fnv1a_step_range..].
  by apply Fnv1a_step_inj_byte in H; [|apply Fnv1a32_range].
Qed.

Lemma slice_insert_out {A} off len (l : list A) i x :
  0 <= off -> 0 <= len -> (Z.of_nat i < off \/ off + len <= Z.of_nat i) -> slice off len (<[i := x]> l) = slice off len l.
Proof.
  intros Ho Hl Hi. apply list_eq. intros j. rewrite !lookup_slice by done. case_decide; [|done].
  rewrite list_lookup_insert_ne by lia. done.
Qed.

Lemma slice_insert_in {A} off len (l : list A) i x :
  0 <= off -> off <= Z.of_nat i < off + len -> off + len <= zlen l ->
  slice off len (<[i := x]> l) = <[(i - Z.to_nat off)%nat := x]> (slice off len l).
Proof.
  intros Ho Hi Hl. unfold zlen in *. apply list_eq. intros j. rewrite lookup_slice by done. case_decide as Hj.
  - destruct (decide (j = i - Z.to_nat off)%nat) as [->|Hne].
    + replace (Z.to_nat off + (i - Z.to_nat off))%nat with i by lia.
      rewrite !list_lookup_insert_eq; [done|unfold slice; rewrite length_take, length_drop; lia|lia].
    + rewrite !list_lookup_insert_ne by lia. rewrite lookup_slice, decide_True by lia. done.
  - symmetry. apply lookup_ge_None. rewrite length_insert. unfold slice. rewrite length_take, length_drop. lia.
Qed.

Lemma zlen_insert {A} i (x : A) (l : list A) : zlen (<[i := x]> l) = zlen l.
Proof. unfold zlen. by rewrite length_insert. Qed.

(** Changing any one byte of a record makes the scan stop there. *)
Lemma scan_record_corrupt r tail i b b' :
  record_ok r -> encode r !! i = Some b -> b <> b' -> scan_record (<[i := b']> (encode r) ++ tail) 0 = None.
Proof.
  intros Hr Hi Hne. pose proof (encode_reads_back r Hr) as [Hlen Hlsn Hty Htx Hob Hpg Hpl Hpay Hck].
  pose proof (zlen_nonneg (payload r)) as Hnn. pose proof (zlen_nonneg tail).
  assert (Z.of_nat i < zlen (encode r)) as Hil by (apply lookup_lt_Some in Hi; unfold zlen; lia).
  set (d := <[i := b']> (encode r)). assert (zlen d = 33 + zlen (payload r)) as Hd by (subst d; by rewrite zlen_insert).
  unfold scan_record. rewrite !Z.add_0_l. wal_consts.
  destruct (Z.leb_spec 29 (zlen (d ++ tail))); cbn [negb]; [|done].
  rewrite !(read_at_app_l _ _ d tail) by lia.
  set (raw := read_at 1 8 d). set (pl := read_at 4 25 d).
  destruct (IsValidType raw) eqn:Ev; cbn [negb]; [|done].
  destruct (Z.eqb_spec pl (ExpectedPayloadLen (LogRecordType_of raw))) as [Hex|]; cbn [negb]; [|done].
  assert (pl = zlen (payload r)) as ->.
  { destruct (decide (i = 8%nat)) as [->|Hi8].
    - rewrite <- Hpl. subst pl d. unfold read_at. rewrite slice_insert_out by lia. done.
    - rewrite Hex, (ExpectedPayloadLen_payload r Hr). f_equal. rewrite <- (LogRecordType_of_value (r_type r)). f_equal.
      rewrite <- Hty. subst raw d. unfold read_at. rewrite slice_insert_out by lia. done. }
  destruct (_ <? _); [done|]. rewrite read_at_app_l by lia. rewrite (slice_app_l 0) by lia.
  destruct (decide (Z.of_nat i < 29 + zlen (payload r))) as [Hin|Hout].
  - replace (read_at 4 (29 + zlen (payload r)) d) with (Fnv1a32 (slice 0 (29 + zlen (payload r)) (encode r))).
    2: { rewrite <- Hck. subst d. unfold read_at. rewrite slice_insert_out by lia. done. }
    subst d. rewrite slice_insert_in by lia.
    destruct (Z.eqb_spec (Fnv1a32 (slice 0 (29 + zlen (payload r)) (encode r)))
      (Fnv1a32 (<[(i - Z.to_nat 0)%nat := b']> (slice 0 (29 + zlen (payload r)) (encode r))))) as [He|]; [|done].
    exfalso. symmetry in He. revert He. apply (Fnv1a32_detects _ _ b); [|done].
    rewrite lookup_slice, decide_True by lia. rewrite <- Hi. f_equal. lia.
  - replace (slice 0 (29 + zlen (payload r)) d) with (slice 0 (29 + zlen (payload r)) (encode r)).
    2: { subst d. rewrite slice_insert_out by lia. done. }
    rewrite <- Hck. destruct (Z.eqb_spec (read_at 4 (29 + zlen (payload r)) d) (read_at 4 (29 + zlen (payload r)) (encode r))) as [He|]; [|done].
    exfalso. unfold read_at in He. apply le_decode_inj in He.
    2: { subst d. unfold slice. by rewrite !length_take, !length_drop, length_insert. }
    subst d. rewrite slice_insert_in in He by lia.
    apply (f_equal (.!! (i - Z.to_nat (29 + zlen (payload r)))%nat)) in He.
    rewrite list_lookup_insert_eq in He.
    2: { unfold slice. rewrite length_take, length_drop. unfold zlen in *. lia. }
    rewrite lookup_slice, decide_True in He by lia.
    replace (Z.to_nat (29 + zlen (payload r)) + (i - Z.to_nat (29 + zlen (payload r))))%nat with i in He by lia.
    rewrite Hi in He. congruence.
Qed.

(** ** Reading the file *)

(** Whatever [read] answers, the bytes returned are a prefix of the file; and
    answers that are no failures and move on return all of it. *)
Lemma ReadWholeFile_prefix src size sys done buf :
  ReadWholeFile src size sys done = Some (Ret buf) -> exists k, buf = take k src.
Proof.
  revert done. induction sys as [|r sys IH]; intros d; cbn [ReadWholeFile]; destruct (size <=? d)%nat; try done; [intros [= <-]; eauto..|].
  destruct r as [n| |]; [|apply IH|done]. destruct (_ =? 0)%nat; [intros [= <-]; eauto|apply IH].
Qed.

Lemma ReadWholeFile_whole src sys done :
  (done <= length src)%nat -> Forall io_fine sys -> (length src - done <= sum_list (progress <$> sys))%nat ->
  ReadWholeFile src (length src) sys done = Some (Ret src).
Proof.
  revert done. induction sys as [|r sys IH]; intros d Hd Hf Hs; cbn [ReadWholeFile]; destruct (Nat.leb_spec (length src) d); try (by rewrite take_ge by lia).
  - cbn in Hs. lia.
  - apply Forall_cons in Hf as [Hr Hf]. cbn in Hs. destruct r as [n| |]; cbn in *; [|by apply IH|done].
    destruct (Nat.eqb_spec (Nat.min n (Nat.min (length src - d) (length src - d))) 0); [lia|]. apply IH; [lia|done|lia].
Qed.

(** ** Appending *)

(** Whatever [write] answers, a prefix of the buffer ends up in the file: all
    of it exactly when the call returns. *)
Lemma FullWrite_prefix buf sys done f o f' :
  (done <= length buf)%nat -> FullWrite buf sys done (f ++ take done buf) = Some (o, f') ->
  exists k, (k <= length buf)%nat /\ f' = f ++ take k buf /\
    (o = Ret tt /\ k = length buf \/ o = Throw RuntimeError).
Proof.
  revert done. induction sys as [|r sys IH]; intros d Hd H; cbn [FullWrite] in H;
    destruct (Nat.leb_spec (length buf) d).
  1, 3: injection H as <- <-; exists (length buf); rewrite firstn_all, take_ge by lia; auto.
  { done. }
  destruct r as [n| |].
  - rewrite <- app_assoc, take_take_drop in H. apply IH in H; [done|lia].
  - by apply IH in H.
  - injection H as <- <-. exists d. auto with lia.
Qed.

Lemma FullWrite_whole buf f : FullWrite buf [IoBytes (length buf)] 0 f = Some (Ret tt, f ++ buf).
Proof.
  cbn [FullWrite]. destruct (Nat.leb_spec (length buf) 0).
  - assert (buf = []) as -> by (destruct buf; [done|cbn in *; lia]). by rewrite app_nil_r.
  - rewrite Nat.sub_0_r, Nat.min_id, drop_0, firstn_all. cbn [FullWrite Nat.add].
    by rewrite Nat.leb_refl.
Qed.

Lemma AppendRecord_run t txn oid pid pl lm :
  AppendRecord t txn oid pid pl lm =
    (Ret (next_lsn_ lm),
     set_wal (wal lm ++ record_buffer (next_lsn_ lm) t txn oid pid pl) (set_next_lsn (u64 (next_lsn_ lm + 1)) lm)).
Proof. unfold AppendRecord, AppendRecord_sys. cbn [wal set_next_lsn]. by rewrite FullWrite_whole. Qed.

(** The log holds exactly the records [rs], numbered from 1. *)
Record log_holds (lm : LogManager) (rs : list LogRecord) : Prop := mkLogHolds {
  lh_wal : wal lm = encode_log rs;
  lh_ok : Forall record_ok rs;
  lh_lsn i r : rs !! i = Some r -> r_lsn r = Z.of_nat i + 1;
  lh_next : next_lsn_ lm = zlen rs + 1;
  lh_max : next_lsn_ lm < 2 ^ 64;
  lh_synced : 0 <= synced lm <= zlen (wal lm)
}.

(** The record an [Append*] call writes. *)
Definition new_record (lm : LogManager) (t : LogRecordType) (txn oid pid : Z) (image : bytes) : LogRecord :=
  mkRecord (next_lsn_ lm) t txn oid pid (match t with kUpdate => image | _ => zero_page end).

Lemma AppendRecord_holds lm rs t txn oid pid pl r :
  log_holds lm rs -> next_lsn_ lm + 1 < 2 ^ 64 -> r = new_record lm t txn oid pid pl -> record_ok r -> payload r = pl ->
  exists lm', AppendRecord t txn oid pid pl lm = (Ret (next_lsn_ lm), lm') /\ log_holds lm' (rs ++ [r]) /\
    wal lm' = wal lm ++ encode r /\ next_lsn_ lm' = next_lsn_ lm + 1 /\ synced lm' = synced lm /\
    durable_lsn_ lm' = durable_lsn_ lm /\ flush_in_progress_ lm' = flush_in_progress_ lm /\
    records_on_open_ lm' = records_on_open_ lm.
Proof.
  intros [Hw Hok Hl Hn Hb Hs] Hmax Hr Hrok Hp. rewrite AppendRecord_run.
  assert (record_buffer (next_lsn_ lm) t txn oid pid pl = encode r) as ->.
  { unfold encode. rewrite Hp. by rewrite Hr. }
  assert (u64 (next_lsn_ lm + 1) = next_lsn_ lm + 1) as -> by (apply Z.mod_small; pose proof (zlen_nonneg rs); lia).
  eexists. split; [done|]. split_and!; try done. split; cbn.
  - by rewrite Hw, encode_log_app, encode_log_cons, app_nil_r.
  - apply Forall_app. auto.
  - intros i r'. rewrite lookup_app_Some, list_lookup_singleton_Some. intros [?|[? [? <-]]]; [auto|].
    rewrite Hr. cbn. rewrite Hn. unfold zlen. lia.
  - rewrite zlen_app. change (zlen [r]) with 1. lia.
  - lia.
  - rewrite zlen_app. pose proof (zlen_nonneg (encode r)). lia.
Qed.

(** Reopening after a crash. *)
Lemma reopen lm rs data :
  log_holds lm rs -> crash_wal lm data ->
  exists k, (k <= length rs)%nat /\ log_holds (OpenLogManager data) (take k rs) /\
    records_on_open_ (OpenLogManager data) = take k rs /\
    synced (OpenLogManager data) = zlen (encode_log (take k rs)) /\
    zlen (encode_log (take k rs)) <= zlen data /\
    (forall r, rs !! k = Some r -> zlen data < zlen (encode_log (take (S k) rs))).
Proof.
  intros [Hw Hok Hl Hn Hb Hs] (n & Hcr & ->). rewrite Hw in *.
  destruct (log_prefix rs n Hok) as (k & Hk & Hle & Hmax & tail & Ht & Hscan); [lia|].
  exists k. rewrite Ht. assert (Forall record_ok (take k rs)) as Hok' by (by apply Forall_take).
  assert (forall i r, take k rs !! i = Some r -> r_lsn r = Z.of_nat i + 1) as Hl'.
  { intros i r Hr. apply Hl. rewrite lookup_take_Some in Hr. naive_solver. }
  rewrite (OpenLogManager_run _ _ Hok' Hscan). split_and!; try done.
  - assert (match last (take k rs) with Some r => u64 (r_lsn r + 1) | None => 1 end = zlen (take k rs) + 1) as Hnext.
    2: { split; cbn [wal next_lsn_ synced]; rewrite ?Hnext; [done..| |split; [apply zlen_nonneg|lia]].
         unfold zlen in *. rewrite length_take. lia. }
    assert (zlen (take k rs) <= zlen rs) as Hz by (unfold zlen; rewrite length_take; lia).
    destruct (last (take k rs)) as [r|] eqn:El.
    + rewrite last_lookup in El. pose proof (Hl' _ _ El) as Hr. apply lookup_lt_Some in El.
      rewrite Hr. unfold zlen in *. unfold u64. rewrite Z.mod_small by lia. lia.
    + apply last_None in El. by rewrite El.
  - rewrite zlen_app. pose proof (zlen_nonneg tail). lia.
  - rewrite <- Ht. intros r Hr. assert (zlen (take (Z.to_nat n) (encode_log rs)) = n) as -> by (unfold zlen in *; rewrite length_take; lia).
    specialize (Hmax r Hr). rewrite (take_S_r _ _ _ Hr), encode_log_app, zlen_app, encode_log_cons, app_nil_r. lia.
Qed.

(** ** FlushThrough, one thread *)

Lemma FlushThrough_run lm target :
  flush_in_progress_ lm = false ->
  FlushThrough true target lm =
    (Ret tt, if durable_lsn_ lm <? target
             then set_durable (Z.max (durable_lsn_ lm) (Z.max target (u64 (next_lsn_ lm - 1)))) (set_synced (zlen (wal lm)) lm)
             else lm).
Proof.
  intros Hf. destruct lm as [w s n ro d f]. cbn in Hf. subst f. unfold FlushThrough. cbn [FlushThrough_loop durable_lsn_].
  destruct (Z.ltb_spec d target) as [Hlt|]; cbn [negb]; [|done]. cbn.
  unfold NextLsn. cbn.
  destruct (Z.ltb_spec (Z.max d (Z.max target (u64 (n - 1)))) target); [lia|]. done.
Qed.

Lemma FlushThrough_fails lm target :
  flush_in_progress_ lm = false -> durable_lsn_ lm < target -> FlushThrough false target lm = (Throw RuntimeError, lm).
Proof.
  intros Hf Hd. destruct lm as [w s n ro d f]. cbn in *. subst f. unfold FlushThrough. cbn [FlushThrough_loop durable_lsn_].
  destruct (Z.ltb_spec d target) as [Hlt|]; cbn [negb]; [|lia]. done.
Qed.

(** ** Group commit: any number of threads in FlushThrough *)

(** Where a thread is in [FlushThrough target]: about to test the loop's
    condition, asleep on [flush_cv_], in [fsync] (with the LSN it will publish
    and the bytes written when it started), or out of the call. *)
Inductive flusher :=
| Testing (target : Lsn)
| Waiting (target : Lsn)
| Syncing (target to_cover : Lsn) (written : Z)
| Returned (target : Lsn)
| Failed.

Record flush_system := mkFS {
  fs_log : LogManager;
  fs_threads : gmap Z flusher
}.

(** [flush_cv_.notify_all()]. *)
Definition notify_flusher (f : flusher) : flusher :=
  match f with Waiting target => Testing target | _ => f end.

(** One turn of the loop, under [flush_mutex_]. *)
Definition flush_turn (th : Z) (target : Lsn) (s : flush_system) : flush_system :=
  let lm := fs_log s in
  if negb (durable_lsn_ lm <? target) then mkFS lm (<[th := Returned target]> (fs_threads s))
  else if flush_in_progress_ lm then mkFS lm (<[th := Waiting target]> (fs_threads s))
  else mkFS (set_flushing true lm)
         (<[th := Syncing target (Z.max target (u64 (NextLsn lm - 1))) (zlen (wal lm))]> (fs_threads s)).

(** [fsync] has answered: publish, wake everyone, re-test or rethrow. It covers
    at least what was written when it was called. *)
Definition flush_done (fsync_ok : bool) (th : Z) (target to_cover : Lsn) (written : Z) (s : flush_system) : flush_system :=
  let lm := set_flushing false (fs_log s) in
  if fsync_ok then
    mkFS (set_durable (Z.max (durable_lsn_ lm) to_cover) (set_synced (Z.max (synced lm) written) lm))
         (<[th := Testing target]> (notify_flusher <$> fs_threads s))
  else mkFS lm (<[th := Failed]> (notify_flusher <$> fs_threads s)).

(** The thread is not inside [FlushThrough]. *)
Definition outside (o : option flusher) : Prop :=
  match o with None | Some (Returned _) | Some Failed => True | _ => False end.

Inductive fs_step (s : flush_system) : flush_system -> Prop :=
| fs_append r lm' :
    next_lsn_ (fs_log s) + 1 < 2 ^ 64 -> r = new_record (fs_log s) (r_type r) (r_txn_id r) (r_object_id r) (r_page_id r) (r_page_image r) ->
    record_ok r ->
    AppendRecord (r_type r) (r_txn_id r) (r_object_id r) (r_page_id r) (payload r) (fs_log s) = (Ret (r_lsn r), lm') ->
    fs_step s (mkFS lm' (fs_threads s))
| fs_call th target :
    outside (fs_threads s !! th) -> 0 < target < next_lsn_ (fs_log s) ->
    fs_step s (mkFS (fs_log s) (<[th := Testing target]> (fs_threads s)))
| fs_turn th target :
    fs_threads s !! th = Some (Testing target) -> fs_step s (flush_turn th target s)
| fs_wake th target :
    fs_threads s !! th = Some (Waiting target) -> fs_step s (mkFS (fs_log s) (<[th := Testing target]> (fs_threads s)))
| fs_fsync ok th target to_cover written :
    fs_threads s !! th = Some (Syncing target to_cover written) -> fs_step s (flush_done ok th target to_cover written s).

(** Every record up to [l] ends within the first [n] bytes. *)
Definition covers (rs : list LogRecord) (l : Lsn) (n : Z) : Prop :=
  forall i r, rs !! i = Some r -> r_lsn r <= l -> zlen (encode_log (take (S i) rs)) <= n.

(** What is known of a thread inside [FlushThrough]. *)
Definition flusher_ok (lm : LogManager) (rs : list LogRecord) (f : flusher) : Prop :=
  match f with
  | Testing target => target < next_lsn_ lm
  | Waiting target => target < next_lsn_ lm /\ flush_in_progress_ lm = true
  | Syncing target to_cover written =>
      covers rs to_cover written /\ written <= zlen (wal lm) /\ target <= to_cover < next_lsn_ lm /\ flush_in_progress_ lm = true
  | Returned target => target <= durable_lsn_ lm
  | Failed => True
  end.

Definition is_syncing (f : flusher) : Prop := exists target to_cover written, f = Syncing target to_cover written.

Record fs_inv (s : flush_system) (rs : list LogRecord) : Prop := mkFsInv {
  fi_log : log_holds (fs_log s) rs;
  fi_covers : covers rs (durable_lsn_ (fs_log s)) (synced (fs_log s));
  fi_durable : durable_lsn_ (fs_log s) < next_lsn_ (fs_log s);
  fi_threads th f : fs_threads s !! th = Some f -> flusher_ok (fs_log s) rs f;
  fi_flushing : flush_in_progress_ (fs_log s) = true -> exists th f, fs_threads s !! th = Some f /\ is_syncing f;
  fi_unique th1 th2 f1 f2 : fs_threads s !! th1 = Some f1 -> fs_threads s !! th2 = Some f2 ->
    is_syncing f1 -> is_syncing f2 -> th1 = th2
}.

Lemma covers_all rs l : covers rs l (zlen (encode_log rs)).
Proof.
  intros i r Hi _. rewrite <- (take_drop (S i) rs) at 2. rewrite encode_log_app, zlen_app.
  pose proof (zlen_nonneg (encode_log (drop (S i) rs))). lia.
Qed.

Lemma covers_snoc rs r l n : covers rs l n -> l < r_lsn r -> covers (rs ++ [r]) l n.
Proof.
  intros Hc Hlt i r' Hi Hle. rewrite lookup_app_Some, list_lookup_singleton_Some in Hi.
  destruct Hi as [Hi|[_ [_ <-]]]; [|lia]. rewrite take_app_le by (apply lookup_lt_Some in Hi; lia). eauto.
Qed.

Lemma covers_mono rs l n n' : n <= n' -> covers rs l n -> covers rs l n'.
Proof. intros Hn Hc i r Hi Hle. specialize (Hc i r Hi Hle). lia. Qed.

Lemma covers_max rs l1 n1 l2 n2 : covers rs l1 n1 -> covers rs l2 n2 -> covers rs (Z.max l1 l2) (Z.max n1 n2).
Proof.
  intros H1 H2 i r Hi Hle. destruct (decide (r_lsn r <= l1)); [specialize (H1 i r Hi); lia|].
  specialize (H2 i r Hi). lia.
Qed.

(** Moving one thread between two states outside [fsync]. *)
Lemma fs_inv_move s rs th f :
  fs_inv s rs -> ~ is_syncing f -> (forall f0, fs_threads s !! th = Some f0 -> ~ is_syncing f0) ->
  flusher_ok (fs_log s) rs f -> fs_inv (mkFS (fs_log s) (<[th := f]> (fs_threads s))) rs.
Proof.
  intros [H1 H2 H3 H4 H5 H6] Hf Hold Hok. split; cbn; try done.
  - intros th' f'. rewrite lookup_insert_Some. intros [[<- <-]|[_ ?]]; [done|eauto].
  - intros Hp. destruct (H5 Hp) as (th' & f' & Hf' & Hs). exists th', f'. split; [|done].
    rewrite lookup_insert_ne; [done|]. intros ->. by eapply Hold.
  - intros th1 th2 f1 f2. rewrite !lookup_insert_Some. intros [[<- <-]|[_ Hl1]] [[<- <-]|[_ Hl2]]; [done|done|done|].
    by eapply H6.
Qed.

Lemma not_syncing f : (forall t c w, f <> Syncing t c w) -> ~ is_syncing f.
Proof. intros H (t & c & w & E). by eapply H. Qed.

Lemma log_holds_flags lm rs d b : log_holds lm rs -> log_holds (set_durable d lm) rs /\ log_holds (set_flushing b lm) rs.
Proof. intros []. by split. Qed.

Lemma flush_turn_inv th target s rs :
  fs_inv s rs -> fs_threads s !! th = Some (Testing target) -> fs_inv (flush_turn th target s) rs.
Proof.
  intros Hinv Hth.
  assert (forall f0, fs_threads s !! th = Some f0 -> ~ is_syncing f0) as Hold.
  { intros f0. rewrite Hth. intros [= <-]. by apply not_syncing. }
  pose proof (fi_threads _ _ Hinv _ _ Hth) as Hlt. cbn in Hlt. unfold flush_turn.
  destruct (Z.ltb_spec (durable_lsn_ (fs_log s)) target) as [Hd|Hd]; cbn [negb].
  2: { apply fs_inv_move; [done|by apply not_syncing|done|done]. }
  destruct (flush_in_progress_ (fs_log s)) eqn:Ef.
  { apply fs_inv_move; [done|by apply not_syncing|done|done]. }
  destruct Hinv as [H1 H2 H3 H4 H5 H6].
  assert (forall th' f, fs_threads s !! th' = Some f -> ~ is_syncing f) as Hnone.
  { intros th' f Hf (t & c & w & ->). apply H4 in Hf as (_ & _ & _ & Hf). congruence. }
  split; cbn; [by apply log_holds_flags|done|done|..].
  - intros th' f'. rewrite lookup_insert_Some. intros [[<- <-]|[_ Hf]].
    + cbn. rewrite (lh_wal _ _ H1). split_and!; [apply covers_all|lia| | |done].
      * lia.
      * unfold NextLsn. pose proof (lh_next _ _ H1). pose proof (lh_max _ _ H1). pose proof (zlen_nonneg rs).
        unfold u64. rewrite Z.mod_small by lia. lia.
    + apply H4 in Hf. destruct f'; cbn in *; intuition congruence.
  - intros _. eexists th, _. rewrite lookup_insert_eq. split; [done|]. unfold is_syncing. eauto.
  - intros th1 th2 f1 f2. rewrite !lookup_insert_Some. intros [[<- <-]|[_ Hl1]] [[<- <-]|[_ Hl2]] Hs1 Hs2; [done|..].
    + by destruct (Hnone _ _ Hl2).
    + by destruct (Hnone _ _ Hl1).
    + by destruct (Hnone _ _ Hl1).
Qed.

Lemma notify_not_syncing threads th f th' (f1 : flusher) :
  (notify_flusher <$> threads : gmap Z flusher) !! th' = Some f1 -> threads !! th = Some f -> th <> th' ->
  exists f0, threads !! th' = Some f0 /\ f1 = notify_flusher f0 /\ (is_syncing f1 <-> is_syncing f0).
Proof.
  rewrite lookup_fmap, fmap_Some. intros (f0 & Hf0 & ->) _ _. exists f0. split_and!; [done|done|].
  destruct f0; cbn; try done. by split; intros (? & ? & ? & ?).
Qed.

Lemma flush_done_inv ok th target to_cover written s rs :
  fs_inv s rs -> fs_threads s !! th = Some (Syncing target to_cover written) ->
  fs_inv (flush_done ok th target to_cover written s) rs.
Proof.
  intros [H1 H2 H3 H4 H5 H6] Hth. pose proof (H4 _ _ Hth) as (Hc & Hw & Hb & Hf).
  assert (forall th' f0, th <> th' -> fs_threads s !! th' = Some f0 -> ~ is_syncing f0) as Hothers.
  { intros th' f0 Hne Hf0 Hs. apply Hne. eapply H6; [exact Hth|exact Hf0|unfold is_syncing; eauto|done]. }
  set (lm := set_flushing false (fs_log s)). set (th_new := if ok then Testing target else Failed).
  set (lm' := if ok then set_durable (Z.max (durable_lsn_ lm) to_cover) (set_synced (Z.max (synced lm) written) lm) else lm).
  assert (flush_done ok th target to_cover written s = mkFS lm' (<[th := th_new]> (notify_flusher <$> fs_threads s))) as ->.
  { unfold flush_done. by destruct ok. }
  assert (forall th' f', (<[th := th_new]> (notify_flusher <$> fs_threads s) : gmap Z flusher) !! th' = Some f' ->
    ~ is_syncing f' /\ (th' = th /\ f' = th_new \/ exists f0, th <> th' /\ fs_threads s !! th' = Some f0 /\ f' = notify_flusher f0)) as Hcases.
  { intros th' f'. rewrite lookup_insert_Some. intros [[<- <-]|[Hne Hf']].
    - split; [subst th_new; destruct ok; by apply not_syncing|by left].
    - destruct (notify_not_syncing _ _ _ _ _ Hf' Hth Hne) as (f0 & Hf0 & -> & Hiff).
      split; [rewrite Hiff; by eapply Hothers|right; eauto]. }
  split; cbn [fs_log fs_threads].
  - subst lm' lm. pose proof (proj2 (log_holds_flags _ _ 0 false H1)) as Hh. destruct ok; [|done].
    refine (proj1 (log_holds_flags _ _ _ true _)). destruct Hh as [? ? ? ? ? ?]. split; cbn in *; try done. lia.
  - subst lm' lm. destruct ok; [|done]. by apply covers_max.
  - subst lm' lm. destruct ok; cbn; lia.
  - intros th' f' Hf'. destruct (Hcases _ _ Hf') as [_ [[-> ->]|(f0 & Hne & Hf0 & ->)]].
    + subst th_new lm' lm. destruct ok; cbn; [lia|done].
    + pose proof (Hothers _ _ Hne Hf0) as Hns. apply H4 in Hf0. subst lm' lm.
      destruct f0; cbn in *; destruct ok; cbn; try tauto; try lia.
      all: exfalso; apply Hns; unfold is_syncing; eauto.
  - intros Hp. exfalso. subst lm' lm. by destruct ok.
  - intros th1 th2 f1 f2 Hf1 _ Hs1. by destruct (Hcases _ _ Hf1) as [? _].
Qed.

Lemma fs_step_inv s s' rs : fs_inv s rs -> fs_step s s' -> exists rs', fs_inv s' rs' /\ rs `prefix_of` rs'.
Proof.
  intros Hinv Hstep. destruct Hstep as [r lm' Hmax Hr Hok Ha|th target Hout Ht|th target Hth|th target Hth|ok th target c w Hth].
  - exists (rs ++ [r]). split; [|by apply prefix_app_r]. destruct Hinv as [H1 H2 H3 H4 H5 H6].
    destruct (AppendRecord_holds _ _ (r_type r) (r_txn_id r) (r_object_id r) (r_page_id r) (payload r) r H1 Hmax)
      as (lm2 & Ha2 & Hh & Hw & Hn & Hs & Hd & Hf & _); [|done|done|].
    { rewrite Hr at 1. unfold new_record, payload. by destruct (r_type r). }
    rewrite Ha2 in Ha. injection Ha as Hlsn <-.
    assert (forall l n, l < next_lsn_ (fs_log s) -> covers rs l n -> covers (rs ++ [r]) l n) as Hsn.
    { intros l n Hl Hc. apply covers_snoc; [done|lia]. }
    split; cbn; [done|rewrite Hd, Hs; auto|lia| |by rewrite Hf|done].
    intros th f Hth. apply H4 in Hth. pose proof (zlen_nonneg (encode r)).
    destruct f; cbn in *; rewrite ?Hn, ?Hd, ?Hf, ?Hw, ?zlen_app; try tauto; try lia.
    + split; [lia|apply Hth].
    + destruct Hth as (? & ? & ? & ?). split_and!; [apply Hsn; [lia|done]|lia..|done].
  - exists rs. split; [|done]. apply fs_inv_move; [done|by apply not_syncing| |cbn; lia].
    intros f0 Hf0. rewrite Hf0 in Hout. by destruct f0; [..|apply not_syncing|apply not_syncing].
  - exists rs. split; [|done]. by apply flush_turn_inv.
  - exists rs. split; [|done]. apply fs_inv_move; [done|by apply not_syncing| |].
    + intros f0. rewrite Hth. intros [= <-]. by apply not_syncing.
    + apply (fi_threads _ _ Hinv) in Hth. apply Hth.
  - exists rs. split; [|done]. by apply flush_done_inv.
Qed.

Lemma fs_inv_start lm rs :
  log_holds lm rs -> durable_lsn_ lm = 0 -> flush_in_progress_ lm = false -> fs_inv (mkFS lm ∅) rs.
Proof.
  intros H Hd Hf. split; cbn; try done.
  - rewrite Hd. intros i r Hi. rewrite (lh_lsn _ _ H _ _ Hi). lia.
  - rewrite Hd, (lh_next _ _ H). pose proof (zlen_nonneg rs). lia.
  - congruence.
Qed.

Lemma fs_steps_inv s s' rs : fs_inv s rs -> steps fs_step s s' -> exists rs', fs_inv s' rs' /\ rs `prefix_of` rs'.
Proof.
  intros H Hs. induction Hs as [|s2 s3 _ (rs2 & H2 & Hp) Hst]; [by exists rs|].
  destruct (fs_step_inv _ _ _ H2 Hst) as (rs3 & H3 & Hp3). exists rs3. split; [done|by etrans].
Qed.

Lemma encode_log_take_mono rs a b : (a <= b)%nat -> zlen (encode_log (take a rs)) <= zlen (encode_log (take b rs)).
Proof.
  intros Hab. rewrite <- (take_drop a (take b rs)), take_take, Nat.min_l by done. rewrite encode_log_app, zlen_app.
  pose proof (zlen_nonneg (encode_log (drop a (take b rs)))). lia.
Qed.

Lemma crash_wal_len lm data : crash_wal lm data -> synced lm <= zlen data.
Proof. intros (n & Hn & ->). unfold zlen in *. rewrite length_take. lia. Qed.

(** What a crash keeps of the log: everything covered by [synced]. *)
Lemma reopen_keeps lm rs data i r :
  log_holds lm rs -> crash_wal lm data -> rs !! i = Some r -> zlen (encode_log (take (S i) rs)) <= synced lm ->
  r ∈ records_on_open_ (OpenLogManager data).
Proof.
  intros Hh Hcr Hi Hsy. destruct (reopen lm rs data Hh Hcr) as (k & Hk & _ & -> & _ & _ & Hmax).
  destruct (decide (i < k)%nat) as [Hlt|Hge].
  - apply list_elem_of_lookup. exists i. by rewrite lookup_take_lt.
  - pose proof (lookup_lt_Some _ _ _ Hi). destruct (lookup_lt_is_Some_2 rs k) as [x Hx]; [lia|].
    specialize (Hmax x Hx). pose proof (encode_log_take_mono rs (S k) (S i)). pose proof (crash_wal_len lm data Hcr). lia.
Qed.

(** ** The contract of the log *)

(** C12: reopening after a crash. Whatever prefix of the unsynced bytes the
    crash leaves, the constructor returns exactly a prefix of the records
    appended, drops the torn one, truncates the file to those records, and
    hands out the LSN that continues them; no record covered by a successful
    [fsync] is lost, and the reopened log is again one the theorem applies
    to. *)
Theorem reopen_recovers_prefix (lm : LogManager) (rs : list LogRecord) (data : bytes) :
  log_holds lm rs -> crash_wal lm data ->
  exists k, records_on_open_ (OpenLogManager data) = take k rs /\
    wal (OpenLogManager data) = encode_log (take k rs) /\
    log_holds (OpenLogManager data) (take k rs) /\
    NextLsn (OpenLogManager data) = zlen (take k rs) + 1 /\
    forall i r, rs !! i = Some r -> zlen (encode_log (take (S i) rs)) <= synced lm ->
      r ∈ records_on_open_ (OpenLogManager data).
Proof.
  intros Hh Hcr. destruct (reopen lm rs data Hh Hcr) as (k & _ & Hh' & Hr & _).
  exists k. split_and!; [done|apply Hh'|done|apply Hh'|]. intros i r Hi Hs. by eapply (reopen_keeps lm rs data i r).
Qed.

Definition begin1 : LogRecord := mkRecord 1 kBegin 7 INVALID_OBJECT_ID INVALID_PAGE_ID zero_page.
Definition commit2 : LogRecord := mkRecord 2 kCommit 7 INVALID_OBJECT_ID INVALID_PAGE_ID zero_page.

Lemma begin1_ok : record_ok begin1.
Proof. split; [by vm_compute; split..|apply zlen_zero_page|done]. Qed.

Lemma commit2_ok : record_ok commit2.
Proof. split; [by vm_compute; split..|apply zlen_zero_page|done]. Qed.

(** A log of a Begin and a Commit record whose last 33 bytes are not synced. *)
Definition half_synced : LogManager := mkLog (encode_log [begin1; commit2]) 33 3 [] 0 false.

Lemma half_synced_holds : log_holds half_synced [begin1; commit2].
Proof.
  split; [done|constructor; [apply begin1_ok|constructor; [apply commit2_ok|constructor]]|..].
  - intros [|[|i]] r; cbn; intros H; try done; by injection H as <-.
  - done.
  - done.
  - vm_compute. split; discriminate.
Qed.

Lemma reopen_recovers_prefix_witness :
  let data := take 40 (encode_log [begin1; commit2]) in
  crash_wal half_synced data /\ begin1 ∈ records_on_open_ (OpenLogManager data).
Proof.
  intros data. assert (crash_wal half_synced data) as Hcr.
  { exists 40. split; [vm_compute; split; discriminate|reflexivity]. }
  split; [exact Hcr|].
  destruct (reopen_recovers_prefix half_synced _ data half_synced_holds Hcr) as (k & _ & _ & _ & _ & H).
  apply (H 0%nat); [reflexivity|vm_compute; discriminate].
Defined.

(** C27: changing any single byte of a record anywhere in the log (header,
    page image or checksum) makes the scan stop right before that record: it
    is never replayed with wrong content, the records before it are all
    returned, and the file is cut there. *)
Theorem corrupt_record_rejected (rs : list LogRecord) (r : LogRecord) (i : nat) (b b' : byte) (rest : bytes) :
  Forall record_ok rs -> record_ok r -> encode r !! i = Some b -> b <> b' ->
  let lm := OpenLogManager (encode_log rs ++ <[i := b']> (encode r) ++ rest) in
  records_on_open_ lm = rs /\ wal lm = encode_log rs.
Proof.
  intros Hrs Hr Hi Hne lm. subst lm. rewrite OpenLogManager_run; [done|done|]. by eapply scan_record_corrupt.
Qed.

Lemma corrupt_record_rejected_witness :
  records_on_open_ (OpenLogManager (encode_log [begin1] ++ <[8%nat := x03]> (encode begin1) ++ [])) = [begin1].
Proof.
  apply (corrupt_record_rejected [begin1] begin1 8 x01 x03 []);
    [constructor; [apply begin1_ok|constructor]|apply begin1_ok|vm_compute; reflexivity|discriminate].
Defined.

(** C23: group commit is safe. Any number of threads append records and run
    [FlushThrough] concurrently, with [fsync] succeeding or failing at will;
    once a thread's [FlushThrough target] has returned, every record with an
    LSN up to [target], whoever appended it and whoever's [fsync] covered it,
    is found again after a crash that keeps only what was synced. *)
Theorem group_commit_durable (lm : LogManager) (rs : list LogRecord) (s : flush_system) (th : Z) (target : Lsn) (data : bytes) :
  log_holds lm rs -> durable_lsn_ lm = 0 -> flush_in_progress_ lm = false ->
  steps fs_step (mkFS lm ∅) s ->
  fs_threads s !! th = Some (Returned target) -> crash_wal (fs_log s) data ->
  exists rs', rs `prefix_of` rs' /\ log_holds (fs_log s) rs' /\
    forall r, r ∈ rs' -> r_lsn r <= target -> r ∈ records_on_open_ (OpenLogManager data).
Proof.
  intros Hh Hd Hf Hs Hth Hcr.
  destruct (fs_steps_inv _ _ _ (fs_inv_start lm rs Hh Hd Hf) Hs) as (rs' & Hinv & Hp).
  exists rs'. split_and!; [done|apply Hinv|]. intros r Hr Hle.
  apply list_elem_of_lookup in Hr as [i Hi].
  pose proof (fi_threads _ _ Hinv _ _ Hth) as Hdur. cbn in Hdur.
  eapply reopen_keeps; [apply Hinv|done|exact Hi|]. apply (fi_covers _ _ Hinv _ _ Hi). lia.
Qed.

(** Thread 0 flushes the unsynced Commit record of [half_synced]. *)
Definition one_flush : flush_system :=
  let s1 := mkFS half_synced {[0 := Testing 2]} in
  let s2 := flush_turn 0 2 s1 in
  let s3 := flush_done true 0 2 2 66 s2 in
  flush_turn 0 2 s3.

Lemma one_flush_steps : steps fs_step (mkFS half_synced ∅) one_flush.
Proof.
  unfold one_flush. eapply steps_snoc; [eapply steps_snoc; [eapply steps_snoc; [apply steps_one|]|]|].
  - apply (fs_call _ 0 2); cbn; [done|lia].
  - apply (fs_turn _ 0 2). vm_compute. reflexivity.
  - apply (fs_fsync _ true 0 2 2 66). vm_compute. reflexivity.
  - apply (fs_turn _ 0 2). vm_compute. reflexivity.
Qed.

Lemma group_commit_durable_witness :
  fs_threads one_flush !! 0 = Some (Returned 2) /\
  exists rs', [begin1; commit2] `prefix_of` rs' /\
    forall r, r ∈ rs' -> r_lsn r <= 2 -> r ∈ records_on_open_ (OpenLogManager (wal (fs_log one_flush))).
Proof.
  assert (fs_threads one_flush !! 0 = Some (Returned 2)) as Hth by (vm_compute; reflexivity).
  split; [exact Hth|].
  destruct (group_commit_durable half_synced [begin1; commit2] one_flush 0 2 (wal (fs_log one_flush)))
    as (rs' & Hp & _ & H).
  - apply half_synced_holds.
  - reflexivity.
  - reflexivity.
  - apply one_flush_steps.
  - exact Hth.
  - exists 66. split; [vm_compute; split; discriminate|]. vm_compute. reflexivity.
  - exists rs'. split; assumption.
Defined.

(** No thread is left asleep in [FlushThrough]. In every reachable state
    with a thread waiting on [flush_cv_], some other thread is inside [fsync],
    and whether that [fsync] succeeds or fails its completion wakes the
    waiter, which re-tests its own target. *)
Lemma flush_waiter_woken (lm : LogManager) (rs : list LogRecord) (s : flush_system) (th : Z) (target : Lsn) :
  log_holds lm rs -> durable_lsn_ lm = 0 -> flush_in_progress_ lm = false ->
  steps fs_step (mkFS lm ∅) s -> fs_threads s !! th = Some (Waiting target) ->
  exists th' t c w, th' <> th /\ fs_threads s !! th' = Some (Syncing t c w) /\
    forall ok, fs_threads (flush_done ok th' t c w s) !! th = Some (Testing target).
Proof.
  intros Hh Hd Hf Hs Hth.
  destruct (fs_steps_inv _ _ _ (fs_inv_start lm rs Hh Hd Hf) Hs) as (rs' & Hinv & _).
  pose proof (fi_threads _ _ Hinv _ _ Hth) as [_ Hfl].
  destruct (fi_flushing _ _ Hinv Hfl) as (th' & f & Hf' & t & c & w & ->).
  assert (th' <> th) as Hne by (intros ->; congruence).
  exists th', t, c, w. split_and!; [done..|]. intros ok. unfold flush_done.
  destruct ok; cbn; rewrite lookup_insert_ne, lookup_fmap, Hth by done; done.
Qed.

(** Thread 0 is in [fsync], thread 1 waits for it. *)
Definition two_flushers : flush_system :=
  flush_turn 1 1 (mkFS (fs_log (flush_turn 0 2 (mkFS half_synced {[0 := Testing 2]})))
    (<[1 := Testing 1]> (fs_threads (flush_turn 0 2 (mkFS half_synced {[0 := Testing 2]}))))).

Lemma flush_waiter_woken_witness :
  fs_threads two_flushers !! 1 = Some (Waiting 1) /\
  exists th' t c w, th' <> 1 /\ fs_threads two_flushers !! th' = Some (Syncing t c w).
Proof.
  assert (fs_threads two_flushers !! 1 = Some (Waiting 1)) as Hth by (vm_compute; reflexivity).
  split; [exact Hth|].
  destruct (flush_waiter_woken half_synced [begin1; commit2] two_flushers 1 1) as (th' & t & c & w & H1 & H2 & _).
  - apply half_synced_holds.
  - reflexivity.
  - reflexivity.
  - unfold two_flushers. eapply steps_snoc; [eapply steps_snoc; [eapply steps_snoc; [apply steps_one|]|]|].
    + apply (fs_call _ 0 2); cbn; [done|lia].
    + apply (fs_turn _ 0 2). vm_compute. reflexivity.
    + apply (fs_call _ 1 1); [vm_compute; exact I|vm_compute; split; reflexivity].
    + apply (fs_turn _ 1 1). vm_compute. reflexivity.
  - exact Hth.
  - exists th', t, c, w. split; assumption.
Defined.

(** ** Two ways a returned commit can be lost *)

(** What a transaction's commit does to the log when it dirtied nothing. *)
Definition log_commit (txn_id : TxnId) : M LogManager unit :=
  AppendBegin txn_id;;
  commit_lsn ← AppendCommit txn_id;
  FlushThrough true commit_lsn.

(** [Checkpoint] resets [next_lsn_] to 1 but leaves [durable_lsn_]: a
    commit after a checkpoint whose LSN is not above the old [durable_lsn_]
    returns from [FlushThrough] without any [fsync], and a crash can then
    leave an empty log. *)
Theorem checkpoint_skips_fsync :
  exists lm, (log_commit 1;; Checkpoint;; log_commit 2) (OpenLogManager []) = (Ret tt, lm) /\
    crash_wal lm [] /\ records_on_open_ (OpenLogManager []) = [].
Proof.
  eexists. split; [vm_compute; reflexivity|]. split; [|done].
  exists 0. split; [vm_compute; split; discriminate|reflexivity].
Qed.

(** A [write] that fails part way leaves the bytes it wrote in the file
    and the log goes on appending after them; a later commit is reported
    durable, and all of it is synced, but on reopening the scan stops at the
    torn record and never reaches it. *)
Theorem failed_append_hides_commit :
  exists lm1 lm2, AppendRecord_sys [IoBytes 10; IoError] kBegin 1 INVALID_OBJECT_ID INVALID_PAGE_ID [] (OpenLogManager [])
      = Some (Throw RuntimeError, lm1) /\
    log_commit 2 lm1 = (Ret tt, lm2) /\ synced lm2 = zlen (wal lm2) /\
    records_on_open_ (OpenLogManager (wal lm2)) = [].
Proof. do 2 eexists. repeat (split; [vm_compute; reflexivity|]). vm_compute. reflexivity. Qed.
