(* ===== verification/Recovery.v ===== *)
(** * Recovery: redo of the committed transactions ([src/wal/recovery.{h,cpp}])

    [RunRecovery] works on the map from object ids to data files. Its effect
    on every page is stated without reference to the order of the replay: a
    page with committed update records ends up as the last of them, whatever
    the crash left in the file, and every other page is untouched. *)
From S2P Require Import Prelude Config Page LockManager DiskManager LogManager.

Abbreviation disks := (gmap ObjectId DiskManager).

(** ** Operations *)

(** [disk_managers_by_object.at(object_id)->...]. *)
Definition at_object {A} (object_id : ObjectId) (m : M DiskManager A) : M disks A := fun ds =>
  match ds !! object_id with
  | None => (Throw OutOfRange, ds)
  | Some d => let '(o, d') := m d in (o, <[object_id := d']> ds)
  end.

Definition committed_txns (records : list LogRecord) : gset TxnId :=
  foldl (fun committed record =>
           if bool_decide (r_type record = kCommit) then {[r_txn_id record]} ∪ committed else committed) ∅ records.

(** The body of the second pass. *)
Definition replay (committed : gset TxnId) (replayed : Z) (record : LogRecord) : M disks Z :=
  if negb (bool_decide (r_type record = kUpdate)) then mret replayed else
  if negb (bool_decide (r_txn_id record ∈ committed)) then mret replayed else
  at_object (r_object_id record) (WritePage (r_page_id record) (r_page_image record));;
  mret (replayed + 1).

Definition RunRecovery (records : list LogRecord) : M disks Z :=
  fold_m (replay (committed_txns records)) 0 records.

(** ** Specification *)

Definition page_of (ds : disks) (k : PageKey) : option Page :=
  ds !! key_object k ≫= fun d => disk_page d (key_page k).

(** The page image [r] redoes at [k], if it does. *)
Definition redo_image (committed : gset TxnId) (k : PageKey) (r : LogRecord) : option Page :=
  if bool_decide (r_type r = kUpdate /\ r_txn_id r ∈ committed /\ mkPageKey (r_object_id r) (r_page_id r) = k)
  then Some (r_page_image r) else None.

(** The last committed image of [k] in the log. *)
Definition last_image (committed : gset TxnId) (rs : list LogRecord) (k : PageKey) : option Page :=
  last (omap (redo_image committed k) rs).

Definition redone (committed : gset TxnId) (r : LogRecord) : Prop := r_type r = kUpdate /\ r_txn_id r ∈ committed.

#[global] Instance redone_dec committed r : Decision (redone committed r).
Proof. unfold redone. apply _. Defined.

(** Every file is well formed, and every page to redo is allocated. *)
Record recoverable (committed : gset TxnId) (rs : list LogRecord) (ds : disks) : Prop := mkRecoverable {
  rc_disks oid d : ds !! oid = Some d -> disk_wf d;
  rc_pages r : r ∈ rs -> redone committed r ->
    is_Some (page_of ds (mkPageKey (r_object_id r) (r_page_id r))) /\ zlen (r_page_image r) = PAGE_SIZE
}.

(** ** Lemmas *)

Lemma elem_of_committed_txns rs t :
  t ∈ committed_txns rs <-> exists r, r ∈ rs /\ r_type r = kCommit /\ r_txn_id r = t.
Proof.
  unfold committed_txns.
  assert (forall acc : gset TxnId, t ∈ foldl (fun committed record =>
    if bool_decide (r_type record = kCommit) then {[r_txn_id record]} ∪ committed else committed) acc rs <->
    t ∈ acc \/ exists r, r ∈ rs /\ r_type r = kCommit /\ r_txn_id r = t) as H.
  { induction rs as [|r rs IH]; intros acc; cbn.
    - split; [auto|]. intros [?|(r & Hr & _)]; [done|by apply not_elem_of_nil in Hr].
    - rewrite IH. setoid_rewrite elem_of_cons. case_bool_decide as Hc.
      + rewrite elem_of_union, elem_of_singleton. naive_solver.
      + naive_solver. }
  rewrite H, elem_of_empty. naive_solver.
Qed.

Lemma last_image_cons committed r rs k :
  last_image committed (r :: rs) k =
    match last_image committed rs k with Some p => Some p | None => redo_image committed k r end.
Proof.
  unfold last_image. cbn. destruct (redo_image committed k r) as [p|].
  - rewrite last_cons. by destruct (last _).
  - by destruct (last _).
Qed.

Lemma at_object_WritePage oid pid p ds :
  (forall o d, ds !! o = Some d -> disk_wf d) -> is_Some (page_of ds (mkPageKey oid pid)) -> zlen p = PAGE_SIZE ->
  exists ds', at_object oid (WritePage pid p) ds = (Ret tt, ds') /\
    (forall o d, ds' !! o = Some d -> disk_wf d) /\
    forall k, page_of ds' k = if decide (k = mkPageKey oid pid) then Some p else page_of ds k.
Proof.
  intros Hwf [p0 Hp0] Hl. unfold page_of in Hp0. cbn in Hp0. destruct (ds !! oid) as [d|] eqn:Ed; [|done]. cbn in Hp0.
  destruct (WritePage_run d pid p (Hwf _ _ Ed) (disk_page_range _ _ _ Hp0) Hl) as (d' & Hw & Hwf' & _ & Hd').
  exists (<[oid := d']> ds). split_and!.
  - unfold at_object. by rewrite Ed, Hw.
  - intros o d0. rewrite lookup_insert_Some. intros [[<- <-]|[_ ?]]; [done|eauto].
  - intros [o q]. unfold page_of. cbn. destruct (decide (o = oid)) as [->|Hne].
    + rewrite lookup_insert_eq, Ed. cbn. rewrite Hd'.
      destruct (decide (q = pid)) as [->|]; [by rewrite decide_True|]. rewrite decide_False by congruence. done.
    + rewrite lookup_insert_ne by done. rewrite decide_False by congruence. done.
Qed.

Lemma replay_loop committed rs n ds :
  recoverable committed rs ds ->
  exists ds', fold_m (replay committed) n rs ds = (Ret (n + zlen (filter (redone committed) rs)), ds') /\
    (forall oid d, ds' !! oid = Some d -> disk_wf d) /\
    forall k, page_of ds' k = match last_image committed rs k with Some p => Some p | None => page_of ds k end.
Proof.
  revert n ds. induction rs as [|r rs IH]; intros n ds Hrc; cbn [fold_m].
  - exists ds. split_and!; [|apply Hrc|done]. cbn. by rewrite Z.add_0_r.
  - rewrite filter_cons. destruct (decide (redone committed r)) as [[Ht Hin]|Hno].
    + destruct (rc_pages _ _ _ Hrc r ltac:(by left) ltac:(done)) as [Hpg Hl].
      destruct (at_object_WritePage _ _ _ ds (rc_disks _ _ _ Hrc) Hpg Hl) as (ds1 & Hw & Hwf1 & Hp1).
      assert (replay committed n r ds = (Ret (n + 1), ds1)) as Hr.
      { unfold replay. rewrite !bool_decide_eq_true_2 by done. cbn [negb]. by run Hw. }
      destruct (IH (n + 1) ds1) as (ds2 & H2 & Hwf2 & Hp2).
      { split; [done|]. intros r' Hr' Hred. destruct (rc_pages _ _ _ Hrc r' ltac:(by right) Hred) as [? ?].
        split; [|done]. rewrite Hp1. by case_decide. }
      exists ds2. split_and!; [|done|].
      * run Hr. rewrite H2. do 2 f_equal. unfold zlen. cbn. lia.
      * intros k. rewrite Hp2, last_image_cons, Hp1. destruct (last_image committed rs k); [done|].
        unfold redo_image. destruct (decide (k = _)) as [->|Hne]; [by rewrite bool_decide_eq_true_2|].
        rewrite bool_decide_eq_false_2; [done|]. intros (_ & _ & ?). congruence.
    + assert (replay committed n r ds = (Ret n, ds)) as Hr.
      { unfold replay. case_bool_decide as Ht; cbn [negb]; [|done]. case_bool_decide as Hc; cbn [negb]; [|done].
        destruct Hno. done. }
      destruct (IH n ds) as (ds2 & H2 & Hwf2 & Hp2).
      { split; [apply Hrc|]. intros r' Hr'. apply (rc_pages _ _ _ Hrc). by right. }
      exists ds2. split_and!; [by run Hr|done|]. intros k. rewrite Hp2, last_image_cons.
      destruct (last_image committed rs k); [done|]. unfold redo_image.
      rewrite bool_decide_eq_false_2; [done|]. intros (? & ? & _). by destruct Hno.
Qed.

Lemma redo_image_page committed rs k p :
  last_image committed rs k = Some p ->
  exists r, r ∈ rs /\ redone committed r /\ mkPageKey (r_object_id r) (r_page_id r) = k /\ r_page_image r = p.
Proof.
  unfold last_image. rewrite last_Some. intros [l Hl].
  assert (p ∈ omap (redo_image committed k) rs) as Hin by (rewrite Hl; apply elem_of_app; right; by left).
  apply list_elem_of_omap in Hin as (r & Hr & Hi). unfold redo_image in Hi. case_bool_decide as Hc; [|done].
  injection Hi as <-. destruct Hc as (? & ? & ?). exists r. split_and!; [done|by split|done|done].
Qed.

Lemma RunRecovery_run rs ds :
  recoverable (committed_txns rs) rs ds ->
  exists ds', RunRecovery rs ds = (Ret (zlen (filter (redone (committed_txns rs)) rs)), ds') /\
    recoverable (committed_txns rs) rs ds' /\
    forall k, page_of ds' k = match last_image (committed_txns rs) rs k with Some p => Some p | None => page_of ds k end.
Proof.
  intros Hrc. destruct (replay_loop _ rs 0 ds Hrc) as (ds' & H & Hwf & Hp). exists ds'. split_and!; [done| |done].
  split; [done|]. intros r Hr Hred. destruct (rc_pages _ _ _ Hrc r Hr Hred) as [? ?]. split; [|done].
  rewrite Hp. by destruct (last_image _ _ _).
Qed.

(** The files already hold what [rs] would redo. *)
Definition settled (rs : list LogRecord) (ds : disks) : Prop :=
  recoverable (committed_txns rs) rs ds /\ forall k p, last_image (committed_txns rs) rs k = Some p -> page_of ds k = Some p.

(** Recovering [ds] with the records [rs] ends with well-formed files of
    these pages, in which recovering again finds nothing left to do. *)
Definition recovered_as (rs : list LogRecord) (ds : disks) (content : PageKey -> option Page) : Prop :=
  exists n ds', RunRecovery rs ds = (Ret n, ds') /\ settled rs ds' /\ forall k, page_of ds' k = content k.

Lemma recovered_run rs ds :
  recoverable (committed_txns rs) rs ds ->
  exists ds', RunRecovery rs ds = (Ret (zlen (filter (redone (committed_txns rs)) rs)), ds') /\ settled rs ds' /\
    forall k, page_of ds' k = match last_image (committed_txns rs) rs k with Some p => Some p | None => page_of ds k end.
Proof.
  intros Hrc. destruct (RunRecovery_run rs ds Hrc) as (ds' & H1 & H2 & H3). exists ds'. split_and!; [done| |done].
  split; [done|]. intros k p Hp. by rewrite H3, Hp.
Qed.

Lemma recovered_ext rs ds f g : (forall k, f k = g k) -> recovered_as rs ds f -> recovered_as rs ds g.
Proof. intros H (n & ds' & H1 & H2 & H3). exists n, ds'. split_and!; [done..|]. intros k. by rewrite H3. Qed.

(** Recovery opens and creates no file. *)
Lemma replay_dom committed rs n ds oid :
  is_Some ((fold_m (replay committed) n rs ds).2 !! oid) <-> is_Some (ds !! oid).
Proof.
  revert n ds. induction rs as [|r rs IH]; intros n ds; [done|]. cbn [fold_m]. unfold mbind, M_bind.
  assert (is_Some ((replay committed n r ds).2 !! oid) <-> is_Some (ds !! oid)) as Hstep.
  { unfold replay. repeat (case_bool_decide; cbn [negb]; [|done]). unfold mbind, M_bind, at_object.
    destruct (ds !! r_object_id r) as [d|] eqn:E; [|done]. destruct (WritePage _ _ d) as [[] d']; unfold mret, M_ret; cbn [snd];
      (destruct (decide (oid = r_object_id r)) as [->|]; [rewrite lookup_insert_eq, E; by split; eauto|by rewrite lookup_insert_ne]). }
  destruct (replay committed n r ds) as [[m|e|key|] ds1]; cbn [snd] in Hstep; [|exact Hstep..]. by rewrite IH.
Qed.

Lemma RunRecovery_dom rs ds r ds' oid : RunRecovery rs ds = (r, ds') -> is_Some (ds' !! oid) <-> is_Some (ds !! oid).
Proof. intros H. pose proof (replay_dom (committed_txns rs) rs 0 ds oid) as Hd. unfold RunRecovery in H. by rewrite H in Hd. Qed.

(** ** The contract of recovery *)


Definition page_a : Page := replicate (Z.to_nat PAGE_SIZE) x61.
Definition page_b : Page := replicate (Z.to_nat PAGE_SIZE) x62.

(** Transaction 1 committed page 0; transaction 2 did not commit page 1. *)
Definition sample_log : list LogRecord :=
  [mkRecord 1 kUpdate 1 5 0 page_a; mkRecord 2 kUpdate 2 5 1 page_b; mkRecord 3 kCommit 1 0 0 zero_page].

Definition sample_disks : disks := {[5 := mkDisk [zero_page; zero_page] 2]}.

Lemma sample_recoverable : recoverable (committed_txns sample_log) sample_log sample_disks.
Proof.
  split.
  - intros oid d. unfold sample_disks. intros [<- <-]%lookup_singleton_Some. split; cbn; [done|lia|]. repeat constructor; apply zlen_zero_page.
  - intros r Hr [Ht Hc]. unfold sample_log in Hr. rewrite !elem_of_cons in Hr.
    assert (forall p, zlen (replicate (Z.to_nat PAGE_SIZE) p : Page) = PAGE_SIZE) as Hrep.
    { intros p. unfold zlen. rewrite length_replicate. unfold PAGE_SIZE. lia. }
    destruct Hr as [->|[->|[->|Hr]]]; [..|by apply not_elem_of_nil in Hr]; [..|done].
    + split; [|apply Hrep]. eexists. vm_compute. reflexivity.
    + split; [|apply Hrep]. eexists. vm_compute. reflexivity.
Qed.


(** Recovery is idempotent: running it again on its own result, as after
    a crash before the next checkpoint, succeeds and changes no page of any
    file. *)
Theorem RunRecovery_idempotent (rs : list LogRecord) (ds : disks) :
  recoverable (committed_txns rs) rs ds ->
  exists n ds1 ds2, RunRecovery rs ds = (Ret n, ds1) /\ RunRecovery rs ds1 = (Ret n, ds2) /\
    forall k, page_of ds2 k = page_of ds1 k.
Proof.
  intros Hrc. destruct (RunRecovery_run rs ds Hrc) as (ds1 & H1 & Hrc1 & Hp1).
  destruct (RunRecovery_run rs ds1 Hrc1) as (ds2 & H2 & _ & Hp2).
  eexists _, ds1, ds2. split_and!; [done..|]. intros k. rewrite Hp2, Hp1. by destruct (last_image _ _ _).
Qed.

Lemma RunRecovery_idempotent_witness :
  exists ds1 ds2, RunRecovery sample_log sample_disks = (Ret 1, ds1) /\ RunRecovery sample_log ds1 = (Ret 1, ds2).
Proof.
  destruct (RunRecovery_idempotent sample_log sample_disks sample_recoverable) as (n & ds1 & ds2 & H1 & H2 & _).
  assert (n = 1) as ->.
  { apply (f_equal fst) in H1. vm_compute in H1. congruence. }
  exists ds1, ds2. split; assumption.
Defined.

Lemma at_object_WritePage_fails oid pid p ds :
  page_of ds (mkPageKey oid pid) = None -> 0 <= pid -> (forall o d, ds !! o = Some d -> disk_wf d) ->
  at_object oid (WritePage pid p) ds = (Throw OutOfRange, ds).
Proof.
  unfold page_of, at_object. cbn. intros Hp Hpos Hwf. destruct (ds !! oid) as [d|] eqn:Ed; [|done]. cbn in Hp.
  unfold WritePage. destruct (Z.leb_spec (next_page_id_ d) pid); [by rewrite insert_id|].
  destruct (disk_page_is_Some d pid (Hwf _ _ Ed)) as [x Hx]; [lia|congruence].
Qed.

(** Recovery fails loudly: if some committed update record names an object
    that is not in the map, or a page its file does not have, [RunRecovery]
    throws [std::out_of_range] and never returns a count. *)
Theorem RunRecovery_missing_page (rs : list LogRecord) (ds : disks) (r : LogRecord) :
  (forall oid d, ds !! oid = Some d -> disk_wf d) ->
  (forall r', r' ∈ rs -> 0 <= r_page_id r' /\ zlen (r_page_image r') = PAGE_SIZE) ->
  r ∈ rs -> redone (committed_txns rs) r -> page_of ds (mkPageKey (r_object_id r) (r_page_id r)) = None ->
  exists ds', RunRecovery rs ds = (Throw OutOfRange, ds').
Proof.
  unfold RunRecovery. generalize (committed_txns rs) as committed. intros committed. generalize 0 at 2 as n.
  revert ds. induction rs as [|r0 rs IH]; intros ds n Hwf Hpg Hin Hred Hno; [by apply not_elem_of_nil in Hin|].
  cbn [fold_m]. destruct (decide (redone committed r0)) as [[Ht Hc]|Hskip].
  - destruct (Hpg r0 ltac:(by left)) as [Hpos Hlen].
    assert (replay committed n r0 = (at_object (r_object_id r0) (WritePage (r_page_id r0) (r_page_image r0));; mret (n + 1))) as Hr.
    { unfold replay. by rewrite !bool_decide_eq_true_2. }
    rewrite Hr. destruct (page_of ds (mkPageKey (r_object_id r0) (r_page_id r0))) as [p0|] eqn:Ep.
    + destruct (at_object_WritePage _ _ (r_page_image r0) ds Hwf (ex_intro _ p0 Ep) Hlen) as (ds1 & Hw & Hwf1 & Hp1).
      assert ((at_object (r_object_id r0) (WritePage (r_page_id r0) (r_page_image r0));; mret (n + 1)) ds = (Ret (n + 1), ds1)) as Hr1 by (by run Hw).
      run Hr1. apply IH; [done|intros; apply Hpg; by right| |done|].
      * apply elem_of_cons in Hin as [->|]; [congruence|done].
      * rewrite Hp1. case_decide as Hk; [|done]. rewrite Hk in Hno. congruence.
    + exists ds. do 2 apply bind_throw. by apply at_object_WritePage_fails.
  - assert (replay committed n r0 ds = (Ret n, ds)) as Hr.
    { unfold replay. case_bool_decide as Ht; cbn [negb]; [|done]. case_bool_decide as Hc; cbn [negb]; [|done]. by destruct Hskip. }
    run Hr. apply IH; [done|intros; apply Hpg; by right| |done|done].
    apply elem_of_cons in Hin as [->|]; [by destruct Hskip|done].
Qed.

Lemma RunRecovery_missing_page_witness :
  exists ds', RunRecovery sample_log {[5 := mkDisk [] 0]} = (Throw OutOfRange, ds').
Proof.
  apply (RunRecovery_missing_page sample_log {[5 := mkDisk [] 0]} (mkRecord 1 kUpdate 1 5 0 page_a)).
  - intros oid d [<- <-]%lookup_singleton_Some. split; cbn; [reflexivity|reflexivity|constructor].
  - assert (forall p, zlen (replicate (Z.to_nat PAGE_SIZE) p : Page) = PAGE_SIZE) as Hrep.
    { intros p. unfold zlen. rewrite length_replicate. reflexivity. }
    intros r Hr. unfold sample_log in Hr. rewrite !elem_of_cons in Hr.
    destruct Hr as [->|[->|[->|Hr]]]; [..|by apply not_elem_of_nil in Hr]; (split; [cbn; lia|apply Hrep]).
  - by left.
  - split; [reflexivity|]. vm_compute. reflexivity.
  - reflexivity.
Defined.
