(* ===== verification/TransactionManager.v ===== *)
(** * TransactionManager: begin, commit and abort over all objects ([src/txn/transaction_manager.{h,cpp}])

    A [World] is everything the transaction manager reaches: the log, the lock
    table, every registered object's pool, the live transactions, the id
    counter and each thread's current transaction. [on_pool] lets a thread run
    a storage operation on one object; it is how [View] states are embedded.
    Methods take the calling thread as a parameter. *)
From stdpp Require Import sorting.
From S2P Require Export BufferPool LogManager Recovery.

(** ** Data *)

(** A registered object: its pool and, for a heap file, its page ids. *)
Record World := mkWorld {
  log_manager_ : LogManager.LogManager;
  lock_manager_ : LockManager.LockManager;
  buffer_pools_ : gmap ObjectId (BufferPool * list PageId);
  active_txns_ : Transactions;
  next_txn_id_ : TxnId;
  current_txn : gmap ThreadId TxnId
}.

Definition set_log (lm : LogManager.LogManager) (w : World) : World :=
  mkWorld lm (lock_manager_ w) (buffer_pools_ w) (active_txns_ w) (next_txn_id_ w) (current_txn w).
Definition set_lock_manager (lm : LockManager.LockManager) (w : World) : World :=
  mkWorld (log_manager_ w) lm (buffer_pools_ w) (active_txns_ w) (next_txn_id_ w) (current_txn w).
Definition set_buffer_pools (ps : gmap ObjectId (BufferPool * list PageId)) (w : World) : World :=
  mkWorld (log_manager_ w) (lock_manager_ w) ps (active_txns_ w) (next_txn_id_ w) (current_txn w).
Definition set_active (a : Transactions) (w : World) : World :=
  mkWorld (log_manager_ w) (lock_manager_ w) (buffer_pools_ w) a (next_txn_id_ w) (current_txn w).
Definition set_next_txn_id (n : TxnId) (w : World) : World :=
  mkWorld (log_manager_ w) (lock_manager_ w) (buffer_pools_ w) (active_txns_ w) n (current_txn w).
Definition set_current (c : gmap ThreadId TxnId) (w : World) : World :=
  mkWorld (log_manager_ w) (lock_manager_ w) (buffer_pools_ w) (active_txns_ w) (next_txn_id_ w) c.

(** The constructor: transaction ids start at 1, whatever the log holds. *)
Definition OpenTransactionManager (lm : LogManager.LogManager) : World :=
  mkWorld lm empty_lm ∅ ∅ 1 ∅.

Definition on_log {A} (m : M LogManager.LogManager A) : M World A := fun w =>
  let '(o, lm) := m (log_manager_ w) in (o, set_log lm w).

Section Operations.
Context (th : ThreadId).

Definition view_of (o : BufferPool * list PageId) (w : World) : View :=
  mkView o.1 o.2 (active_txns_ w) (lock_manager_ w) (current_txn w !! th) th.

Definition put_view (object_id : ObjectId) (v : View) (w : World) : World :=
  mkWorld (log_manager_ w) (v_locks v) (<[object_id := (v_pool v, v_page_ids v)]> (buffer_pools_ w))
    (v_txns v) (next_txn_id_ w) (current_txn w).

(** A storage operation on one registered object ([buffer_pools_.at]). *)
Definition on_pool {A} (object_id : ObjectId) (m : M View A) : M World A := fun w =>
  match buffer_pools_ w !! object_id with
  | None => (Throw OutOfRange, w)
  | Some o => let '(r, v) := m (view_of o w) in (r, put_view object_id v w)
  end.

Definition RegisterObject (object_id : ObjectId) (buffer_pool : BufferPool * list PageId) : M World unit :=
  modify (fun w => set_buffer_pools (<[object_id := buffer_pool]> (buffer_pools_ w)) w).

(** The dirtied pages of a transaction, by object. *)
Definition GroupDirtiedPagesByObject (dirtied : gset PageKey) : gmap ObjectId (gset PageId) :=
  foldr (fun key by_object =>
           <[key_object key := {[key_page key]} ∪ default ∅ (by_object !! key_object key)]> by_object)
    ∅ (elements dirtied).

Definition registered (w : World) : list ObjectId := (map_to_list (buffer_pools_ w)).*1.

Definition Begin : M World TxnId :=
  current ← gets (fun w => current_txn w !! th);
  if current is Some _ then throw LogicError else
  txn_id ← gets next_txn_id_;
  modify (set_next_txn_id (u64 (txn_id + 1)));;
  on_log (AppendBegin txn_id);;
  modify (fun w => set_active (<[txn_id := ∅]> (active_txns_ w)) w);;
  modify (fun w => set_current (<[th := txn_id]> (current_txn w)) w);;
  pools_snapshot ← gets registered;
  for_each (fun object_id => on_pool object_id (SetActiveTransactionObserver (mkObserver txn_id object_id))) pools_snapshot;;
  mret txn_id.

(** [pool->FetchPage(page_id)], then [AppendUpdate] of its bytes. *)
Definition log_page (txn_id : TxnId) (object_id : ObjectId) (page_id : PageId) : M World unit :=
  data ← on_pool object_id (page ← FetchPage page_id; on_page page get);
  on_log (AppendUpdate txn_id object_id page_id data);;
  mret tt.

Definition log_object (txn_id : TxnId) (x : ObjectId * gset PageId) : M World unit :=
  for_each (log_page txn_id x.1) (merge_sort Z.le (elements x.2)).

Definition flush_object (x : ObjectId * gset PageId) : M World unit := on_pool x.1 (FlushPages x.2).

Definition clear_observers : M World unit :=
  pools_snapshot ← gets registered;
  for_each (fun object_id => on_pool object_id ClearActiveTransactionObserver) pools_snapshot.

(** The end of [Commit] and [Abort]. *)
Definition finish_txn (txn_id : TxnId) : M World unit :=
  modify (fun w => set_lock_manager (ReleaseAll txn_id (lock_manager_ w)) w);;
  modify (fun w => set_current (delete th (current_txn w)) w);;
  modify (fun w => set_active (delete txn_id (active_txns_ w)) w).

(** [Commit]; [fsync_ok] is what the log's [fsync] answers. *)
Definition Commit (fsync_ok : bool) (txn_id : TxnId) : M World unit :=
  current ← gets (fun w => current_txn w !! th);
  if negb (bool_decide (current = Some txn_id)) then throw LogicError else
  clear_observers;;
  by_object ← gets (fun w => map_to_list (GroupDirtiedPagesByObject (DirtiedPages txn_id (active_txns_ w))));
  for_each (log_object txn_id) by_object;;
  commit_lsn ← on_log (AppendCommit txn_id);
  on_log (FlushThrough fsync_ok commit_lsn);;
  for_each flush_object by_object;;
  finish_txn txn_id.

Definition discard_object (x : ObjectId * gset PageId) : M World unit :=
  for_each (fun page_id => on_pool x.1 (DiscardPage page_id)) (merge_sort Z.le (elements x.2)).

Definition Abort (txn_id : TxnId) : M World unit :=
  current ← gets (fun w => current_txn w !! th);
  if negb (bool_decide (current = Some txn_id)) then throw LogicError else
  clear_observers;;
  by_object ← gets (fun w => map_to_list (GroupDirtiedPagesByObject (DirtiedPages txn_id (active_txns_ w))));
  for_each discard_object by_object;;
  on_log (AppendAbort txn_id);;
  finish_txn txn_id.

End Operations.

Definition HasActiveTransaction (w : World) : bool := negb (bool_decide (active_txns_ w = ∅)).
Definition NumActiveTransactions (w : World) : Z := Z.of_nat (size (active_txns_ w)).

(** ** The durable state, and what a crash makes of it *)

Definition disks_of (w : World) : disks := (fun o => disk_manager_ o.1) <$> buffer_pools_ w.

(** In-memory content of a page. *)
Definition mem_of (w : World) (k : PageKey) : option Page :=
  buffer_pools_ w !! key_object k ≫= fun o => mem_page o.1 (key_page k).

(** Recovery after any crash of the log would change no page of [ds]: the data
    files hold exactly the committed state. *)
Definition quiet (lm : LogManager.LogManager) (ds : disks) : Prop :=
  forall data, crash_wal lm data ->
    let rs := records_on_open_ (OpenLogManager data) in
    recoverable (committed_txns rs) rs ds /\
    forall k p, last_image (committed_txns rs) rs k = Some p -> page_of ds k = Some p.

(** No update or commit record of [t] in the log yet. *)
Definition unlogged (t : TxnId) (rs : list LogRecord) : Prop :=
  forall r, r ∈ rs -> r_txn_id r = t -> r_type r <> kUpdate /\ r_type r <> kCommit.

Record world_ok (w : World) (rs : list LogRecord) : Prop := mkWorldOk {
  wo_log : log_holds (log_manager_ w) rs;
  wo_idle : flush_in_progress_ (log_manager_ w) = false;
  wo_durable : durable_lsn_ (log_manager_ w) < next_lsn_ (log_manager_ w);
  wo_pools oid o : buffer_pools_ w !! oid = Some o -> pool_wf o.1 /\ 0 <= oid < 2 ^ 32;
  wo_quiet : quiet (log_manager_ w) (disks_of w);
  wo_active t : is_Some (active_txns_ w !! t) -> unlogged t rs /\ 0 < t < next_txn_id_ w;
  wo_fresh t : next_txn_id_ w <= t -> unlogged t rs
}.

(** ** Lemmas: one storage operation *)

Lemma put_view_of th oid o w : buffer_pools_ w !! oid = Some o -> put_view oid (view_of th o w) w = w.
Proof. intros H. destruct w, o. unfold put_view, view_of. cbn in *. by rewrite insert_id. Qed.

Lemma view_of_put th oid v w :
  v_current v = current_txn w !! th -> v_thread v = th ->
  view_of th (v_pool v, v_page_ids v) (put_view oid v w) = v.
Proof. intros Hc Ht. destruct v, w. unfold view_of. cbn in *. by subst. Qed.

Lemma on_pool_run {A} th oid (m : M View A) w o r v :
  buffer_pools_ w !! oid = Some o -> m (view_of th o w) = (r, v) -> on_pool th oid m w = (r, put_view oid v w).
Proof. intros H1 H2. unfold on_pool. by rewrite H1, H2. Qed.

(** A loop inside one object is a loop of operations on the object. *)
Lemma on_pool_for_each {A} th oid (f : A -> M View unit) (l : list A) w o :
  (forall a v r v', f a v = (r, v') -> v_current v' = v_current v /\ v_thread v' = v_thread v) ->
  buffer_pools_ w !! oid = Some o ->
  on_pool th oid (for_each f l) w = for_each (fun a => on_pool th oid (f a)) l w.
Proof.
  intros Hf. revert w o. induction l as [|a l IH]; intros w o Ho.
  - unfold on_pool. rewrite Ho. cbn. by rewrite put_view_of.
  - unfold on_pool at 1. rewrite Ho. cbn [for_each]. unfold mbind, M_bind.
    unfold on_pool at 1. rewrite Ho. destruct (f a (view_of th o w)) as [r v1] eqn:E. 
    destruct (Hf _ _ _ _ E) as [Hc Ht]. destruct r as [u|e|key|]; [|done..].
    assert (buffer_pools_ (put_view oid v1 w) !! oid = Some (v_pool v1, v_page_ids v1)) as Ho1 by (cbn; apply lookup_insert_eq).
    rewrite <- (IH _ _ Ho1). unfold on_pool. rewrite Ho1, view_of_put by (by rewrite ?Hc, ?Ht).
    destruct (for_each f l v1) as [r2 v2]. unfold put_view. cbn. by rewrite insert_insert_eq.
Qed.

(** ** What the manager's own steps leave alone *)

(** Same pages in memory and on disk, same transactions, locks and counters;
    the log is left out. *)
Record same_pages (w w' : World) : Prop := mkSamePages {
  sp_disks : disks_of w' = disks_of w;
  sp_mem k : mem_of w' k = mem_of w k;
  sp_wf : (forall oid o, buffer_pools_ w !! oid = Some o -> pool_wf o.1) ->
          (forall oid o, buffer_pools_ w' !! oid = Some o -> pool_wf o.1);
  sp_locks : lock_manager_ w' = lock_manager_ w;
  sp_active : active_txns_ w' = active_txns_ w;
  sp_next : next_txn_id_ w' = next_txn_id_ w;
  sp_current : current_txn w' = current_txn w
}.

#[global] Instance same_pages_preorder : PreOrder same_pages.
Proof.
  split; [intros w; by split|]. intros w1 w2 w3 [] []. split; [congruence|intros; congruence|intros H; by apply sp_wf1, sp_wf0|congruence..].
Qed.

(** The same, and the log. *)
Definition same_world (w w' : World) : Prop := same_pages w w' /\ log_manager_ w' = log_manager_ w.

#[global] Instance same_world_preorder : PreOrder same_world.
Proof. split; [intros ?; by split|]. intros w1 w2 w3 [? ?] [? ?]. split; [by etrans|congruence]. Qed.

Lemma disks_of_lookup w oid : disks_of w !! oid = (fun o => disk_manager_ o.1) <$> buffer_pools_ w !! oid.
Proof. unfold disks_of. apply lookup_fmap. Qed.

Lemma same_pages_registered w w' oid o :
  same_pages w w' -> buffer_pools_ w !! oid = Some o -> exists o', buffer_pools_ w' !! oid = Some o'.
Proof.
  intros [Hd _ _ _ _ _ _] Ho. apply (f_equal (.!! oid)) in Hd. rewrite !disks_of_lookup, Ho in Hd. cbn in Hd.
  destruct (buffer_pools_ w' !! oid); [eauto|done].
Qed.

(** Replacing one object by a state that differs only in what is cached. *)
Lemma put_view_same oid o v w :
  buffer_pools_ w !! oid = Some o ->
  disk_manager_ (v_pool v) = disk_manager_ o.1 -> (forall q, mem_page (v_pool v) q = mem_page o.1 q) ->
  (pool_wf o.1 -> pool_wf (v_pool v)) -> v_locks v = lock_manager_ w -> v_txns v = active_txns_ w ->
  same_pages w (put_view oid v w).
Proof.
  intros Ho Hd Hm Hwf Hl Ht. split; try done.
  - apply map_eq. intros i. rewrite !disks_of_lookup. cbn. destruct (decide (i = oid)) as [->|].
    + rewrite lookup_insert_eq, Ho. cbn. by rewrite Hd.
    + by rewrite lookup_insert_ne.
  - intros [i q]. unfold mem_of. cbn. destruct (decide (i = oid)) as [->|].
    + rewrite lookup_insert_eq, Ho. cbn. apply Hm.
    + by rewrite lookup_insert_ne.
  - intros Hall i o'. cbn. rewrite lookup_insert_Some. intros [[<- <-]|[_ Hi]]; [|eauto]. cbn. eauto.
Qed.

Lemma pool_wf_observers ob bp : pool_wf bp -> pool_wf (set_observers ob bp).
Proof. intros []. by split. Qed.

Lemma elem_of_registered w oid : oid ∈ registered w <-> is_Some (buffer_pools_ w !! oid).
Proof.
  unfold registered. rewrite list_elem_of_fmap. split.
  - intros ([i o] & -> & Hin). apply elem_of_map_to_list in Hin. eauto.
  - intros [o Ho]. exists (oid, o). split; [done|]. by apply elem_of_map_to_list.
Qed.

(** Setting or clearing the observers of all pools. *)
Lemma observers_loop th (m : ObjectId -> M View unit) w :
  (forall oid v, exists ob, m oid v = (Ret tt, upd_pool (set_observers ob) v)) ->
  exists w', for_each (fun oid => on_pool th oid (m oid)) (registered w) w = (Ret tt, w') /\
    same_world w w'.
Proof.
  intros Hm.
  destruct (for_each_run (fun oid => on_pool th oid (m oid)) same_world (registered w) w) as (w' & H & HR).
  - intros oid w1 Hin [Hs Hlog]. apply elem_of_registered in Hin as [o Ho].
    destruct (same_pages_registered _ _ _ _ Hs Ho) as [o1 Ho1].
    destruct (Hm oid (view_of th o1 w1)) as [ob Hr].
    exists (put_view oid (upd_pool (set_observers ob) (view_of th o1 w1)) w1).
    split; [by eapply on_pool_run|]. split; [|done]. apply (put_view_same _ o1); try done. apply pool_wf_observers.
  - by exists w'.
Qed.

Lemma clear_observers_run th w :
  exists w', clear_observers th w = (Ret tt, w') /\ same_world w w'.
Proof.
  unfold clear_observers. rewrite (bind_ret _ _ _ _ _ (gets_run registered w)).
  apply observers_loop. intros oid v. eexists. reflexivity.
Qed.

(** ** GroupDirtiedPagesByObject *)

Lemma elem_of_group dirtied oid pid :
  pid ∈ default ∅ (GroupDirtiedPagesByObject dirtied !! oid) <-> mkPageKey oid pid ∈ dirtied.
Proof.
  rewrite <- (elem_of_elements dirtied). unfold GroupDirtiedPagesByObject. induction (elements dirtied) as [|k l IH]; cbn.
  - rewrite lookup_empty. cbn. split; [by intros ?%elem_of_empty|by intros ?%not_elem_of_nil].
  - rewrite elem_of_cons. destruct (decide (key_object k = oid)) as [Hk|Hk].
    + rewrite Hk, lookup_insert_eq. cbn. rewrite elem_of_union, elem_of_singleton, <- IH. destruct k; cbn in *. naive_solver.
    + rewrite lookup_insert_ne by done. rewrite IH. split; [auto|]. intros [<-|]; [done|done].
Qed.

(** The pages of [by_object] in the order the loops visit them. *)
Definition keys_of (by_object : list (ObjectId * gset PageId)) : list PageKey :=
  concat ((fun x => mkPageKey x.1 <$> merge_sort Z.le (elements x.2)) <$> by_object).

Definition dirtied_keys (dirtied : gset PageKey) : list PageKey := keys_of (map_to_list (GroupDirtiedPagesByObject dirtied)).

Lemma elem_of_dirtied_keys dirtied k : k ∈ dirtied_keys dirtied <-> k ∈ dirtied.
Proof.
  unfold dirtied_keys, keys_of. rewrite list_elem_of_In, in_concat. setoid_rewrite <- list_elem_of_In.
  destruct k as [oid pid]. rewrite <- elem_of_group. split.
  - intros (l & Hl & Hin). apply list_elem_of_fmap in Hl as ([o s] & -> & Hos). apply elem_of_map_to_list in Hos.
    apply list_elem_of_fmap in Hin as (q & [= <- <-] & Hq). cbn in *. rewrite Hos. cbn.
    by apply elem_of_flush_order in Hq.
  - intros Hin. destruct (GroupDirtiedPagesByObject dirtied !! oid) as [s|] eqn:E; cbn in Hin; [|by apply elem_of_empty in Hin].
    eexists. split; [apply list_elem_of_fmap; exists (oid, s); split; [done|]; by apply elem_of_map_to_list|].
    cbn. apply list_elem_of_fmap. exists pid. split; [done|]. by apply elem_of_flush_order.
Qed.

Lemma by_object_loop (f : PageKey -> M World unit) (by_object : list (ObjectId * gset PageId)) w :
  for_each (fun x => for_each (fun pid => f (mkPageKey x.1 pid)) (merge_sort Z.le (elements x.2))) by_object w =
  for_each f (keys_of by_object) w.
Proof.
  unfold keys_of. rewrite <- for_each_concat. apply for_each_ext. intros x w' _. by rewrite for_each_fmap.
Qed.

(** ** Logging one page *)

Definition update_record (txn : TxnId) (lsn : Lsn) (k : PageKey) (p : Page) : LogRecord :=
  mkRecord lsn kUpdate txn (key_object k) (key_page k) p.

Lemma fetch_data_run th k p w o :
  buffer_pools_ w !! key_object k = Some o -> mem_page o.1 (key_page k) = Some p -> pool_wf o.1 ->
  exists w', on_pool th (key_object k) (page ← FetchPage (key_page k); on_page page get) w = (Ret p, w') /\
    same_world w w'.
Proof.
  intros Ho Hm Hwf. set (v := view_of th o w).
  assert (mem_page (v_pool v) (key_page k) = Some p) as Hm' by done.
  exists (put_view (key_object k) (cache (key_page k) p v) w). split; [|split; [apply (put_view_same _ o)|]]; try done.
  - eapply on_pool_run; [done|]. run (FetchPage_run v _ _ Hm').
    apply (on_page_read _ _ _ p); [apply cached_cache|done].
  - intros q. rewrite mem_page_cache. case_decide; [by subst|done].
  - intros _. by apply fetched_wf.
Qed.

(** ** The observers of each object *)

Definition obs_of (w : World) : gmap ObjectId (gmap ThreadId Observer) :=
  (fun o => observers_by_thread_ o.1) <$> buffer_pools_ w.

Definition pool_obs (v : View) : gmap ThreadId Observer := observers_by_thread_ (v_pool v).

Lemma obs_of_lookup w oid : obs_of w !! oid = (fun o => observers_by_thread_ o.1) <$> buffer_pools_ w !! oid.
Proof. unfold obs_of. apply lookup_fmap. Qed.

Lemma obs_of_put oid v w oid' :
  is_Some (buffer_pools_ w !! oid) ->
  obs_of (put_view oid v w) !! oid' = if decide (oid' = oid) then Some (pool_obs v) else obs_of w !! oid'.
Proof.
  intros Hs. rewrite !obs_of_lookup. cbn. case_decide as H.
  - by rewrite H, lookup_insert_eq.
  - by rewrite lookup_insert_ne.
Qed.

Lemma preserves_on_log {A} (m : M LogManager.LogManager A) : preserves obs_of (on_log m).
Proof. intros w. unfold on_log. by destruct (m (log_manager_ w)). Qed.

Lemma preserves_on_pool {A} th oid (m : M View A) : preserves pool_obs m -> preserves obs_of (on_pool th oid m).
Proof.
  intros Hm w. unfold on_pool. destruct (buffer_pools_ w !! oid) as [o|] eqn:E; [|done].
  specialize (Hm (view_of th o w)). destruct (m (view_of th o w)) as [r v]. cbn in Hm. cbn [snd].
  apply map_eq. intros i. rewrite obs_of_put by eauto. case_decide as Hi; [|done]. rewrite Hi, obs_of_lookup, E. cbn. by rewrite Hm.
Qed.

Lemma preserves_on_disk {A} (m : M DiskManager A) : preserves pool_obs (on_disk m).
Proof. intros v. unfold on_disk. by destruct (m _). Qed.

Lemma preserves_on_page {A} ptr (m : M Page A) : preserves pool_obs (on_page ptr m).
Proof. intros v. unfold on_page. destruct (pages_ (v_pool v) !! ptr); [|done]. by destruct (m _). Qed.

Lemma preserves_FetchPage pid : preserves pool_obs (FetchPage pid).
Proof.
  intros v. unfold FetchPage. destruct (pages_ (v_pool v) !! pid); [done|].
  apply (preserves_bind pool_obs); [apply preserves_on_disk|]. intros p. by apply preserves_bind.
Qed.

Lemma preserves_flush_if_dirty pid : preserves pool_obs (flush_if_dirty pid).
Proof.
  intros v. unfold flush_if_dirty. destruct (pages_ (v_pool v) !! pid); [|done]. case_bool_decide; [|done].
  apply (preserves_bind pool_obs); [apply preserves_on_disk|]. by intros.
Qed.

Lemma preserves_DiscardPage pid : preserves pool_obs (DiscardPage pid).
Proof.
  intros v. unfold DiscardPage. destruct (pages_ (v_pool v) !! pid); [|done].
  apply (preserves_bind pool_obs); [apply preserves_on_disk|]. by intros.
Qed.

#[export] Hint Resolve preserves_on_log preserves_on_pool preserves_on_disk preserves_on_page preserves_FetchPage
  preserves_flush_if_dirty preserves_DiscardPage : flint.

Lemma preserves_log_page th t oid pid : preserves obs_of (log_page th t oid pid).
Proof. unfold log_page. auto 10 with flint. Qed.

Lemma preserves_finish_txn th t : preserves obs_of (finish_txn th t).
Proof. intros w. done. Qed.

(** [Begin]'s and [clear_observers]' loop, object by object. *)
Lemma observers_loop_obs th (m : ObjectId -> M View unit) (f : ObjectId -> gmap ThreadId Observer -> gmap ThreadId Observer) (l : list ObjectId) w w' :
  (forall oid v, v_thread v = th -> m oid v = (Ret tt, upd_pool (set_observers (f oid (pool_obs v))) v)) ->
  NoDup l -> for_each (fun oid => on_pool th oid (m oid)) l w = (Ret tt, w') ->
  forall oid, obs_of w' !! oid = if decide (oid ∈ l) then f oid <$> obs_of w !! oid else obs_of w !! oid.
Proof.
  intros Hm. revert w. induction l as [|o1 l IH]; intros w Hnd H oid.
  - injection H as <-. by rewrite decide_False by apply not_elem_of_nil.
  - apply NoDup_cons in Hnd as [Hnin Hnd]. cbn [for_each] in H. apply bind_inv in H as ([] & w1 & H1 & H2).
    rewrite (IH w1 Hnd H2). unfold on_pool in H1. destruct (buffer_pools_ w !! o1) as [o|] eqn:E; [|done].
    rewrite Hm in H1 by done. injection H1 as <-. rewrite obs_of_put by eauto.
    destruct (decide (oid = o1)) as [->|Hne].
    + rewrite decide_False by done. rewrite decide_True by (by left). by rewrite obs_of_lookup, E.
    + destruct (decide (oid ∈ l)); [by rewrite decide_True by (by right)|].
      rewrite decide_False; [done|]. by rewrite elem_of_cons; intros [?|?].
Qed.

Lemma registered_loop_obs th (m : ObjectId -> M View unit) (f : ObjectId -> gmap ThreadId Observer -> gmap ThreadId Observer) w w' :
  (forall oid v, v_thread v = th -> m oid v = (Ret tt, upd_pool (set_observers (f oid (pool_obs v))) v)) ->
  for_each (fun oid => on_pool th oid (m oid)) (registered w) w = (Ret tt, w') ->
  forall oid, obs_of w' !! oid = f oid <$> obs_of w !! oid.
Proof.
  intros Hm H oid. rewrite (observers_loop_obs th m f (registered w) w w' Hm); [|apply NoDup_fst_map_to_list|done].
  case_decide as Hin; [done|]. rewrite obs_of_lookup. rewrite elem_of_registered in Hin.
  destruct (buffer_pools_ w !! oid) eqn:E; [|done]. destruct Hin. eauto.
Qed.

Lemma clear_observers_obs th w w' :
  clear_observers th w = (Ret tt, w') -> forall oid, obs_of w' !! oid = delete th <$> obs_of w !! oid.
Proof.
  unfold clear_observers. rewrite (bind_ret _ _ _ _ _ (gets_run registered w)).
  apply (registered_loop_obs th (fun _ => ClearActiveTransactionObserver) (fun _ obs => delete th obs)).
  intros oid v <-. done.
Qed.

Lemma set_observers_obs th t w w' :
  for_each (fun oid => on_pool th oid (SetActiveTransactionObserver (mkObserver t oid))) (registered w) w = (Ret tt, w') ->
  forall oid, obs_of w' !! oid = <[th := mkObserver t oid]> <$> obs_of w !! oid.
Proof.
  apply (registered_loop_obs th (fun oid => SetActiveTransactionObserver (mkObserver t oid)) (fun oid => <[th := mkObserver t oid]>)).
  intros oid v <-. done.
Qed.

(** ** The page ids of each object *)

Definition ids_of (w : World) : gmap ObjectId (list PageId) := snd <$> buffer_pools_ w.

Lemma ids_of_lookup w oid : ids_of w !! oid = snd <$> buffer_pools_ w !! oid.
Proof. apply lookup_fmap. Qed.

Lemma ids_on_log {A} (m : M LogManager.LogManager A) : preserves ids_of (on_log m).
Proof. intros w. unfold on_log. by destruct (m (log_manager_ w)). Qed.

Lemma ids_on_pool {A} th oid (m : M View A) : preserves v_page_ids m -> preserves ids_of (on_pool th oid m).
Proof.
  intros Hm w. unfold on_pool. destruct (buffer_pools_ w !! oid) as [o|] eqn:E; [|done].
  specialize (Hm (view_of th o w)). destruct (m (view_of th o w)) as [r v]. cbn in Hm. cbn [snd].
  apply map_eq. intros i. rewrite !ids_of_lookup. cbn. destruct (decide (i = oid)) as [->|].
  - rewrite lookup_insert_eq, E. cbn. by rewrite Hm.
  - by rewrite lookup_insert_ne.
Qed.

Lemma ids_on_disk {A} (m : M DiskManager A) : preserves v_page_ids (on_disk m).
Proof. intros v. unfold on_disk. by destruct (m _). Qed.

Lemma ids_on_page {A} ptr (m : M Page A) : preserves v_page_ids (on_page ptr m).
Proof. intros v. unfold on_page. destruct (pages_ (v_pool v) !! ptr); [|done]. by destruct (m _). Qed.

Lemma ids_FetchPage pid : preserves v_page_ids (FetchPage pid).
Proof.
  intros v. unfold FetchPage. destruct (pages_ (v_pool v) !! pid); [done|].
  apply (preserves_bind v_page_ids); [apply ids_on_disk|]. intros p. by apply preserves_bind.
Qed.

Lemma ids_flush_if_dirty pid : preserves v_page_ids (flush_if_dirty pid).
Proof.
  intros v. unfold flush_if_dirty. destruct (pages_ (v_pool v) !! pid); [|done]. case_bool_decide; [|done].
  apply (preserves_bind v_page_ids); [apply ids_on_disk|]. by intros.
Qed.

Lemma ids_DiscardPage pid : preserves v_page_ids (DiscardPage pid).
Proof.
  intros v. unfold DiscardPage. destruct (pages_ (v_pool v) !! pid); [|done].
  apply (preserves_bind v_page_ids); [apply ids_on_disk|]. by intros.
Qed.

#[export] Hint Resolve ids_on_log ids_on_pool ids_on_disk ids_on_page ids_FetchPage ids_flush_if_dirty ids_DiscardPage : flint.

Lemma ids_clear th : preserves ids_of (clear_observers th).
Proof. unfold clear_observers. apply preserves_bind; [auto with flint|]. intros l. apply preserves_for_each. intros oid. by apply ids_on_pool. Qed.

Lemma ids_log_object th t x : preserves ids_of (log_object th t x).
Proof. apply preserves_for_each. intros pid. unfold log_page. auto 10 with flint. Qed.

Lemma ids_if {A} (b : bool) (m1 m2 : M World A) : preserves ids_of m1 -> preserves ids_of m2 -> preserves ids_of (if b then m1 else m2).
Proof. by destruct b. Qed.

Lemma ids_Begin th : preserves ids_of (Begin th).
Proof.
  unfold Begin. apply preserves_bind; [auto with flint|]. intros [?|]; [auto with flint|].
  apply preserves_bind; [auto with flint|]. intros t. apply preserves_bind; [done|]. intros _. apply preserves_bind; [auto with flint|]. intros _.
  do 2 (apply preserves_bind; [done|]; intros _). apply preserves_bind; [auto with flint|]. intros l.
  apply preserves_bind; [|done]. apply preserves_for_each. intros oid. by apply ids_on_pool.
Qed.

Lemma ids_Commit th b t : preserves ids_of (Commit th b t).
Proof.
  unfold Commit. apply preserves_bind; [auto with flint|]. intros cur. apply ids_if; [auto with flint|].
  apply preserves_bind; [apply ids_clear|]. intros _. apply preserves_bind; [auto with flint|]. intros l.
  apply preserves_bind; [apply preserves_for_each, ids_log_object|]. intros _. do 2 (apply preserves_bind; [auto with flint|]; intros ?).
  apply preserves_bind; [|done]. apply preserves_for_each. intros x. apply ids_on_pool, preserves_for_each. auto with flint.
Qed.

Lemma ids_Abort th t : preserves ids_of (Abort th t).
Proof.
  unfold Abort. apply preserves_bind; [auto with flint|]. intros cur. apply ids_if; [auto with flint|].
  apply preserves_bind; [apply ids_clear|]. intros _. apply preserves_bind; [auto with flint|]. intros l.
  apply preserves_bind; [|intros _; apply preserves_bind; [auto with flint|done]]. apply preserves_for_each. intros x.
  apply preserves_for_each. auto with flint.
Qed.

Lemma ids_same {A} (m : M World A) w r w' : preserves ids_of m -> m w = (r, w') -> ids_of w' = ids_of w.
Proof. intros Hm H. specialize (Hm w). by rewrite H in Hm. Qed.
