(* ===== verification/CrashSafety.v ===== *)
(** * CrashSafety: atomicity and durability of transactions

    What [TransactionManager] promises of a commit and an abort, proved from
    the parts: the log ([LogManager]), recovery ([Recovery]) and the pools
    ([BufferPool]). A crash may strike at any point of [Commit], may lose any
    unsynced suffix of the log, and may leave the page being written torn. *)
From stdpp Require Import sorting.
From S2P Require Export TransactionManager.

(** ** Lemmas: images in a growing log *)

Lemma committed_txns_app rs X : committed_txns (rs ++ X) = committed_txns rs ∪ committed_txns X.
Proof.
  apply set_eq. intros t. rewrite elem_of_union, !elem_of_committed_txns. setoid_rewrite elem_of_app. naive_solver.
Qed.

Lemma last_image_app c rs X k :
  last_image c (rs ++ X) k = match last_image c X k with Some p => Some p | None => last_image c rs k end.
Proof.
  induction rs as [|r rs IH]; cbn [app].
  - by destruct (last_image c X k).
  - rewrite !last_image_cons, IH. by destruct (last_image c X k).
Qed.

Lemma last_image_ext c c' rs k :
  (forall r, r ∈ rs -> redo_image c k r = redo_image c' k r) -> last_image c rs k = last_image c' rs k.
Proof. intros H. unfold last_image. f_equal. by apply list_omap_ext_in. Qed.

Lemma last_image_none c X k : (forall r, r ∈ X -> redo_image c k r = None) -> last_image c X k = None.
Proof.
  induction X as [|r X IH]; intros H; [done|]. rewrite last_image_cons, IH by (intros; apply H; by right).
  apply H. by left.
Qed.

Lemma recoverable_ext c c' rs ds :
  (forall r, r ∈ rs -> redone c' r -> redone c r) -> recoverable c rs ds -> recoverable c' rs ds.
Proof. intros H [H1 H2]. split; [done|]. intros r Hr Hred. apply H2; [done|by apply H]. Qed.

Lemma recoverable_app c rs X ds :
  recoverable c rs ds -> (forall r, r ∈ X -> redone c r ->
    is_Some (page_of ds (mkPageKey (r_object_id r) (r_page_id r))) /\ zlen (r_page_image r) = PAGE_SIZE) ->
  recoverable c (rs ++ X) ds.
Proof. intros [H1 H2] H. split; [done|]. intros r Hr. apply elem_of_app in Hr as [Hr|Hr]; auto. Qed.

(** ** Lemmas: crashes of a log that has grown *)

Lemma crash_grown lm lm' rs X data :
  log_holds lm rs -> log_holds lm' (rs ++ X) -> synced lm <= synced lm' -> crash_wal lm' data ->
  crash_wal lm data \/ exists j, records_on_open_ (OpenLogManager data) = rs ++ take j X.
Proof.
  intros H1 H2 Hs Hcr. destruct (reopen lm' _ data H2 Hcr) as (k & _ & _ & Hrec & _ & _ & Hmax).
  destruct Hcr as (n & Hn & ->).
  assert (wal lm' = wal lm ++ encode_log X) as Hw by (by rewrite (lh_wal _ _ H2), (lh_wal _ _ H1), encode_log_app).
  destruct (decide (n <= zlen (wal lm))) as [Hle|Hgt].
  - left. exists n. split; [lia|]. rewrite Hw, take_app_le by (unfold zlen in *; lia). done.
  - right. exists (k - length rs)%nat. rewrite Hrec. rewrite take_app_ge; [done|].
    destruct (decide (k < length rs)%nat) as [Hk|]; [|lia].
    destruct (lookup_lt_is_Some_2 (rs ++ X) k) as [x Hx]; [rewrite length_app; lia|].
    specialize (Hmax x Hx). rewrite take_app_le in Hmax by lia.
    pose proof (encode_log_take_mono rs (S k) (length rs)) as Hm. rewrite firstn_all in Hm.
    rewrite <- (lh_wal _ _ H1) in Hm.
    assert (zlen (take (Z.to_nat n) (wal lm')) = n) by (unfold zlen in *; rewrite length_take; lia). lia.
Qed.

Lemma reopened_log lm rs data :
  log_holds lm rs -> crash_wal lm data -> log_holds (OpenLogManager data) (records_on_open_ (OpenLogManager data)).
Proof. intros H Hcr. destruct (reopen lm rs data H Hcr) as (k & _ & Hh & -> & _). exact Hh. Qed.

Lemma reopen_synced lm rs data :
  log_holds lm rs -> synced lm = zlen (wal lm) -> crash_wal lm data -> records_on_open_ (OpenLogManager data) = rs.
Proof.
  intros H Hs (n & Hn & ->). rewrite take_ge by (unfold zlen in *; lia). rewrite (lh_wal _ _ H).
  rewrite <- (app_nil_r (encode_log rs)). rewrite OpenLogManager_run; [done|apply H|done].
Qed.

Lemma quiet_full lm rs ds :
  log_holds lm rs -> quiet lm ds ->
  recoverable (committed_txns rs) rs ds /\
  forall k p, last_image (committed_txns rs) rs k = Some p -> page_of ds k = Some p.
Proof.
  intros H Hq. pose proof (Hq (wal lm)) as Hd. cbn zeta in Hd.
  assert (records_on_open_ (OpenLogManager (wal lm)) = rs) as Hr.
  { rewrite (lh_wal _ _ H). rewrite <- (app_nil_r (encode_log rs)). rewrite OpenLogManager_run; [done|apply H|done]. }
  rewrite Hr in Hd. apply Hd. exists (zlen (wal lm)). pose proof (lh_synced _ _ H). split; [lia|].
  rewrite take_ge; [done|]. unfold zlen. lia.
Qed.

(** Records that commit nothing and redo nothing keep recovery a no-op. *)
Lemma quiet_extend rs X ds :
  (forall r, r ∈ X -> r_type r <> kCommit) ->
  (forall r, r ∈ X -> r_type r = kUpdate -> r_txn_id r ∉ committed_txns rs) ->
  recoverable (committed_txns rs) rs ds /\ (forall k p, last_image (committed_txns rs) rs k = Some p -> page_of ds k = Some p) ->
  recoverable (committed_txns (rs ++ X)) (rs ++ X) ds /\
  (forall k p, last_image (committed_txns (rs ++ X)) (rs ++ X) k = Some p -> page_of ds k = Some p).
Proof.
  intros Hc Hu [H1 H2].
  assert (committed_txns (rs ++ X) = committed_txns rs) as ->.
  { rewrite committed_txns_app. apply set_eq. intros t. rewrite elem_of_union, (elem_of_committed_txns X). split; [|auto].
    intros [?|(r & Hr & Ht & _)]; [done|]. by destruct (Hc r Hr). }
  assert (forall r, r ∈ X -> ~ redone (committed_txns rs) r) as Hno.
  { intros r Hr [Ht Hin]. by apply (Hu r Hr Ht). }
  split.
  - apply recoverable_app; [done|]. intros r Hr Hred. by destruct (Hno r Hr).
  - intros k p. rewrite last_image_app, last_image_none; [apply H2|].
    intros r Hr. unfold redo_image. rewrite bool_decide_eq_false_2; [done|]. intros (? & ? & _). by apply (Hno r Hr).
Qed.

Lemma quiet_grow lm lm' rs X ds :
  log_holds lm rs -> quiet lm ds -> log_holds lm' (rs ++ X) -> synced lm <= synced lm' ->
  (forall r, r ∈ X -> r_type r <> kCommit) ->
  (forall r, r ∈ X -> r_type r = kUpdate -> r_txn_id r ∉ committed_txns rs) ->
  quiet lm' ds.
Proof.
  intros H1 Hq H2 Hs Hc Hu data Hcr. cbn zeta.
  destruct (crash_grown _ _ _ _ _ H1 H2 Hs Hcr) as [Hcr'|[j ->]]; [by apply Hq|].
  assert (forall r, r ∈ take j X -> r ∈ X) as Hin by (intros r Hr; rewrite <- (take_drop j X); apply elem_of_app; by left).
  apply quiet_extend; [by eauto..|]. by apply (quiet_full lm).
Qed.

Lemma unlogged_not_committed t rs : unlogged t rs -> t ∉ committed_txns rs.
Proof. intros H Hin. apply elem_of_committed_txns in Hin as (r & Hr & Ht & <-). by destruct (H r Hr eq_refl) as [_ ?]. Qed.

(** ** Lemmas: the records of one commit *)

Fixpoint update_records (t : TxnId) (lsn : Lsn) (mem : PageKey -> option Page) (keys : list PageKey) : list LogRecord :=
  match keys with
  | [] => []
  | k :: keys' => update_record t lsn k (default zero_page (mem k)) :: update_records t (lsn + 1) mem keys'
  end.

Definition commit_record (t : TxnId) (lsn : Lsn) : LogRecord :=
  mkRecord lsn kCommit t INVALID_OBJECT_ID INVALID_PAGE_ID zero_page.

Lemma elem_of_update_records t lsn mem keys r :
  r ∈ update_records t lsn mem keys ->
  exists l k, k ∈ keys /\ r = update_record t l k (default zero_page (mem k)).
Proof.
  revert lsn. induction keys as [|k keys IH]; intros lsn; cbn; [by intros ?%not_elem_of_nil|].
  rewrite elem_of_cons. intros [->|Hr].
  - exists lsn, k. split; [by left|done].
  - destruct (IH _ Hr) as (l & k' & Hk' & ->). exists l, k'. split; [by right|done].
Qed.

Lemma zlen_update_records t lsn mem keys : zlen (update_records t lsn mem keys) = zlen keys.
Proof. unfold zlen. f_equal. revert lsn. induction keys as [|k keys IH]; intros lsn; cbn; [done|]. by rewrite IH. Qed.

Lemma update_records_app t lsn mem keys1 keys2 :
  update_records t lsn mem (keys1 ++ keys2) = update_records t lsn mem keys1 ++ update_records t (lsn + zlen keys1) mem keys2.
Proof.
  revert lsn. induction keys1 as [|k keys1 IH]; intros lsn; cbn; [by rewrite Z.add_0_r|].
  rewrite IH. do 3 f_equal. unfold zlen. cbn. lia.
Qed.

Lemma last_image_updates t lsn mem keys k c :
  t ∈ c -> (forall k', k' ∈ keys -> is_Some (mem k')) ->
  last_image c (update_records t lsn mem keys) k = if decide (k ∈ keys) then mem k else None.
Proof.
  intros Ht. revert lsn. induction keys as [|k0 keys IH]; intros lsn Hm; cbn [update_records].
  - done.
  - rewrite last_image_cons, IH by (intros; apply Hm; by right).
    destruct (decide (k ∈ keys)) as [Hin|Hnin].
    + rewrite decide_True by (by right). destruct (Hm k) as [p ->]; [by right|done].
    + unfold redo_image. cbn. destruct (decide (k0 = k)) as [->|Hne].
      * rewrite decide_True by (by left). rewrite bool_decide_eq_true_2 by (split_and!; [done..|by destruct k]).
        destruct (Hm k) as [p ->]; [by left|done].
      * rewrite decide_False by (rewrite elem_of_cons; intros [?|?]; congruence).
        rewrite bool_decide_eq_false_2; [done|]. intros (_ & _ & He). apply Hne. rewrite <- He. by destruct k0.
Qed.

(** The committed state after a commit: the transaction's pages take their
    in-memory content, the others keep the file's. *)
Definition overwrite (mem : PageKey -> option Page) (keys : list PageKey) (ds : disks) (k : PageKey) : option Page :=
  if decide (k ∈ keys) then mem k else page_of ds k.

Section CommitRecords.
Context (t : TxnId) (lsn : Lsn) (mem : PageKey -> option Page) (keys : list PageKey) (rs : list LogRecord) (ds : disks).
Hypothesis Hunlogged : unlogged t rs.
Hypothesis Hquiet : recoverable (committed_txns rs) rs ds /\
  forall k p, last_image (committed_txns rs) rs k = Some p -> page_of ds k = Some p.
Hypothesis Hmem : forall k, k ∈ keys -> exists p, mem k = Some p /\ zlen p = PAGE_SIZE /\ is_Some (page_of ds k).

Let U := update_records t lsn mem keys.
Let C := commit_record t (lsn + zlen keys).
Let all := rs ++ U ++ [C].

Lemma commit_committed : committed_txns all = committed_txns rs ∪ {[t]}.
Proof.
  unfold all. rewrite !committed_txns_app. apply set_eq. intros x. rewrite !elem_of_union, elem_of_singleton.
  rewrite (elem_of_committed_txns U), (elem_of_committed_txns [C]). split.
  - intros [?|[(r & Hr & Ht & _)|(r & Hr & _ & <-)]]; [by left| |].
    + apply elem_of_update_records in Hr as (l & k & _ & ->). done.
    + apply list_elem_of_singleton in Hr as ->. by right.
  - intros [?| ->]; [by left|]. right. right. exists C. split_and!; [by left|done..].
Qed.

Lemma old_redone r : r ∈ rs -> redone (committed_txns all) r -> redone (committed_txns rs) r.
Proof.
  intros Hr [Ht Hc]. split; [done|]. rewrite commit_committed in Hc. apply elem_of_union in Hc as [?|Hc]; [done|].
  apply elem_of_singleton in Hc. destruct (Hunlogged r Hr Hc) as [? _]. done.
Qed.

Lemma commit_last_image k :
  last_image (committed_txns all) all k =
    if decide (k ∈ keys) then mem k else last_image (committed_txns rs) rs k.
Proof.
  assert (t ∈ committed_txns all) as Ht by (rewrite commit_committed; apply elem_of_union; right; by apply elem_of_singleton).
  unfold all at 2. rewrite !last_image_app. rewrite (last_image_none _ [C]).
  2: { intros r ->%list_elem_of_singleton. done. }
  unfold U. rewrite last_image_updates; [|done|intros k' Hk'; destruct (Hmem k' Hk') as (p & -> & _); eauto].
  case_decide as Hk.
  - by destruct (Hmem k Hk) as (p & -> & _).
  - apply last_image_ext. intros r Hr. unfold redo_image. erewrite bool_decide_ext; [done|]. split.
    + intros (H1 & H2 & H3). split_and!; [done| |done]. apply (old_redone r Hr). by split.
    + intros (H1 & H2 & H3). split_and!; [done| |done]. rewrite commit_committed. apply elem_of_union. by left.
Qed.

(** Recovering the whole log from files whose pages of the transaction hold
    anything: the transaction is there. *)
Lemma recover_commit ds0 :
  (forall oid d, ds0 !! oid = Some d -> disk_wf d) ->
  (forall k, page_of ds0 k = page_of ds k \/ (k ∈ keys /\ is_Some (page_of ds0 k))) ->
  recoverable (committed_txns all) all ds0 /\
  recovered_as all ds0 (overwrite mem keys ds).
Proof.
  intros Hwf Hds. destruct Hquiet as [Hrc Hli].
  assert (forall k, is_Some (page_of ds k) -> is_Some (page_of ds0 k)) as Hsome.
  { intros k Hk. destruct (Hds k) as [->|[_ ?]]; done. }
  assert (recoverable (committed_txns all) all ds0) as Hrc'.
  { split; [done|]. intros r Hr Hred. unfold all in Hr. apply elem_of_app in Hr as [Hr|Hr].
    - destruct (rc_pages _ _ _ Hrc r Hr (old_redone r Hr Hred)) as [? ?]. split; [by apply Hsome|done].
    - apply elem_of_app in Hr as [Hr|Hr].
      + apply elem_of_update_records in Hr as (l & k & Hk & ->). destruct (Hmem k Hk) as (p & Hp & Hl & Hs).
        cbn. rewrite Hp. split; [|done]. destruct k. by apply Hsome.
      + apply list_elem_of_singleton in Hr as ->. by destruct Hred. }
  split; [done|]. destruct (recovered_run all ds0 Hrc') as (ds' & Hrun & Hwf' & Hp).
  eexists _, ds'. split; [exact Hrun|]. split; [exact Hwf'|]. intros k. rewrite Hp, commit_last_image. unfold overwrite.
  case_decide as Hk.
  - by destruct (Hmem k Hk) as (p & -> & _).
  - destruct (last_image (committed_txns rs) rs k) as [p|] eqn:E; [by rewrite (Hli _ _ E)|].
    destruct (Hds k) as [->|[? _]]; done.
Qed.

End CommitRecords.

(** ** Lemmas: the steps of Commit, one at a time *)

(** The objects are well formed and their ids fit 32 bits. *)
Definition pools_ok (w : World) : Prop :=
  forall oid o, buffer_pools_ w !! oid = Some o -> pool_wf o.1 /\ 0 <= oid < 2 ^ 32.

Lemma same_pages_pools_ok w w' : same_pages w w' -> pools_ok w -> pools_ok w'.
Proof.
  intros H Hp oid o Ho. split.
  - eapply (sp_wf _ _ H); [|exact Ho]. intros oid' o' Ho'. by apply (Hp oid' o').
  - pose proof (sp_disks _ _ H) as Hd. apply (f_equal (.!! oid)) in Hd. rewrite !disks_of_lookup, Ho in Hd. cbn in Hd.
    destruct (buffer_pools_ w !! oid) as [o'|] eqn:E; [|done]. by apply (Hp oid o').
Qed.

Lemma disks_wf w : pools_ok w -> forall oid d, disks_of w !! oid = Some d -> disk_wf d.
Proof.
  intros Hp oid d. rewrite disks_of_lookup. destruct (buffer_pools_ w !! oid) as [o|] eqn:E; [|done].
  intros [= <-]. by apply (Hp oid o).
Qed.

Lemma mem_of_Some w k p :
  mem_of w k = Some p -> exists o, buffer_pools_ w !! key_object k = Some o /\ mem_page o.1 (key_page k) = Some p.
Proof. unfold mem_of. destruct (buffer_pools_ w !! key_object k) as [o|]; [|done]. eauto. Qed.

Lemma mem_of_facts w k p :
  pools_ok w -> mem_of w k = Some p ->
  zlen p = PAGE_SIZE /\ 0 <= key_object k < 2 ^ 32 /\ 0 <= key_page k < 2 ^ 32 /\ is_Some (page_of (disks_of w) k).
Proof.
  intros Hp Hm. destruct (mem_of_Some _ _ _ Hm) as (o & Ho & Hmp). destruct (Hp _ _ Ho) as [Hwf Hr].
  destruct (mem_page_facts _ _ _ Hwf Hmp) as [Hrng Hl]. pose proof (dw_bound _ (pw_disk _ Hwf)).
  split_and!; [done|lia..| |]; [lia|].
  unfold page_of. rewrite disks_of_lookup, Ho. cbn. apply disk_page_is_Some; [apply Hwf|done].
Qed.

(** What the log looks like after some appends: [X] added, nothing synced. *)
Record grown (lm lm' : LogManager.LogManager) (rs X : list LogRecord) : Prop := mkGrown {
  gr_holds : log_holds lm' (rs ++ X);
  gr_next : next_lsn_ lm' = next_lsn_ lm + zlen X;
  gr_synced : synced lm' = synced lm;
  gr_durable : durable_lsn_ lm' = durable_lsn_ lm;
  gr_idle : flush_in_progress_ lm' = flush_in_progress_ lm
}.

Lemma grown_nil lm rs : log_holds lm rs -> grown lm lm rs [].
Proof. intros H. split; try done; [by rewrite app_nil_r|]. change (zlen []) with 0. lia. Qed.

Lemma grown_app lm1 lm2 lm3 rs X Y : grown lm1 lm2 rs X -> grown lm2 lm3 (rs ++ X) Y -> grown lm1 lm3 rs (X ++ Y).
Proof. intros [] []. split; [by rewrite app_assoc|rewrite zlen_app; lia|congruence..]. Qed.

Lemma append_grown lm rs t txn oid pid pl r :
  log_holds lm rs -> next_lsn_ lm + 1 < 2 ^ 64 -> r = new_record lm t txn oid pid pl -> record_ok r -> payload r = pl ->
  exists lm', AppendRecord t txn oid pid pl lm = (Ret (next_lsn_ lm), lm') /\ grown lm lm' rs [r].
Proof.
  intros H1 H2 H3 H4 H5. destruct (AppendRecord_holds _ _ _ _ _ _ _ _ H1 H2 H3 H4 H5) as (lm' & Ha & Hh & _ & Hn & Hs & Hd & Hf & _).
  exists lm'. split; [done|]. by split.
Qed.

Lemma on_log_run {A} (m : M LogManager.LogManager A) w r lm :
  m (log_manager_ w) = (r, lm) -> on_log m w = (r, set_log lm w).
Proof. intros H. unfold on_log. by rewrite H. Qed.

Lemma set_log_same lm w : same_pages w (set_log lm w).
Proof. split; auto. Qed.

Lemma next_lsn_pos lm rs : log_holds lm rs -> 0 < next_lsn_ lm.
Proof. intros H. rewrite (lh_next _ _ H). pose proof (zlen_nonneg rs). lia. Qed.

Lemma log_page_run th t k p w rs :
  pools_ok w -> mem_of w k = Some p -> log_holds (log_manager_ w) rs -> next_lsn_ (log_manager_ w) + 1 < 2 ^ 64 ->
  0 <= t < 2 ^ 64 ->
  exists w', log_page th t (key_object k) (key_page k) w = (Ret tt, w') /\ same_pages w w' /\
    grown (log_manager_ w) (log_manager_ w') rs [update_record t (next_lsn_ (log_manager_ w)) k p].
Proof.
  intros Hp Hm Hh Hn Ht. destruct (mem_of_facts _ _ _ Hp Hm) as (Hl & Hoid & Hpid & _).
  destruct (mem_of_Some _ _ _ Hm) as (o & Ho & Hmp). destruct (Hp _ _ Ho) as [Hwf _].
  destruct (fetch_data_run th k p w o Ho Hmp Hwf) as (w1 & H1 & Hs1 & Hlog).
  pose proof (next_lsn_pos _ _ Hh).
  destruct (append_grown (log_manager_ w1) rs kUpdate t (key_object k) (key_page k) p
    (update_record t (next_lsn_ (log_manager_ w)) k p)) as (lm2 & H2 & Hg); rewrite ?Hlog; try done.
  { split; cbn; [lia|done..]. }
  exists (set_log lm2 w1). split_and!.
  - unfold log_page. run H1. run (on_log_run _ _ _ _ H2). done.
  - etrans; [exact Hs1|apply set_log_same].
  - cbn. by rewrite Hlog in Hg.
Qed.

Lemma log_pages_run th t mem keys w rs :
  pools_ok w -> (forall k, mem_of w k = mem k) -> (forall k, k ∈ keys -> is_Some (mem k)) ->
  log_holds (log_manager_ w) rs -> next_lsn_ (log_manager_ w) + zlen keys < 2 ^ 64 -> 0 <= t < 2 ^ 64 ->
  exists w', for_each (fun k => log_page th t (key_object k) (key_page k)) keys w = (Ret tt, w') /\ same_pages w w' /\
    grown (log_manager_ w) (log_manager_ w') rs (update_records t (next_lsn_ (log_manager_ w)) mem keys).
Proof.
  revert w rs. induction keys as [|k keys IH]; intros w rs Hp Hmem Hk Hh Hn Ht; cbn [for_each update_records].
  - exists w. split_and!; [done..|]. by apply grown_nil.
  - destruct (Hk k) as [p Hkp]; [by left|]. unfold zlen in Hn. cbn in Hn.
    destruct (log_page_run th t k p w rs) as (w1 & H1 & Hs1 & Hg1); [done|by rewrite Hmem|done|lia|done|].
    destruct (IH w1 (rs ++ [update_record t (next_lsn_ (log_manager_ w)) k p])) as (w2 & H2 & Hs2 & Hg2).
    + by eapply same_pages_pools_ok.
    + intros k'. by rewrite (sp_mem _ _ Hs1).
    + intros k' Hk'. apply Hk. by right.
    + apply (gr_holds _ _ _ _ Hg1).
    + rewrite (gr_next _ _ _ _ Hg1). unfold zlen. cbn. lia.
    + done.
    + exists w2. split_and!; [by run H1|by etrans|]. rewrite Hkp.
      rewrite (gr_next _ _ _ _ Hg1) in Hg2. exact (grown_app _ _ _ _ _ _ Hg1 Hg2).
Qed.

(** Writing one of the transaction's pages back. *)
Definition write_back (th : ThreadId) (k : PageKey) : M World unit :=
  on_pool th (key_object k) (flush_if_dirty (key_page k)).

(** After writing back [keys]: the file holds their in-memory content. *)
Record written (keys : list PageKey) (w w' : World) : Prop := mkWritten {
  wr_log : log_manager_ w' = log_manager_ w;
  wr_pools : pools_ok w';
  wr_mem k : mem_of w' k = mem_of w k;
  wr_disk k : page_of (disks_of w') k = overwrite (mem_of w) keys (disks_of w) k;
  wr_locks : lock_manager_ w' = lock_manager_ w;
  wr_active : active_txns_ w' = active_txns_ w;
  wr_next : next_txn_id_ w' = next_txn_id_ w;
  wr_current : current_txn w' = current_txn w
}.

Lemma page_of_put oid v w k :
  page_of (disks_of (put_view oid v w)) k =
    if decide (key_object k = oid) then disk_page (disk_manager_ (v_pool v)) (key_page k) else page_of (disks_of w) k.
Proof.
  unfold page_of. rewrite !disks_of_lookup. cbn. case_decide as H.
  - by rewrite H, lookup_insert_eq.
  - by rewrite lookup_insert_ne.
Qed.

Lemma mem_of_put oid v w k :
  mem_of (put_view oid v w) k =
    if decide (key_object k = oid) then mem_page (v_pool v) (key_page k) else mem_of w k.
Proof.
  unfold mem_of. cbn. case_decide as H.
  - by rewrite H, lookup_insert_eq.
  - by rewrite lookup_insert_ne.
Qed.

Lemma clean_page bp q : pool_wf bp -> q ∉ dirty_ bp -> disk_page (disk_manager_ bp) q = mem_page bp q.
Proof.
  intros Hwf Hd. unfold mem_page. destruct (pages_ bp !! q) as [p|] eqn:E; [|done]. by apply (pw_clean _ Hwf).
Qed.

Lemma write_back_run th k w :
  pools_ok w -> is_Some (mem_of w k) -> exists w', write_back th k w = (Ret tt, w') /\ written [k] w w'.
Proof.
  intros Hp [p Hm]. destruct (mem_of_Some _ _ _ Hm) as (o & Ho & Hmp). destruct (Hp _ _ Ho) as [Hwf Hoid].
  destruct (flush_if_dirty_run (key_page k) (view_of th o w) Hwf) as (v & Hr & Hf).
  pose proof (fun q => flushed_mem _ _ _ q Hf) as Hmem. destruct Hf as (Hff & _ & Hd).
  destruct (ff_rest _ _ Hff) as (_ & Htx & Hlk & _).
  exists (put_view (key_object k) v w). split; [by eapply on_pool_run|]. split; try done.
  - intros oid' o'. cbn. rewrite lookup_insert_Some. intros [[<- <-]|[_ Ho']]; [split; [apply Hff|done]|by apply Hp].
  - intros k'. rewrite mem_of_put. case_decide as Hk; [|done]. rewrite Hmem. unfold mem_of. by rewrite Hk, Ho.
  - intros k'. rewrite page_of_put. unfold overwrite. destruct (decide (key_object k' = key_object k)) as [Hk|Hk].
    + rewrite Hd. destruct (decide (k' ∈ [k])) as [Hin|Hnin].
      * apply list_elem_of_singleton in Hin as ->. rewrite (bool_decide_eq_true_2 (key_page k ∈ [key_page k])) by (by left).
        cbn [andb]. unfold mem_of. rewrite Ho. cbn. case_bool_decide as Hdi; [done|]. by apply clean_page.
      * rewrite bool_decide_eq_false_2; cbn [andb].
        -- unfold page_of. by rewrite disks_of_lookup, Hk, Ho.
        -- rewrite list_elem_of_singleton. intros Hq. apply Hnin, list_elem_of_singleton. destruct k, k'; cbn in *; congruence.
    + rewrite decide_False; [done|]. rewrite list_elem_of_singleton. congruence.
Qed.

Lemma written_nil w : pools_ok w -> written [] w w.
Proof. intros. by split. Qed.

Lemma written_cons k keys w w1 w2 : written [k] w w1 -> written keys w1 w2 -> written (k :: keys) w w2.
Proof.
  intros [] []. split; try congruence; [done|].
  - intros k'. rewrite wr_disk1. unfold overwrite. rewrite wr_mem0, wr_disk0. unfold overwrite.
    destruct (decide (k' ∈ keys)) as [Hk|Hk].
    + by rewrite decide_True by (by right).
    + destruct (decide (k' ∈ [k])) as [Hin|Hnin].
      * by rewrite decide_True by (apply list_elem_of_singleton in Hin as ->; by left).
      * rewrite decide_False; [done|]. rewrite elem_of_cons. rewrite list_elem_of_singleton in Hnin. tauto.
Qed.

Lemma write_backs_run th keys w :
  pools_ok w -> (forall k, k ∈ keys -> is_Some (mem_of w k)) ->
  exists w', for_each (write_back th) keys w = (Ret tt, w') /\ written keys w w'.
Proof.
  revert w. induction keys as [|k keys IH]; intros w Hp Hm; cbn [for_each].
  - exists w. split; [done|by apply written_nil].
  - destruct (write_back_run th k w Hp (Hm k ltac:(by left))) as (w1 & H1 & Hw1).
    destruct (IH w1) as (w2 & H2 & Hw2); [apply Hw1|intros; rewrite (wr_mem _ _ _ Hw1); apply Hm; by right|].
    exists w2. split; [by run H1|by eapply written_cons].
Qed.

(** ** Commit as a sequence of steps a crash can interrupt *)

Inductive commit_action :=
| LogUpdate (k : PageKey)
| LogCommit
| SyncLog (target : Lsn)
| WriteBack (k : PageKey).

Definition run_action (th : ThreadId) (t : TxnId) (a : commit_action) : M World unit :=
  match a with
  | LogUpdate k => log_page th t (key_object k) (key_page k)
  | LogCommit => on_log (AppendCommit t);; mret tt
  | SyncLog target => on_log (FlushThrough true target)
  | WriteBack k => write_back th k
  end.

Definition commit_keys (t : TxnId) (w : World) : list PageKey := dirtied_keys (DirtiedPages t (active_txns_ w)).

Definition commit_actions (t : TxnId) (w : World) : list commit_action :=
  let keys := commit_keys t w in
  (LogUpdate <$> keys) ++ [LogCommit; SyncLog (next_lsn_ (log_manager_ w) + zlen keys)] ++ (WriteBack <$> keys).

(** The state after the first [n] steps. *)
Definition commit_point (th : ThreadId) (t : TxnId) (n : nat) (w : World) : outcome unit * World :=
  (clear_observers th;; for_each (run_action th t) (take n (commit_actions t w))) w.

(** What [Commit] needs of its transaction. *)
Record committable (th : ThreadId) (t : TxnId) (w : World) : Prop := mkCommittable {
  cm_current : current_txn w !! th = Some t;
  cm_active : is_Some (active_txns_ w !! t);
  cm_mem k : k ∈ commit_keys t w -> is_Some (mem_of w k);
  cm_id : 0 <= t < 2 ^ 64;
  cm_lsn : next_lsn_ (log_manager_ w) + zlen (commit_keys t w) + 1 < 2 ^ 64
}.

(** The records a commit appends. *)
Definition commit_records (t : TxnId) (w : World) : list LogRecord :=
  let lsn := next_lsn_ (log_manager_ w) in
  update_records t lsn (mem_of w) (commit_keys t w) ++ [commit_record t (lsn + zlen (commit_keys t w))].

Lemma world_pools_ok w rs : world_ok w rs -> pools_ok w.
Proof. intros H. exact (wo_pools _ _ H). Qed.

(** After logging the first of the pages. *)
Lemma logging_phase th t w w0 rs keys :
  world_ok w rs -> committable th t w -> same_world w w0 -> keys `prefix_of` commit_keys t w ->
  exists w1, for_each (run_action th t) (LogUpdate <$> keys) w0 = (Ret tt, w1) /\ same_pages w w1 /\
    grown (log_manager_ w) (log_manager_ w1) rs (update_records t (next_lsn_ (log_manager_ w)) (mem_of w) keys).
Proof.
  intros Hok Hc [Hs Hlog] [keys2 Hpre].
  assert (zlen keys <= zlen (commit_keys t w)) as Hlen by (rewrite Hpre, zlen_app; pose proof (zlen_nonneg keys2); lia).
  pose proof (cm_lsn _ _ _ Hc).
  destruct (log_pages_run th t (mem_of w) keys w0 rs) as (w1 & H1 & Hs1 & Hg); rewrite ?Hlog.
  - eapply same_pages_pools_ok; [exact Hs|apply (world_pools_ok _ _ Hok)].
  - apply (sp_mem _ _ Hs).
  - intros k Hk. apply (cm_mem _ _ _ Hc). rewrite Hpre. apply elem_of_app. by left.
  - apply Hok.
  - lia.
  - apply Hc.
  - exists w1. split_and!; [by rewrite for_each_fmap|by etrans|]. by rewrite Hlog in Hg.
Qed.

(** The Commit record is appended. *)
Lemma commit_record_phase t w w1 rs :
  world_ok w rs -> 0 <= t < 2 ^ 64 -> next_lsn_ (log_manager_ w) + zlen (commit_keys t w) + 1 < 2 ^ 64 ->
  grown (log_manager_ w) (log_manager_ w1) rs (update_records t (next_lsn_ (log_manager_ w)) (mem_of w) (commit_keys t w)) ->
  exists lm2, AppendCommit t (log_manager_ w1) = (Ret (next_lsn_ (log_manager_ w) + zlen (commit_keys t w)), lm2) /\
    grown (log_manager_ w) lm2 rs (commit_records t w).
Proof.
  intros Hok Ht Hn Hg. pose proof (gr_next _ _ _ _ Hg) as Hn1. rewrite zlen_update_records in Hn1.
  pose proof (next_lsn_pos _ _ (wo_log _ _ Hok)). pose proof (zlen_nonneg (commit_keys t w)).
  destruct (append_grown (log_manager_ w1) _ kCommit t INVALID_OBJECT_ID INVALID_PAGE_ID []
    (commit_record t (next_lsn_ (log_manager_ w1))) (gr_holds _ _ _ _ Hg)) as (lm2 & H2 & Hg2); [lia|done| |done|].
  { split; cbn; [lia|lia|by vm_compute; split..|apply zlen_zero_page|done]. }
  exists lm2. rewrite Hn1 in *. split; [done|]. exact (grown_app _ _ _ _ _ _ Hg Hg2).
Qed.

(** The log is synced. *)
Lemma sync_phase w lm2 rs X target :
  world_ok w rs -> grown (log_manager_ w) lm2 rs X -> next_lsn_ lm2 = target + 1 -> next_lsn_ (log_manager_ w) <= target ->
  exists lm3, FlushThrough true target lm2 = (Ret tt, lm3) /\ log_holds lm3 (rs ++ X) /\ synced lm3 = zlen (wal lm3) /\
    next_lsn_ lm3 = target + 1 /\ durable_lsn_ lm3 = target /\ flush_in_progress_ lm3 = false.
Proof.
  intros Hok [Hh Hn Hs Hd Hi] Hnt Hle. pose proof (wo_durable _ _ Hok) as Hdur.
  rewrite FlushThrough_run by (rewrite Hi; apply Hok). rewrite Hd, (proj2 (Z.ltb_lt _ _)) by lia.
  pose proof (next_lsn_pos _ _ (wo_log _ _ Hok)). pose proof (lh_max _ _ Hh).
  assert (u64 (next_lsn_ lm2 - 1) = target) as Hu by (unfold u64; rewrite Z.mod_small by lia; lia). rewrite Hu.
  eexists. split; [done|]. cbn. split_and!; [|done|done|lia|rewrite Hi; apply Hok].
  destruct Hh. split; cbn; try done. split; [apply zlen_nonneg|done].
Qed.

Lemma commit_mem th t w rs :
  world_ok w rs -> committable th t w -> forall k, k ∈ commit_keys t w ->
  exists p, mem_of w k = Some p /\ zlen p = PAGE_SIZE /\ is_Some (page_of (disks_of w) k).
Proof.
  intros Hok Hc k Hk. destruct (cm_mem _ _ _ Hc k Hk) as [p Hp]. exists p. split; [done|].
  destruct (mem_of_facts w k p (world_pools_ok _ _ Hok) Hp) as (? & _ & _ & ?). done.
Qed.

(** The states Commit goes through, up to the last page written back. *)
Lemma commit_phases th t w rs :
  world_ok w rs -> committable th t w ->
  exists w0 w1 lm2 lm3 w4,
    clear_observers th w = (Ret tt, w0) /\ same_world w w0 /\
    for_each (run_action th t) (LogUpdate <$> commit_keys t w) w0 = (Ret tt, w1) /\ same_pages w w1 /\
    AppendCommit t (log_manager_ w1) = (Ret (next_lsn_ (log_manager_ w) + zlen (commit_keys t w)), lm2) /\
    grown (log_manager_ w) lm2 rs (commit_records t w) /\
    FlushThrough true (next_lsn_ (log_manager_ w) + zlen (commit_keys t w)) lm2 = (Ret tt, lm3) /\
    log_holds lm3 (rs ++ commit_records t w) /\ synced lm3 = zlen (wal lm3) /\
    durable_lsn_ lm3 < next_lsn_ lm3 /\ flush_in_progress_ lm3 = false /\
    for_each (write_back th) (commit_keys t w) (set_log lm3 w1) = (Ret tt, w4) /\ written (commit_keys t w) (set_log lm3 w1) w4.
Proof.
  intros Hok Hc. destruct (clear_observers_run th w) as (w0 & H0 & Hs0).
  destruct (logging_phase th t w w0 rs (commit_keys t w) Hok Hc Hs0 (reflexivity _)) as (w1 & H1 & Hs1 & Hg1).
  destruct (commit_record_phase t w w1 rs Hok (cm_id _ _ _ Hc) (cm_lsn _ _ _ Hc) Hg1) as (lm2 & H2 & Hg2).
  pose proof (gr_next _ _ _ _ Hg2) as Hn2. unfold commit_records in Hn2. rewrite zlen_app, zlen_update_records in Hn2.
  change (zlen [_]) with 1 in Hn2. pose proof (zlen_nonneg (commit_keys t w)).
  destruct (sync_phase w lm2 rs _ (next_lsn_ (log_manager_ w) + zlen (commit_keys t w)) Hok Hg2) as (lm3 & H3 & Hh3 & Hsy & Hn3 & Hd3 & Hi3); [lia..|].
  destruct (write_backs_run th (commit_keys t w) (set_log lm3 w1)) as (w4 & H4 & Hw4).
  - eapply same_pages_pools_ok; [etrans; [exact Hs1|apply set_log_same]|apply (world_pools_ok _ _ Hok)].
  - intros k Hk. rewrite (sp_mem _ _ (set_log_same lm3 w1)), (sp_mem _ _ Hs1). by apply (cm_mem _ _ _ Hc).
  - exists w0, w1, lm2, lm3, w4. split_and!; try done. lia.
Qed.

(** ** Commit is its steps, then the release *)

Lemma flush_if_dirty_context pid v r v' :
  flush_if_dirty pid v = (r, v') -> v_current v' = v_current v /\ v_thread v' = v_thread v.
Proof.
  unfold flush_if_dirty. destruct (pages_ (v_pool v) !! pid) as [p|]; [|by intros [= <- <-]].
  case_bool_decide; [|by intros [= <- <-]]. unfold mbind, M_bind, on_disk.
  destruct (WritePage pid p _) as [[u|e|key|] d]; by intros [= <- <-].
Qed.

Lemma on_pool_registered {A} th oid (m : M View A) w r w' oid' :
  on_pool th oid m w = (r, w') -> is_Some (buffer_pools_ w !! oid') -> is_Some (buffer_pools_ w' !! oid').
Proof.
  unfold on_pool. destruct (buffer_pools_ w !! oid) as [o|] eqn:E; [|by intros [= <- <-]].
  destruct (m (view_of th o w)) as [r0 v]. intros [= <- <-] H. cbn. destruct (decide (oid' = oid)) as [->|].
  - rewrite lookup_insert_eq. eauto.
  - by rewrite lookup_insert_ne.
Qed.

Lemma write_back_loop_registered th (l : list PageKey) w r w' oid :
  for_each (write_back th) l w = (r, w') -> is_Some (buffer_pools_ w !! oid) -> is_Some (buffer_pools_ w' !! oid).
Proof.
  revert w. induction l as [|k l IH]; intros w; cbn [for_each]; [by intros [= <- <-]|].
  unfold mbind, M_bind. destruct (write_back th k w) as [[u|e|key|] w1] eqn:E; intros H Hs;
    pose proof (on_pool_registered _ _ _ _ _ _ oid E Hs); [by eapply IH|by injection H as <- <-..].
Qed.

Lemma flush_objects_eq th by_object w :
  (forall x, x ∈ by_object -> is_Some (buffer_pools_ w !! x.1)) ->
  for_each (flush_object th) by_object w = for_each (write_back th) (keys_of by_object) w.
Proof.
  rewrite <- by_object_loop. revert w. induction by_object as [|x l IH]; intros w Hreg; [done|]. cbn [for_each].
  destruct (Hreg x ltac:(by left)) as [o Ho].
  assert (flush_object th x w = for_each (fun pid => write_back th (mkPageKey x.1 pid)) (merge_sort Z.le (elements x.2)) w) as Heq.
  { unfold flush_object, FlushPages. erewrite on_pool_for_each; [done| |exact Ho]. intros. by eapply flush_if_dirty_context. }
  unfold mbind, M_bind. rewrite Heq.
  destruct (for_each (fun pid => write_back th (mkPageKey x.1 pid)) (merge_sort Z.le (elements x.2)) w) as [[u|e|key|] w1] eqn:E; [|done..].
  apply IH. intros y Hy. rewrite <- for_each_fmap in E. eapply write_back_loop_registered; [exact E|]. apply Hreg. by right.
Qed.

Lemma group_nonempty dirtied oid s : GroupDirtiedPagesByObject dirtied !! oid = Some s -> exists pid, pid ∈ s.
Proof.
  unfold GroupDirtiedPagesByObject. induction (elements dirtied) as [|k l IH]; cbn; [by rewrite lookup_empty|].
  rewrite lookup_insert_Some. intros [[<- <-]|[_ H]]; [|auto]. exists (key_page k). set_solver.
Qed.

Lemma Commit_steps th t w rs :
  world_ok w rs -> committable th t w ->
  exists w4, (clear_observers th;; for_each (run_action th t) (commit_actions t w)) w = (Ret tt, w4) /\
    Commit th true t w = finish_txn th t w4 /\
    log_holds (log_manager_ w4) (rs ++ commit_records t w) /\ synced (log_manager_ w4) = zlen (wal (log_manager_ w4)) /\
    durable_lsn_ (log_manager_ w4) < next_lsn_ (log_manager_ w4) /\ flush_in_progress_ (log_manager_ w4) = false /\
    pools_ok w4 /\ (forall k, mem_of w4 k = mem_of w k) /\
    (forall k, page_of (disks_of w4) k = overwrite (mem_of w) (commit_keys t w) (disks_of w) k) /\
    lock_manager_ w4 = lock_manager_ w /\ active_txns_ w4 = active_txns_ w /\
    next_txn_id_ w4 = next_txn_id_ w /\ current_txn w4 = current_txn w.
Proof.
  intros Hok Hc.
  destruct (commit_phases th t w rs Hok Hc) as (w0 & w1 & lm2 & lm3 & w4 & H0 & Hs0 & H1 & Hs1 & H2 & Hg2 & H3 & Hh3 & Hsy & Hd3 & Hi3 & H4 & Hw4).
  pose proof (on_log_run _ _ _ _ H2) as E2. pose proof (on_log_run _ (set_log lm2 w1) _ _ H3) as E3.
  change (set_log lm3 (set_log lm2 w1)) with (set_log lm3 w1) in E3.
  exists w4. split_and!.
  - unfold commit_actions. run H0. rewrite for_each_app. run H1. cbn [app for_each run_action].
    assert ((on_log (AppendCommit t);; mret tt) w1 = (Ret tt, set_log lm2 w1)) as E2' by (by run E2).
    run E2'. run E3. by rewrite for_each_fmap.
  - unfold Commit. run (gets_run (fun w => current_txn w !! th) w). rewrite bool_decide_eq_true_2 by apply Hc. cbn [negb].
    run H0. rewrite (bind_ret _ _ _ _ _ (gets_run _ w0)). destruct Hs0 as [Hs0 Hlog0]. rewrite (sp_active _ _ Hs0).
    assert (for_each (log_object th t) (map_to_list (GroupDirtiedPagesByObject (DirtiedPages t (active_txns_ w)))) w0 = (Ret tt, w1)) as E1.
    { unfold log_object. rewrite (by_object_loop (fun k => log_page th t (key_object k) (key_page k))).
      rewrite for_each_fmap in H1. exact H1. }
    run E1. run E2. run E3. rewrite <- (bind_ret _ (fun _ => finish_txn th t) _ tt w4 H4). unfold mbind, M_bind.
    rewrite flush_objects_eq; [done|]. intros [oid s] Hx. apply elem_of_map_to_list in Hx.
    destruct (group_nonempty _ _ _ Hx) as [pid Hpid].
    destruct (cm_mem _ _ _ Hc (mkPageKey oid pid)) as [p Hp].
    { apply elem_of_dirtied_keys, elem_of_group. by rewrite Hx. }
    destruct (mem_of_Some _ _ _ Hp) as (o & Ho & _). cbn in *.
    destruct (same_pages_registered _ _ _ _ Hs1 Ho) as [o1 Ho1]. eauto.
  - by rewrite (wr_log _ _ _ Hw4).
  - by rewrite (wr_log _ _ _ Hw4).
  - by rewrite (wr_log _ _ _ Hw4).
  - by rewrite (wr_log _ _ _ Hw4).
  - apply Hw4.
  - intros k. rewrite (wr_mem _ _ _ Hw4). apply (sp_mem _ _ Hs1).
  - intros k. rewrite (wr_disk _ _ _ Hw4). unfold overwrite. rewrite (sp_mem _ _ (set_log_same lm3 w1)), (sp_mem _ _ Hs1).
    rewrite (sp_disks _ _ (set_log_same lm3 w1)), (sp_disks _ _ Hs1). done.
  - rewrite (wr_locks _ _ _ Hw4). apply Hs1.
  - rewrite (wr_active _ _ _ Hw4). apply Hs1.
  - rewrite (wr_next _ _ _ Hw4). apply Hs1.
  - rewrite (wr_current _ _ _ Hw4). apply Hs1.
Qed.

(** ** What a crash leaves at each step *)

(** Where a commit is after [n] steps: the pages are being logged; the Commit
    record is appended and the log not yet synced; the log is synced. *)
Inductive phase := Logging | Deciding | Decided.

Definition commit_phase (t : TxnId) (w : World) (n : nat) : phase :=
  if (n <=? length (commit_keys t w))%nat then Logging else
  if (n =? S (length (commit_keys t w)))%nat then Deciding else Decided.

(** Whether a commit interrupted in a phase can be found done, or undone. *)
Definition may_find (ph : phase) (kept : bool) : Prop :=
  match ph with Logging => kept = false | Deciding => True | Decided => kept = true end.

(** While updates are logged: what is in the log, and what is not yet done. *)
Lemma take_commit_records t w n :
  (n <= length (commit_keys t w))%nat ->
  take n (commit_records t w) = update_records t (next_lsn_ (log_manager_ w)) (mem_of w) (take n (commit_keys t w)).
Proof.
  intros Hn. unfold commit_records. rewrite <- (take_drop n (commit_keys t w)) at 1. rewrite update_records_app.
  rewrite <- app_assoc, take_app_length'; [done|].
  pose proof (zlen_update_records t (next_lsn_ (log_manager_ w)) (mem_of w) (take n (commit_keys t w))) as Hz.
  unfold zlen in Hz. rewrite length_take in Hz. lia.
Qed.

Lemma no_early_write_back t w n k : (n <= length (commit_keys t w))%nat -> commit_actions t w !! n <> Some (WriteBack k).
Proof.
  intros Hn Hk. unfold commit_actions in Hk. destruct (decide (n = length (commit_keys t w))) as [->|].
  - rewrite lookup_app_r in Hk by (rewrite length_fmap; lia). rewrite length_fmap, Nat.sub_diag in Hk. done.
  - rewrite lookup_app_l in Hk by (rewrite length_fmap; lia). rewrite list_lookup_fmap in Hk. by destruct (commit_keys t w !! n).
Qed.

(** The log and the disks after [n] steps: either nothing has been written
    back, or the whole commit is synced. *)
Lemma commit_point_state th t n w rs :
  world_ok w rs -> committable th t w ->
  exists wn i, commit_point th t n w = (Ret tt, wn) /\ pools_ok wn /\
    log_holds (log_manager_ wn) (rs ++ take i (commit_records t w)) /\ synced (log_manager_ w) <= synced (log_manager_ wn) /\
    (((forall k, page_of (disks_of wn) k = page_of (disks_of w) k) /\ (forall k, commit_actions t w !! n <> Some (WriteBack k)) /\
      (commit_phase t w n = Deciding \/ (commit_phase t w n = Logging /\ (i <= length (commit_keys t w))%nat))) \/
     (commit_phase t w n = Decided /\ records_on_open_ (OpenLogManager (wal (log_manager_ wn))) = rs ++ commit_records t w /\
      synced (log_manager_ wn) = zlen (wal (log_manager_ wn)) /\ take i (commit_records t w) = commit_records t w /\
      forall k, page_of (disks_of wn) k = page_of (disks_of w) k \/ (k ∈ commit_keys t w /\ page_of (disks_of wn) k = mem_of w k))).
Proof.
  intros Hok Hc. set (keys := commit_keys t w). unfold commit_point, commit_actions. fold keys.
  destruct (commit_phases th t w rs Hok Hc) as (w0 & w1 & lm2 & lm3 & w4 & H0 & Hs0 & H1 & Hs1 & H2 & Hg2 & H3 & Hh3 & Hsy & _ & _ & _ & _).
  pose proof (on_log_run _ _ _ _ H2) as E2. pose proof (on_log_run _ (set_log lm2 w1) _ _ H3) as E3.
  change (set_log lm3 (set_log lm2 w1)) with (set_log lm3 w1) in E3. fold keys in H1, E2, E3.
  assert (forall m w', same_pages w w' -> pools_ok (set_log m w')) as Hpo.
  { intros m w' Hs. eapply same_pages_pools_ok; [etrans; [exact Hs|apply set_log_same]|apply (world_pools_ok _ _ Hok)]. }
  assert (commit_phase t w n = if (n <=? length keys)%nat then Logging else if (n =? S (length keys))%nat then Deciding else Decided) as -> by done.
  run H0. destruct (Nat.leb_spec n (length keys)) as [Hn|Hn].
  { destruct (logging_phase th t w w0 rs (take n keys) Hok Hc Hs0) as (wn & Hr & Hsn & Hgn).
    { exists (drop n keys). by rewrite take_drop. }
    exists wn, n. rewrite take_app_le by (rewrite length_fmap; lia). rewrite <- fmap_take.
    split_and!; [done|eapply same_pages_pools_ok; [exact Hsn|apply (world_pools_ok _ _ Hok)]| |by rewrite (gr_synced _ _ _ _ Hgn)|left].
    - rewrite take_commit_records by done. apply Hgn.
    - split_and!; [intros k; by rewrite (sp_disks _ _ Hsn)|intros k; by apply no_early_write_back|by right]. }
  rewrite take_app_ge by (rewrite length_fmap; lia). rewrite length_fmap.
  remember (n - length keys)%nat as j eqn:Hj. rewrite for_each_app. run H1.
  assert ((on_log (AppendCommit t);; mret tt) w1 = (Ret tt, set_log lm2 w1)) as E2' by (by run E2).
  destruct j as [|[|j]]; [lia|..].
  - exists (set_log lm2 w1), (length (commit_records t w)). cbn [app take for_each run_action]. rewrite firstn_all.
    split_and!; [by run E2'|by apply Hpo|apply Hg2|cbn; by rewrite (gr_synced _ _ _ _ Hg2)|left].
    split_and!; [intros k; by rewrite (sp_disks _ _ (set_log_same lm2 w1)), (sp_disks _ _ Hs1)| |left; by rewrite (proj2 (Nat.eqb_eq _ _)) by lia].
    intros k Hk. rewrite lookup_app_r in Hk by (rewrite length_fmap; lia). rewrite length_fmap in Hk. by rewrite <- Hj in Hk.
  - destruct (write_backs_run th (take j keys) (set_log lm3 w1)) as (wn & Hr & Hwn); [by apply Hpo| |].
    { intros k Hk. rewrite (sp_mem _ _ (set_log_same lm3 w1)), (sp_mem _ _ Hs1). apply (cm_mem _ _ _ Hc).
      fold keys. rewrite <- (take_drop j keys). apply elem_of_app. by left. }
    exists wn, (length (commit_records t w)). cbn [app take for_each run_action]. rewrite firstn_all.
    split_and!; [run E2'; run E3; by rewrite <- fmap_take, for_each_fmap|apply Hwn|by rewrite (wr_log _ _ _ Hwn)| |right].
    + rewrite (wr_log _ _ _ Hwn). cbn. rewrite Hsy, (lh_wal _ _ Hh3), encode_log_app, zlen_app, <- (lh_wal _ _ (wo_log _ _ Hok)).
      pose proof (lh_synced _ _ (wo_log _ _ Hok)). pose proof (zlen_nonneg (encode_log (commit_records t w))). lia.
    + rewrite (wr_log _ _ _ Hwn). cbn. split_and!; [by rewrite (proj2 (Nat.eqb_neq _ _)) by lia| |done|done|].
      * rewrite (lh_wal _ _ Hh3), <- (app_nil_r (encode_log _)), OpenLogManager_run; [done|apply Hh3|done].
      * intros k. rewrite (wr_disk _ _ _ Hwn). unfold overwrite.
        rewrite (sp_disks _ _ (set_log_same lm3 w1)), (sp_disks _ _ Hs1), (sp_mem _ _ (set_log_same lm3 w1)), (sp_mem _ _ Hs1).
        case_decide as Hk; [right|by left]. split; [|done]. rewrite <- (take_drop j keys). apply elem_of_app. by left.
Qed.

(** ** Recovering after the crash *)

(** What a crash of world [wn] can leave: a log, and files equal to the
    current ones except possibly the page being written. *)
Record crash_of (wn : World) (torn : option PageKey) (data : bytes) (ds : disks) : Prop := mkCrashOf {
  cr_log : crash_wal (log_manager_ wn) data;
  cr_disks oid d : ds !! oid = Some d -> disk_wf d;
  cr_pages k : page_of ds k = page_of (disks_of wn) k \/ (torn = Some k /\ is_Some (page_of ds k))
}.

(** Reopening the log gives a log of the records found, and running recovery
    with them these pages. *)
Definition recovers_to (data : bytes) (ds : disks) (content : PageKey -> option Page) : Prop :=
  log_holds (OpenLogManager data) (records_on_open_ (OpenLogManager data)) /\
  recovered_as (records_on_open_ (OpenLogManager data)) ds content.

Lemma recover_old R ds ds0 :
  recoverable (committed_txns R) R ds /\ (forall k p, last_image (committed_txns R) R k = Some p -> page_of ds k = Some p) ->
  (forall oid d, ds0 !! oid = Some d -> disk_wf d) -> (forall k, page_of ds0 k = page_of ds k) ->
  recovered_as R ds0 (page_of ds).
Proof.
  intros [Hrc Hli] Hwf Heq. destruct (recovered_run R ds0) as (ds' & Hr & Hwf' & Hp).
  - split; [done|]. intros r Hr Hred. rewrite Heq. by apply (rc_pages _ _ _ Hrc).
  - eexists _, ds'. split; [exact Hr|]. split; [exact Hwf'|]. intros k. rewrite Hp. destruct (last_image _ _ k) as [p|] eqn:E; [|done].
    by rewrite (Hli _ _ E).
Qed.

Lemma recovers_ext data ds f g : (forall k, f k = g k) -> recovers_to data ds f -> recovers_to data ds g.
Proof. intros H [H1 H2]. split; [done|]. by eapply recovered_ext. Qed.

(** Any crash of a quiet log recovers the pages of the files. *)
Lemma recovers_quiet lm rs data ds ds0 :
  log_holds lm rs -> quiet lm ds -> crash_wal lm data ->
  (forall oid d, ds0 !! oid = Some d -> disk_wf d) -> (forall k, page_of ds0 k = page_of ds k) -> recovers_to data ds0 (page_of ds).
Proof.
  intros Hh Hq Hcr Hwf Heq. split; [by eapply reopened_log|]. by apply recover_old; [apply Hq|..].
Qed.

(** Recovering a log that ends inside the records of the commit: before the
    Commit record, or with it. *)
Lemma recover_updates th t w rs ds0 m :
  world_ok w rs -> committable th t w ->
  (forall oid d, ds0 !! oid = Some d -> disk_wf d) -> (forall k, page_of ds0 k = page_of (disks_of w) k) ->
  (m <= length (commit_keys t w))%nat -> recovered_as (rs ++ take m (commit_records t w)) ds0 (page_of (disks_of w)).
Proof.
  intros Hok Hc Hwf Heq Hm. pose proof (quiet_full _ _ _ (wo_log _ _ Hok) (wo_quiet _ _ Hok)) as Hq.
  destruct (wo_active _ _ Hok t (cm_active _ _ _ Hc)) as [Hun _]. rewrite take_commit_records by done.
  apply recover_old; [|done|done]. apply quiet_extend; [|..|done].
  - intros r (l & k & _ & ->)%elem_of_update_records. done.
  - intros r (l & k & _ & ->)%elem_of_update_records _. by apply unlogged_not_committed.
Qed.

Lemma recover_records th t w rs ds0 m :
  world_ok w rs -> committable th t w ->
  (forall oid d, ds0 !! oid = Some d -> disk_wf d) -> (forall k, page_of ds0 k = page_of (disks_of w) k) ->
  recovered_as (rs ++ take m (commit_records t w)) ds0 (page_of (disks_of w)) \/
  recovered_as (rs ++ take m (commit_records t w)) ds0 (overwrite (mem_of w) (commit_keys t w) (disks_of w)).
Proof.
  intros Hok Hc Hwf Heq. destruct (decide (m <= length (commit_keys t w))%nat) as [Hm|Hm]; [left; by eapply recover_updates|right].
  rewrite take_ge. 2: { unfold commit_records. rewrite length_app. pose proof (zlen_update_records t (next_lsn_ (log_manager_ w)) (mem_of w) (commit_keys t w)).
    unfold zlen in *. cbn. lia. }
  destruct (recover_commit t (next_lsn_ (log_manager_ w)) (mem_of w) (commit_keys t w) rs (disks_of w)
    (proj1 (wo_active _ _ Hok t (cm_active _ _ _ Hc))) (quiet_full _ _ _ (wo_log _ _ Hok) (wo_quiet _ _ Hok))
    (commit_mem th t w rs Hok Hc) ds0 Hwf) as (_ & Hr); [intros k; by left|exact Hr].
Qed.

Definition torn_page (t : TxnId) (n : nat) (w : World) : option PageKey :=
  match commit_actions t w !! n with Some (WriteBack k) => Some k | _ => None end.

Lemma torn_page_key t n w k : torn_page t n w = Some k -> k ∈ commit_keys t w.
Proof.
  unfold torn_page. destruct (commit_actions t w !! n) as [[]|] eqn:E; try done. intros [= ->].
  apply list_elem_of_lookup_2 in E. unfold commit_actions in E. rewrite !elem_of_app, !list_elem_of_fmap, !elem_of_cons in E.
  destruct E as [(? & ? & _)|[[?|[?|?%not_elem_of_nil]]|(k' & [= <-] & ?)]]; done.
Qed.

Lemma crash_recovers_phase th t n w rs data ds0 :
  world_ok w rs -> committable th t w ->
  crash_of (commit_point th t n w).2 (torn_page t n w) data ds0 ->
  exists kept : bool, may_find (commit_phase t w n) kept /\
    recovers_to data ds0 (if kept then overwrite (mem_of w) (commit_keys t w) (disks_of w) else page_of (disks_of w)).
Proof.
  intros Hok Hc [Hlog Hwf Hpg]. unfold recovers_to.
  destruct (commit_point_state th t n w rs Hok Hc) as (wn & i & Hpt & _ & Hh & Hsy & Hcase). rewrite Hpt in *. cbn [snd] in *.
  pose proof (reopened_log _ _ _ Hh Hlog) as Hre.
  destruct Hcase as [(Hsame & Hnw & Hph)|(Hph & Hrec & Hfull & Htake & Hdisk)].
  - assert (forall k, page_of ds0 k = page_of (disks_of w) k) as Heq.
    { intros k. destruct (Hpg k) as [->|[Ht _]]; [apply Hsame|]. unfold torn_page in Ht.
      destruct (commit_actions t w !! n) as [[| | |k0]|]; try done. by destruct (Hnw k0). }
    assert (may_find (commit_phase t w n) false) as Hno by (destruct Hph as [->|[-> _]]; done).
    destruct (crash_grown _ _ _ _ _ (wo_log _ _ Hok) Hh Hsy Hlog) as [Hold|[j Hj]].
    + exists false. do 2 (split; [done|]). apply recover_old; [|done|done]. by apply (wo_quiet _ _ Hok).
    + rewrite Hj, take_take in *. destruct Hph as [Hph|[Hph Hi]].
      * destruct (recover_records th t w rs ds0 (Nat.min j i) Hok Hc Hwf Heq) as [?|?]; [by exists false|exists true; by rewrite Hph].
      * exists false. do 2 (split; [done|]). by apply (recover_updates th t w rs ds0); [..|lia].
  - exists true. rewrite Hph. split; [done|]. split; [done|]. rewrite Htake in Hh. rewrite (reopen_synced _ _ _ Hh Hfull Hlog).
    destruct (recover_commit t (next_lsn_ (log_manager_ w)) (mem_of w) (commit_keys t w) rs (disks_of w)
      (proj1 (wo_active _ _ Hok t (cm_active _ _ _ Hc))) (quiet_full _ _ _ (wo_log _ _ Hok) (wo_quiet _ _ Hok))
      (commit_mem th t w rs Hok Hc) ds0 Hwf) as (_ & Hr); [|exact Hr].
    intros k. destruct (Hpg k) as [Hk|[Ht Hs]].
    + rewrite Hk. destruct (Hdisk k) as [?|[Hin Hm]]; [by left|right; split; [done|]]. rewrite Hm.
      by apply (cm_mem _ _ _ Hc).
    + right. split; [by eapply torn_page_key|done].
Qed.

Lemma crash_recovers th t n w rs data ds0 :
  world_ok w rs -> committable th t w ->
  crash_of (commit_point th t n w).2 (torn_page t n w) data ds0 ->
  recovers_to data ds0 (page_of (disks_of w)) \/
  recovers_to data ds0 (overwrite (mem_of w) (commit_keys t w) (disks_of w)).
Proof. intros Hok Hc Hcr. destruct (crash_recovers_phase th t n w rs data ds0 Hok Hc Hcr) as ([] & _ & H); [by right|by left]. Qed.

(** ** The state after a commit *)

Lemma finish_txn_run th t w :
  finish_txn th t w = (Ret tt, set_active (delete t (active_txns_ w)) (set_current (delete th (current_txn w))
    (set_lock_manager (ReleaseAll t (lock_manager_ w)) w))).
Proof. done. Qed.

Lemma unlogged_app t rs X : unlogged t rs -> (forall r, r ∈ X -> r_txn_id r <> t) -> unlogged t (rs ++ X).
Proof. intros H HX r Hr Ht. apply elem_of_app in Hr as [Hr|Hr]; [by apply H|]. by destruct (HX r Hr). Qed.

Lemma commit_records_txn t w r : r ∈ commit_records t w -> r_txn_id r = t.
Proof.
  unfold commit_records. intros [Hr|Hr]%elem_of_app.
  - apply elem_of_update_records in Hr as (l & k & _ & ->). done.
  - by apply list_elem_of_singleton in Hr as ->.
Qed.

Lemma Commit_run th t w rs :
  world_ok w rs -> committable th t w ->
  exists w', Commit th true t w = (Ret tt, w') /\ world_ok w' (rs ++ commit_records t w) /\
    synced (log_manager_ w') = zlen (wal (log_manager_ w')) /\
    (forall k, mem_of w' k = mem_of w k) /\
    (forall k, page_of (disks_of w') k = overwrite (mem_of w) (commit_keys t w) (disks_of w) k) /\
    lock_manager_ w' = ReleaseAll t (lock_manager_ w) /\ active_txns_ w' = delete t (active_txns_ w) /\
    next_txn_id_ w' = next_txn_id_ w /\ current_txn w' = delete th (current_txn w).
Proof.
  intros Hok Hc. destruct (wo_active _ _ Hok t (cm_active _ _ _ Hc)) as [Hun [_ Hlt]].
  destruct (Commit_steps th t w rs Hok Hc) as (w4 & _ & Hcm & Hh & Hsy & Hd & Hi & Hpo & Hm & Hpg & Hl & Ha & Hn & Hcu).
  rewrite Hcm, finish_txn_run. eexists. split; [done|]. cbn. rewrite Hl, Ha, Hn, Hcu.
  pose proof (quiet_full _ _ _ (wo_log _ _ Hok) (wo_quiet _ _ Hok)) as Hq.
  split_and!; try done. split; cbn; rewrite ?Ha, ?Hn; try done.
  - intros data Hcr. cbn zeta. rewrite (reopen_synced _ _ _ Hh Hsy Hcr).
    destruct (recover_commit t (next_lsn_ (log_manager_ w)) (mem_of w) (commit_keys t w) rs (disks_of w) Hun Hq
      (commit_mem th t w rs Hok Hc) (disks_of w4) (disks_wf _ Hpo)) as (Hrc & _).
    { intros k. rewrite Hpg. unfold overwrite. case_decide as Hk; [right|by left]. split; [done|]. by apply (cm_mem _ _ _ Hc). }
    split; [exact Hrc|]. intros k p. unfold commit_records.
    rewrite (commit_last_image t (next_lsn_ (log_manager_ w)) (mem_of w) (commit_keys t w) rs (disks_of w) Hun (commit_mem th t w rs Hok Hc)).
    change (page_of _ k) with (page_of (disks_of w4) k). rewrite Hpg. unfold overwrite. case_decide; [done|]. apply Hq.
  - intros t' Hs. rewrite lookup_delete_is_Some in Hs. destruct Hs as [Hne Hs]. destruct (wo_active _ _ Hok t' Hs) as [? ?].
    split; [|done]. apply unlogged_app; [done|]. intros r Hr%commit_records_txn. congruence.
  - intros t' Ht'. apply unlogged_app; [by apply (wo_fresh _ _ Hok)|]. intros r Hr%commit_records_txn. lia.
Qed.

(** ** Abort *)

(** The pages of [keys] read as the files hold them; nothing else changes. *)
Record discarded (keys : list PageKey) (w w' : World) : Prop := mkDiscarded {
  di_log : log_manager_ w' = log_manager_ w;
  di_pools : pools_ok w';
  di_mem k : mem_of w' k = if decide (k ∈ keys) then page_of (disks_of w) k else mem_of w k;
  di_disks : disks_of w' = disks_of w;
  di_locks : lock_manager_ w' = lock_manager_ w;
  di_active : active_txns_ w' = active_txns_ w;
  di_next : next_txn_id_ w' = next_txn_id_ w;
  di_current : current_txn w' = current_txn w
}.

Definition discard (th : ThreadId) (k : PageKey) : M World unit := on_pool th (key_object k) (DiscardPage (key_page k)).

Lemma discard_run th k w :
  pools_ok w -> is_Some (mem_of w k) -> exists w', discard th k w = (Ret tt, w') /\ discarded [k] w w'.
Proof.
  intros Hp [p Hm]. destruct (mem_of_Some _ _ _ Hm) as (o & Ho & Hmp). destruct (Hp _ _ Ho) as [Hwf Hoid].
  destruct (DiscardPage_run (key_page k) (view_of th o w) Hwf) as (v & Hr & Hff & Hwf' & Hd & _ & Hmem & _).
  destruct (ff_rest _ _ Hff) as (_ & Htx & Hlk & _).
  exists (put_view (key_object k) v w). split; [by eapply on_pool_run|]. split; try done.
  - intros oid' o'. cbn. rewrite lookup_insert_Some. intros [[<- <-]|[_ Ho']]; [by split|by apply Hp].
  - intros k'. rewrite mem_of_put. destruct (decide (key_object k' = key_object k)) as [Hk|Hk].
    + rewrite Hmem. destruct (decide (key_page k' = key_page k)) as [Hq|Hq].
      * rewrite decide_True by (apply list_elem_of_singleton; destruct k, k'; cbn in *; congruence).
        unfold page_of. by rewrite disks_of_lookup, Hk, Ho, Hq.
      * rewrite decide_False by (rewrite list_elem_of_singleton; congruence). unfold mem_of. by rewrite Hk, Ho.
    + rewrite decide_False; [done|]. rewrite list_elem_of_singleton. congruence.
  - apply map_eq. intros i. rewrite !disks_of_lookup. cbn. destruct (decide (i = key_object k)) as [->|].
    + rewrite lookup_insert_eq, Ho. cbn. by rewrite Hd.
    + by rewrite lookup_insert_ne.
Qed.

Lemma discarded_cons k keys w w1 w2 : discarded [k] w w1 -> discarded keys w1 w2 -> discarded (k :: keys) w w2.
Proof.
  intros [] []. split; try congruence; [done|]. intros k'. rewrite di_mem1, di_disks0, di_mem0.
  destruct (decide (k' ∈ keys)) as [Hk|Hk]; [by rewrite decide_True by (by right)|].
  destruct (decide (k' ∈ [k])) as [Hin|Hnin].
  - by rewrite decide_True by (apply list_elem_of_singleton in Hin as ->; by left).
  - rewrite decide_False; [done|]. rewrite elem_of_cons. rewrite list_elem_of_singleton in Hnin. tauto.
Qed.

Lemma discards_run th keys w :
  pools_ok w -> (forall k, k ∈ keys -> is_Some (mem_of w k)) ->
  exists w', for_each (discard th) keys w = (Ret tt, w') /\ discarded keys w w'.
Proof.
  revert w. induction keys as [|k keys IH]; intros w Hp Hm; cbn [for_each].
  - exists w. split; [done|]. by split.
  - destruct (discard_run th k w Hp (Hm k ltac:(by left))) as (w1 & H1 & Hd1).
    destruct (IH w1) as (w2 & H2 & Hd2); [apply Hd1| |].
    + intros k' Hk'. rewrite (di_mem _ _ _ Hd1). case_decide as Hin; [|apply Hm; by right].
      apply list_elem_of_singleton in Hin as ->. destruct (Hm k ltac:(by left)) as [p Hpm].
      by destruct (mem_of_facts w k p Hp Hpm) as (_ & _ & _ & ?).
    + exists w2. split; [by run H1|by eapply discarded_cons].
Qed.

Definition abort_record (t : TxnId) (lsn : Lsn) : LogRecord :=
  mkRecord lsn kAbort t INVALID_OBJECT_ID INVALID_PAGE_ID zero_page.

(** A record that neither commits nor updates keeps the world sound; the
    transactions running after it ran before or are new. *)
Lemma world_ok_record w w' rs r lm :
  world_ok w rs -> grown (log_manager_ w) lm rs [r] -> log_manager_ w' = lm -> pools_ok w' -> disks_of w' = disks_of w ->
  r_type r <> kUpdate /\ r_type r <> kCommit -> next_txn_id_ w <= next_txn_id_ w' ->
  (forall t, is_Some (active_txns_ w' !! t) -> is_Some (active_txns_ w !! t) \/ 0 < t /\ next_txn_id_ w <= t < next_txn_id_ w') ->
  world_ok w' (rs ++ [r]).
Proof.
  intros Hok Hg Hlm Hp Hd Hr Hnext Hact.
  assert (forall t, unlogged t rs -> unlogged t (rs ++ [r])) as Hun.
  { intros t H r' [?| ->%list_elem_of_singleton]%elem_of_app Ht; [by apply H|done]. }
  split; rewrite ?Hlm.
  - apply Hg.
  - rewrite (gr_idle _ _ _ _ Hg). apply Hok.
  - rewrite (gr_durable _ _ _ _ Hg), (gr_next _ _ _ _ Hg). pose proof (wo_durable _ _ Hok). change (zlen [r]) with 1. lia.
  - exact Hp.
  - rewrite Hd. eapply quiet_grow; [apply Hok|apply Hok|apply Hg|by rewrite (gr_synced _ _ _ _ Hg)|..].
    all: intros r' ->%list_elem_of_singleton; by intros; destruct Hr.
  - intros t Ht. destruct (Hact t Ht) as [Ht0|(? & ? & ?)].
    + destruct (wo_active _ _ Hok t Ht0) as [? ?]. split; [by apply Hun|lia].
    + split; [apply Hun, (wo_fresh _ _ Hok); lia|lia].
  - intros t Ht. apply Hun, (wo_fresh _ _ Hok). lia.
Qed.

Lemma Abort_run th t w rs :
  world_ok w rs -> committable th t w ->
  exists w', Abort th t w = (Ret tt, w') /\ world_ok w' (rs ++ [abort_record t (next_lsn_ (log_manager_ w))]) /\
    synced (log_manager_ w') = synced (log_manager_ w) /\
    (forall k, mem_of w' k = if decide (k ∈ commit_keys t w) then page_of (disks_of w) k else mem_of w k) /\
    disks_of w' = disks_of w /\
    lock_manager_ w' = ReleaseAll t (lock_manager_ w) /\ active_txns_ w' = delete t (active_txns_ w) /\
    next_txn_id_ w' = next_txn_id_ w /\ current_txn w' = delete th (current_txn w).
Proof.
  intros Hok Hc. destruct (clear_observers_run th w) as (w0 & H0 & Hs0 & Hlog0).
  assert (pools_ok w0) as Hp0 by (eapply same_pages_pools_ok; [exact Hs0|apply (world_pools_ok _ _ Hok)]).
  destruct (discards_run th (commit_keys t w) w0 Hp0) as (w1 & H1 & Hd1).
  { intros k Hk. rewrite (sp_mem _ _ Hs0). by apply (cm_mem _ _ _ Hc). }
  pose proof (cm_id _ _ _ Hc). pose proof (cm_lsn _ _ _ Hc). pose proof (zlen_nonneg (commit_keys t w)).
  pose proof (next_lsn_pos _ _ (wo_log _ _ Hok)).
  assert (log_manager_ w1 = log_manager_ w) as Hlog1 by (by rewrite (di_log _ _ _ Hd1)).
  destruct (append_grown (log_manager_ w) rs kAbort t INVALID_OBJECT_ID INVALID_PAGE_ID []
    (abort_record t (next_lsn_ (log_manager_ w)))) as (lm2 & Ha & Hg2); [apply Hok|lia|done| |done|].
  { split; cbn; [lia|lia|by vm_compute; split..|apply zlen_zero_page|done]. }
  rewrite <- Hlog1 in Ha. pose proof (on_log_run _ _ _ _ Ha) as E2.
  exists (set_active (delete t (active_txns_ w1)) (set_current (delete th (current_txn w1))
    (set_lock_manager (ReleaseAll t (lock_manager_ w1)) (set_log lm2 w1)))).
  assert (disks_of w1 = disks_of w) as Hdisk by (by rewrite (di_disks _ _ _ Hd1), (sp_disks _ _ Hs0)).
  split_and!.
  - unfold Abort. run (gets_run (fun w => current_txn w !! th) w). rewrite bool_decide_eq_true_2 by apply Hc. cbn [negb].
    run H0. rewrite (bind_ret _ _ _ _ _ (gets_run _ w0)). rewrite (sp_active _ _ Hs0).
    assert (for_each (discard_object th) (map_to_list (GroupDirtiedPagesByObject (DirtiedPages t (active_txns_ w)))) w0 = (Ret tt, w1)) as E1.
    { unfold discard_object. rewrite (by_object_loop (discard th)). exact H1. }
    run E1. run E2. by rewrite finish_txn_run.
  - apply (world_ok_record w _ rs _ lm2); [done|done|done|apply Hd1|exact Hdisk|done|cbn; by rewrite (di_next _ _ _ Hd1), (sp_next _ _ Hs0)|].
    intros t'. cbn. rewrite (di_active _ _ _ Hd1), (sp_active _ _ Hs0), lookup_delete_is_Some. intros [_ ?]. by left.
  - apply (gr_synced _ _ _ _ Hg2).
  - intros k. change (mem_of w1 k = if decide (k ∈ commit_keys t w) then page_of (disks_of w) k else mem_of w k).
    rewrite (di_mem _ _ _ Hd1). by rewrite (sp_disks _ _ Hs0), (sp_mem _ _ Hs0).
  - exact Hdisk.
  - cbn. by rewrite (di_locks _ _ _ Hd1), (sp_locks _ _ Hs0).
  - cbn. by rewrite (di_active _ _ _ Hd1), (sp_active _ _ Hs0).
  - cbn. by rewrite (di_next _ _ _ Hd1), (sp_next _ _ Hs0).
  - cbn. by rewrite (di_current _ _ _ Hd1), (sp_current _ _ Hs0).
Qed.
