(* ===== verification/TxnSystem.v ===== *)
(** * TxnSystem: any number of threads running transactions

    The step relation of the engine's storage core: a thread begins a
    transaction, runs storage operations on registered objects inside it, and
    commits or aborts it; steps of different threads interleave freely. Any
    storage operation is allowed that keeps its pool well formed and satisfies
    [frame], as every operation of [HeapFile] does. The invariant says that
    the data files always hold exactly the committed state. *)
From S2P Require Export HeapFile CrashSafety.

(** ** Begin *)

Definition begin_record (t : TxnId) (lsn : Lsn) : LogRecord :=
  mkRecord lsn kBegin t INVALID_OBJECT_ID INVALID_PAGE_ID zero_page.

Lemma Begin_run th w rs :
  world_ok w rs -> current_txn w !! th = None ->
  0 < next_txn_id_ w < 2 ^ 64 - 1 -> next_lsn_ (log_manager_ w) + 1 < 2 ^ 64 ->
  exists w', Begin th w = (Ret (next_txn_id_ w), w') /\
    world_ok w' (rs ++ [begin_record (next_txn_id_ w) (next_lsn_ (log_manager_ w))]) /\
    (forall k, mem_of w' k = mem_of w k) /\ disks_of w' = disks_of w /\ lock_manager_ w' = lock_manager_ w /\
    active_txns_ w' = <[next_txn_id_ w := ∅]> (active_txns_ w) /\ next_txn_id_ w' = next_txn_id_ w + 1 /\
    current_txn w' = <[th := next_txn_id_ w]> (current_txn w) /\
    forall oid, obs_of w' !! oid = <[th := mkObserver (next_txn_id_ w) oid]> <$> obs_of w !! oid.
Proof.
  intros Hok Hcur Hid Hlsn. set (t := next_txn_id_ w) in *.
  pose proof (next_lsn_pos _ _ (wo_log _ _ Hok)).
  destruct (append_grown (log_manager_ w) rs kBegin t INVALID_OBJECT_ID INVALID_PAGE_ID []
    (begin_record t (next_lsn_ (log_manager_ w)))) as (lm & Ha & Hg); [apply Hok|lia|done| |done|].
  { split; cbn; [lia|lia|by vm_compute; split..|apply zlen_zero_page|done]. }
  set (w1 := set_current (<[th := t]> (current_txn w)) (set_active (<[t := ∅]> (active_txns_ w))
    (set_log lm (set_next_txn_id (u64 (t + 1)) w)))).
  destruct (observers_loop th (fun oid => SetActiveTransactionObserver (mkObserver t oid)) w1) as (w2 & H2 & Hs & Hlog).
  { intros oid v. eexists. reflexivity. }
  assert (u64 (t + 1) = t + 1) as Hu by (apply Z.mod_small; lia).
  assert (log_manager_ w2 = lm) as Hlm by (by rewrite Hlog).
  exists w2. split_and!.
  - unfold Begin. rewrite (bind_ret _ _ _ _ _ (gets_run _ w)), Hcur. cbv iota.
    rewrite (bind_ret _ _ _ _ _ (gets_run _ w)). rewrite (bind_ret _ _ _ _ _ (modify_run _ w)).
    assert (on_log (AppendBegin t) (set_next_txn_id (u64 (t + 1)) w) = (Ret (next_lsn_ (log_manager_ w)), set_log lm (set_next_txn_id (u64 (t + 1)) w))) as E1
      by (by apply on_log_run).
    fold t. run E1. rewrite (bind_ret _ _ _ _ _ (modify_run _ _)), (bind_ret _ _ _ _ _ (modify_run _ _)).
    rewrite (bind_ret _ _ _ _ _ (gets_run registered _)). run H2. done.
  - apply (world_ok_record w w2 rs _ lm); [done|done|done| |apply (sp_disks _ _ Hs)|done|..].
    + apply (same_pages_pools_ok w1 w2 Hs). exact (wo_pools _ _ Hok).
    + rewrite (sp_next _ _ Hs). cbn. lia.
    + intros t'. rewrite (sp_active _ _ Hs), (sp_next _ _ Hs). cbn. rewrite lookup_insert_is_Some. intros [<-|[_ ?]]; [right; lia|by left].
  - intros k. apply (sp_mem _ _ Hs).
  - apply (sp_disks _ _ Hs).
  - apply (sp_locks _ _ Hs).
  - apply (sp_active _ _ Hs).
  - rewrite (sp_next _ _ Hs). cbn. done.
  - apply (sp_current _ _ Hs).
  - apply (set_observers_obs _ _ _ _ H2).
Qed.

(** ** Storage operations *)

Lemma quiet_mono lm ds ds' :
  (forall oid d, ds' !! oid = Some d -> disk_wf d) -> (forall k p, page_of ds k = Some p -> page_of ds' k = Some p) ->
  quiet lm ds -> quiet lm ds'.
Proof.
  intros Hwf Hp Hq data Hcr. destruct (Hq data Hcr) as [[H1 H2] H3]. split; [split; [done|]|].
  - intros r Hr Hred. destruct (H2 r Hr Hred) as [[p Hs] ?]. split; [|done]. exists p. by apply Hp.
  - intros k p Hk. apply Hp. by apply H3.
Qed.

Lemma page_of_lookup w k o : buffer_pools_ w !! key_object k = Some o -> page_of (disks_of w) k = disk_page (disk_manager_ o.1) (key_page k).
Proof. intros H. unfold page_of. by rewrite disks_of_lookup, H. Qed.

Lemma mem_of_lookup w k o : buffer_pools_ w !! key_object k = Some o -> mem_of w k = mem_page o.1 (key_page k).
Proof. intros H. unfold mem_of. by rewrite H. Qed.

Lemma storage_world_ok th oid o v w rs :
  world_ok w rs -> buffer_pools_ w !! oid = Some o -> frame (view_of th o w) v -> pool_wf (v_pool v) ->
  world_ok (put_view oid v w) rs.
Proof.
  intros Hok Ho Hf Hwf.
  assert (pools_ok (put_view oid v w)) as Hpo.
  { intros oid' o'. cbn. rewrite lookup_insert_Some. intros [[<- <-]|[_ Ho']]; [|by apply (wo_pools _ _ Hok)].
    split; [done|]. by apply (wo_pools _ _ Hok oid o). }
  split; try apply Hok; [exact Hpo| |].
  - eapply quiet_mono; [by apply disks_wf| |apply Hok]. intros k p Hk. rewrite page_of_put. case_decide as Hko; [|done].
    apply (fr_disk _ _ Hf). cbn. rewrite <- Hk. symmetry. apply page_of_lookup. by rewrite Hko.
  - intros t Ht. apply (wo_active _ _ Hok). by apply (fr_live _ _ Hf).
Qed.

(** ** The system *)

Inductive world_step (w : World) : World -> Prop :=
| ws_register oid bp page_ids :
    active_txns_ w = ∅ -> buffer_pools_ w !! oid = None -> 0 <= oid < 2 ^ 32 ->
    pool_wf bp -> dirty_ bp = ∅ -> observers_by_thread_ bp = ∅ ->
    world_step w (set_buffer_pools (<[oid := (bp, page_ids)]> (buffer_pools_ w)) w)
| ws_begin th t w' :
    0 < next_txn_id_ w < 2 ^ 64 - 1 -> next_lsn_ (log_manager_ w) + 1 < 2 ^ 64 ->
    Begin th w = (Ret t, w') -> world_step w w'
| ws_storage th t oid o v {A} (m : M View A) r :
    current_txn w !! th = Some t -> buffer_pools_ w !! oid = Some o ->
    m (view_of th o w) = (r, v) -> frame (view_of th o w) v -> pool_wf (v_pool v) ->
    world_step w (put_view oid v w)
| ws_commit th t w' :
    next_lsn_ (log_manager_ w) + zlen (commit_keys t w) + 1 < 2 ^ 64 ->
    Commit th true t w = (Ret tt, w') -> world_step w w'
| ws_abort th t w' :
    next_lsn_ (log_manager_ w) + zlen (commit_keys t w) + 1 < 2 ^ 64 ->
    Abort th t w = (Ret tt, w') -> world_step w w'.

(** A new database: an empty log and no object yet. *)
Definition new_world : World := OpenTransactionManager (OpenLogManager []).

Definition world_reachable (w : World) : Prop := steps world_step new_world w.

Record sys_ok (w : World) (rs : list LogRecord) : Prop := mkSysOk {
  so_world : world_ok w rs;
  so_next : 0 < next_txn_id_ w < 2 ^ 64;
  so_txn th t : current_txn w !! th = Some t -> is_Some (active_txns_ w !! t);
  so_unique th1 th2 t : current_txn w !! th1 = Some t -> current_txn w !! th2 = Some t -> th1 = th2;
  so_obs th t oid obs : current_txn w !! th = Some t -> obs_of w !! oid = Some obs -> obs !! th = Some (mkObserver t oid);
  so_obj th oid obs ob : obs_of w !! oid = Some obs -> obs !! th = Some ob -> ob_object ob = oid;
  so_mem t k : k ∈ DirtiedPages t (active_txns_ w) -> is_Some (mem_of w k);
  so_dirty k : mem_of w k = page_of (disks_of w) k \/ exists t, k ∈ DirtiedPages t (active_txns_ w)
}.

Lemma DirtiedPages_lookup t k txns : k ∈ DirtiedPages t txns -> is_Some (txns !! t).
Proof. unfold DirtiedPages. destruct (txns !! t); [eauto|]. cbn. by intros ?%elem_of_empty. Qed.

Lemma elem_of_commit_keys t w k : k ∈ commit_keys t w <-> k ∈ DirtiedPages t (active_txns_ w).
Proof. apply elem_of_dirtied_keys. Qed.

Lemma sys_committable th t w rs :
  sys_ok w rs -> current_txn w !! th = Some t -> next_lsn_ (log_manager_ w) + zlen (commit_keys t w) + 1 < 2 ^ 64 ->
  committable th t w.
Proof.
  intros Hs Hc Hl. pose proof (so_txn _ _ Hs _ _ Hc) as Ha. split; try done.
  - intros k Hk. apply elem_of_commit_keys in Hk. by apply (so_mem _ _ Hs t).
  - destruct (wo_active _ _ (so_world _ _ Hs) t Ha) as [_ ?]. pose proof (so_next _ _ Hs). lia.
Qed.

(** A transaction's end: its own observers, context and dirtied set are gone. *)
Lemma end_txn_ok th t w w' rs rs' :
  sys_ok w rs -> current_txn w !! th = Some t -> world_ok w' rs' ->
  active_txns_ w' = delete t (active_txns_ w) -> next_txn_id_ w' = next_txn_id_ w -> current_txn w' = delete th (current_txn w) ->
  (forall oid, obs_of w' !! oid = delete th <$> obs_of w !! oid) ->
  (forall k, is_Some (mem_of w k) -> is_Some (mem_of w' k)) ->
  (forall k, mem_of w' k = page_of (disks_of w') k \/
     (~ (k ∈ DirtiedPages t (active_txns_ w)) /\ mem_of w' k = mem_of w k /\ page_of (disks_of w') k = page_of (disks_of w) k)) ->
  sys_ok w' rs'.
Proof.
  intros [H1 H2 H3 H4 H5 H6 H7 H8] Hc Hok Ha Hn Hcu Hob Hm Hd.
  assert (forall t' k, k ∈ DirtiedPages t' (active_txns_ w') -> k ∈ DirtiedPages t' (active_txns_ w)) as Hold.
  { intros t' k. rewrite Ha. unfold DirtiedPages. rewrite lookup_delete. case_decide; [by intros ?%elem_of_empty|done]. }
  split; [done|by rewrite Hn|..].
  - intros th' t'. rewrite Hcu, Ha. rewrite lookup_delete_Some, lookup_delete_is_Some. intros [Hne Hth]. split; [|eauto].
    intros <-. apply Hne. by eapply H4.
  - intros th1 th2 t'. rewrite Hcu, !lookup_delete_Some. intros [_ ?] [_ ?]. eauto.
  - intros th' t' oid obs. rewrite Hcu, lookup_delete_Some, Hob, fmap_Some. intros [Hne Hth] (obs0 & Ho & ->).
    rewrite lookup_delete_ne by done. eauto.
  - intros th' oid obs ob. rewrite Hob, fmap_Some. intros (obs0 & Ho & ->). rewrite lookup_delete_Some. intros [_ ?]. eauto.
  - intros t' k Hk. apply Hm, (H7 t'). by apply Hold.
  - intros k. destruct (Hd k) as [?|(Hnin & Hmk & Hpk)]; [by left|]. rewrite Hmk, Hpk.
    destruct (H8 k) as [?|[t' Ht']]; [by left|right]. exists t'. rewrite Ha. unfold DirtiedPages.
    rewrite lookup_delete_ne; [exact Ht'|]. by intros ->.
Qed.

Lemma clear_then_obs {A} th (m : M World A) w r w' :
  preserves obs_of m -> (clear_observers th;; m) w = (r, w') -> forall oid, obs_of w' !! oid = delete th <$> obs_of w !! oid.
Proof.
  intros Hm H oid. destruct (clear_observers_run th w) as (w0 & H0 & _). rewrite <- (clear_observers_obs _ _ _ H0).
  rewrite (bind_ret _ _ _ _ _ H0) in H. specialize (Hm w0). rewrite H in Hm. by rewrite <- Hm.
Qed.

Lemma Commit_obs th b t w w' r :
  current_txn w !! th = Some t -> Commit th b t w = (r, w') -> forall oid, obs_of w' !! oid = delete th <$> obs_of w !! oid.
Proof.
  intros Hc H. unfold Commit in H. rewrite (bind_ret _ _ _ _ _ (gets_run _ w)), bool_decide_eq_true_2 in H by done.
  cbn [negb] in H. eapply clear_then_obs; [|exact H].
  apply preserves_bind; [apply preserves_gets|intros by_object].
  apply preserves_bind; [apply preserves_for_each; intros; apply preserves_for_each; intros; apply preserves_log_page|intros _].
  apply preserves_bind; [apply preserves_on_log|intros lsn].
  apply preserves_bind; [apply preserves_on_log|intros _].
  apply preserves_bind; [|intros _; apply preserves_finish_txn].
  apply preserves_for_each. intros x. apply preserves_on_pool, preserves_for_each. intros. apply preserves_flush_if_dirty.
Qed.

Lemma Abort_obs th t w w' r :
  current_txn w !! th = Some t -> Abort th t w = (r, w') -> forall oid, obs_of w' !! oid = delete th <$> obs_of w !! oid.
Proof.
  intros Hc H. unfold Abort in H. rewrite (bind_ret _ _ _ _ _ (gets_run _ w)), bool_decide_eq_true_2 in H by done.
  cbn [negb] in H. eapply clear_then_obs; [|exact H].
  apply preserves_bind; [apply preserves_gets|intros by_object].
  apply preserves_bind; [|intros _; apply preserves_bind; [apply preserves_on_log|intros _; apply preserves_finish_txn]].
  apply preserves_for_each. intros x. apply preserves_for_each. intros. apply preserves_on_pool, preserves_DiscardPage.
Qed.

Lemma commit_step_ok th t w w' rs :
  sys_ok w rs -> next_lsn_ (log_manager_ w) + zlen (commit_keys t w) + 1 < 2 ^ 64 ->
  Commit th true t w = (Ret tt, w') -> sys_ok w' (rs ++ commit_records t w).
Proof.
  intros Hs Hl H. assert (current_txn w !! th = Some t) as Hc.
  { unfold Commit in H. rewrite (bind_ret _ _ _ _ _ (gets_run _ w)) in H. by case_bool_decide. }
  destruct (Commit_run th t w rs (so_world _ _ Hs) (sys_committable _ _ _ _ Hs Hc Hl))
    as (w2 & H2 & Hok & _ & Hm & Hp & _ & Ha & Hn & Hcu).
  rewrite H in H2. injection H2 as <-. eapply end_txn_ok; try done.
  - by eapply Commit_obs.
  - intros k. by rewrite Hm.
  - intros k. rewrite Hm, Hp. unfold overwrite. rewrite <- elem_of_commit_keys. case_decide; [by left|by right].
Qed.

Lemma abort_step_ok th t w w' rs :
  sys_ok w rs -> next_lsn_ (log_manager_ w) + zlen (commit_keys t w) + 1 < 2 ^ 64 ->
  Abort th t w = (Ret tt, w') -> exists rs', sys_ok w' rs'.
Proof.
  intros Hs Hl H. assert (current_txn w !! th = Some t) as Hc.
  { unfold Abort in H. rewrite (bind_ret _ _ _ _ _ (gets_run _ w)) in H. by case_bool_decide. }
  pose proof (sys_committable _ _ _ _ Hs Hc Hl) as Hcm.
  destruct (Abort_run th t w rs (so_world _ _ Hs) Hcm) as (w2 & H2 & Hok & _ & Hm & Hp & _ & Ha & Hn & Hcu).
  rewrite H in H2. injection H2 as <-. eexists. eapply end_txn_ok; try done.
  - by eapply Abort_obs.
  - intros k Hk. rewrite Hm. case_decide as Hin; [|done].
    by destruct (commit_mem _ _ _ _ (so_world _ _ Hs) Hcm k Hin) as (p & _ & _ & ?).
  - intros k. rewrite Hm, Hp, <- elem_of_commit_keys. case_decide; [by left|by right].
Qed.

Lemma begin_step_ok th t w w' rs :
  sys_ok w rs -> 0 < next_txn_id_ w < 2 ^ 64 - 1 -> next_lsn_ (log_manager_ w) + 1 < 2 ^ 64 ->
  Begin th w = (Ret t, w') -> exists rs', sys_ok w' rs'.
Proof.
  intros Hs Hid Hl H. assert (current_txn w !! th = None) as Hc.
  { unfold Begin in H. rewrite (bind_ret _ _ _ _ _ (gets_run _ w)) in H. by destruct (current_txn w !! th). }
  destruct (Begin_run th w rs (so_world _ _ Hs) Hc Hid Hl) as (w2 & H2 & Hok & Hm & Hp & _ & Ha & Hn & Hcu & Hob).
  rewrite H in H2. injection H2 as -> <-. set (t := next_txn_id_ w) in *.
  destruct Hs as [H1 Hnx H3 H4 H5 H6 H7 H8].
  assert (active_txns_ w !! t = None) as Hnew.
  { destruct (active_txns_ w !! t) eqn:E; [|done]. destruct (wo_active _ _ H1 t) as [_ ?]; [eauto|]. subst t. lia. }
  assert (forall t' k, k ∈ DirtiedPages t' (active_txns_ w') <-> k ∈ DirtiedPages t' (active_txns_ w)) as Hd.
  { intros t' k. rewrite Ha. unfold DirtiedPages. destruct (decide (t' = t)) as [->|].
    - rewrite lookup_insert_eq, Hnew. done.
    - by rewrite lookup_insert_ne. }
  eexists. split; [exact Hok|lia|..].
  - intros th' t'. rewrite Hcu, Ha, lookup_insert_Some, lookup_insert_is_Some. intros [[<- <-]|[Hne Hth]]; [by left|].
    destruct (decide (t = t')); [by left|right; eauto].
  - assert (forall th', current_txn w !! th' <> Some t) as Hnot.
    { intros th' Hth. apply H3 in Hth as [x Hx]. congruence. }
    intros th1 th2 t'. rewrite Hcu, !lookup_insert_Some. intros [[<- <-]|[_ Ha1]] [[<- Hb]|[_ Hb2]]; [done|..].
    + by destruct (Hnot th2).
    + subst t'. by destruct (Hnot th1).
    + eauto.
  - intros th' t' oid obs. rewrite Hcu, Hob, lookup_insert_Some, fmap_Some. intros [[<- <-]|[Hne Hth]] (obs0 & Ho & ->).
    + by rewrite lookup_insert_eq.
    + rewrite lookup_insert_ne by done. eauto.
  - intros th' oid obs ob. rewrite Hob, fmap_Some. intros (obs0 & Ho & ->). rewrite lookup_insert_Some.
    intros [[_ <-]|[_ ?]]; [done|eauto].
  - intros t' k. rewrite Hd, Hm. apply H7.
  - intros k. rewrite Hm, Hp. setoid_rewrite Hd. apply H8.
Qed.

Lemma storage_step_ok th t oid o v w rs :
  sys_ok w rs -> current_txn w !! th = Some t -> buffer_pools_ w !! oid = Some o ->
  frame (view_of th o w) v -> pool_wf (v_pool v) -> sys_ok (put_view oid v w) rs.
Proof.
  intros Hs Hc Ho Hf Hwf. pose proof (storage_world_ok th oid o v w rs (so_world _ _ Hs) Ho Hf Hwf) as Hok.
  destruct Hs as [H1 Hnx H3 H4 H5 H6 H7 H8].
  pose proof (fr_observers _ _ Hf) as Hob. cbn in Hob.
  assert (obs_of (put_view oid v w) = obs_of w) as Hobs.
  { apply map_eq. intros i. rewrite obs_of_put by eauto. case_decide as Hi; [|done]. rewrite Hi, obs_of_lookup, Ho. cbn. unfold pool_obs. by rewrite Hob. }
  assert (forall k, is_Some (mem_of w k) -> is_Some (mem_of (put_view oid v w) k)) as Hmono.
  { intros k Hk. rewrite mem_of_put. case_decide as Hi; [|done]. apply (fr_mem _ _ Hf). cbn.
    rewrite <- (mem_of_lookup w k o); [done|]. by rewrite Hi. }
  split; [done|done|..]; rewrite ?Hobs; try done.
  - intros th' t' Hth. apply (fr_live _ _ Hf). by eapply H3.
  - intros t' k Hk. destruct (fr_dirtied _ _ Hf t' k Hk) as [Hold|(ob & Hob' & _ & Hko & Hm)].
    + apply Hmono. by apply (H7 t').
    + rewrite mem_of_put. rewrite decide_True; [done|]. rewrite Hko. cbn in Hob'. eapply H6; [|exact Hob'].
      rewrite obs_of_lookup, Ho. done.
  - intros k. rewrite mem_of_put, page_of_put. case_decide as Hi.
    2: { destruct (H8 k) as [?|[t' Ht']]; [by left|right]. exists t'. by apply (fr_dirtied_keep _ _ Hf). }
    assert (buffer_pools_ w !! key_object k = Some o) as Hko by (by rewrite Hi).
    destruct (fr_change _ _ Hf (key_page k)) as [Hsame|[_ Hnot]].
    + rewrite Hsame. cbn [v_pool view_of]. destruct (H8 k) as [Heq|[t' Ht']].
      2: { right. exists t'. by apply (fr_dirtied_keep _ _ Hf). }
      left. rewrite (mem_of_lookup _ _ _ Hko), (page_of_lookup _ _ _ Hko) in Heq. rewrite Heq.
      destruct (disk_page (disk_manager_ o.1) (key_page k)) as [p|] eqn:E.
      * symmetry. by apply (fr_disk _ _ Hf).
      * cbn in Hsame. rewrite Heq in Hsame. unfold mem_page in Hsame. by destruct (pages_ (v_pool v) !! key_page k).
    + right. exists t. rewrite Hob in Hnot. rewrite (fr_thread _ _ Hf) in Hnot. cbn [v_thread view_of] in Hnot.
      rewrite (H5 th t oid (observers_by_thread_ o.1) Hc) in Hnot by (by rewrite obs_of_lookup, Ho). cbn in Hnot.
      rewrite <- Hi in Hnot. destruct k. apply Hnot. apply (fr_live _ _ Hf). by eapply H3.
Qed.

Lemma register_step_ok oid bp page_ids w rs :
  sys_ok w rs -> active_txns_ w = ∅ -> buffer_pools_ w !! oid = None -> 0 <= oid < 2 ^ 32 ->
  pool_wf bp -> dirty_ bp = ∅ -> observers_by_thread_ bp = ∅ ->
  sys_ok (set_buffer_pools (<[oid := (bp, page_ids)]> (buffer_pools_ w)) w) rs.
Proof.
  intros [H1 Hnx H3 H4 H5 H6 H7 H8] Ha Hno Hoid Hwf Hpg Hob.
  set (w' := set_buffer_pools _ _).
  assert (forall k, page_of (disks_of w') k = if decide (key_object k = oid) then disk_page (disk_manager_ bp) (key_page k) else page_of (disks_of w) k) as Hp.
  { intros k. unfold page_of. rewrite !disks_of_lookup. cbn. case_decide as Hk; [by rewrite Hk, lookup_insert_eq|by rewrite lookup_insert_ne]. }
  assert (forall k, mem_of w' k = if decide (key_object k = oid) then disk_page (disk_manager_ bp) (key_page k) else mem_of w k) as Hm.
  { intros k. unfold mem_of. cbn. case_decide as Hk; [|by rewrite lookup_insert_ne]. rewrite Hk, lookup_insert_eq. cbn.
    symmetry. apply clean_page; [done|]. rewrite Hpg. apply not_elem_of_empty. }
  assert (pools_ok w') as Hpo.
  { intros oid' o'. cbn. rewrite lookup_insert_Some. intros [[<- <-]|[_ Ho']]; [done|]. by apply (wo_pools _ _ H1). }
  assert (forall t k, ~ (k ∈ DirtiedPages t (active_txns_ w))) as Hnod.
  { intros t k Hk. apply DirtiedPages_lookup in Hk as [x Hx]. rewrite Ha in Hx. by rewrite lookup_empty in Hx. }
  split; try done.
  - split; try apply H1; [exact Hpo|]. eapply quiet_mono; [by apply disks_wf| |apply H1].
    intros k p Hk. rewrite Hp, decide_False; [done|]. intros Hko. unfold page_of in Hk. by rewrite disks_of_lookup, Hko, Hno in Hk.
  - intros th t oid' obs Hc. exfalso. destruct (H3 _ _ Hc) as [x Hx]. rewrite Ha in Hx. by rewrite lookup_empty in Hx.
  - intros th oid' obs ob. rewrite obs_of_lookup. cbn. destruct (decide (oid' = oid)) as [->|Hne].
    + rewrite lookup_insert_eq. cbn. rewrite Hob. intros [= <-]. by rewrite lookup_empty.
    + rewrite lookup_insert_ne by done. intros Ho. apply (H6 th oid'). by rewrite obs_of_lookup.
  - intros t k Hk. by destruct (Hnod t k).
  - intros k. left. rewrite Hm, Hp. case_decide; [done|]. destruct (H8 k) as [?|[t Ht]]; [done|]. by destruct (Hnod t k).
Qed.

Lemma new_world_ok : sys_ok new_world [].
Proof.
  assert (log_holds (OpenLogManager []) []) as Hl.
  { split; [done|constructor|intros i r Hi; by rewrite lookup_nil in Hi|done|done|]. vm_compute. split; discriminate. }
  split; try done.
  - split; try done.
    + intros data (n & Hn & ->).
      assert (take (Z.to_nat n) (wal (log_manager_ new_world)) = []) as -> by exact (take_nil (A := byte) (Z.to_nat n)).
      cbn zeta. change (records_on_open_ (OpenLogManager [])) with (@nil LogRecord). split; [|done].
      split; [intros oid d Hd; by rewrite disks_of_lookup in Hd|intros r Hr; by apply not_elem_of_nil in Hr].
    + intros t [x Hx]. done.
    + intros t _ r Hr. by apply not_elem_of_nil in Hr.
  - intros k. by left.
Qed.

Lemma world_step_ok w w' rs : sys_ok w rs -> world_step w w' -> exists rs', sys_ok w' rs'.
Proof.
  intros Hs Hst. destruct Hst.
  - exists rs. by apply register_step_ok.
  - by eapply begin_step_ok.
  - exists rs. by eapply storage_step_ok.
  - eexists. by eapply commit_step_ok.
  - by eapply abort_step_ok.
Qed.

Lemma world_reachable_ok w : world_reachable w -> exists rs, sys_ok w rs.
Proof.
  intros H. induction H as [|w1 w2 _ [rs IH] Hst]; [exists []; apply new_world_ok|]. by eapply world_step_ok.
Qed.

(** ** A sample run: one table, one transaction that inserted a row *)

Definition empty_pool : BufferPool := mkPool (mkDisk [] 0) ∅ ∅ ∅.

Definition registered_world : World := set_buffer_pools (<[1 := (empty_pool, [])]> (buffer_pools_ new_world)) new_world.

Definition begun_world : World := (Begin 0 registered_world).2.

Definition begun_view : View := view_of 0 (default (empty_pool, []) (buffer_pools_ begun_world !! 1)) begun_world.

Definition inserted_world : World := put_view 1 (HeapFile.HeapFile.Insert 1 [x61] begun_view).2 begun_world.

Lemma begun_reachable : world_reachable begun_world.
Proof.
  eapply steps_snoc; [apply steps_one; apply (ws_register _ 1 empty_pool [])|apply (ws_begin _ 0 1)].
  - reflexivity.
  - reflexivity.
  - vm_compute. split; [discriminate|reflexivity].
  - split; cbn; [split; cbn; [done|lia|constructor]|by intros pid p ?%lookup_empty_Some..].
  - reflexivity.
  - reflexivity.
  - vm_compute. split; reflexivity.
  - vm_compute. reflexivity.
  - vm_compute. reflexivity.
Qed.

Lemma begun_view_ok : HeapFile.HeapFile.heap_wf begun_view /\ uncontended begun_view.
Proof.
  split.
  - assert (pages_ (v_pool begun_view) = ∅) as Hp by (vm_compute; reflexivity).
    assert (disk_manager_ (v_pool begun_view) = mkDisk [] 0) as Hd by (vm_compute; reflexivity).
    split; [split; rewrite ?Hp, ?Hd|..].
    + split; cbn; [done|lia|constructor].
    + by intros pid p ?%lookup_empty_Some.
    + by intros pid p ?%lookup_empty_Some.
    + vm_compute. reflexivity.
    + assert (v_page_ids begun_view = []) as -> by (vm_compute; reflexivity). by intros pid ?%not_elem_of_nil.
  - assert (v_current begun_view = Some 1) as Hc by (vm_compute; reflexivity).
    assert (v_locks begun_view = empty_lm) as Hl by (vm_compute; reflexivity).
    unfold uncontended. rewrite Hc, Hl. split; [apply empty_lm_wf|]. intros h k (e & He & _). done.
Qed.

Lemma inserted_reachable : world_reachable inserted_world.
Proof.
  destruct begun_view_ok as [Hwf Hu].
  destruct (HeapFile.HeapFile.Insert_run 1 [x61] begun_view Hwf Hu) as (rid & v & Hi & Hf & Hwf' & _);
    [vm_compute; discriminate|vm_compute; reflexivity|].
  eapply steps_snoc; [apply begun_reachable|]. unfold inserted_world. rewrite Hi.
  assert (buffer_pools_ begun_world !! 1 = Some (default (empty_pool, []) (buffer_pools_ begun_world !! 1))) as Ho by (vm_compute; reflexivity).
  apply (ws_storage _ 0 1 1 (default (empty_pool, []) (buffer_pools_ begun_world !! 1)) v (HeapFile.HeapFile.Insert 1 [x61]) (Ret rid));
    [vm_compute; reflexivity|exact Ho|exact Hi|exact Hf|apply Hwf'].
Qed.

(** The page the insertion wrote. *)
Definition inserted_page : option Page := mem_of inserted_world (mkPageKey 1 0).

Lemma inserted_key : mkPageKey 1 0 ∈ commit_keys 1 inserted_world.
Proof. apply elem_of_commit_keys. vm_compute. reflexivity. Qed.

(** ** The contract of transactions *)

(** C10: the committed state is always safe. In every state reachable by any
    number of threads beginning, working, committing and aborting in any
    order, a crash at that point (losing any unsynced part of the log) is
    recovered to exactly the current content of the data files; and a page
    whose in-memory content differs from its file belongs to a transaction
    still running. So nothing uncommitted survives a crash, and nothing
    committed is lost. *)
Theorem crash_keeps_committed (w : World) (data : bytes) (ds : disks) :
  world_reachable w -> crash_of w None data ds ->
  recovers_to data ds (page_of (disks_of w)) /\
  forall k, mem_of w k = page_of (disks_of w) k \/
    exists t, is_Some (active_txns_ w !! t) /\ k ∈ DirtiedPages t (active_txns_ w).
Proof.
  intros Hr [Hlog Hwf Hpg]. destruct (world_reachable_ok w Hr) as [rs Hs]. split.
  - apply (recovers_quiet (log_manager_ w) rs); [apply (so_world _ _ Hs)|by apply (wo_quiet _ _ (so_world _ _ Hs))|done|done|]. intros k. by destruct (Hpg k) as [?|[? _]].
  - intros k. destruct (so_dirty _ _ Hs k) as [?|[t Ht]]; [by left|right]. exists t. split; [|done]. by apply DirtiedPages_lookup in Ht.
Qed.

Lemma crash_keeps_committed_witness :
  world_reachable inserted_world /\
  recovers_to (wal (log_manager_ inserted_world)) (disks_of inserted_world) (page_of (disks_of inserted_world)).
Proof.
  split; [apply inserted_reachable|].
  apply (crash_keeps_committed inserted_world (wal (log_manager_ inserted_world)) (disks_of inserted_world)).
  - apply inserted_reachable.
  - split.
    + exists 33. split; [vm_compute; split; discriminate|vm_compute; reflexivity].
    + destruct (world_reachable_ok _ inserted_reachable) as [rs Hs]. apply disks_wf, (world_pools_ok _ _ (so_world _ _ Hs)).
    + intros k. left. reflexivity.
Defined.

(** C15: a commit that returned is durable. [Commit] of a running transaction
    returns; afterwards every page it dirtied reads the same in memory and in
    its file, no other page of any file has changed, its locks are released,
    and any crash from then on recovers the content it committed. *)
Theorem commit_durable (w : World) (th : ThreadId) (t : TxnId) :
  world_reachable w -> current_txn w !! th = Some t ->
  next_lsn_ (log_manager_ w) + zlen (commit_keys t w) + 1 < 2 ^ 64 ->
  exists w', Commit th true t w = (Ret tt, w') /\
    (forall k, mem_of w' k = mem_of w k) /\
    (forall k, page_of (disks_of w') k = if decide (k ∈ DirtiedPages t (active_txns_ w)) then mem_of w k else page_of (disks_of w) k) /\
    lock_manager_ w' = ReleaseAll t (lock_manager_ w) /\ active_txns_ w' = delete t (active_txns_ w) /\
    forall data ds, crash_of w' None data ds ->
      recovers_to data ds (fun k => if decide (k ∈ DirtiedPages t (active_txns_ w)) then mem_of w k else page_of (disks_of w) k).
Proof.
  intros Hr Hc Hl. destruct (world_reachable_ok w Hr) as [rs Hs].
  destruct (Commit_run th t w rs (so_world _ _ Hs) (sys_committable _ _ _ _ Hs Hc Hl)) as (w' & H & Hok & _ & Hm & Hp & Hlk & Ha & _).
  assert (forall k, page_of (disks_of w') k = if decide (k ∈ DirtiedPages t (active_txns_ w)) then mem_of w k else page_of (disks_of w) k) as Hp'.
  { intros k. rewrite Hp. unfold overwrite. pose proof (elem_of_commit_keys t w k). repeat case_decide; tauto. }
  exists w'. split_and!; try done. intros data ds [Hlog Hwf Hpg].
  eapply recovers_ext; [exact Hp'|]. apply (recovers_quiet (log_manager_ w') _ _ _ _ (wo_log _ _ Hok) (wo_quiet _ _ Hok) Hlog Hwf).
  intros k. by destruct (Hpg k) as [?|[? _]].
Qed.

Lemma commit_durable_witness :
  exists w', Commit 0 true 1 inserted_world = (Ret tt, w') /\ inserted_page <> Some zero_page /\
    page_of (disks_of w') (mkPageKey 1 0) = inserted_page.
Proof.
  destruct (commit_durable inserted_world 0 1 inserted_reachable) as (w' & H & _ & Hp & _);
    [vm_compute; reflexivity|vm_compute; reflexivity|].
  exists w'. split; [exact H|]. split; [vm_compute; discriminate|]. rewrite Hp.
  rewrite decide_True; [reflexivity|]. apply elem_of_commit_keys, inserted_key.
Defined.

(** C9: a commit is atomic. [Commit] is its steps in order (log each dirtied
    page, append the Commit record, sync the log, write each page back) and
    then the release of the locks. A crash after any number of those steps,
    whatever unsynced part of the log it loses and even if it tears the page
    being written, is recovered either to the state before the transaction or
    to the state with all of its pages: never to a part of it. *)
Theorem commit_crash_atomic (w : World) (th : ThreadId) (t : TxnId) (n : nat) (data : bytes) (ds : disks) :
  world_reachable w -> current_txn w !! th = Some t ->
  next_lsn_ (log_manager_ w) + zlen (commit_keys t w) + 1 < 2 ^ 64 ->
  crash_of (commit_point th t n w).2 (torn_page t n w) data ds ->
  (exists w1, (clear_observers th;; for_each (run_action th t) (commit_actions t w)) w = (Ret tt, w1) /\
     Commit th true t w = finish_txn th t w1) /\
  (recovers_to data ds (page_of (disks_of w)) \/
   recovers_to data ds (fun k => if decide (k ∈ DirtiedPages t (active_txns_ w)) then mem_of w k else page_of (disks_of w) k)).
Proof.
  intros Hr Hc Hl Hcr. destruct (world_reachable_ok w Hr) as [rs Hs].
  pose proof (sys_committable _ _ _ _ Hs Hc Hl) as Hcm. split.
  - destruct (Commit_steps th t w rs (so_world _ _ Hs) Hcm) as (w1 & H1 & H2 & _). by exists w1.
  - destruct (crash_recovers th t n w rs data ds (so_world _ _ Hs) Hcm Hcr) as [?|Hrun]; [by left|right].
    eapply recovers_ext; [|exact Hrun]. intros k. unfold overwrite.
    pose proof (elem_of_commit_keys t w k). repeat case_decide; tauto.
Qed.

Lemma commit_crash_atomic_witness :
  recovers_to (wal (log_manager_ (commit_point 0 1 1 inserted_world).2)) (disks_of inserted_world) (page_of (disks_of inserted_world)) \/
  recovers_to (wal (log_manager_ (commit_point 0 1 1 inserted_world).2)) (disks_of inserted_world)
    (fun k => if decide (k ∈ DirtiedPages 1 (active_txns_ inserted_world)) then mem_of inserted_world k else page_of (disks_of inserted_world) k).
Proof.
  apply (commit_crash_atomic inserted_world 0 1 1).
  - apply inserted_reachable.
  - vm_compute. reflexivity.
  - vm_compute. reflexivity.
  - split.
    + exists (zlen (wal (log_manager_ (commit_point 0 1 1 inserted_world).2))).
      split; [vm_compute; split; discriminate|]. vm_compute. reflexivity.
    + destruct (world_reachable_ok _ inserted_reachable) as [rs Hs]. apply disks_wf, (world_pools_ok _ _ (so_world _ _ Hs)).
    + intros k. left. f_equal.
Defined.

(** C16: abort undoes everything. [Abort] of a running transaction returns;
    every page it dirtied reads again as its file holds it, which is the
    committed state, every other page and every file is unchanged, its locks
    are released, and no crash afterwards brings any of it back. *)
Theorem abort_reverts (w : World) (th : ThreadId) (t : TxnId) :
  world_reachable w -> current_txn w !! th = Some t ->
  next_lsn_ (log_manager_ w) + zlen (commit_keys t w) + 1 < 2 ^ 64 ->
  exists w', Abort th t w = (Ret tt, w') /\
    (forall k, mem_of w' k = if decide (k ∈ DirtiedPages t (active_txns_ w)) then page_of (disks_of w) k else mem_of w k) /\
    disks_of w' = disks_of w /\
    lock_manager_ w' = ReleaseAll t (lock_manager_ w) /\ active_txns_ w' = delete t (active_txns_ w) /\
    forall data ds, crash_of w' None data ds -> recovers_to data ds (page_of (disks_of w)).
Proof.
  intros Hr Hc Hl. destruct (world_reachable_ok w Hr) as [rs Hs].
  destruct (Abort_run th t w rs (so_world _ _ Hs) (sys_committable _ _ _ _ Hs Hc Hl)) as (w' & H & Hok & _ & Hm & Hp & Hlk & Ha & _).
  exists w'. split_and!; try done.
  - intros k. rewrite Hm. pose proof (elem_of_commit_keys t w k). repeat case_decide; tauto.
  - intros data ds [Hlog Hwf Hpg].
    rewrite <- Hp. apply (recovers_quiet (log_manager_ w') _ _ _ _ (wo_log _ _ Hok) (wo_quiet _ _ Hok) Hlog Hwf).
    intros k. by destruct (Hpg k) as [?|[? _]].
Qed.

Lemma abort_reverts_witness :
  exists w', Abort 0 1 inserted_world = (Ret tt, w') /\ mem_of w' (mkPageKey 1 0) = Some zero_page.
Proof.
  destruct (abort_reverts inserted_world 0 1 inserted_reachable) as (w' & H & Hm & _);
    [vm_compute; reflexivity|vm_compute; reflexivity|].
  exists w'. split; [exact H|]. rewrite Hm, decide_True; [vm_compute; reflexivity|].
  apply elem_of_commit_keys, inserted_key.
Defined.

(** ** Two flaws *)

(** What the next process finds: the log as reopened, transaction ids from 1
    again, and the object over the recovered file. *)
Definition reopened (data : bytes) (d : DiskManager) : World :=
  set_buffer_pools {[1 := (mkPool d ∅ ∅ ∅, [])]} (OpenTransactionManager (OpenLogManager data)).

(** Transaction ids are reused while the log is kept. The process dies
    while transaction 1 is committing, after logging its page but before its
    Commit record; the next process recovers nothing, as it should, but hands
    out id 1 again without emptying the log. When that new transaction 1,
    which wrote nothing, commits, the next recovery takes the old update as
    committed and redoes it: data that was never committed appears. *)
Theorem reused_txn_id_resurrects :
  exists data d w, data = wal (log_manager_ (commit_point 0 1 1 inserted_world).2) /\
    disks_of inserted_world !! 1 = Some d /\
    RunRecovery (records_on_open_ (OpenLogManager data)) (disks_of inserted_world) = (Ret 0, disks_of inserted_world) /\
    (Begin 0 ≫= Commit 0 true) (reopened data d) = (Ret tt, w) /\
    exists ds, RunRecovery (records_on_open_ (OpenLogManager (wal (log_manager_ w)))) (disks_of w) = (Ret 1, ds) /\
      page_of ds (mkPageKey 1 0) = inserted_page /\ page_of (disks_of w) (mkPageKey 1 0) <> inserted_page.
Proof.
  do 3 eexists. do 4 (split; [vm_compute; reflexivity|]). eexists. split; [vm_compute; reflexivity|].
  split; [vm_compute; reflexivity|vm_compute; discriminate].
Qed.

(** a commit whose [fsync] fails is aborted by [Execute]'s handler, but its
    Commit record stays in the log: memory and file have the old page, and
    the next recovery redoes the aborted transaction. *)
Lemma failed_commit_resurrects :
  exists w1 w2 ds, Commit 0 false 1 inserted_world = (Throw RuntimeError, w1) /\
    Abort 0 1 w1 = (Ret tt, w2) /\ mem_of w2 (mkPageKey 1 0) = Some zero_page /\
    page_of (disks_of w2) (mkPageKey 1 0) = Some zero_page /\
    RunRecovery (records_on_open_ (OpenLogManager (wal (log_manager_ w2)))) (disks_of w2) = (Ret 1, ds) /\
    page_of ds (mkPageKey 1 0) = inserted_page /\ inserted_page <> Some zero_page.
Proof.
  do 3 eexists. do 6 (split; [vm_compute; reflexivity|]). vm_compute. discriminate.
Qed.
