(* ===== verification/Isolation.v ===== *)
(** * Isolation: strict two-phase locking of whole transactions

    Any number of threads run transactions on any objects; the storage calls
    of different threads come in any order, and each may return, throw, or
    stop for a lock. What a transaction has dirtied it holds exclusively, and
    what it has locked, for reading or writing, nobody else changes, until it
    commits or aborts. *)
From stdpp Require Import sorting.
From S2P Require Import Prelude Config LockManager DiskManager Transaction BufferPool HeapFile BTree LockDiscipline LogManager TransactionManager TxnSystem.

(** ** The system *)

(** The storage operations on object [oid], each with the most pages it can
    allocate. *)
Inductive storage_call (oid : ObjectId) : forall A : Type, Z -> M View A -> Prop :=
| call_scan : storage_call oid _ 0 (HeapFile.Scan oid)
| call_get_row rid : storage_call oid _ 0 (HeapFile.GetRow oid rid)
| call_find pred : storage_call oid _ 0 (HeapFile.Find oid pred)
| call_insert row : storage_call oid _ 1 (HeapFile.Insert oid row)
| call_delete rid : storage_call oid _ 0 (HeapFile.Delete oid rid)
| call_search key : storage_call oid _ 0 (BTree.Search oid key)
| call_height : storage_call oid _ 0 (BTree.Height oid)
| call_range_scan : storage_call oid _ 0 (BTree.RangeScanAll oid)
| call_tree_insert frames key rid : storage_call oid _ (Z.of_nat frames + 1) (BTree.Insert oid frames key rid)
| call_tree_delete frames key rid : storage_call oid _ 0 (BTree.Delete oid frames key rid).

Lemma call_guarded oid t A n (m : M View A) : storage_call oid A n m -> guarded oid t false n [] m (fun _ => []).
Proof.
  destruct 1; [apply guarded_heap_Scan|apply guarded_heap_GetRow|apply guarded_heap_Find|by apply guarded_heap_Insert|apply guarded_heap_Delete|
    apply guarded_Search|apply guarded_Height|apply guarded_RangeScanAll|apply guarded_tree_Insert|apply guarded_tree_Delete].
Qed.

(** Thread [th], in transaction [t], calls a storage operation on [oid], with
    any result [r]. The object has room, no other transaction has a lock on a
    page of it that is not there, and page ids are the unsigned numbers of the
    code. *)
Record calls (th : ThreadId) (t : TxnId) (w w' : World) : Prop := mkCalls {
  cl_txn : current_txn w !! th = Some t;
  cl_call : exists oid o A n m r v, buffer_pools_ w !! oid = Some o /\ storage_call oid A n m /\ m (view_of th o w) = (r, v) /\ w' = put_view oid v w /\
    next_page_id_ (disk_manager_ o.1) + n < 2 ^ 32 /\
    (forall h pid, h <> t -> lm_holds (lock_manager_ w) h (mkPageKey oid pid) -> 0 <= pid < next_page_id_ (disk_manager_ o.1)) /\
    forall k, k ∈ DirtiedPages t (v_txns v) -> 0 <= key_page k
}.

(** One step, and the transaction that makes it. *)
Inductive txn_step (w : World) : option TxnId -> World -> Prop :=
| tx_register oid bp page_ids :
    active_txns_ w = ∅ -> buffer_pools_ w !! oid = None -> observers_by_thread_ bp = ∅ -> file_ok (disk_manager_ bp) ->
    txn_step w None (set_buffer_pools (<[oid := (bp, page_ids)]> (buffer_pools_ w)) w)
| tx_begin th t w' :
    0 < next_txn_id_ w < 2 ^ 64 - 1 -> Begin th w = (Ret t, w') -> txn_step w (Some t) w'
| tx_call th t w' : calls th t w w' -> txn_step w (Some t) w'
| tx_commit th b t w' : Commit th b t w = (Ret tt, w') -> txn_step w (Some t) w'
| tx_abort th t w' : Abort th t w = (Ret tt, w') -> txn_step w (Some t) w'
| tx_commit_fails th t e w1 w' :
    Commit th false t w = (Throw e, w1) -> Abort th t w1 = (Ret tt, w') -> txn_step w (Some t) w'.

Definition any_step (w w' : World) : Prop := exists t, txn_step w t w'.
Definition txn_reachable (w : World) : Prop := steps any_step new_world w.

(** ** The invariant *)

Definition files_ok (w : World) : Prop := forall oid o, buffer_pools_ w !! oid = Some o -> file_ok (disk_manager_ o.1).

Record two_phase (w : World) : Prop := mkTwoPhase {
  tp_locks : lm_wf (lock_manager_ w);
  tp_dirty t k : k ∈ DirtiedPages t (active_txns_ w) -> holds_exclusive (lock_manager_ w) t k;
  tp_unsigned t k : k ∈ DirtiedPages t (active_txns_ w) -> 0 <= key_page k;
  tp_live t k : lm_holds (lock_manager_ w) t k -> is_Some (active_txns_ w !! t);
  tp_current th t : current_txn w !! th = Some t -> is_Some (active_txns_ w !! t);
  tp_unique th1 th2 t : current_txn w !! th1 = Some t -> current_txn w !! th2 = Some t -> th1 = th2;
  tp_observers oid obs th t : obs_of w !! oid = Some obs -> current_txn w !! th = Some t -> obs !! th = Some (mkObserver t oid);
  tp_ids t : is_Some (active_txns_ w !! t) -> 0 < t < next_txn_id_ w;
  tp_files : files_ok w
}.

(** Transaction [h] sees nothing of the step: its thread, its locks, the pages it has
    locked, and the page list of an object whose last page it has locked. *)
Record unaffected (h : TxnId) (w w' : World) : Prop := mkUnaffected {
  un_holds k : lm_holds (lock_manager_ w') h k <-> lm_holds (lock_manager_ w) h k;
  un_mem k : lm_holds (lock_manager_ w) h k -> mem_of w' k = mem_of w k;
  un_ids oid ids : ids_of w !! oid = Some ids -> exists ids', ids_of w' !! oid = Some ids' /\ ids `prefix_of` ids' /\
    forall l, last ids = Some l -> lm_holds (lock_manager_ w) h (mkPageKey oid l) -> ids' = ids;
  un_current th : current_txn w !! th = Some h -> current_txn w' !! th = Some h
}.

#[global] Instance unaffected_preorder h : PreOrder (unaffected h).
Proof.
  split; [intros w; split; [done..| |done]; intros oid ids H; by exists ids|]. intros w1 w2 w3 [A1 A2 A3 A4] [B1 B2 B3 B4]. split; [..|auto].
  - intros k. by rewrite B1.
  - intros k Hk. rewrite B2 by (by apply A1). by apply A2.
  - intros oid ids H. destruct (A3 _ _ H) as (ids2 & H2 & Hp2 & Hl2). destruct (B3 _ _ H2) as (ids3 & H3 & Hp3 & Hl3).
    exists ids3. split; [done|]. split; [by etrans|]. intros l Hl Hh. pose proof (Hl2 l Hl Hh) as ->. apply (Hl3 l Hl). by apply A1.
Qed.

(** ** Storage calls *)

Lemma call_ids oid t A n (m : M View A) v :
  storage_call oid A n m -> acting oid t v -> pages_next v + n < 2 ^ 32 ->
  v_page_ids (m v).2 = v_page_ids v \/ forall l, last (v_page_ids v) = Some l -> mine oid t (m v).2 l.
Proof.
  intros Hm Ha Hn. assert (guarded oid t true n [] m (fun _ => []) -> v_page_ids (m v).2 = v_page_ids v) as Hfix.
  { intros Hg. apply (di_fixed _ _ _ _ _ _ (proj1 (Hg v Ha Hn ltac:(constructor)))). done. }
  destruct Hm; [..|left; apply Hfix; apply guarded_tree_Delete]; try (left; apply Hfix; by (apply guarded_heap_Scan || apply guarded_heap_GetRow ||
    apply guarded_heap_Find || apply guarded_heap_Delete || apply guarded_Search || apply guarded_Height || apply guarded_RangeScanAll || apply guarded_tree_Insert)).
  by apply (heap_Insert_last oid t false).
Qed.

Lemma call_step th t w w' :
  two_phase w -> calls th t w w' -> two_phase w' /\ forall h, h <> t -> unaffected h w w'.
Proof.
  intros [T1 T2 Tu T3 T4 T5 T6 T7 T8] [Hc (oid & o & A & n & m & r & v & Ho & Hcall & E & -> & Hroom & Halloc & Hun)].
  assert (acting oid t (view_of th o w)) as Ha.
  { split; cbn; [done| |done|intros h pid Hne Hh; by apply (Halloc h)|by eapply T8]. eapply T6; [by rewrite obs_of_lookup, Ho|done]. }
  destruct (call_guarded oid t A n m Hcall (view_of th o w) Ha Hroom) as [[D1 D2 D3 D4 D5 D6 D7 D8 D9 D10 D12 D13 D11] _]; [constructor|].
  pose proof (call_ids oid t A n m _ Hcall Ha Hroom) as Hids. rewrite E in *. cbn [snd] in *.
  assert (obs_of (put_view oid v w) = obs_of w) as Hobs.
  { apply map_eq. intros i. rewrite obs_of_put by eauto. case_decide as Hi; [|done]. subst i. rewrite obs_of_lookup, Ho. cbn. unfold pool_obs. by rewrite D3. }
  split_and!.
  - split; cbn [put_view lock_manager_ active_txns_ current_txn next_txn_id_].
    + by apply D4.
    + intros t' k Hk. destruct (D10 t' k Hk) as [Hk'|(-> & <- & Hm)]; [by apply D6, T2|]. unfold mine in Hm. by destruct k.
    + intros t' k Hk. destruct (D10 t' k Hk) as [Hk'|(-> & _ & _)]; [by eapply Tu|by apply Hun].
    + intros t' k Hk. apply D9. cbn. destruct (decide (t' = t)) as [->|Hne]; [by eapply T4|]. apply (T3 t' k). by apply D5.
    + intros th' t' Hth. apply D9. by eapply T4.
    + exact T5.
    + intros oid' obs th' t'. rewrite Hobs. apply T6.
    + intros t' Ht. apply T7. by apply D9.
    + intros oid' o'. cbn. rewrite lookup_insert_Some. intros [[_ <-]|[_ H]]; [apply D8; by eapply T8|by eapply T8].
  - intros h Hne. split; [intros k; cbn; by apply D5| | |done].
    2: { intros oid' ids. rewrite !ids_of_lookup. cbn [put_view buffer_pools_]. destruct (decide (oid' = oid)) as [->|Hoid]; [|rewrite lookup_insert_ne by done; intros H; by exists ids].
      rewrite lookup_insert_eq, Ho. cbn. intros [= <-]. exists (v_page_ids v). split; [done|]. split; [exact D12|]. intros l Hl Hh.
      destruct Hids as [Hids|Hm]; [exact Hids|]. exfalso. apply Hne. eapply exclusive_alone; [apply D4, T1|exact (Hm l Hl)|]. by apply D5. }
    intros k Hh. unfold mem_of. cbn. destruct (decide (key_object k = oid)) as [Hk|Hk]; [|by rewrite lookup_insert_ne].
    rewrite Hk, lookup_insert_eq, Ho. cbn. destruct (D11 (key_page k)) as [?|Hm]; [|done|].
    + unfold pages_next. cbn. apply (Halloc h); [done|]. rewrite <- Hk. by destruct k.
    + exfalso. apply Hne. eapply exclusive_alone; [apply D4, T1|exact Hm|]. apply D5; [done|]. cbn. rewrite <- Hk. by destruct k.
Qed.

(** ** Begin, commit and abort *)

(** Only the pages of [S] change in one pool. *)
Record page_step (S : PageId -> Prop) (v v' : View) : Prop := mkPageStep {
  ps_locks : v_locks v' = v_locks v;
  ps_txns : v_txns v' = v_txns v;
  ps_file : file_ok (disk_manager_ (v_pool v)) -> file_ok (disk_manager_ (v_pool v'));
  ps_mem q : file_ok (disk_manager_ (v_pool v)) -> ~ S q -> mem_page (v_pool v') q = mem_page (v_pool v) q
}.

#[global] Instance page_step_preorder S : PreOrder (page_step S).
Proof.
  split; [intros v; by split|]. intros v1 v2 v3 [A1 A2 A3 A4] [B1 B2 B3 B4]. split; [congruence..|auto|].
  intros q Hf Hq. rewrite B4, A4; auto.
Qed.

(** The same of all pools, with the transactions and the locks. *)
Record housekeeping (S : PageKey -> Prop) (w w' : World) : Prop := mkHousekeeping {
  hk_locks : lock_manager_ w' = lock_manager_ w;
  hk_active : active_txns_ w' = active_txns_ w;
  hk_current : current_txn w' = current_txn w;
  hk_next : next_txn_id_ w' = next_txn_id_ w;
  hk_files : files_ok w -> files_ok w';
  hk_mem k : files_ok w -> ~ S k -> mem_of w' k = mem_of w k
}.

#[global] Instance housekeeping_preorder S : PreOrder (housekeeping S).
Proof.
  split; [intros w; by split|]. intros w1 w2 w3 [A1 A2 A3 A4 A5 A6] [B1 B2 B3 B4 B5 B6]. split; [congruence..|auto|].
  intros k Hf Hk. rewrite B6, A6; auto.
Qed.

(** [m] ends in a state related to the first, whatever its result. *)
Definition within {W A} (R : W -> W -> Prop) (m : M W A) : Prop := forall w, R w (m w).2.

Lemma within_bind {W A B} (R : W -> W -> Prop) `{!PreOrder R} (m : M W A) (f : A -> M W B) :
  within R m -> (forall a, within R (f a)) -> within R (m ≫= f).
Proof.
  intros Hm Hf w. unfold mbind, M_bind. specialize (Hm w). destruct (m w) as [[a|e|key|] w1]; cbn in *; try done.
  etrans; [exact Hm|apply Hf].
Qed.

Lemma within_pure {W A} (R : W -> W -> Prop) `{!PreOrder R} (m : M W A) : (forall w, (m w).2 = w) -> within R m.
Proof. intros H w. by rewrite H. Qed.

Lemma within_for_each {W A} (R : W -> W -> Prop) `{!PreOrder R} (body : A -> M W unit) l :
  (forall a, a ∈ l -> within R (body a)) -> within R (for_each body l).
Proof.
  intros Hb. induction l as [|a l IH]; [by apply within_pure|]. cbn [for_each]. apply within_bind; [done|apply Hb; by left|].
  intros _. apply IH. intros x Hx. apply Hb. by right.
Qed.

Lemma page_step_fetch pid : within (page_step (fun q => q = pid)) (FetchPage pid).
Proof.
  intros v. unfold FetchPage. destruct (pages_ (v_pool v) !! pid); [done|]. unfold on_disk, ReadPage, mbind, M_bind. cbn.
  destruct (_ <=? _); [by split|]. destruct (file _ !! _) as [p|]; [|by split]. cbn. split; try done. intros q _ Hq. unfold mem_page. cbn. by rewrite lookup_insert_ne.
Qed.

Lemma WritePage_file pid buf d :
  file_ok d -> 0 <= pid -> file_ok (WritePage pid buf d).2 /\ forall q, q <> pid -> disk_page (WritePage pid buf d).2 q = disk_page d q.
Proof.
  unfold file_ok, WritePage. intros Hn Hp. destruct (next_page_id_ d <=? pid) eqn:E; [done|]. cbn. unfold pwrite_page.
  assert (length (<[Z.to_nat pid := buf]> (file d ++ replicate (S (Z.to_nat pid) - length (file d)) zero_page)) = length (file d)) as Hl.
  { rewrite length_insert, length_app, length_replicate. unfold zlen in Hn. lia. }
  split; [unfold zlen in *; by rewrite Hl|]. intros q Hq. unfold disk_page. cbn. case_bool_decide as Hr; [|done].
  rewrite list_lookup_insert_ne by lia. apply lookup_app_l. unfold zlen in Hn. lia.
Qed.

Lemma page_step_flush pid : 0 <= pid -> within (page_step (fun q => q = pid)) (flush_if_dirty pid).
Proof.
  intros Hp v. unfold flush_if_dirty. destruct (pages_ (v_pool v) !! pid) as [p|] eqn:Ep; [|done]. case_bool_decide; [|done].
  apply (within_bind (page_step (fun q => q = pid))).
  - intros v1. unfold on_disk. pose proof (WritePage_file pid p (disk_manager_ (v_pool v1))) as Hw. destruct (WritePage pid p _) as [r d].
    split; try done; cbn; [intros Hf; by apply Hw|]. intros q Hf Hq. unfold mem_page. cbn. destruct (pages_ (v_pool v1) !! q); [done|by apply Hw].
  - intros _ v1. by split.
Qed.

Lemma page_step_discard pid : within (page_step (fun q => q = pid)) (DiscardPage pid).
Proof.
  intros v. unfold DiscardPage. destruct (pages_ (v_pool v) !! pid); [|done]. unfold on_disk, ReadPage, mbind, M_bind. cbn.
  destruct (_ <=? _); [by split|]. destruct (file _ !! _) as [p|]; [|by split]. cbn. split; try done. intros q _ Hq. unfold mem_page. cbn. by rewrite lookup_insert_ne.
Qed.

Lemma housekeeping_log S {A} (m : M LogManager.LogManager A) : within (housekeeping S) (on_log m).
Proof. intros w. unfold on_log. destruct (m _) as [r lm]. by split. Qed.

Lemma housekeeping_pool (S : PageKey -> Prop) th oid {A} (m : M View A) :
  within (page_step (fun q => S (mkPageKey oid q))) m -> within (housekeeping S) (on_pool th oid m).
Proof.
  intros Hm w. unfold on_pool. destruct (buffer_pools_ w !! oid) as [o|] eqn:Ho; [|done]. specialize (Hm (view_of th o w)).
  destruct (m (view_of th o w)) as [r v]. destruct Hm as [M1 M2 M3 M4]. cbn in *. split; cbn; try done.
  - intros Hf oid' o'. cbn. rewrite lookup_insert_Some. intros [[_ <-]|[_ H]]; [apply M3; by eapply Hf|by eapply Hf].
  - intros k Hf Hk. unfold mem_of. cbn. destruct (decide (key_object k = oid)) as [E|E]; [|by rewrite lookup_insert_ne].
    rewrite E, lookup_insert_eq, Ho. cbn. apply M4; [by eapply Hf|]. rewrite <- E. by destruct k.
Qed.

Lemma page_step_mono (S1 S2 : PageId -> Prop) {A} (m : M View A) : (forall q, S1 q -> S2 q) -> within (page_step S1) m -> within (page_step S2) m.
Proof. intros HS Hm v. destruct (Hm v) as [M1 M2 M3 M4]. split; try done. intros q Hf Hq. apply M4; auto. Qed.

Lemma same_pages_housekeeping S w w' : same_pages w w' -> housekeeping S w w'.
Proof.
  intros [S1 S2 S3 S4 S5 S6 S7]. split; try done.
  intros Hf oid o Ho. apply (f_equal (.!! oid)) in S1. rewrite !disks_of_lookup, Ho in S1. cbn in S1.
  destruct (buffer_pools_ w !! oid) as [o'|] eqn:E'; [|done]. cbn in S1. injection S1 as ->. by eapply Hf.
Qed.

Lemma clear_housekeeping S th : within (housekeeping S) (clear_observers th).
Proof. intros w. destruct (clear_observers_run th w) as (w' & E & [Hs _]). rewrite E. by apply same_pages_housekeeping. Qed.

(** *** The pages a transaction dirtied *)

Definition dirtied_by (t : TxnId) (w : World) (k : PageKey) : Prop := k ∈ DirtiedPages t (active_txns_ w).

Lemma in_group t w oid pids pid :
  (oid, pids) ∈ map_to_list (GroupDirtiedPagesByObject (DirtiedPages t (active_txns_ w))) -> pid ∈ merge_sort Z.le (elements pids) ->
  dirtied_by t w (mkPageKey oid pid).
Proof.
  intros Hx%elem_of_map_to_list Hp%elem_of_flush_order. unfold dirtied_by. apply elem_of_group. by rewrite Hx.
Qed.

Lemma log_page_housekeeping (S : PageKey -> Prop) th t oid pid : S (mkPageKey oid pid) -> within (housekeeping S) (log_page th t oid pid).
Proof.
  intros HS. unfold log_page. apply within_bind; [apply _| |].
  - apply housekeeping_pool, within_bind; [apply _| |].
    + eapply page_step_mono; [|apply page_step_fetch]. by intros q ->.
    + intros ptr v. unfold on_page. destruct (pages_ (v_pool v) !! ptr) as [p|] eqn:E; [|done]. cbn. split; try done.
      intros q _ _. unfold mem_page. cbn. destruct (decide (q = ptr)) as [->|]; [by rewrite lookup_insert_eq, E|by rewrite lookup_insert_ne].
  - intros data. apply within_bind; [apply _|apply housekeeping_log|]. intros _. by apply within_pure; [apply _|].
Qed.

Lemma flush_object_housekeeping (S : PageKey -> Prop) th oid pids :
  (forall pid, pid ∈ merge_sort Z.le (elements pids) -> S (mkPageKey oid pid) /\ 0 <= pid) -> within (housekeeping S) (flush_object th (oid, pids)).
Proof.
  intros HS. apply housekeeping_pool, within_for_each; [apply _|]. intros pid [Hs Hp]%HS.
  eapply page_step_mono; [|by apply page_step_flush]. by intros q ->.
Qed.

Lemma discard_object_housekeeping (S : PageKey -> Prop) th oid pids :
  (forall pid, pid ∈ merge_sort Z.le (elements pids) -> S (mkPageKey oid pid)) -> within (housekeeping S) (discard_object th (oid, pids)).
Proof.
  intros HS. apply within_for_each; [apply _|]. intros pid Hs%HS. apply housekeeping_pool.
  eapply page_step_mono; [|by apply page_step_discard]. by intros q ->.
Qed.

(** [m] works on the pages of [S] and, when it returns, has ended the
    transaction. *)
Definition finishing (S : PageKey -> Prop) (th : ThreadId) (t : TxnId) (m : M World unit) : Prop := forall w,
  match m w with
  | (Ret _, w') => exists w1, housekeeping S w w1 /\ w' = (finish_txn th t w1).2
  | (_, w') => housekeeping S w w'
  end.

Lemma finishing_bind {A} S th t (m : M World A) f :
  within (housekeeping S) m -> (forall a, finishing S th t (f a)) -> finishing S th t (m ≫= f).
Proof.
  intros Hm Hf w. unfold mbind, M_bind. specialize (Hm w). destruct (m w) as [[a|e|key|] w1]; cbn in *; try done.
  specialize (Hf a w1). destruct (f a w1) as [[[]|e|key|] w2]; [destruct Hf as (w3 & H & ->); exists w3; split; [by etrans|done]|by etrans..].
Qed.

Lemma finish_finishing S th t : finishing S th t (finish_txn th t).
Proof. intros w. exists w. by split. Qed.

(** How an end of transaction [t] on thread [th] leaves the world. *)
Definition ended (th : ThreadId) (t : TxnId) (w : World) (x : outcome unit * World) : Prop :=
  match x.1 with
  | Ret _ => exists w1, housekeeping (dirtied_by t w) w w1 /\ x.2 = (finish_txn th t w1).2
  | _ => housekeeping (dirtied_by t w) w x.2
  end.

Lemma cleared_ended th t w (m : list (ObjectId * gset PageId) -> M World unit) :
  (forall by_object, (forall oid pids pid, (oid, pids) ∈ by_object -> pid ∈ merge_sort Z.le (elements pids) -> dirtied_by t w (mkPageKey oid pid)) ->
    finishing (dirtied_by t w) th t (m by_object)) ->
  ended th t w ((clear_observers th;; by_object ← gets (fun w => map_to_list (GroupDirtiedPagesByObject (DirtiedPages t (active_txns_ w)))); m by_object) w).
Proof.
  intros Hm. destruct (clear_observers_run th w) as (w1 & E1 & _). pose proof (clear_housekeeping (dirtied_by t w) th w) as Hh.
  rewrite E1 in Hh. cbn in Hh. run E1. rewrite (bind_ret _ _ _ _ _ (gets_run _ w1)), (hk_active _ _ _ Hh).
  set (l := map_to_list _). specialize (Hm l (in_group t w) w1). unfold ended. destruct (m l w1) as [[[]|e|key|] w2]; cbn.
  - destruct Hm as (w3 & H & ->). exists w3. split; [by etrans|done].
  - by etrans.
  - by etrans.
  - by etrans.
Qed.

Lemma Commit_ended th b t w :
  current_txn w !! th = Some t -> (forall k, dirtied_by t w k -> 0 <= key_page k) -> ended th t w (Commit th b t w).
Proof.
  intros Hc Hun. unfold Commit. rewrite (bind_ret _ _ _ _ _ (gets_run _ w)), bool_decide_eq_true_2 by done. cbn [negb].
  apply cleared_ended. intros l Hl.
  apply finishing_bind; [|intros _; apply finishing_bind; [apply housekeeping_log|intros lsn; apply finishing_bind; [apply housekeeping_log|intros _;
    apply finishing_bind; [|intros _; apply finish_finishing]]]].
  - apply within_for_each; [apply _|]. intros [oid pids] Hx. apply within_for_each; [apply _|]. intros pid Hp.
    apply log_page_housekeeping. by eapply Hl.
  - apply within_for_each; [apply _|]. intros [oid pids] Hx. apply flush_object_housekeeping. intros pid Hp.
    split; [by eapply Hl|]. apply (Hun (mkPageKey oid pid)). by eapply Hl.
Qed.

Lemma Abort_ended th t w : current_txn w !! th = Some t -> ended th t w (Abort th t w).
Proof.
  intros Hc. unfold Abort. rewrite (bind_ret _ _ _ _ _ (gets_run _ w)), bool_decide_eq_true_2 by done. cbn [negb].
  apply cleared_ended. intros l Hl.
  apply finishing_bind; [|intros _; apply finishing_bind; [apply housekeeping_log|intros _; apply finish_finishing]].
  apply within_for_each; [apply _|]. intros [oid pids] Hx. apply discard_object_housekeeping. intros pid Hp. by eapply Hl.
Qed.

(** ** Steps *)

Lemma end_step th t w w' :
  two_phase w -> current_txn w !! th = Some t -> ended th t w (Ret tt, w') ->
  (forall oid, obs_of w' !! oid = delete th <$> obs_of w !! oid) -> ids_of w' = ids_of w ->
  two_phase w' /\ forall h, h <> t -> unaffected h w w'.
Proof.
  intros [T1 T2 Tu T3 T4 T5 T6 T7 T8] Hc (w1 & [H1 H2 H3 H4 H5 H6] & Hw') Hob Hids. cbn in Hw'.
  assert (lock_manager_ w' = ReleaseAll t (lock_manager_ w)) as Hl by (by rewrite <- H1, Hw').
  assert (active_txns_ w' = delete t (active_txns_ w)) as Ha by (by rewrite <- H2, Hw').
  assert (current_txn w' = delete th (current_txn w)) as Hcu by (by rewrite <- H3, Hw').
  assert (forall t' k, k ∈ DirtiedPages t' (active_txns_ w') -> t' <> t /\ k ∈ DirtiedPages t' (active_txns_ w)) as Hd.
  { intros t' k. rewrite Ha. unfold DirtiedPages. rewrite lookup_delete. case_decide; [by intros ?%elem_of_empty|done]. }
  split; [split|].
  - rewrite Hl. by apply ReleaseAll_wf.
  - intros t' k [Hne Hk]%Hd. rewrite Hl. apply ReleaseAll_exclusive; [done|by apply T2].
  - intros t' k [Hne Hk]%Hd. by eapply Tu.
  - intros t' k. rewrite Hl, Ha. intros [Hh Hne]%ReleaseAll_holds; [|done]. rewrite lookup_delete_ne by done. by eapply T3.
  - intros th' t'. rewrite Hcu, Ha. rewrite lookup_delete_Some, lookup_delete_is_Some. intros [Hne Hth]. split; [|by eapply T4].
    intros <-. apply Hne. by eapply T5.
  - intros th1 th2 t'. rewrite Hcu, !lookup_delete_Some. intros [_ ?] [_ ?]. by eapply T5.
  - intros oid obs th' t'. rewrite Hob, Hcu, lookup_delete_Some, fmap_Some. intros (obs0 & Ho & ->) [Hne Hth].
    rewrite lookup_delete_ne by done. by eapply T6.
  - intros t'. rewrite Ha, lookup_delete_is_Some. intros [_ Ht]. replace (next_txn_id_ w') with (next_txn_id_ w) by (by rewrite <- H4, Hw'). by apply T7.
  - subst w'. by apply H5.
  - intros h Hne. split; [intros k; rewrite Hl, ReleaseAll_holds by done; tauto| | |].
    + intros k Hh. subst w'. apply H6; [done|]. intros Hk. apply Hne. eapply exclusive_alone; [exact T1|by apply T2|done].
    + intros oid ids Hi. exists ids. by rewrite Hids.
    + intros th' Hth. rewrite Hcu. rewrite lookup_delete_ne; [done|]. intros <-. congruence.
Qed.

Lemma fails_step th t e w w1 w' :
  two_phase w -> current_txn w !! th = Some t -> Commit th false t w = (Throw e, w1) -> Abort th t w1 = (Ret tt, w') ->
  two_phase w' /\ forall h, h <> t -> unaffected h w w'.
Proof.
  intros Hp Hc E1 E2. pose proof (Commit_ended th false t w Hc (fun k Hk => tp_unsigned _ Hp t k Hk)) as H. rewrite E1 in H. unfold ended in H. cbn in H.
  assert (current_txn w1 !! th = Some t) as Hc1 by (by rewrite (hk_current _ _ _ H)).
  pose proof (Abort_ended th t w1 Hc1) as Ha. rewrite E2 in Ha. destruct Ha as (w2 & Ha & Hw2). cbn in Hw2.
  eapply end_step; [done|done| | |].
  - exists w2. split; [|done]. etrans; [done|]. destruct Ha as [A1 A2 A3 A4 A5 A6]. split; try done.
    intros k Hf Hk. apply A6; [done|]. unfold dirtied_by. by rewrite (hk_active _ _ _ H).
  - intros oid. rewrite (Abort_obs _ _ _ _ _ Hc1 E2), (Commit_obs _ _ _ _ _ _ Hc E1). destruct (obs_of w !! oid); [|done]. cbn. by rewrite delete_delete_eq.
  - by rewrite (ids_same _ _ _ _ (ids_Abort th t) E2), (ids_same _ _ _ _ (ids_Commit th false t) E1).
Qed.

Lemma begin_effect th t w w' :
  next_txn_id_ w < 2 ^ 64 - 1 -> 0 < next_txn_id_ w -> Begin th w = (Ret t, w') ->
  current_txn w !! th = None /\ t = next_txn_id_ w /\ exists w1, same_world w1 w' /\
    lock_manager_ w1 = lock_manager_ w /\ buffer_pools_ w1 = buffer_pools_ w /\ active_txns_ w1 = <[t := ∅]> (active_txns_ w) /\
    next_txn_id_ w1 = t + 1 /\ current_txn w1 = <[th := t]> (current_txn w) /\
    forall oid, obs_of w' !! oid = <[th := mkObserver t oid]> <$> obs_of w !! oid.
Proof.
  intros Hmax H0 H. unfold Begin in H. rewrite (bind_ret _ _ _ _ _ (gets_run _ w)) in H. destruct (current_txn w !! th) as [t0|] eqn:Ec; [done|]. split; [done|].
  rewrite (bind_ret _ _ _ _ _ (gets_run _ w)), (bind_ret _ _ _ _ _ (modify_run _ w)) in H. apply bind_inv in H as (lsn & w2 & H1 & H).
  unfold on_log in H1. destruct (AppendBegin _ _) as [r lm]. injection H1 as -> <-.
  rewrite (bind_ret _ _ _ _ _ (modify_run _ _)), (bind_ret _ _ _ _ _ (modify_run _ _)), (bind_ret _ _ _ _ _ (gets_run registered _)) in H.
  apply bind_inv in H as ([] & w3 & H2 & [= <- <-]). split; [done|].
  match type of H2 with for_each _ _ ?w1 = _ => exists w1;
    destruct (observers_loop th (fun oid => SetActiveTransactionObserver (mkObserver (next_txn_id_ w) oid)) w1) as (w4 & H4 & Hs); [intros oid v; by eexists|];
    pose proof (set_observers_obs _ _ _ _ H2) as Hob end.
  rewrite H4 in H2. injection H2 as ->. split_and!; try done. cbn. unfold u64. apply Z.mod_small. lia.
Qed.

Lemma begin_step th t w w' :
  two_phase w -> 0 < next_txn_id_ w < 2 ^ 64 - 1 -> Begin th w = (Ret t, w') -> two_phase w' /\ forall h, unaffected h w w'.
Proof.
  intros [T1 T2 Tu T3 T4 T5 T6 T7 T8] Hid E. pose proof (ids_same _ _ _ _ (ids_Begin th) E) as Hids. revert E.
  intros (Hc & -> & w1 & [Hs _] & Hl & Hb & Ha & Hn & Hcu & Hob)%begin_effect; [|lia..].
  set (t := next_txn_id_ w) in *.
  pose proof (same_pages_housekeeping (fun _ => True) _ _ Hs) as [H1 H2 H3 H4 H5 _]. rewrite Hl in H1. rewrite Ha in H2. rewrite Hcu in H3. rewrite Hn in H4.
  assert (active_txns_ w !! t = None) as Hnew by (destruct (active_txns_ w !! t) eqn:E; [|done]; destruct (T7 t); [eauto|subst t; lia]).
  assert (forall t' k, k ∈ DirtiedPages t' (active_txns_ w') -> k ∈ DirtiedPages t' (active_txns_ w)) as Hd.
  { intros t' k. rewrite H2. unfold DirtiedPages. destruct (decide (t' = t)) as [->|]; [by rewrite lookup_insert_eq, Hnew|by rewrite lookup_insert_ne]. }
  split; [split|].
  - by rewrite H1.
  - intros t' k Hk%Hd. rewrite H1. by apply T2.
  - intros t' k Hk%Hd. by eapply Tu.
  - intros t' k. rewrite H1, H2, lookup_insert_is_Some. intros Hh. destruct (decide (t = t')); [by left|right; split; [done|by eapply T3]].
  - intros th' t'. rewrite H3, H2, lookup_insert_Some, lookup_insert_is_Some. intros [[<- <-]|[Hne Hth]]; [by left|].
    destruct (decide (t = t')); [by left|right; split; [done|by eapply T4]].
  - assert (forall th', current_txn w !! th' <> Some t) as Hnot by (intros th' [x Hx]%T4; congruence).
    intros th1 th2 t'. rewrite H3, !lookup_insert_Some. intros [[<- <-]|[_ Ha1]] [[<- Hb2]|[_ Hb2]]; [done|..].
    + by destruct (Hnot th2).
    + subst t'. by destruct (Hnot th1).
    + by eapply T5.
  - intros oid obs th' t'. rewrite H3, Hob, lookup_insert_Some, fmap_Some. intros (obs0 & Ho & ->) [[<- <-]|[Hne Hth]].
    + by rewrite lookup_insert_eq.
    + rewrite lookup_insert_ne by done. by eapply T6.
  - intros t'. rewrite H2, H4, lookup_insert_is_Some. intros [<-|[_ Ht]]; [lia|]. destruct (T7 t' Ht). lia.
  - apply H5. intros oid o. rewrite Hb. apply T8.
  - intros h. split; [intros k; by rewrite H1| | |].
    + intros k _. rewrite (sp_mem _ _ Hs). unfold mem_of. by rewrite Hb.
    + intros oid ids Hi. exists ids. by rewrite Hids.
    + intros th' Hth. rewrite H3. rewrite lookup_insert_ne; [done|]. intros <-. congruence.
Qed.

Lemma register_step oid bp page_ids w :
  two_phase w -> active_txns_ w = ∅ -> buffer_pools_ w !! oid = None -> observers_by_thread_ bp = ∅ -> file_ok (disk_manager_ bp) ->
  let w' := set_buffer_pools (<[oid := (bp, page_ids)]> (buffer_pools_ w)) w in two_phase w' /\ forall h, unaffected h w w'.
Proof.
  intros [T1 T2 Tu T3 T4 T5 T6 T7 T8] Ha Hnone Hob Hf w'.
  assert (forall t, ~ is_Some (active_txns_ w !! t)) as Hno by (intros t [x Hx]; by rewrite Ha, lookup_empty in Hx).
  split; [split; try done|].
  - intros oid' obs th t _ Hc. by destruct (Hno t (T4 _ _ Hc)).
  - intros oid' o'. cbn. rewrite lookup_insert_Some. intros [[_ <-]|[_ H]]; [done|by eapply T8].
  - intros h. split; [done|intros k Hh; by destruct (Hno h (T3 _ _ Hh))| |done]. intros oid' ids. rewrite !ids_of_lookup. cbn [w' set_buffer_pools buffer_pools_].
    destruct (decide (oid' = oid)) as [->|Hne]; [by rewrite Hnone|]. rewrite lookup_insert_ne by done. intros H. by exists ids.
Qed.

Lemma new_world_two_phase : two_phase new_world.
Proof.
  split; try done.
  - apply empty_lm_wf.
  - by intros t k (e & He & _).
  - by intros t [x Hx].
Qed.

Lemma step_two_phase w x w' : two_phase w -> txn_step w x w' -> two_phase w' /\ forall h, x <> Some h -> unaffected h w w'.
Proof.
  intros Hp Hs. destruct Hs as [oid bp page_ids Ha Hnone Hob Hf|th t w' Hid E|th t w' Hc|th b t w' E|th t w' E|th t e w1 w' E1 E2].
  - destruct (register_step oid bp page_ids w Hp Ha Hnone Hob Hf) as [? ?]. split; [done|]. auto.
  - destruct (begin_step _ _ _ _ Hp Hid E) as [? ?]. split; [done|]. auto.
  - destruct (call_step _ _ _ _ Hp Hc) as (? & H). split; [done|]. intros h Hne. apply H. congruence.
  - assert (current_txn w !! th = Some t) as Hc by (unfold Commit in E; rewrite (bind_ret _ _ _ _ _ (gets_run _ w)) in E; by case_bool_decide).
    pose proof (Commit_ended th b t w Hc (fun k Hk => tp_unsigned _ Hp t k Hk)) as He. rewrite E in He.
    destruct (end_step th t w w' Hp Hc He (Commit_obs _ _ _ _ _ _ Hc E) (ids_same _ _ _ _ (ids_Commit th b t) E)) as [? H]. split; [done|]. intros h Hne. apply H. congruence.
  - assert (current_txn w !! th = Some t) as Hc by (unfold Abort in E; rewrite (bind_ret _ _ _ _ _ (gets_run _ w)) in E; by case_bool_decide).
    pose proof (Abort_ended th t w Hc) as He. rewrite E in He.
    destruct (end_step th t w w' Hp Hc He (Abort_obs _ _ _ _ _ Hc E) (ids_same _ _ _ _ (ids_Abort th t) E)) as [? H]. split; [done|]. intros h Hne. apply H. congruence.
  - assert (current_txn w !! th = Some t) as Hc.
    { unfold Commit in E1. rewrite (bind_ret _ _ _ _ _ (gets_run _ w)) in E1. case_bool_decide; [done|]. injection E1 as _ <-.
      unfold Abort in E2. rewrite (bind_ret _ _ _ _ _ (gets_run _ w)) in E2. by case_bool_decide. }
    destruct (fails_step _ _ _ _ _ _ Hp Hc E1 E2) as [? H]. split; [done|]. intros h Hne. apply H. congruence.
Qed.

Lemma txn_reachable_two_phase w : txn_reachable w -> two_phase w.
Proof. intros H. induction H as [|w1 w2 _ IH [x Hs]]; [apply new_world_two_phase|]. by eapply step_two_phase. Qed.

(** ** Isolation *)

(** A step that transaction [h] does not make. *)
Definition others_step (h : TxnId) (w w' : World) : Prop := exists x, txn_step w x w' /\ x <> Some h.

Lemma others_steps h w w' : two_phase w -> steps (others_step h) w w' -> two_phase w' /\ unaffected h w w'.
Proof.
  intros Hp Hs. induction Hs as [|w1 w2 _ [IH HU] [x [Hst Hne]]]; [done|].
  destruct (step_two_phase _ _ _ IH Hst) as [Hp2 H]. split; [done|]. etrans; [exact HU|by apply H].
Qed.

(** C7: two-phase locking isolates transactions. Any number of threads begin
    transactions, run storage operations of heap files and B+ trees in them
    (which may return, throw, or stop for a lock), commit, abort, or fail to
    commit and abort, in any order. However long the others run while [h]
    makes no step: the pages [h] has locked, for reading or for writing, stay
    locked by it and have exactly the same content; [h] gains no lock; and every page that a transaction has dirtied is locked
    exclusively by it and by nobody else, so no one reads uncommitted data. *)
Theorem transactions_isolated (w w' : World) (h : TxnId) :
  txn_reachable w -> steps (others_step h) w w' ->
  (forall k, lm_holds (lock_manager_ w') h k <-> lm_holds (lock_manager_ w) h k) /\
  (forall k, lm_holds (lock_manager_ w) h k -> mem_of w' k = mem_of w k) /\
  forall t k, k ∈ DirtiedPages t (active_txns_ w') ->
    holds_exclusive (lock_manager_ w') t k /\ forall u, lm_holds (lock_manager_ w') u k -> u = t.
Proof.
  intros Hr Hs. destruct (others_steps h w w' (txn_reachable_two_phase _ Hr) Hs) as [Hp [H1 H2 _ _]]. split_and!; [done|done|].
  intros t k Hk. pose proof (tp_dirty _ Hp t k Hk) as He. split; [done|]. intros u. by eapply exclusive_alone; [apply Hp|].
Qed.

(** *** Two threads: the second scans the table the first inserted into *)

Definition second_world : World := (Begin 1 inserted_world).2.
Definition second_pool : BufferPool * list PageId := default (empty_pool, []) (buffer_pools_ second_world !! 1).
Definition refused_world : World := put_view 1 (HeapFile.Scan 1 (view_of 1 second_pool second_world)).2 second_world.
Definition retreated_world : World := (Abort 1 2 refused_world).2.

Lemma second_scan_refused : (HeapFile.Scan 1 (view_of 1 second_pool second_world)).1 = Throw (TransactionAborted 2).
Proof. vm_compute. reflexivity. Qed.

Lemma first_holds : lm_holds (lock_manager_ inserted_world) 1 (mkPageKey 1 0).
Proof. exists (mkEntry ∅ (Some 1)). split; [vm_compute; reflexivity|by left]. Qed.

(** Locks only on pages of [bound]. *)
Lemma locks_below lm bound :
  map_Forall (fun k (_ : LockEntry) => 0 <= key_page k < bound) (locks_ lm) -> forall h oid pid, lm_holds lm h (mkPageKey oid pid) -> 0 <= pid < bound.
Proof. intros H h oid pid (e & He & _). exact (H _ _ He). Qed.

Lemma inserted_txn_reachable : txn_reachable inserted_world.
Proof.
  eapply steps_snoc; [eapply steps_snoc; [apply steps_one; exists None; apply (tx_register _ 1 empty_pool []); try done; by vm_compute|]|].
  - exists (Some 1). apply (tx_begin _ 0 1); [by vm_compute|vm_compute; reflexivity].
  - exists (Some 1). apply (tx_call _ 0). split; [vm_compute; reflexivity|].
    exists 1, (default (empty_pool, []) (buffer_pools_ begun_world !! 1)), _, 1, (HeapFile.Insert 1 [x61]), (HeapFile.Insert 1 [x61] begun_view).1, (HeapFile.Insert 1 [x61] begun_view).2.
    split_and!; [vm_compute; reflexivity|apply call_insert|apply surjective_pairing|reflexivity|vm_compute; reflexivity| |].
    + intros h pid _ (e & He & _). change (lock_manager_ begun_world) with empty_lm in He. done.
    + assert (set_Forall (fun k => 0 <= key_page k) (DirtiedPages 1 (v_txns (HeapFile.Insert 1 [x61] begun_view).2))) as H by (apply (bool_decide_unpack _); vm_compute; exact I).
      exact H.
Qed.

Lemma others_retreat : steps (others_step 1) inserted_world retreated_world.
Proof.
  eapply steps_snoc; [eapply steps_snoc; [apply steps_one; exists (Some 2); split; [apply (tx_begin _ 1 2)|done]|]|].
  - by vm_compute.
  - vm_compute; reflexivity.
  - exists (Some 2). split; [|done]. apply (tx_call second_world 1 2 refused_world). split; [vm_compute; reflexivity|].
    exists 1, second_pool, _, 0, (HeapFile.Scan 1), (HeapFile.Scan 1 (view_of 1 second_pool second_world)).1, (HeapFile.Scan 1 (view_of 1 second_pool second_world)).2.
    split_and!; [vm_compute; reflexivity|apply call_scan|apply surjective_pairing|reflexivity|vm_compute; reflexivity| |].
    + intros h pid _. apply (locks_below _ 1). apply (bool_decide_unpack _); vm_compute; exact I.
    + intros k Hk. change (k ∈ (∅ : gset PageKey)) in Hk. by apply elem_of_empty in Hk.
  - exists (Some 2). split; [|done]. apply (tx_abort _ 1 2). vm_compute. reflexivity.
Qed.

Lemma transactions_isolated_witness :
  lm_holds (lock_manager_ retreated_world) 1 (mkPageKey 1 0) /\ mem_of retreated_world (mkPageKey 1 0) = inserted_page /\
  (HeapFile.Scan 1 (view_of 1 second_pool second_world)).1 = Throw (TransactionAborted 2).
Proof.
  destruct (transactions_isolated inserted_world retreated_world 1 inserted_txn_reachable others_retreat) as (H1 & H2 & _).
  split; [apply H1, first_holds|]. split; [exact (H2 _ first_holds)|exact second_scan_refused].
Defined.
