(* ===== verification/Repeatable.v ===== *)
(** * Repeatable: a transaction reads the same again

    The reads of heap files and B+ trees depend on the pages they lock and on
    nothing else. A read run again in a state that agrees with the first one
    on those pages takes the same way and gives the same answer; and by
    [Isolation], what other transactions do in between leaves exactly those
    pages alone. The triples [replays L m L'] carry two runs of an operation
    along: what is known of the pages in both. *)
From S2P Require Import Prelude Config Page LockManager DiskManager Transaction BufferPool HeapFile BTreeNode BTree LockDiscipline LogManager TransactionManager TxnSystem Isolation.

(** ** Two runs *)

Section Replay.
Context (oid : ObjectId) (t : TxnId).

Definition has (v : View) (q : PageId) : Prop := lm_holds (v_locks v) t (mkPageKey oid q).

(** A step of a read: more pages locked and cached, none changed. *)
Record silent (v v' : View) : Prop := mkSilent {
  qu_current : v_current v' = v_current v;
  qu_txns : v_txns v' = v_txns v;
  qu_page_ids : v_page_ids v' = v_page_ids v;
  qu_locks : lm_wf (v_locks v) -> lm_wf (v_locks v');
  qu_has q : has v q -> has v' q;
  qu_mem q p : mem_page (v_pool v) q = Some p -> mem_page (v_pool v') q = Some p;
  qu_cached q : is_Some (pages_ (v_pool v) !! q) -> is_Some (pages_ (v_pool v') !! q)
}.

#[global] Instance silent_preorder : PreOrder silent.
Proof. split; [intros v; by split|]. intros v1 v2 v3 [A1 A2 A7 A3 A4 A5 A6] [B1 B2 B7 B3 B4 B5 B6]. split; [congruence..|auto|auto|auto|auto]. Qed.

(** In [v2] the transaction runs with the locks it has in [v], and these pages
    read the same. *)
Record echo (v v2 : View) : Prop := mkEcho {
  ec_current : v_current v2 = Some t;
  ec_has q : has v q -> has v2 q;
  ec_mem q p : has v q -> mem_page (v_pool v) q = Some p -> mem_page (v_pool v2) q = Some p
}.

Lemma echo_silent v v2 v2' : echo v v2 -> silent v2 v2' -> echo v v2'.
Proof. intros [A1 A2 A3] [B1 B2 B7 B3 B4 B5 B6]. split; [congruence|auto|auto]. Qed.

Inductive fact := Locked (q : PageId) | Cached (q : PageId).

Definition known (v : View) (f : fact) : Prop :=
  match f with Locked q => has v q | Cached q => has v q /\ is_Some (pages_ (v_pool v) !! q) end.

Lemma known_silent v v' L : silent v v' -> Forall (known v) L -> Forall (known v') L.
Proof.
  intros [Q1 Q2 Q7 Q3 Q4 Q5 Q6] HL. eapply Forall_impl; [exact HL|]. intros [q|q]; cbn; [auto|]. intros [? ?]. auto.
Qed.

(** Every run that returns is one that later states repeat. *)
Definition replays {A} (L : list fact) (m : M View A) (L' : A -> list fact) : Prop := forall v1 a v1',
  v_current v1 = Some t -> lm_wf (v_locks v1) -> Forall (known v1) L -> m v1 = (Ret a, v1') ->
  silent v1 v1' /\ Forall (known v1') (L' a) /\
  forall ve v2, silent v1' ve -> echo ve v2 -> Forall (known v2) L ->
    exists v2', m v2 = (Ret a, v2') /\ silent v2 v2' /\ Forall (known v2') (L' a).

Lemma replays_bind {A B} L (m : M View A) (f : A -> M View B) L1 L2 :
  replays L m L1 -> (forall a, replays (L1 a ++ L) (f a) L2) -> replays L (m ≫= f) L2.
Proof.
  intros Hm Hf v1 b v1' Hc Hwf HL (a & vm & H1 & H2)%bind_inv. destruct (Hm v1 a vm Hc Hwf HL H1) as (Q1 & K1 & R1).
  destruct (Hf a vm b v1') as (Q2 & K2 & R2); [by rewrite (qu_current _ _ Q1)|by apply Q1|apply Forall_app; split; [done|by eapply known_silent]|done|].
  split; [by etrans|]. split; [done|]. intros ve v2 Hq He HL2.
  destruct (R1 ve v2) as (w2 & E1 & Q1' & K1'); [by etrans|done|done|].
  destruct (R2 ve w2) as (v2' & E2 & Q2' & K2'); [done|by eapply echo_silent|apply Forall_app; split; [done|by eapply known_silent]|].
  exists v2'. split; [by run E1|]. split; [by etrans|done].
Qed.

(** What leaves the state alone. *)
Lemma replays_pure {A} L (m : M View A) L' o :
  (forall v, m v = (o, v)) -> (forall a, o = Ret a -> L' a ⊆ L) -> replays L m L'.
Proof.
  intros Hm Hl v1 a v1' Hc Hwf HL H. rewrite Hm in H. injection H as -> <-. specialize (Hl a eq_refl).
  assert (forall v, Forall (known v) L -> Forall (known v) (L' a)) as Hk.
  { intros v. rewrite !Forall_forall. auto. }
  split; [reflexivity|]. split; [by apply Hk|]. intros ve v2 _ _ HL2. exists v2. split; [by rewrite Hm|]. split; [reflexivity|by apply Hk].
Qed.

Lemma replays_ret {A} L (a : A) L' : L' a ⊆ L -> replays L (mret a) L'.
Proof. intros H. apply (replays_pure _ _ _ (Ret a)); [done|]. by intros ? [= <-]. Qed.

Lemma replays_lift {A} L (o : outcome A) : replays L (lift o) (fun _ => []).
Proof. apply (replays_pure _ _ _ o); [done|]. intros a _ x Hx. by apply not_elem_of_nil in Hx. Qed.

Lemma replays_throw {A} L e (L' : A -> list fact) : replays L (throw e) L'.
Proof. by apply (replays_pure _ _ _ (Throw e)). Qed.

Lemma replays_LockPage L pid : replays L (LockPage oid pid kShared) (fun _ => [Locked pid]).
Proof.
  intros v1 [] v1' Hc Hwf HL H. unfold LockPage in H. rewrite Hc in H. destruct (AcquireLock _ _ _ _) as [lm'| |] eqn:E; [|done..].
  injection H as <-. destruct (AcquireLock_granted _ _ _ _ _ Hwf E) as (Hwf' & Hs & Hmono & _).
  split; [split; try done; intros q; by apply Hmono|]. split; [by repeat constructor|]. intros ve v2 Hq He _. assert (has v2 pid) as Hh by (apply (ec_has _ _ He), (qu_has _ _ Hq); exact Hs).
  exists v2. split; [|split; [reflexivity|by repeat constructor]]. unfold LockPage. rewrite (ec_current _ _ He). destruct Hh as (e & Hl & Hh). unfold AcquireLock. rewrite Hl.
  assert (set_locks (v_locks v2) v2 = v2) as Hid by (by destruct v2).
  case_bool_decide; [by rewrite Hid|]. destruct Hh as [Hh|Hh]; [done|]. rewrite bool_decide_eq_true_2, bool_decide_eq_true_2 by done. cbn [andb]. by rewrite Hid.
Qed.

(** What a fetch that returns has done. *)
Lemma FetchPage_returned pid a v v' :
  FetchPage pid v = (Ret a, v') -> a = pid /\ exists p, pages_ (v_pool v') !! pid = Some p /\ v_locks v' = v_locks v /\ silent v v'.
Proof.
  unfold FetchPage. destruct (pages_ (v_pool v) !! pid) as [p|] eqn:Ep; [intros [= <- <-]; split; [done|]; exists p; by split_and!|].
  unfold on_disk, ReadPage, mbind, M_bind. cbn. destruct (_ <=? _) eqn:En; [done|]. destruct (file _ !! _) as [p|] eqn:Ef; [|done]. cbn.
  intros [= <- <-]. split; [done|]. exists p. split; [apply lookup_insert_eq|]. split; [done|]. split; try done.
  - intros q p'. unfold mem_page. cbn. destruct (decide (q = pid)) as [->|]; [|by rewrite lookup_insert_ne].
    rewrite lookup_insert_eq, Ep. unfold disk_page. case_bool_decide; [|done]. congruence.
  - intros q Hq. cbn. rewrite lookup_insert_is_Some. destruct (decide (pid = q)); auto.
Qed.

(** A page in memory or in the file can be fetched. *)
Lemma FetchPage_returns pid p v : mem_page (v_pool v) pid = Some p -> exists v', FetchPage pid v = (Ret pid, v').
Proof.
  unfold FetchPage, mem_page. destruct (pages_ (v_pool v) !! pid); [eauto|]. unfold disk_page. case_bool_decide as Hb; [|done]. intros Hf.
  unfold on_disk, ReadPage, mbind, M_bind. cbn. destruct (Z.leb_spec (next_page_id_ (disk_manager_ (v_pool v))) pid); [lia|]. rewrite Hf. cbn. eauto.
Qed.

Lemma replays_FetchPage L pid : Locked pid ∈ L -> replays L (FetchPage pid) (fun a => [Cached a]).
Proof.
  intros Hin v1 a v1' Hc Hwf HL H. destruct (FetchPage_returned _ _ _ _ H) as (-> & p & Hp & Hlk & Hq).
  rewrite Forall_forall in HL. pose proof (HL _ Hin) as Hh. cbn in Hh. split; [done|]. split; [apply Forall_singleton; split; [exact (qu_has _ _ Hq _ Hh)|eauto]|].
  intros ve v2 Hqe He HL2. assert (mem_page (v_pool v1') pid = Some p) as Hm by (unfold mem_page; by rewrite Hp).
  destruct (FetchPage_returns pid p v2) as [v2' H2]; [apply (ec_mem _ _ He); [exact (qu_has _ _ Hqe _ (qu_has _ _ Hq _ Hh))|by apply (qu_mem _ _ Hqe)]|].
  exists v2'. split; [done|]. destruct (FetchPage_returned _ _ _ _ H2) as (_ & p2 & Hp2 & _ & Hq2). split; [done|].
  rewrite Forall_forall in HL2. apply Forall_singleton. split; [exact (qu_has _ _ Hq2 _ (HL2 _ Hin))|eauto].
Qed.

Lemma replays_on_page {A} L ptr (m : M Page A) : Cached ptr ∈ L -> (forall p, (m p).2 = p) -> replays L (on_page ptr m) (fun _ => []).
Proof.
  intros Hin Hm v1 a v1' Hc Hwf HL H. rewrite Forall_forall in HL. destruct (HL _ Hin) as [Hh _]. unfold on_page in *.
  assert (forall v p, pages_ (v_pool v) !! ptr = Some p -> upd_pool (fun bp => set_pages (<[ptr := p]> (pages_ bp)) bp) v = v) as Hid.
  { intros [[] ? ? ? ? ?] p Hp. unfold upd_pool, set_pages. cbn in *. by rewrite insert_id. }
  destruct (pages_ (v_pool v1) !! ptr) as [p|] eqn:Ep; [|done]. specialize (Hm p). destruct (m p) as [r p'] eqn:Em. cbn in Hm. subst p'.
  rewrite Hid in H by done. injection H as -> <-. split; [reflexivity|]. split; [constructor|]. intros ve v2 Hq He HL2.
  rewrite Forall_forall in HL2. destruct (HL2 _ Hin) as [_ [p2 Hp2]]. assert (p2 = p) as ->.
  { assert (mem_page (v_pool v2) ptr = Some p) as Hm2 by (apply (ec_mem _ _ He); [exact (qu_has _ _ Hq _ Hh)|apply (qu_mem _ _ Hq); unfold mem_page; by rewrite Ep]).
    unfold mem_page in Hm2. rewrite Hp2 in Hm2. congruence. }
  exists v2. split; [|split; [reflexivity|constructor]]. by rewrite Hp2, Em, Hid.
Qed.

Lemma replays_keep {A} L (m : M View A) L' : replays L m L' -> replays L m (fun a => L' a ++ L).
Proof.
  intros Hm v1 a v1' Hc Hwf HL H. destruct (Hm v1 a v1' Hc Hwf HL H) as (Q & K & R). split; [done|].
  split; [apply Forall_app; split; [done|by eapply known_silent]|]. intros ve v2 Hq He HL2. destruct (R ve v2 Hq He HL2) as (v2' & E & Q2 & K2).
  exists v2'. split; [done|]. split; [done|]. apply Forall_app. split; [done|by eapply known_silent].
Qed.

Lemma replays_less {A} L (m : M View A) L1 L2 : replays L m L1 -> (forall a, L2 a ⊆ L1 a) -> replays L m L2.
Proof.
  intros Hm Hs. assert (forall v a, Forall (known v) (L1 a) -> Forall (known v) (L2 a)) as Hk by (intros v a; rewrite !Forall_forall; intros H x Hx; by apply H, Hs).
  intros v1 a v1' Hc Hwf HL H. destruct (Hm v1 a v1' Hc Hwf HL H) as (Q & K & R). split; [done|].
  split; [by apply Hk|]. intros ve v2 Hq He HL2. destruct (R ve v2 Hq He HL2) as (v2' & E & Q2 & K2). exists v2'. split; [done|]. split; [done|by apply Hk].
Qed.

(** ** Loops *)

Lemma replays_fold_m {A B} L (body : B -> A -> M View B) (f : A -> list fact) acc l :
  (forall L1 b a, L ⊆ L1 -> replays L1 (body b a) (fun _ => f a)) -> replays L (fold_m body acc l) (fun _ => concat (f <$> l)).
Proof.
  intros Hb. assert (forall L1 acc, L ⊆ L1 -> replays L1 (fold_m body acc l) (fun _ => concat (f <$> l))) as H; [|by apply H].
  induction l as [|a l IH]; intros L1 acc0 HL; cbn [fold_m fmap list_fmap concat]; [apply replays_ret, list_subseteq_nil|].
  eapply replays_bind; [by apply Hb|]. intros b. eapply replays_less; [apply replays_keep, (IH (f a ++ L1)); set_solver|]. cbn. set_solver.
Qed.

Lemma replays_find_m {A B} L (body : A -> M View (option B)) (f : A -> list fact) l :
  (forall L1 a, L ⊆ L1 -> replays L1 (body a) (fun _ => f a)) ->
  replays L (find_m body l) (fun r => match r with Some _ => [] | None => concat (f <$> l) end).
Proof.
  intros Hb. assert (forall L1, L ⊆ L1 -> replays L1 (find_m body l) (fun r => match r with Some _ => [] | None => concat (f <$> l) end)) as H; [|by apply H].
  induction l as [|a l IH]; intros L1 HL; cbn [find_m fmap list_fmap concat]; [apply replays_ret, list_subseteq_nil|].
  eapply replays_bind; [by apply Hb|]. intros [b|]; [apply replays_ret, list_subseteq_nil|].
  eapply replays_less; [apply replays_keep, (IH (f a ++ L1)); set_solver|]. intros [?|]; set_solver.
Qed.

(** ** The reads *)

Lemma replays_tail {A} L (m : M View A) L1 L2 : replays L m L1 -> (forall a, L2 a ⊆ L1 a ++ L) -> replays L m L2.
Proof. intros Hm. by apply replays_less, replays_keep. Qed.

(** One step after the other. *)
Ltac reading_one := first
  [ apply replays_LockPage | apply replays_lift | apply replays_FetchPage; set_solver | apply replays_on_page; [set_solver|intros ?; try done; unfold IsDeleted, GetRecord; by repeat case_match] ].
Ltac reading := repeat first
  [ apply replays_throw
  | apply replays_ret; set_solver
  | eapply replays_bind; [reading_one|intros ?; cbn [app]]
  | case_match ].

Lemma replays_scan_slot L pid page out s : Cached page ∈ L -> replays L (HeapFile.scan_slot pid page out s) (fun _ => []).
Proof. intros H. unfold HeapFile.scan_slot. reading. Qed.

Lemma replays_scan_page L out pid : replays L (HeapFile.scan_page oid out pid) (fun _ => [Locked pid]).
Proof.
  unfold HeapFile.scan_page. reading. eapply replays_tail.
  - apply (replays_fold_m _ _ (fun _ => [])). intros L1 b s HL. apply replays_scan_slot. set_solver.
  - set_solver.
Qed.

Lemma replays_find_slot L pred pid page s : Cached page ∈ L -> replays L (HeapFile.find_slot pred pid page s) (fun _ => []).
Proof. intros H. unfold HeapFile.find_slot. reading. Qed.

Lemma replays_find_page L pred pid : replays L (HeapFile.find_page oid pred pid) (fun _ => [Locked pid]).
Proof.
  unfold HeapFile.find_page. reading. eapply replays_tail.
  - apply (replays_find_m _ _ (fun _ => [])). intros L1 s HL. apply replays_find_slot. set_solver.
  - set_solver.
Qed.

(** The rest of a heap read, once the page list is known. *)
Lemma replays_scan_pages L ids : replays L (fold_m (HeapFile.scan_page oid) [] ids) (fun _ => concat ((fun q => [Locked q]) <$> ids)).
Proof. apply replays_fold_m. intros. apply replays_scan_page. Qed.

Lemma replays_find_pages L pred ids :
  replays L (find_m (HeapFile.find_page oid pred) ids) (fun r => match r with Some _ => [] | None => concat ((fun q => [Locked q]) <$> ids) end).
Proof. apply replays_find_m. intros. apply replays_find_page. Qed.

Definition get_slot (rid : RID) : M View (option bytes) :=
  LockPage oid (page_id rid) kShared;;
  page ← FetchPage (page_id rid);
  n ← on_page page (gets GetSlotCount);
  if n <=? slot_id rid then mret None else
  del ← on_page page (IsDeleted (slot_id rid));
  if del : bool then mret None else
  row ← on_page page (GetRecord (slot_id rid));
  mret (Some row).

Lemma replays_get_slot L rid : replays L (get_slot rid) (fun _ => []).
Proof. unfold get_slot. reading. Qed.

Lemma replays_open_shared L pid : replays L (BTree.open_shared oid pid) (fun _ => []).
Proof. unfold BTree.open_shared, BTree.data_of. reading. reading_one. Qed.

Lemma replays_GetRootPageId L : Locked BTreeNode.kRootHeaderPageId ∈ L -> replays L BTree.GetRootPageId (fun _ => []).
Proof. intros H. unfold BTree.GetRootPageId, BTree.data_of. reading. Qed.

Ltac walking := repeat lazymatch goal with
  | |- replays _ (throw _) _ => apply replays_throw
  | |- replays _ (mret _) _ => apply replays_ret; set_solver
  | |- replays _ (_ ≫= _) _ =>
      eapply replays_bind; [first [apply replays_open_shared|apply replays_GetRootPageId; set_solver|reading_one]|intros ?; cbn [app]]
  | |- replays _ (if _ then _ else _) _ => case_match
  | IH : forall _, _ |- _ => solve [apply IH]
  end.

Lemma replays_height_loop fuel : forall L h buf, replays L (BTree.height_loop oid fuel h buf) (fun _ => []).
Proof. induction fuel as [|fuel IH]; intros L h buf; cbn [BTree.height_loop]; walking. Qed.

Lemma replays_search_loop fuel key : forall L cur, replays L (BTree.search_loop oid fuel key cur) (fun _ => []).
Proof. induction fuel as [|fuel IH]; intros L cur; cbn [BTree.search_loop]; walking. Qed.

Lemma replays_leftmost_loop fuel : forall L buf, replays L (BTree.leftmost_loop oid fuel buf) (fun _ => []).
Proof. induction fuel as [|fuel IH]; intros L buf; cbn [BTree.leftmost_loop]; walking. Qed.

Lemma replays_chain_loop fuel : forall L buf out, replays L (BTree.chain_loop oid fuel buf out) (fun _ => []).
Proof. induction fuel as [|fuel IH]; intros L buf out; cbn [BTree.chain_loop]; walking. Qed.

Lemma replays_Height L : replays L (BTree.Height oid) (fun _ => []).
Proof. unfold BTree.Height, BTree.LockRoot. walking. apply replays_height_loop. Qed.

Lemma replays_Search L key : replays L (BTree.Search oid key) (fun _ => []).
Proof. unfold BTree.Search, BTree.LockRoot. walking. apply replays_search_loop. Qed.

Lemma replays_RangeScanAll L : replays L (BTree.RangeScanAll oid) (fun _ => []).
Proof.
  unfold BTree.RangeScanAll, BTree.LockRoot. walking. eapply replays_bind; [apply replays_leftmost_loop|]. intros buf. apply replays_chain_loop.
Qed.

End Replay.

(** ** What others do in between *)

Lemma replay_between th t oid o w {A} (m : M View A) L a v w2 :
  two_phase w -> two_phase (put_view oid v w) -> current_txn w !! th = Some t -> buffer_pools_ w !! oid = Some o ->
  replays oid t [] m L -> m (view_of th o w) = (Ret a, v) -> steps (others_step t) (put_view oid v w) w2 ->
  current_txn w2 !! th = Some t /\ exists o2 : BufferPool * list PageId, buffer_pools_ w2 !! oid = Some o2 /\ o.2 `prefix_of` o2.2 /\
    (forall l, last o.2 = Some l -> Locked l ∈ L a -> o2.2 = o.2) /\ exists v2, m (view_of th o2 w2) = (Ret a, v2).
Proof.
  intros Hp Hp1 Hc Ho Hm E Hs. destruct (others_steps t _ _ Hp1 Hs) as [_ [U1 U2 U3 U4]].
  destruct (Hm (view_of th o w) a v) as (Q & K & R); [done|apply Hp|constructor|done|]. rewrite Forall_forall in K.
  assert (ids_of (put_view oid v w) !! oid = Some o.2) as Hi.
  { rewrite ids_of_lookup. cbn. rewrite lookup_insert_eq. cbn. by rewrite (qu_page_ids _ _ _ _ Q). }
  destruct (U3 _ _ Hi) as (ids2 & Hi2 & Hpre & Hlast). rewrite ids_of_lookup, fmap_Some in Hi2. destruct Hi2 as (o2 & Ho2 & ->).
  split; [by apply U4|]. exists o2. split; [done|]. split; [done|]. split.
  - intros l Hl Hk. apply (Hlast l Hl). exact (K _ Hk).
  - destruct (R v (view_of th o2 w2)) as (v2 & E2 & _); [reflexivity| |constructor|by exists v2].
    split; cbn; [by apply U4|intros q Hq; by apply U1|]. intros q p Hq Hmem. specialize (U2 (mkPageKey oid q) Hq).
    unfold mem_of in U2. cbn in U2. rewrite lookup_insert_eq, Ho2 in U2. cbn in U2. by rewrite U2.
Qed.

(** The reads whose answer their locks protect, over the pages [ids] of the
    object, with that answer. *)
Inductive covering_read (oid : ObjectId) (ids : list PageId) : forall A : Type, M View A -> A -> Prop :=
| cover_scan rows : ids <> [] -> covering_read oid ids _ (HeapFile.Scan oid) rows
| cover_find_none pred : ids <> [] -> covering_read oid ids _ (HeapFile.Find oid pred) None
| cover_find_some pred rid : covering_read oid ids _ (HeapFile.Find oid pred) (Some rid)
| cover_get_row rid row : page_id rid ∈ ids -> covering_read oid ids _ (HeapFile.GetRow oid rid) row
| cover_search key rids : covering_read oid ids _ (BTree.Search oid key) rids
| cover_height h : covering_read oid ids _ (BTree.Height oid) h
| cover_range_scan entries : covering_read oid ids _ (BTree.RangeScanAll oid) entries.

Lemma covering_call oid ids A m a : covering_read oid ids A m a -> storage_call oid A 0 m.
Proof. destruct 1; constructor. Qed.

Lemma last_locked (ids : list PageId) l : last ids = Some l -> Locked l ∈ concat ((fun q => [Locked q]) <$> ids).
Proof. intros (l' & ->)%last_Some. rewrite fmap_app, concat_app. apply elem_of_app. right. by left. Qed.

Lemma find_m_found {W A B} (body : A -> M W (option B)) l1 l2 b w w' :
  find_m body l1 w = (Ret (Some b), w') -> find_m body (l1 ++ l2) w = (Ret (Some b), w').
Proof.
  revert w. induction l1 as [|x l1 IH]; intros w; cbn [find_m app]; [done|]. intros (r & w1 & H1 & H2)%bind_inv. run H1.
  destruct r; [done|]. by apply IH.
Qed.

(** Read once more on the page list as it is then. *)
Lemma covering_again oid t ids A m a : covering_read oid ids A m a ->
  exists L (m' : M View A), replays oid t [] m' L /\ (forall v, v_page_ids v = ids -> m v = m' v) /\
    forall v v', ids `prefix_of` v_page_ids v -> ((forall l, last ids = Some l -> Locked l ∈ L a -> v_page_ids v = ids)) ->
      m' v = (Ret a, v') -> m v = (Ret a, v').
Proof.
  intros Hc. destruct Hc as [rows Hne|pred Hne|pred rid|rid row Hin|key rids|h|entries].
  - exists (fun _ => concat ((fun q => [Locked q]) <$> ids)), (fold_m (HeapFile.scan_page oid) [] ids). split; [apply replays_scan_pages|].
    split; [by intros v <-|]. intros v v' _ Hl E. rewrite <- E. destruct (last ids) as [l|] eqn:El; [|by apply last_None in El].
    rewrite <- (Hl l) at 1; [done|done|by apply last_locked].
  - exists (fun r => match r with Some _ => [] | None => concat ((fun q => [Locked q]) <$> ids) end), (find_m (HeapFile.find_page oid pred) ids).
    split; [apply replays_find_pages|]. split; [by intros v <-|]. intros v v' _ Hl E. rewrite <- E. destruct (last ids) as [l|] eqn:El; [|by apply last_None in El].
    rewrite <- (Hl l) at 1; [done|done|by apply last_locked].
  - exists (fun _ => []), (find_m (HeapFile.find_page oid pred) ids). split; [eapply replays_less; [apply replays_find_pages|intros ?; apply list_subseteq_nil]|].
    split; [by intros v <-|]. intros v v' [more Hm] _ E. unfold HeapFile.Find. rewrite (bind_ret _ _ _ _ _ (gets_run _ v)), Hm. by apply find_m_found.
  - exists (fun _ => []), (get_slot oid rid). split; [apply replays_get_slot|].
    assert (forall v, ids `prefix_of` v_page_ids v -> HeapFile.GetRow oid rid v = get_slot oid rid v) as Hg.
    { intros v [more Hm]. unfold HeapFile.GetRow. rewrite (bind_ret _ _ _ _ _ (gets_run _ v)), Hm, bool_decide_eq_true_2; [done|]. apply elem_of_app. by left. }
    split; [intros v <-; by apply Hg|]. intros v v' Hp _ E. by rewrite Hg.
  - exists (fun _ => []), (BTree.Search oid key). split; [apply replays_Search|done].
  - exists (fun _ => []), (BTree.Height oid). split; [apply replays_Height|done].
  - exists (fun _ => []), (BTree.RangeScanAll oid). split; [apply replays_RangeScanAll|done].
Qed.

(** C8: reads are repeatable, and full scans see no phantoms. Thread [th] reads
    in its transaction [t]: it scans a heap file that has a page, looks for a
    row and finds none, finds one, fetches one by its id, or searches, measures
    or range-scans a B+ tree. Whatever other threads do after that (begin
    transactions, read and write any objects in them, commit, abort, wait for
    locks, throw), as long as [t] makes no step: the same read returns, takes
    no error path, and gives the same answer. *)
Theorem reads_repeatable (th : ThreadId) (t : TxnId) (oid : ObjectId) (o : BufferPool * list PageId) (w w2 : World)
    (A : Type) (m : M View A) (a : A) (v : View) :
  txn_reachable w -> current_txn w !! th = Some t -> buffer_pools_ w !! oid = Some o ->
  next_page_id_ (disk_manager_ o.1) < 2 ^ 32 ->
  (forall h pid, h <> t -> lm_holds (lock_manager_ w) h (mkPageKey oid pid) -> 0 <= pid < next_page_id_ (disk_manager_ o.1)) ->
  covering_read oid o.2 A m a -> m (view_of th o w) = (Ret a, v) -> steps (others_step t) (put_view oid v w) w2 ->
  current_txn w2 !! th = Some t /\ exists o2 v2, buffer_pools_ w2 !! oid = Some o2 /\ m (view_of th o2 w2) = (Ret a, v2).
Proof.
  intros Hr Hc Ho Hroom Halloc Hm E Hs. pose proof (txn_reachable_two_phase _ Hr) as Hp. destruct (covering_again oid t _ _ _ _ Hm) as (L & m' & Hrep & Hsame & Hback).
  assert (m' (view_of th o w) = (Ret a, v)) as E' by (by rewrite <- Hsame).
  destruct (Hrep (view_of th o w) a v) as (Q & _ & _); [done|apply Hp|constructor|done|].
  destruct (call_step th t w (put_view oid v w) Hp) as [Hp1 _].
  { split; [done|]. exists oid, o, A, 0, m, (Ret a), v. split_and!; [done|by eapply covering_call|done|done|lia|done|].
    intros k. rewrite (qu_txns _ _ _ _ Q). by apply tp_unsigned. }
  destruct (replay_between th t oid o w m' L a v w2 Hp Hp1 Hc Ho Hrep E' Hs) as (Hc2 & o2 & Ho2 & Hpre & Hlast & v2 & E2).
  split; [done|]. exists o2, v2. split; [done|]. by apply Hback.
Qed.

(** *** Two threads: a scan, another thread's scan and insert, and the scan again *)

Definition object_of (w : World) : BufferPool * list PageId := default (empty_pool, []) (buffer_pools_ w !! 1).
Definition begins (th : ThreadId) (w : World) : World := (Begin th w).2.
Definition commits (th : ThreadId) (t : TxnId) (w : World) : World := (Commit th true t w).2.

(** Thread [th] makes one call on object 1. *)
Definition called {A} (th : ThreadId) (m : M View A) (w : World) : World := put_view 1 (m (view_of th (object_of w) w)).2 w.

Lemma called_step th t n A (m : M View A) w :
  storage_call 1 A n m -> current_txn w !! th = Some t -> buffer_pools_ w !! 1 = Some (object_of w) ->
  next_page_id_ (disk_manager_ (object_of w).1) + n < 2 ^ 32 ->
  map_Forall (fun k (_ : LockEntry) => 0 <= key_page k < next_page_id_ (disk_manager_ (object_of w).1)) (locks_ (lock_manager_ w)) ->
  set_Forall (fun k => 0 <= key_page k) (DirtiedPages t (v_txns (m (view_of th (object_of w) w)).2)) ->
  txn_step w (Some t) (called th m w).
Proof.
  intros Hm Hc Ho Hroom Hlocks Hk. apply (tx_call _ th). split; [done|]. exists 1, (object_of w), A, n, m, (m (view_of th (object_of w) w)).1, (m (view_of th (object_of w) w)).2.
  split_and!; [done|done|apply surjective_pairing|done|done| |exact Hk]. intros h pid _. by apply locks_below.
Qed.

(** The premises at a concrete world. *)
Ltac at_world := first [by vm_compute|vm_compute; reflexivity|apply (bool_decide_unpack _); vm_compute; exact I].

Definition reader_world : World := begins 0 (commits 0 1 inserted_world).
Definition scanned_world : World := called 0 (HeapFile.Scan 1) reader_world.
Definition joined_world : World := called 1 (HeapFile.Scan 1) (begins 1 scanned_world).
Definition refused_insert_world : World := called 1 (HeapFile.Insert 1 [x62]) joined_world.

Lemma reader_txn_reachable : txn_reachable reader_world.
Proof.
  eapply steps_snoc; [eapply steps_snoc; [apply inserted_txn_reachable|]|].
  - exists (Some 1). apply (tx_commit _ 0 true). at_world.
  - exists (Some 2). apply (tx_begin _ 0); at_world.
Qed.

Lemma others_join : steps (others_step 2) scanned_world refused_insert_world.
Proof.
  eapply steps_snoc; [eapply steps_snoc; [apply steps_one|]|].
  - exists (Some 3). split; [apply (tx_begin _ 1 3 (begins 1 scanned_world)); at_world|done].
  - exists (Some 3). split; [apply (called_step 1 3 0 _ (HeapFile.Scan 1)); [apply call_scan|at_world..]|done].
  - exists (Some 3). split; [apply (called_step 1 3 1 _ (HeapFile.Insert 1 [x62])); [apply call_insert|at_world..]|done].
Qed.

Lemma reads_repeatable_witness :
  (HeapFile.Insert 1 [x62] (view_of 1 (object_of joined_world) joined_world)).1 = Throw (TransactionAborted 3) /\
  exists o2 v2, buffer_pools_ refused_insert_world !! 1 = Some o2 /\ HeapFile.Scan 1 (view_of 0 o2 refused_insert_world) = (Ret [(mkRID 0 0, [x61])], v2).
Proof.
  split; [vm_compute; reflexivity|].
  destruct (reads_repeatable 0 2 1 (object_of reader_world) reader_world refused_insert_world _ (HeapFile.Scan 1) [(mkRID 0 0, [x61])] (HeapFile.Scan 1 (view_of 0 (object_of reader_world) reader_world)).2) as [_ H].
  - exact reader_txn_reachable.
  - vm_compute. reflexivity.
  - vm_compute. reflexivity.
  - by vm_compute.
  - intros h pid _. apply (locks_below _ (next_page_id_ (disk_manager_ (object_of reader_world).1))). apply (bool_decide_unpack _). vm_compute. exact I.
  - apply cover_scan. by vm_compute.
  - vm_compute. reflexivity.
  - exact others_join.
  - exact H.
Defined.

(** *** The gap: a heap file without a page has nothing to lock *)

Definition empty_scanned_world : World := called 0 (HeapFile.Scan 1) begun_world.
Definition phantom_world : World := commits 1 2 (called 1 (HeapFile.Insert 1 [x62]) (begins 1 empty_scanned_world)).

Lemma others_insert : steps (others_step 1) empty_scanned_world phantom_world.
Proof.
  eapply steps_snoc; [eapply steps_snoc; [apply steps_one|]|].
  - exists (Some 2). split; [apply (tx_begin _ 1 2 (begins 1 empty_scanned_world)); at_world|done].
  - exists (Some 2). split; [apply (called_step 1 2 1 _ (HeapFile.Insert 1 [x62])); [apply call_insert|at_world..]|done].
  - exists (Some 2). split; [apply (tx_commit _ 1 true); at_world|done].
Qed.

(** A transaction that has scanned the empty file sees another's row, inserted
    and committed in between, when it scans again. *)
Lemma empty_scan_phantom :
  (HeapFile.Scan 1 (view_of 0 (object_of begun_world) begun_world)).1 = Ret [] /\
  steps (others_step 1) empty_scanned_world phantom_world /\
  (HeapFile.Scan 1 (view_of 0 (object_of phantom_world) phantom_world)).1 = Ret [(mkRID 0 0, [x62])].
Proof. split; [vm_compute; reflexivity|]. split; [exact others_insert|vm_compute; reflexivity]. Qed.
