(* ===== verification/Text.v ===== *)
(** * Text: the parts of the C++ string and stream libraries the SQL layer uses

    A [std::string] is a list of bytes; [str] reads a literal. Character
    classes are those of the "C" locale. [extract_word] and
    [extract_unsigned] are [operator>>] on an input stream in its default
    state, for a string and for an unsigned integer of a given width. *)
From S2P Require Import Prelude.
From stdpp Require Export strings.

#[global] Open Scope Z_scope.

Definition str (s : string) : bytes := String.list_byte_of_string s.
Arguments str _%_string_scope.

(** ** Character classes *)

Definition isspace (b : byte) : bool :=
  let c := Z_of_byte b in (c =? 32) || ((9 <=? c) && (c <=? 13)).
Definition isdigit (b : byte) : bool := let c := Z_of_byte b in (48 <=? c) && (c <=? 57).
Definition isupper (b : byte) : bool := let c := Z_of_byte b in (65 <=? c) && (c <=? 90).
Definition islower (b : byte) : bool := let c := Z_of_byte b in (97 <=? c) && (c <=? 122).
Definition isalpha (b : byte) : bool := isupper b || islower b.
Definition isalnum (b : byte) : bool := isalpha b || isdigit b.
Definition toupper (b : byte) : byte := if islower b then byte_of_Z (Z_of_byte b - 32) else b.

(** ** Words *)

(** The longest prefix of characters of a class, and the rest. *)
Fixpoint span (p : byte -> bool) (s : bytes) : bytes * bytes :=
  match s with
  | [] => ([], [])
  | c :: s' => if p c then let '(a, b) := span p s' in (c :: a, b) else ([], s)
  end.

Definition skip_space (s : bytes) : bytes := (span isspace s).2.

Definition extract_word (s : bytes) : option (bytes * bytes) :=
  let '(w, rest) := span (fun c => negb (isspace c)) (skip_space s) in
  match w with [] => None | _ => Some (w, rest) end.

(** ** Decimal numbers *)

Definition digit_char (d : Z) : byte := byte_of_Z (48 + d).
Definition digit_value (b : byte) : Z := Z_of_byte b - 48.

Fixpoint decimal_digits (fuel : nat) (n : Z) : bytes :=
  match fuel with
  | O => []
  | S fuel' => (if n <? 10 then [] else decimal_digits fuel' (n / 10)) ++ [digit_char (n mod 10)]
  end.

(** [std::to_string] and [operator<<] of an unsigned integer. *)
Definition decimal (n : Z) : bytes := decimal_digits (Z.to_nat (Z.log2 n) + 1) n.

(** The value of a string of digits. *)
Definition digits_value (s : bytes) : Z := foldl (fun v d => 10 * v + digit_value d) 0 s.

(** An optional sign in front of digits: whether it is a minus. *)
Definition sign (s : bytes) : bool * bytes :=
  match s with
  | "-"%byte :: s' => (true, s')
  | "+"%byte :: s' => (false, s')
  | _ => (false, s)
  end.

(** A number in the input: whether it is negated, its magnitude, the rest. *)
Definition extract_number (s : bytes) : option (bool * Z * bytes) :=
  let '(neg, s1) := sign (skip_space s) in
  let '(ds, rest) := span isdigit s1 in
  match ds with
  | [] => None
  | _ => Some (neg, digits_value ds, rest)
  end.

(** [operator>>] into an unsigned integer of [w] bits: a minus sign negates
    modulo [2 ^ w], a magnitude that does not fit fails. *)
Definition extract_unsigned (w : Z) (s : bytes) : option (Z * bytes) :=
  '(neg, v, rest) ← extract_number s;
  if 2 ^ w <=? v then None else Some (if neg : bool then (- v) mod 2 ^ w else v, rest).

(** The same into a signed integer of [w] bits. *)
Definition extract_signed (w : Z) (s : bytes) : option (Z * bytes) :=
  '(neg, v, rest) ← extract_number s;
  let x := if neg : bool then - v else v in
  if (- 2 ^ (w - 1) <=? x) && (x <? 2 ^ (w - 1)) then Some (x, rest) else None.

(** ** Lemmas *)

Definition word (w : bytes) : Prop := w <> [] /\ Forall (fun c => isspace c = false) w.

#[global] Instance word_dec w : Decision (word w).
Proof. unfold word. apply _. Defined.

Lemma span_app p w c s : Forall (fun x => p x = true) w -> p c = false -> span p (w ++ c :: s) = (w, c :: s).
Proof.
  intros Hw Hc. induction Hw as [|x w Hx Hw IH]; cbn; [by rewrite Hc|]. by rewrite Hx, IH.
Qed.

Lemma span_all p w : Forall (fun x => p x = true) w -> span p w = (w, []).
Proof. intros Hw. induction Hw as [|x w Hx Hw IH]; cbn; [done|]. by rewrite Hx, IH. Qed.

Lemma span_eq p s : s = (span p s).1 ++ (span p s).2.
Proof. induction s as [|c s IH]; cbn; [done|]. destruct (p c); [|done]. destruct (span p s). cbn in *. by f_equal. Qed.

Lemma span_fst_all p s : Forall (fun x => p x = true) (span p s).1.
Proof.
  induction s as [|c s IH]; cbn; [constructor|]. destruct (p c) eqn:E; [|constructor].
  destruct (span p s). cbn in *. by constructor.
Qed.

Lemma span_snd_head p s c s' : (span p s).2 = c :: s' -> p c = false.
Proof.
  induction s as [|x s IH]; cbn; [done|]. destruct (p x) eqn:E.
  - destruct (span p s). exact IH.
  - by intros [= -> ->].
Qed.

Lemma length_span p s : (length (span p s).1 + length (span p s).2 = length s)%nat.
Proof. rewrite <- length_app. by rewrite <- span_eq. Qed.

Lemma skip_space_cons c s : isspace c = true -> skip_space (c :: s) = skip_space s.
Proof. intros H. unfold skip_space. cbn. rewrite H. by destruct (span isspace s). Qed.

Lemma skip_space_app ws s : Forall (fun c => isspace c = true) ws -> skip_space (ws ++ s) = skip_space s.
Proof. induction 1 as [|c ws Hc Hws IH]; [done|]. cbn [app]. by rewrite skip_space_cons. Qed.

Lemma skip_space_word w s : word w -> skip_space (w ++ s) = w ++ s.
Proof. intros [Hne Hw]. destruct w as [|c w]; [done|]. apply Forall_cons in Hw as [Hc _]. unfold skip_space. cbn. by rewrite Hc. Qed.

Lemma extract_word_run ws w c s :
  Forall (fun x => isspace x = true) ws -> word w -> isspace c = true ->
  extract_word (ws ++ w ++ c :: s) = Some (w, c :: s).
Proof.
  intros Hws Hw Hc. unfold extract_word. rewrite skip_space_app by done.
  change (w ++ c :: s) with (w ++ ([c] ++ s)). rewrite skip_space_word by done. cbn [app].
  rewrite span_app; [|destruct Hw as [_ Hw]; eapply Forall_impl; [exact Hw|]; intros x Hx; cbn; by rewrite Hx|by rewrite Hc].
  by destruct w, Hw.
Qed.

(** *** Decimal numbers *)

Lemma digit_char_value d : 0 <= d < 10 -> digit_value (digit_char d) = d.
Proof. intros H. unfold digit_value, digit_char. rewrite Z_of_byte_of_Z, Z.mod_small; lia. Qed.

Lemma digit_char_digit d : 0 <= d < 10 -> isdigit (digit_char d) = true.
Proof. intros H. unfold isdigit, digit_char. rewrite Z_of_byte_of_Z, Z.mod_small by lia. apply andb_true_iff. split; lia. Qed.

Lemma digits_value_snoc s d : digits_value (s ++ [d]) = 10 * digits_value s + digit_value d.
Proof. unfold digits_value. by rewrite foldl_app. Qed.

Lemma decimal_digits_ok fuel n :
  0 <= n < 2 ^ Z.of_nat fuel ->
  digits_value (decimal_digits fuel n) = n /\ Forall (fun c => isdigit c = true) (decimal_digits fuel n).
Proof.
  revert n. induction fuel as [|fuel IH]; intros n Hn; cbn [decimal_digits].
  - assert (n = 0) as -> by (cbn in Hn; lia). done.
  - pose proof (Z.mod_pos_bound n 10 ltac:(lia)) as Hm. rewrite digits_value_snoc, digit_char_value by done.
    assert (Forall (fun c => isdigit c = true) [digit_char (n mod 10)]) as Hd by (by apply Forall_singleton, digit_char_digit).
    destruct (Z.ltb_spec n 10) as [Hlt|Hge].
    + split; [|exact Hd]. cbn. rewrite Z.mod_small; lia.
    + rewrite Nat2Z.inj_succ, Z.pow_succ_r in Hn by lia.
      destruct (IH (n / 10)) as [IH1 IH2]; [split; [apply Z.div_pos; lia|apply Z.div_lt_upper_bound; lia]|].
      rewrite IH1. split; [|by apply Forall_app]. pose proof (Z.div_mod n 10 ltac:(lia)). lia.
Qed.

Lemma decimal_digits_ne fuel n : decimal_digits (S fuel) n <> [].
Proof. cbn [decimal_digits]. intros H. by apply app_nil in H as [_ H]. Qed.

Lemma decimal_ok n : 0 <= n -> digits_value (decimal n) = n /\ Forall (fun c => isdigit c = true) (decimal n) /\ decimal n <> [].
Proof.
  intros Hn. unfold decimal. rewrite Nat.add_1_r. split_and!; [| |apply decimal_digits_ne]; apply decimal_digits_ok; (split; [done|]);
    rewrite Nat2Z.inj_succ, Z2Nat.id by (apply Z.log2_nonneg);
    (destruct (decide (n = 0)) as [->|]; [done|apply Z.log2_spec; lia]).
Qed.

Lemma digit_not_space c : isdigit c = true -> isspace c = false.
Proof.
  unfold isdigit, isspace. intros [? ?]%andb_true_iff. apply orb_false_iff. split; [lia|].
  rewrite (proj2 (Z.leb_gt (Z_of_byte c) 13)) by lia. apply andb_false_r.
Qed.

Lemma digit_not_sign c s : isdigit c = true -> sign (c :: s) = (false, c :: s).
Proof. intros H. destruct c; try done; by vm_compute in H. Qed.

Lemma decimal_word n : 0 <= n -> word (decimal n).
Proof.
  intros H. destruct (decimal_ok n H) as (_ & Hd & Hne). split; [done|]. eapply Forall_impl; [exact Hd|]. apply digit_not_space.
Qed.

Lemma extract_number_run ws n c s :
  Forall (fun x => isspace x = true) ws -> 0 <= n -> isdigit c = false ->
  extract_number (ws ++ decimal n ++ c :: s) = Some (false, n, c :: s).
Proof.
  intros Hws Hn Hc. unfold extract_number. rewrite skip_space_app by done.
  change (decimal n ++ c :: s) with (decimal n ++ ([c] ++ s)). rewrite skip_space_word by (by apply decimal_word).
  destruct (decimal_ok n) as (Hv & Hd & Hne); [lia|]. cbn [app].
  assert (sign (decimal n ++ c :: s) = (false, decimal n ++ c :: s)) as ->.
  { destruct (decimal n) as [|d ds]; [done|]. apply Forall_cons in Hd as [Hd _]. by apply digit_not_sign. }
  rewrite span_app by done. destruct (decimal n) eqn:E; [done|]. by rewrite Hv.
Qed.

Lemma extract_unsigned_run w ws n c s :
  Forall (fun x => isspace x = true) ws -> 0 <= n < 2 ^ w -> isdigit c = false ->
  extract_unsigned w (ws ++ decimal n ++ c :: s) = Some (n, c :: s).
Proof.
  intros Hws Hn Hc. unfold extract_unsigned. rewrite extract_number_run by (done || lia). cbn.
  by rewrite (proj2 (Z.leb_gt _ _)) by lia.
Qed.
