(* ===== verification/Catalog.v ===== *)
(** * Catalog: the persistent schema of [src/catalog/catalog.h] and [catalog.cpp]

    Tables, indexes and the next object id, the checks of [CreateTable] and
    [CreateIndex], and the metadata file: its text, its parser over the input
    stream, and the calls [Persist] makes to replace it. The file system is
    the metadata file and the temporary one next to it; the answers of its
    calls are an argument. *)
From S2P Require Import Prelude Config DiskManager Text.

Module ColumnType.
Inductive ColumnType := kInteger | kText.
End ColumnType.
Export (notations) ColumnType.
Abbreviation ColumnType := ColumnType.ColumnType.

#[global] Instance ColumnType_eq_dec : EqDecision ColumnType.
Proof. solve_decision. Defined.

Definition ColumnTypeToString (t : ColumnType) : bytes :=
  match t with
  | ColumnType.kInteger => str "INTEGER"
  | ColumnType.kText => str "TEXT"
  end.

Definition ColumnTypeFromString (s : bytes) : outcome ColumnType :=
  if bool_decide (s = str "INTEGER") then Ret ColumnType.kInteger
  else if bool_decide (s = str "TEXT") then Ret ColumnType.kText
  else Throw InvalidArgument.

Record ColumnDef := mkColumn { col_name : bytes; col_type : ColumnType }.

Record IndexInfo := mkIndex {
  ix_name : bytes;
  ix_table_name : bytes;
  ix_column_name : bytes;
  ix_object_id : ObjectId;
  ix_is_primary_key : bool
}.

Record TableInfo := mkTable {
  tb_name : bytes;
  tb_columns : list ColumnDef;
  tb_primary_key_column : option bytes;
  tb_heap_object_id : ObjectId
}.

Record Catalog := mkCatalog {
  dir_path_ : bytes;
  tables_ : list TableInfo;
  indexes_ : list IndexInfo;
  next_object_id_ : ObjectId
}.

(** ** Look-ups *)

Definition find_column (cols : list ColumnDef) (n : bytes) : option ColumnDef :=
  List.find (fun c => bool_decide (col_name c = n)) cols.

Definition FindColumn (t : TableInfo) (n : bytes) : option ColumnDef := find_column (tb_columns t) n.

Definition FindTable (c : Catalog) (n : bytes) : option TableInfo :=
  List.find (fun t => bool_decide (tb_name t = n)) (tables_ c).

Definition FindIndex (c : Catalog) (n : bytes) : option IndexInfo :=
  List.find (fun i => bool_decide (ix_name i = n)) (indexes_ c).

Definition IndexesOnTable (c : Catalog) (t : bytes) : list IndexInfo :=
  List.filter (fun i => bool_decide (ix_table_name i = t)) (indexes_ c).

Definition PrimaryKeyIndex (c : Catalog) (t : bytes) : option IndexInfo :=
  List.find (fun i => bool_decide (ix_table_name i = t) && ix_is_primary_key i) (indexes_ c).

Definition FilePathFor (c : Catalog) (id : ObjectId) : bytes :=
  dir_path_ c ++ str "/obj_" ++ decimal id ++ str ".dat".

Definition MetadataFilePath (c : Catalog) : bytes := dir_path_ c ++ str "/catalog.meta".

(** ** The metadata file: reading *)

(** [in >> x] where a failure throws. *)
Definition read {A} (extract : bytes -> option (A * bytes)) : M bytes A := fun s =>
  match extract s with
  | Some (a, s') => (Ret a, s')
  | None => (Throw RuntimeError, s)
  end.

Definition ExpectTag (expected : bytes) : M bytes unit :=
  tag ← read extract_word;
  if bool_decide (tag = expected) then mret tt else throw RuntimeError.

Definition ReadField (w : Z) (tag : bytes) : M bytes Z :=
  ExpectTag tag;; read (extract_unsigned w).

Fixpoint repeat_m {W A} (n : nat) (item : M W A) : M W (list A) :=
  match n with
  | O => mret []
  | S n' => a ← item; l ← repeat_m n' item; mret (a :: l)
  end.

Definition load_column : M bytes ColumnDef :=
  ExpectTag (str "COLUMN");;
  n ← read extract_word;
  ty ← read extract_word;
  t ← lift (ColumnTypeFromString ty);
  mret (mkColumn n t).

Definition load_index (table_name : bytes) : M bytes IndexInfo :=
  ExpectTag (str "INDEX");;
  n ← read extract_word;
  col ← read extract_word;
  id ← read (extract_unsigned 32);
  kind ← read extract_word;
  if bool_decide (kind = str "PK") then mret (mkIndex n table_name col id true)
  else if bool_decide (kind = str "SEC") then mret (mkIndex n table_name col id false)
  else throw RuntimeError.

Definition load_table : M bytes (TableInfo * list IndexInfo) :=
  ExpectTag (str "TABLE");;
  n ← read extract_word;
  heap ← ReadField 32 (str "HEAP_OBJECT_ID");
  num_columns ← ReadField 64 (str "NUM_COLUMNS");
  cols ← repeat_m (Z.to_nat num_columns) load_column;
  ExpectTag (str "PRIMARY_KEY");;
  pk ← read extract_word;
  let pk := if bool_decide (pk = str "NONE") then None else Some pk in
  num_indexes ← ReadField 64 (str "NUM_INDEXES");
  idx ← repeat_m (Z.to_nat num_indexes) (load_index n);
  mret (mkTable n cols pk heap, idx).

Definition Load (dir_path : bytes) : M bytes Catalog :=
  ExpectTag (str "FLINTDB_CATALOG");;
  version ← read (extract_signed 32);
  if negb (version =? 1) then throw RuntimeError else
  next ← ReadField 32 (str "NEXT_OBJECT_ID");
  num_tables ← ReadField 64 (str "NUM_TABLES");
  ts ← repeat_m (Z.to_nat num_tables) load_table;
  mret (mkCatalog dir_path ts.*1 (concat ts.*2) next).

(** ** The metadata file: writing *)

(** Words with spaces between them and a newline after the last. *)
Fixpoint line (ws : list bytes) : bytes :=
  match ws with
  | [] => [x0a]
  | [w] => w ++ [x0a]
  | w :: ws' => w ++ x20 :: line ws'
  end.

Definition index_text (i : IndexInfo) : bytes :=
  line [str "INDEX"; ix_name i; ix_column_name i; decimal (ix_object_id i);
        if ix_is_primary_key i then str "PK" else str "SEC"].

Definition column_text (c : ColumnDef) : bytes := line [str "COLUMN"; col_name c; ColumnTypeToString (col_type c)].

Definition table_text (c : Catalog) (t : TableInfo) : bytes :=
  let idx := IndexesOnTable c (tb_name t) in
  line [str "TABLE"; tb_name t] ++
  line [str "HEAP_OBJECT_ID"; decimal (tb_heap_object_id t)] ++
  line [str "NUM_COLUMNS"; decimal (zlen (tb_columns t))] ++
  concat (column_text <$> tb_columns t) ++
  line [str "PRIMARY_KEY"; default (str "NONE") (tb_primary_key_column t)] ++
  line [str "NUM_INDEXES"; decimal (zlen idx)] ++
  concat (index_text <$> idx).

Definition catalog_text (c : Catalog) : bytes :=
  line [str "FLINTDB_CATALOG"; str "1"] ++
  line [str "NEXT_OBJECT_ID"; decimal (next_object_id_ c)] ++
  line [str "NUM_TABLES"; decimal (zlen (tables_ c))] ++
  concat (table_text c <$> tables_ c).

(** ** Replacing the file *)

(** A file and how much of it the last [fsync] covered. *)
Record file := mkFile { contents : bytes; synced : Z }.
Record Dir := mkDir { meta : option file; temp : option file }.

(** The calls of [Persist] that change a file. *)
Inductive fs_call := OpenTemp | WriteTemp (bs : bytes) | FsyncTemp | RenameTemp.

Definition fs_run (c : fs_call) (d : Dir) : Dir :=
  match c, temp d with
  | OpenTemp, _ => mkDir (meta d) (Some (mkFile [] 0))
  | WriteTemp bs, Some f => mkDir (meta d) (Some (mkFile (contents f ++ bs) (synced f)))
  | FsyncTemp, Some f => mkDir (meta d) (Some (mkFile (contents f) (zlen (contents f))))
  | RenameTemp, Some f => mkDir (Some f) None
  | _, None => d
  end.

(** Whether the calls of one [Persist] succeed; [write_answers] are those of
    the first [write] calls, one after them takes all that is left. *)
Record persist_env := mkEnv { open_ok : bool; write_answers : list io_result; fsync_ok : bool; rename_ok : bool }.

Fixpoint FullWrite (sys : list io_result) (buf : bytes) : list fs_call * outcome unit :=
  if (length buf =? 0)%nat then ([], Ret tt) else
  match sys with
  | [] => ([WriteTemp buf], Ret tt)
  | IoEintr :: sys' => FullWrite sys' buf
  | IoError :: _ => ([], Throw RuntimeError)
  | IoBytes n :: sys' =>
      let n := Nat.min n (length buf) in
      let '(calls, o) := FullWrite sys' (drop n buf) in
      (WriteTemp (take n buf) :: calls, o)
  end.

(** The calls that succeed, and how [Persist] ends. *)
Definition persist_calls (env : persist_env) (content : bytes) : list fs_call * outcome unit :=
  if negb (open_ok env) then ([], Throw RuntimeError) else
  let '(ws, o) := FullWrite (write_answers env) content in
  match o with
  | Ret _ =>
      if negb (fsync_ok env) then (OpenTemp :: ws, Throw RuntimeError)
      else if negb (rename_ok env) then (OpenTemp :: ws ++ [FsyncTemp], Throw RuntimeError)
      else (OpenTemp :: ws ++ [FsyncTemp; RenameTemp], Ret tt)
  | _ => (OpenTemp :: ws, o)
  end.

Definition fs_runs (calls : list fs_call) (d : Dir) : Dir := foldl (fun d c => fs_run c d) d calls.

Record Store := mkStore { catalog_ : Catalog; dir : Dir }.

Definition Persist (env : persist_env) : M Store unit := fun s =>
  let '(calls, o) := persist_calls env (catalog_text (catalog_ s)) in
  (o, mkStore (catalog_ s) (fs_runs calls (dir s))).

(** The constructor: [mkdir], then [Load] if there is a metadata file. *)
Definition OpenCatalog (mkdir_ok : bool) (dir_path : bytes) (d : Dir) : outcome Catalog :=
  if negb mkdir_ok then Throw RuntimeError else
  match meta d with
  | Some f => (Load dir_path (contents f)).1
  | None => Ret (mkCatalog dir_path [] [] 0)
  end.

(** ** DDL *)

Definition AllocateObjectId : M Store ObjectId := fun s =>
  let c := catalog_ s in
  let id := next_object_id_ c in
  (Ret id, mkStore (mkCatalog (dir_path_ c) (tables_ c) (indexes_ c) (u32 (id + 1))) (dir s)).

Definition push_table (t : TableInfo) : M Store unit := modify (fun s =>
  let c := catalog_ s in mkStore (mkCatalog (dir_path_ c) (tables_ c ++ [t]) (indexes_ c) (next_object_id_ c)) (dir s)).

Definition push_index (i : IndexInfo) : M Store unit := modify (fun s =>
  let c := catalog_ s in mkStore (mkCatalog (dir_path_ c) (tables_ c) (indexes_ c ++ [i]) (next_object_id_ c)) (dir s)).

(** The two nested loops over pairs of columns. *)
Fixpoint duplicate_name (cols : list ColumnDef) : bool :=
  match cols with
  | [] => false
  | c :: cols' => existsb (fun c' => bool_decide (col_name c = col_name c')) cols' || duplicate_name cols'
  end.

Definition name_in_use (c : Catalog) (n : bytes) : bool :=
  bool_decide (is_Some (FindTable c n)) || bool_decide (is_Some (FindIndex c n)).

Definition check_primary_key (cols : list ColumnDef) (pk : option bytes) : outcome unit :=
  match pk with
  | None => Ret tt
  | Some n =>
      match find_column cols n with
      | None => Throw InvalidArgument
      | Some col => if bool_decide (col_type col = ColumnType.kInteger) then Ret tt else Throw InvalidArgument
      end
  end.

Definition pk_index_name (table column : bytes) : bytes := table ++ str "." ++ column ++ str "#pk".

Definition CreateTable (env : persist_env) (name : bytes) (columns : list ColumnDef) (pk : option bytes) : M Store ObjectId :=
  c ← gets catalog_;
  if name_in_use c name then throw InvalidArgument else
  if (zlen columns =? 0) then throw InvalidArgument else
  if duplicate_name columns then throw InvalidArgument else
  lift (check_primary_key columns pk);;
  heap_object_id ← AllocateObjectId;
  push_table (mkTable name columns pk heap_object_id);;
  match pk with
  | Some column => id ← AllocateObjectId; push_index (mkIndex (pk_index_name name column) name column id true)
  | None => mret tt
  end;;
  Persist env;;
  mret heap_object_id.

Definition CreateIndex (env : persist_env) (name table_name column_name : bytes) : M Store ObjectId :=
  c ← gets catalog_;
  if name_in_use c name then throw InvalidArgument else
  match FindTable c table_name with
  | None => throw InvalidArgument
  | Some table =>
      match FindColumn table column_name with
      | None => throw InvalidArgument
      | Some column =>
          if negb (bool_decide (col_type column = ColumnType.kInteger)) then throw InvalidArgument else
          object_id ← AllocateObjectId;
          push_index (mkIndex name table_name column_name object_id false);;
          Persist env;;
          mret object_id
      end
  end.

(** ** Well-formed schemas *)

(** What the lexer lets through as a name. *)
Definition ident (s : bytes) : Prop := s <> [] /\ Forall (fun c => isalnum c || bool_decide (c = "_"%byte) = true) s.

#[global] Instance ident_dec s : Decision (ident s).
Proof. unfold ident. apply _. Defined.

Record table_ok (t : TableInfo) : Prop := mkTableOk {
  to_name : ident (tb_name t);
  to_columns : tb_columns t <> [];
  to_distinct : NoDup (col_name <$> tb_columns t);
  to_idents : Forall ident (col_name <$> tb_columns t);
  to_pk : forall n, tb_primary_key_column t = Some n -> exists c, FindColumn t n = Some c /\ col_type c = ColumnType.kInteger
}.

Record index_ok (ts : list TableInfo) (i : IndexInfo) : Prop := mkIndexOk {
  io_column : exists t c, t ∈ ts /\ tb_name t = ix_table_name i /\
    FindColumn t (ix_column_name i) = Some c /\ col_type c = ColumnType.kInteger /\
    (ix_is_primary_key i = true -> tb_primary_key_column t = Some (ix_column_name i));
  io_name : if ix_is_primary_key i then ix_name i = pk_index_name (ix_table_name i) (ix_column_name i) else ident (ix_name i)
}.

Definition object_ids (c : Catalog) : list ObjectId := (tb_heap_object_id <$> tables_ c) ++ (ix_object_id <$> indexes_ c).

Record catalog_ok (c : Catalog) : Prop := mkCatalogOk {
  co_tables : NoDup (tb_name <$> tables_ c);
  co_indexes : NoDup (ix_name <$> indexes_ c);
  co_apart : forall n, n ∈ (tb_name <$> tables_ c) -> ~ (n ∈ (ix_name <$> indexes_ c));
  co_table : Forall table_ok (tables_ c);
  co_index : Forall (index_ok (tables_ c)) (indexes_ c);
  co_ids : NoDup (object_ids c);
  co_bound : Forall (fun id => 0 <= id < next_object_id_ c) (object_ids c);
  co_next : 0 <= next_object_id_ c < 2 ^ 32
}.

(** Every primary key has its index. *)
Definition pk_indexed (c : Catalog) : Prop := forall t n, t ∈ tables_ c -> tb_primary_key_column t = Some n ->
  exists i, i ∈ indexes_ c /\ ix_table_name i = tb_name t /\ ix_column_name i = n /\ ix_is_primary_key i = true.

(** ** Look-up lemmas *)

Lemma find_In {A} (p : A -> bool) l a : List.find p l = Some a -> a ∈ l /\ p a = true.
Proof. intros H. apply find_some in H as [H1 H2]. by rewrite list_elem_of_In. Qed.

Lemma find_key {A} (key : A -> bytes) l a :
  NoDup (key <$> l) -> a ∈ l -> List.find (fun x => bool_decide (key x = key a)) l = Some a.
Proof.
  induction l as [|x l IH]; intros Hnd Hin; [by apply elem_of_nil in Hin|]. cbn [fmap list_fmap] in Hnd.
  apply NoDup_cons in Hnd as [Hx Hnd]. cbn [List.find]. destruct (decide (key x = key a)) as [E|E].
  - rewrite bool_decide_eq_true_2 by done. apply elem_of_cons in Hin as [->|Hin]; [done|]. destruct Hx. rewrite E. by apply list_elem_of_fmap_2.
  - rewrite bool_decide_eq_false_2 by done. apply elem_of_cons in Hin as [->|Hin]; [done|]. by apply IH.
Qed.

Lemma find_absent {A} (key : A -> bytes) l n :
  List.find (fun x => bool_decide (key x = n)) l = None <-> ~ (n ∈ (key <$> l)).
Proof.
  induction l as [|x l IH]; cbn [List.find fmap list_fmap]; [split; [intros _; apply not_elem_of_nil|done]|].
  rewrite elem_of_cons. destruct (decide (key x = n)) as [E|E].
  - rewrite bool_decide_eq_true_2 by done. split; [done|]. intros []. by left.
  - rewrite bool_decide_eq_false_2 by done. rewrite IH. split; [intros H [?|?]; congruence|tauto].
Qed.

Lemma name_in_use_false c n :
  name_in_use c n = false <-> ~ (n ∈ (tb_name <$> tables_ c)) /\ ~ (n ∈ (ix_name <$> indexes_ c)).
Proof.
  unfold name_in_use. rewrite orb_false_iff, !bool_decide_eq_false, <- !eq_None_not_Some.
  unfold FindTable, FindIndex. by rewrite !find_absent.
Qed.

Lemma duplicate_name_false cols : duplicate_name cols = false <-> NoDup (col_name <$> cols).
Proof.
  induction cols as [|c cols IH]; cbn [duplicate_name fmap list_fmap]; [split; [constructor|done]|].
  rewrite orb_false_iff, NoDup_cons, IH. apply and_iff_compat_r.
  rewrite <- not_true_iff_false, existsb_exists. split; intros H1 H2; apply H1.
  - apply list_elem_of_fmap in H2 as (c' & E & H2). exists c'. rewrite <- list_elem_of_In. split; [done|]. by apply bool_decide_eq_true_2.
  - destruct H2 as (c' & H2 & E%bool_decide_eq_true). rewrite E. apply list_elem_of_fmap_2. by rewrite list_elem_of_In.
Qed.

Lemma check_primary_key_ret cols pk :
  check_primary_key cols pk = Ret tt <->
  (forall n, pk = Some n -> exists c, find_column cols n = Some c /\ col_type c = ColumnType.kInteger).
Proof.
  unfold check_primary_key. destruct pk as [n|]; [|by split].
  destruct (find_column cols n) as [c|] eqn:E; [|split; [done|intros H; destruct (H n eq_refl) as (? & ? & ?); congruence]].
  case_bool_decide as Ht; split; intros H; try done.
  - intros ? [= <-]. eauto.
  - destruct (H n eq_refl) as (? & [= <-]%(eq_trans (eq_sym E)) & ?). congruence.
Qed.

(** ** DDL lemmas *)

(** The schema with a new table, and with a new secondary index. *)
Definition with_table (c : Catalog) (name : bytes) (columns : list ColumnDef) (pk : option bytes) : Catalog :=
  let id := next_object_id_ c in
  let t := mkTable name columns pk id in
  match pk with
  | None => mkCatalog (dir_path_ c) (tables_ c ++ [t]) (indexes_ c) (u32 (id + 1))
  | Some col =>
      mkCatalog (dir_path_ c) (tables_ c ++ [t])
        (indexes_ c ++ [mkIndex (pk_index_name name col) name col (u32 (id + 1)) true]) (u32 (u32 (id + 1) + 1))
  end.

Definition with_index (c : Catalog) (name table_name column_name : bytes) : Catalog :=
  let id := next_object_id_ c in
  mkCatalog (dir_path_ c) (tables_ c) (indexes_ c ++ [mkIndex name table_name column_name id false]) (u32 (id + 1)).

Definition table_accepted (c : Catalog) (name : bytes) (columns : list ColumnDef) (pk : option bytes) : bool :=
  negb (name_in_use c name) && negb (zlen columns =? 0) && negb (duplicate_name columns) &&
  match check_primary_key columns pk with Ret _ => true | _ => false end.

Definition index_accepted (c : Catalog) (name table_name column_name : bytes) : bool :=
  negb (name_in_use c name) &&
  match FindTable c table_name with
  | Some t =>
      match FindColumn t column_name with
      | Some col => bool_decide (col_type col = ColumnType.kInteger)
      | None => false
      end
  | None => false
  end.

(** How a call ends that persists the schema [c] last and then returns [a]. *)
Definition persisted {A} (env : persist_env) (a : A) (c : Catalog) (d : Dir) : outcome A * Store :=
  let '(calls, o) := persist_calls env (catalog_text c) in
  (_ ← o; mret a, mkStore c (fs_runs calls d)).

Lemma Persist_then {A} env (a : A) s : (Persist env;; mret a) s = persisted env a (catalog_ s) (dir s).
Proof.
  unfold persisted, Persist, mbind, M_bind. destruct (persist_calls env (catalog_text (catalog_ s))) as [calls o]. by destruct o.
Qed.

Lemma CreateTable_run env name columns pk s :
  CreateTable env name columns pk s =
    if table_accepted (catalog_ s) name columns pk
    then persisted env (next_object_id_ (catalog_ s)) (with_table (catalog_ s) name columns pk) (dir s)
    else (Throw InvalidArgument, s).
Proof.
  unfold CreateTable, table_accepted. rewrite (bind_ret _ _ _ _ _ (gets_run catalog_ s)).
  destruct (name_in_use (catalog_ s) name); [done|]. destruct (zlen columns =? 0); [done|].
  destruct (duplicate_name columns); [done|]. cbn [negb andb].
  assert (match check_primary_key columns pk with Ret _ | Throw InvalidArgument => True | _ => False end) as Hc.
  { unfold check_primary_key. destruct pk; [|done]. destruct (find_column _ _); [|done]. by case_bool_decide. }
  unfold lift. unfold mbind at 1, M_bind at 1. destruct (check_primary_key columns pk) as [[]|[]| |]; try done.
  destruct pk as [col|]; [|exact (Persist_then _ _ _)].
  exact (Persist_then env (next_object_id_ (catalog_ s)) (mkStore (with_table (catalog_ s) name columns (Some col)) (dir s))).
Qed.

Lemma CreateIndex_run env name table_name column_name s :
  CreateIndex env name table_name column_name s =
    if index_accepted (catalog_ s) name table_name column_name
    then persisted env (next_object_id_ (catalog_ s)) (with_index (catalog_ s) name table_name column_name) (dir s)
    else (Throw InvalidArgument, s).
Proof.
  unfold CreateIndex, index_accepted. rewrite (bind_ret _ _ _ _ _ (gets_run catalog_ s)).
  destruct (name_in_use (catalog_ s) name); [done|]. cbn [negb andb]. destruct (FindTable (catalog_ s) table_name) as [t|]; [|done].
  destruct (FindColumn t column_name) as [col|]; [|done]. case_bool_decide; [|done]. cbn [negb].
  exact (Persist_then env (next_object_id_ (catalog_ s)) (mkStore (with_index (catalog_ s) name table_name column_name) (dir s))).
Qed.

(** *** The schema stays well formed *)

Lemma ident_no_mark s c : ident s -> isalnum c || bool_decide (c = "_"%byte) = false -> ~ (c ∈ s).
Proof. intros [_ H] Hc Hin. rewrite Forall_forall in H. by rewrite H in Hc. Qed.

(** The separators of the name of a primary-key index are in no identifier. *)
Lemma pk_name_not_ident t c : ~ ident (pk_index_name t c).
Proof.
  intros H. eapply (ident_no_mark _ "#"%byte H); [done|]. unfold pk_index_name.
  apply elem_of_app; right. apply elem_of_app; right. apply elem_of_app; right. by left.
Qed.

Lemma app_mark_inj (a1 a2 b1 b2 : bytes) m :
  ~ (m ∈ a1) -> ~ (m ∈ a2) -> a1 ++ m :: b1 = a2 ++ m :: b2 -> a1 = a2 /\ b1 = b2.
Proof.
  revert a2. induction a1 as [|x a1 IH]; intros [|y a2] H1 H2 H; cbn in *; simplify_eq.
  - done.
  - destruct H2. by left.
  - destruct H1. by left.
  - destruct (IH a2) as [-> ->]; set_solver.
Qed.

Lemma pk_name_inj t1 c1 t2 c2 : ident t1 -> ident t2 -> pk_index_name t1 c1 = pk_index_name t2 c2 -> t1 = t2.
Proof.
  intros H1 H2 H. unfold pk_index_name in H. change (str "." ++ c1 ++ str "#pk") with ("."%byte :: c1 ++ str "#pk") in H.
  change (str "." ++ c2 ++ str "#pk") with ("."%byte :: c2 ++ str "#pk") in H.
  by apply app_mark_inj in H as [? _]; [|by apply ident_no_mark..].
Qed.

Lemma index_ok_mono ts t i : index_ok ts i -> index_ok (ts ++ [t]) i.
Proof.
  intros [(t0 & c & Hin & H) Hn]. split; [|done]. exists t0, c. split; [set_solver|done].
Qed.

Lemma NoDup_snoc {A} (l : list A) x : NoDup l -> ~ (x ∈ l) -> NoDup (l ++ [x]).
Proof. intros H Hx. apply NoDup_app. split_and!; [done| |apply NoDup_singleton]. intros y Hy ->%list_elem_of_singleton. done. Qed.

Definition add_table (c : Catalog) (t : TableInfo) : Catalog :=
  mkCatalog (dir_path_ c) (tables_ c ++ [t]) (indexes_ c) (u32 (next_object_id_ c + 1)).
Definition add_index (c : Catalog) (i : IndexInfo) : Catalog :=
  mkCatalog (dir_path_ c) (tables_ c) (indexes_ c ++ [i]) (u32 (next_object_id_ c + 1)).

(** The counter hands out an id nothing has. *)
Lemma fresh_id c ids :
  catalog_ok c -> next_object_id_ c + 1 < 2 ^ 32 -> ids ≡ₚ next_object_id_ c :: object_ids c ->
  NoDup ids /\ Forall (fun id => 0 <= id < u32 (next_object_id_ c + 1)) ids /\ 0 <= u32 (next_object_id_ c + 1) < 2 ^ 32.
Proof.
  intros Hc Hn Hp. pose proof (co_next _ Hc). pose proof (co_bound _ Hc) as Hb. rewrite (u32_small (next_object_id_ c + 1)) by lia. rewrite Hp. split_and!; [|..|lia|lia].
  - apply NoDup_cons. split; [|apply Hc]. intros Hin. rewrite Forall_forall in Hb. apply Hb in Hin. lia.
  - constructor; [lia|]. eapply Forall_impl; [exact Hb|]. cbn. lia.
Qed.

Lemma add_table_ok c t :
  catalog_ok c -> table_ok t -> tb_heap_object_id t = next_object_id_ c -> next_object_id_ c + 1 < 2 ^ 32 ->
  name_in_use c (tb_name t) = false -> catalog_ok (add_table c t).
Proof.
  intros Hc Ht Hid Hn [Hnt Hni]%name_in_use_false. destruct (fresh_id c (object_ids (add_table c t)) Hc Hn) as (Hd & Hb & Hx).
  { unfold object_ids, add_table. cbn. rewrite fmap_app. cbn. rewrite Hid. rewrite <- app_assoc. symmetry. apply Permutation_middle. }
  split; cbn; [| | | | |exact Hd|exact Hb|exact Hx].
  - rewrite fmap_app. apply NoDup_snoc; [apply Hc|done].
  - apply Hc.
  - intros n. rewrite fmap_app, elem_of_app. intros [Hin|Hin]; [by apply Hc|]. by apply list_elem_of_singleton in Hin as ->.
  - apply Forall_app. split; [apply Hc|by apply Forall_singleton].
  - eapply Forall_impl; [apply (co_index _ Hc)|]. intros i. apply index_ok_mono.
Qed.

Lemma add_index_ok c i :
  catalog_ok c -> index_ok (tables_ c) i -> ix_object_id i = next_object_id_ c -> next_object_id_ c + 1 < 2 ^ 32 ->
  name_in_use c (ix_name i) = false -> catalog_ok (add_index c i).
Proof.
  intros Hc Hi Hid Hn [Hnt Hni]%name_in_use_false. destruct (fresh_id c (object_ids (add_index c i)) Hc Hn) as (Hd & Hb & Hx).
  { unfold object_ids, add_index. cbn. rewrite fmap_app, app_assoc. cbn. rewrite Hid. symmetry. apply Permutation_cons_append. }
  split; cbn; [| | | | |exact Hd|exact Hb|exact Hx].
  - apply Hc.
  - rewrite fmap_app. apply NoDup_snoc; [apply Hc|done].
  - intros n Ht. rewrite fmap_app, elem_of_app. intros [Hin|Hin]; [by eapply Hc|]. apply list_elem_of_singleton in Hin as ->. done.
  - apply Hc.
  - apply Forall_app. split; [apply Hc|by apply Forall_singleton].
Qed.

(** The name of a new primary-key index is taken by nothing. *)
Lemma pk_name_fresh c name col :
  catalog_ok c -> ident name -> ~ (name ∈ (tb_name <$> tables_ c)) -> name_in_use c (pk_index_name name col) = false.
Proof.
  intros Hc Hid Hn. apply name_in_use_false. split.
  - intros (t & E & Hin)%list_elem_of_fmap. apply (pk_name_not_ident name col). rewrite E.
    pose proof (co_table _ Hc) as Ht. rewrite Forall_forall in Ht. by apply Ht.
  - intros (i & E & Hin)%list_elem_of_fmap. pose proof (co_index _ Hc) as Hi. rewrite Forall_forall in Hi.
    destruct (Hi i Hin) as [(t & cd & Ht & Hnm & _) Hname]. destruct (ix_is_primary_key i).
    + rewrite Hname in E. apply pk_name_inj in E; [|done|].
      * apply Hn. rewrite E, <- Hnm. by apply list_elem_of_fmap_2.
      * rewrite <- Hnm. pose proof (co_table _ Hc) as Hto. rewrite Forall_forall in Hto. by apply Hto.
    + apply (pk_name_not_ident name col). by rewrite E.
Qed.

Lemma table_accepted_facts c name columns pk :
  table_accepted c name columns pk = true ->
  name_in_use c name = false /\ columns <> [] /\ NoDup (col_name <$> columns) /\ check_primary_key columns pk = Ret tt.
Proof.
  unfold table_accepted. rewrite !andb_true_iff, !negb_true_iff. intros [[[H1 H2] H3] H4]. split_and!; [done|by destruct columns| |].
  - by apply duplicate_name_false.
  - by destruct (check_primary_key columns pk) as [[]|?|?|].
Qed.

Lemma with_table_ok c name columns pk :
  catalog_ok c -> pk_indexed c -> ident name -> Forall ident (col_name <$> columns) -> next_object_id_ c + 2 < 2 ^ 32 ->
  table_accepted c name columns pk = true ->
  catalog_ok (with_table c name columns pk) /\ pk_indexed (with_table c name columns pk).
Proof.
  intros Hc Hpi Hid Hcols Hn (Hfree & Hne & Hnd & Hpk)%table_accepted_facts. pose proof (co_next _ Hc).
  set (t := mkTable name columns pk (next_object_id_ c)).
  assert (table_ok t) as Ht by (split; [done..|]; apply check_primary_key_ret, Hpk).
  assert (catalog_ok (add_table c t)) as Ha by (apply add_table_ok; done || lia).
  assert (pk = None -> pk_indexed (add_table c t)) as Hpi'.
  { intros Hnone t' n' [Ht'|Ht']%elem_of_app Hn'; [by apply Hpi|]. apply list_elem_of_singleton in Ht' as ->. cbn in Hn'. congruence. }
  destruct pk as [col|]; [|split; [exact Ha|by apply Hpi']]. split.
  - apply (add_index_ok (add_table c t)); [done| |done|cbn; rewrite u32_small; lia|].
    + split; [|done]. destruct (to_pk _ Ht col eq_refl) as (cd & H1 & H2). exists t, cd. cbn. split_and!; [set_solver|done..].
    + destruct (proj1 (name_in_use_false c name) Hfree) as [Hnt _].
      pose proof (proj1 (name_in_use_false _ _) (pk_name_fresh c name col Hc Hid Hnt)) as [Hf1 Hf2].
      apply name_in_use_false. cbn. rewrite fmap_app. split; [|done]. intros [?|Hx]%elem_of_app; [done|].
      apply list_elem_of_singleton in Hx. cbn in Hx. apply (pk_name_not_ident name col). by rewrite Hx.
  - intros t' n' Ht' Hn'. cbn in Ht'. apply elem_of_app in Ht' as [Ht'|Ht'].
    + destruct (Hpi t' n' Ht' Hn') as (i & Hi & Hrest). exists i. split; [cbn; set_solver|done].
    + apply list_elem_of_singleton in Ht' as ->. cbn in Hn'. injection Hn' as <-. eexists. split; [cbn; apply elem_of_app; right; by left|done].
Qed.

Lemma with_index_ok c name table_name column_name :
  catalog_ok c -> pk_indexed c -> ident name -> next_object_id_ c + 2 < 2 ^ 32 ->
  index_accepted c name table_name column_name = true ->
  catalog_ok (with_index c name table_name column_name) /\ pk_indexed (with_index c name table_name column_name).
Proof.
  unfold index_accepted. intros Hc Hpi Hid Hn [Hfree%negb_true_iff H]%andb_true_iff.
  destruct (FindTable c table_name) as [t|] eqn:Et; [|done]. destruct (FindColumn t column_name) as [cd|] eqn:Ec; [|done].
  apply bool_decide_eq_true in H. apply find_In in Et as [Ht Etn%bool_decide_eq_true]. split.
  - apply add_index_ok; [done| |done|lia|done]. split; [|done]. by exists t, cd.
  - intros t' n' Ht' Hn'. destruct (Hpi t' n' Ht' Hn') as (i & Hi & Hrest). exists i. split; [cbn; set_solver|done].
Qed.

(** ** Persisting *)

Definition meta_text (d : Dir) : option bytes := contents <$> meta d.

(** A crash keeps what the last [fsync] of a file covered and any prefix of
    the rest, and what it keeps is on disk; the temporary file is never read
    again. *)
Definition crash_file (f f' : file) : Prop :=
  synced f' = zlen (contents f') /\ exists k : nat, synced f <= Z.of_nat k /\ contents f' = take k (contents f).

Inductive crash_dir (d d' : Dir) : Prop :=
| crash_none : meta d = None -> meta d' = None -> crash_dir d d'
| crash_some f f' : meta d = Some f -> meta d' = Some f' -> crash_file f f' -> crash_dir d d'.

(** The metadata file in place is one that was synced before it was renamed. *)
Definition meta_durable (d : Dir) : Prop := forall f, meta d = Some f -> synced f = zlen (contents f).

Lemma crash_meta_durable d d' : crash_dir d d' -> meta_durable d'.
Proof. intros [H1 H2|f f' H1 H2 [Hs _]] g Hg; [congruence|]. by simplify_eq. Qed.

Lemma crash_durable d d' : meta_durable d -> crash_dir d d' -> meta_text d' = meta_text d.
Proof.
  unfold meta_text. intros Hd [H1 H2|f f' H1 H2 (_ & k & Hk & Hc)]; rewrite H1, H2; [done|]. cbn. f_equal.
  rewrite Hc. apply take_ge. rewrite (Hd f H1) in Hk. unfold zlen in Hk. lia.
Qed.

Lemma FullWrite_chunks sys buf :
  exists chunks, (FullWrite sys buf).1 = WriteTemp <$> chunks /\
    ((FullWrite sys buf).2 = Ret tt /\ concat chunks = buf \/ (FullWrite sys buf).2 = Throw RuntimeError).
Proof.
  revert buf. induction sys as [|r sys IH]; intros buf; cbn [FullWrite];
    (destruct (Nat.eqb_spec (length buf) 0) as [Hz|Hz]; [exists []; destruct buf; [auto|done]|]).
  - exists [buf]. cbn. rewrite app_nil_r. auto.
  - destruct r as [n| |]; [|apply IH|exists []; auto].
    destruct (IH (drop (Nat.min n (length buf)) buf)) as (chunks & H1 & H2). destruct (FullWrite sys _) as [calls o]. cbn in *. subst calls.
    exists (take (Nat.min n (length buf)) buf :: chunks). split; [done|]. destruct H2 as [[H2 H3]|H2]; [|auto].
    left. split; [done|]. cbn. by rewrite H3, take_drop.
Qed.

Lemma fs_runs_app c1 c2 d : fs_runs (c1 ++ c2) d = fs_runs c2 (fs_runs c1 d).
Proof. apply foldl_app. Qed.

Lemma fs_runs_writes chunks d f :
  temp d = Some f ->
  fs_runs (WriteTemp <$> chunks) d = mkDir (meta d) (Some (mkFile (contents f ++ concat chunks) (synced f))).
Proof.
  revert d f. induction chunks as [|c chunks IH]; intros [me te] f Hf; cbn in Hf; subst te.
  - cbn. rewrite app_nil_r. by destruct f.
  - change (fs_runs _ ?d) with (fs_runs (WriteTemp <$> chunks) (fs_run (WriteTemp c) d)).
    erewrite IH by done. cbn. by rewrite app_assoc.
Qed.

Lemma fs_runs_meta calls d : ~ (RenameTemp ∈ calls) -> meta (fs_runs calls d) = meta d.
Proof.
  revert d. induction calls as [|c calls IH]; intros d Hn; [done|]. cbn [fs_runs foldl]. fold (fs_runs calls (fs_run c d)).
  rewrite IH by set_solver. destruct c, d as [me [te|]]; try done. destruct Hn. by left.
Qed.

(** The calls of [Persist] either never rename, or are a complete run. *)
Lemma persist_calls_cases env content :
  let '(calls, o) := persist_calls env content in
  (~ (RenameTemp ∈ calls) /\ o = Throw RuntimeError) \/
  (exists pre, calls = pre ++ [RenameTemp] /\ ~ (RenameTemp ∈ pre) /\ o = Ret tt /\
    forall d, fs_runs calls d = mkDir (Some (mkFile content (zlen content))) None).
Proof.
  unfold persist_calls. destruct (open_ok env); cbn [negb]; [|left; split; [apply not_elem_of_nil|done]].
  destruct (FullWrite_chunks (write_answers env) content) as (chunks & H1 & H2).
  destruct (FullWrite (write_answers env) content) as [ws o]. cbn in H1, H2. subst ws.
  assert (~ (RenameTemp ∈ (WriteTemp <$> chunks))) as Hno by (intros (? & ? & _)%list_elem_of_fmap; done).
  destruct H2 as [[-> Hc]| ->]; [|left; split; [set_solver|done]].
  destruct (fsync_ok env); cbn [negb]; [|left; split; [set_solver|done]].
  destruct (rename_ok env); cbn [negb]; [|left; split; [set_solver|done]].
  right. exists (OpenTemp :: (WriteTemp <$> chunks) ++ [FsyncTemp]). split_and!; [cbn; by rewrite <- app_assoc|set_solver|done|].
  intros d. change (OpenTemp :: ?l) with ([OpenTemp] ++ l). rewrite !fs_runs_app. cbn [fs_runs foldl fs_run].
  change (foldl _ _ (WriteTemp <$> chunks)) with (fs_runs (WriteTemp <$> chunks) (fs_run OpenTemp d)).
  erewrite fs_runs_writes by (cbn; by destruct (temp d)). cbn. by rewrite Hc.
Qed.

(** ** Reading back *)

Lemma tag_run c t d s : isspace c = true -> word t -> isspace d = true -> ExpectTag t (c :: t ++ d :: s) = (Ret tt, d :: s).
Proof.
  intros Hc Ht Hd. unfold ExpectTag, read, mbind, M_bind. change (c :: t ++ d :: s) with ([c] ++ t ++ d :: s).
  rewrite extract_word_run by (done || by apply Forall_singleton). by rewrite bool_decide_eq_true_2.
Qed.

Lemma word_run c w d s : isspace c = true -> word w -> isspace d = true -> read extract_word (c :: w ++ d :: s) = (Ret w, d :: s).
Proof.
  intros Hc Hw Hd. unfold read. change (c :: w ++ d :: s) with ([c] ++ w ++ d :: s).
  by rewrite extract_word_run by (done || by apply Forall_singleton).
Qed.

Lemma number_run w c n d s :
  isspace c = true -> 0 <= n < 2 ^ w -> isspace d = true -> read (extract_unsigned w) (c :: decimal n ++ d :: s) = (Ret n, d :: s).
Proof.
  intros Hc Hn Hd. unfold read. change (c :: decimal n ++ d :: s) with ([c] ++ decimal n ++ d :: s).
  rewrite extract_unsigned_run; [done|by apply Forall_singleton|done|]. destruct d; by try (vm_compute in Hd).
Qed.

Lemma field_run w c t d n e s :
  isspace c = true -> word t -> isspace d = true -> 0 <= n < 2 ^ w -> isspace e = true ->
  ReadField w t (c :: t ++ d :: decimal n ++ e :: s) = (Ret n, e :: s).
Proof. intros. unfold ReadField. rewrite (bind_ret _ _ _ _ _ (tag_run c t d _ ltac:(done) ltac:(done) ltac:(done))). by apply number_run. Qed.

Lemma line_more w w' ws rest : line (w :: w' :: ws) ++ rest = w ++ x20 :: (line (w' :: ws) ++ rest).
Proof. cbn [line]. by rewrite <- app_assoc. Qed.

Lemma line_last w rest : line [w] ++ rest = w ++ x0a :: rest.
Proof. cbn [line]. by rewrite <- app_assoc. Qed.

Lemma alnum_not_space c : isalnum c || bool_decide (c = "_"%byte) = true -> isspace c = false.
Proof. destruct c; by vm_compute. Qed.

Lemma ident_word s : ident s -> word s.
Proof. intros [Hne H]. split; [done|]. eapply Forall_impl; [exact H|]. intros c. apply alnum_not_space. Qed.

Lemma word_app w1 w2 : word w1 -> word w2 -> word (w1 ++ w2).
Proof. intros [H1 H2] [_ H3]. split; [by destruct w1|by apply Forall_app]. Qed.

Ltac closed_word := apply (bool_decide_unpack _); vm_compute; exact I.

Lemma pk_name_word t c : ident t -> ident c -> word (pk_index_name t c).
Proof. intros Ht%ident_word Hc%ident_word. unfold pk_index_name. repeat apply word_app; try done; closed_word. Qed.

Lemma type_word t : word (ColumnTypeToString t).
Proof. destruct t; closed_word. Qed.

Lemma type_string t : ColumnTypeFromString (ColumnTypeToString t) = Ret t.
Proof. by destruct t. Qed.

(** One step of the parser on text it was written for. *)
Ltac rd :=
  erewrite bind_ret;
    [|first [apply tag_run|apply field_run|apply number_run|apply word_run];
      first [reflexivity|assumption|closed_word|apply type_word|idtac]].

Definition reads {A} (item : M bytes A) (text : bytes) (a : A) : Prop :=
  forall rest, item (x0a :: text ++ rest) = (Ret a, x0a :: rest).

Lemma repeat_reads {A B} (item : M bytes A) (text : B -> bytes) (f : B -> A) (l : list B) :
  Forall (fun b => reads item (text b) (f b)) l -> forall rest,
  repeat_m (length l) item (x0a :: concat (text <$> l) ++ rest) = (Ret (f <$> l), x0a :: rest).
Proof.
  induction 1 as [|b l Hb Hl IH]; intros rest; [done|]. cbn [length repeat_m fmap list_fmap concat]. rewrite <- app_assoc.
  rewrite (bind_ret _ _ _ _ _ (Hb _)), (bind_ret _ _ _ _ _ (IH _)). done.
Qed.

Lemma reads_column c : ident (col_name c) -> reads load_column (column_text c) c.
Proof.
  intros H%ident_word rest. unfold column_text. rewrite !line_more, line_last. unfold load_column. do 3 rd.
  rewrite type_string. by destruct c.
Qed.

Lemma reads_index i :
  word (ix_name i) -> word (ix_column_name i) -> 0 <= ix_object_id i < 2 ^ 32 -> reads (load_index (ix_table_name i)) (index_text i) i.
Proof.
  intros Hn Hc Hid rest. unfold index_text. rewrite !line_more, line_last. unfold load_index. do 4 rd.
  destruct i as [n t c id pk]. cbn in *. destruct pk; (rd; done).
Qed.

(** What [Load] makes of a schema: the indexes are grouped by table. *)
Definition regrouped (dir_path : bytes) (c : Catalog) : Catalog :=
  mkCatalog dir_path (tables_ c) (concat ((fun t => IndexesOnTable c (tb_name t)) <$> tables_ c)) (next_object_id_ c).

(** The values [Persist] can write and read back. *)
Record storable (c : Catalog) : Prop := mkStorable {
  st_ok : catalog_ok c;
  st_columns : Forall (fun t => zlen (tb_columns t) < 2 ^ 64) (tables_ c);
  st_pk : Forall (fun t => tb_primary_key_column t <> Some (str "NONE")) (tables_ c)
}.

Lemma ids_count c : catalog_ok c -> zlen (object_ids c) <= next_object_id_ c.
Proof.
  intros Hc. pose proof (co_next _ Hc). assert (object_ids c ⊆ seqZ 0 (next_object_id_ c)) as Hsub.
  { intros id Hid. pose proof (co_bound _ Hc) as Hb. rewrite Forall_forall in Hb. apply Hb in Hid. apply elem_of_seqZ. lia. }
  pose proof (submseteq_length _ _ (NoDup_submseteq _ _ (co_ids _ Hc) Hsub)) as Hl. rewrite length_seqZ in Hl. unfold zlen. lia.
Qed.

Lemma filter_length_le {A} (p : A -> bool) l : (length (List.filter p l) <= length l)%nat.
Proof. apply filter_length_le. Qed.

Lemma counts_small c t :
  catalog_ok c -> 0 <= zlen (tables_ c) < 2 ^ 64 /\ 0 <= zlen (IndexesOnTable c t) < 2 ^ 64.
Proof.
  intros Hc. pose proof (ids_count c Hc) as Hi. pose proof (co_next _ Hc). unfold object_ids, IndexesOnTable, zlen in *.
  rewrite length_app, !length_fmap in Hi. pose proof (filter_length_le (fun i => bool_decide (ix_table_name i = t)) (indexes_ c)). lia.
Qed.

Lemma on_table_facts c i t :
  i ∈ IndexesOnTable c t <-> i ∈ indexes_ c /\ ix_table_name i = t.
Proof. unfold IndexesOnTable. rewrite !list_elem_of_In, filter_In. by rewrite bool_decide_eq_true. Qed.

Lemma index_facts c i :
  catalog_ok c -> i ∈ indexes_ c -> ix_table_name i ∈ (tb_name <$> tables_ c) /\ word (ix_name i) /\ word (ix_column_name i) /\ 0 <= ix_object_id i < 2 ^ 32.
Proof.
  intros Hc Hi. pose proof (co_index _ Hc) as Ho. rewrite Forall_forall in Ho. destruct (Ho i Hi) as [(t & cd & Ht & Hn & Hf & _) Hname].
  pose proof (co_table _ Hc) as Hto. rewrite Forall_forall in Hto. pose proof (Hto t Ht) as Htok.
  assert (ident (ix_column_name i)) as Hcol.
  { apply find_In in Hf as [Hf E%bool_decide_eq_true]. pose proof (to_idents _ Htok) as Hid. rewrite Forall_forall in Hid. apply Hid.
    rewrite <- E. by apply list_elem_of_fmap_2. }
  split; [|split; [|split]].
  - rewrite <- Hn. by apply list_elem_of_fmap_2.
  - destruct (ix_is_primary_key i); [|by apply ident_word]. rewrite Hname. apply pk_name_word; [|done]. rewrite <- Hn. apply Htok.
  - by apply ident_word.
  - pose proof (co_bound _ Hc) as Hb. rewrite Forall_forall in Hb. pose proof (co_next _ Hc).
    assert (ix_object_id i ∈ object_ids c) as Hin by (apply elem_of_app; right; by apply list_elem_of_fmap_2). apply Hb in Hin. lia.
Qed.

Lemma reads_table c t :
  storable c -> t ∈ tables_ c -> reads load_table (table_text c t) (t, IndexesOnTable c (tb_name t)).
Proof.
  intros [Hc Hcols Hpk] Ht rest. pose proof (co_table _ Hc) as Hto. rewrite Forall_forall in Hto, Hcols, Hpk. pose proof (Hto t Ht) as Htok.
  pose proof (ident_word _ (to_name _ Htok)) as Hname. destruct (counts_small c (tb_name t) Hc) as [_ Hni].
  assert (0 <= tb_heap_object_id t < 2 ^ 32) as Hid.
  { pose proof (co_bound _ Hc) as Hb. rewrite Forall_forall in Hb. pose proof (co_next _ Hc).
    assert (tb_heap_object_id t ∈ object_ids c) as Hin by (apply elem_of_app; left; by apply list_elem_of_fmap_2). apply Hb in Hin. lia. }
  assert (0 <= zlen (tb_columns t) < 2 ^ 64) as Hnc by (specialize (Hcols t Ht); pose proof (zlen_nonneg (tb_columns t)); lia).
  unfold table_text. rewrite <- !app_assoc, !line_more, !line_last. unfold load_table. do 4 rd.
  unfold zlen at 1. rewrite Nat2Z.id.
  erewrite bind_ret; [|apply (repeat_reads load_column column_text id)].
  2: { apply Forall_forall. intros cd Hcd. apply reads_column. pose proof (to_idents _ Htok) as Hi. rewrite Forall_forall in Hi. apply Hi. by apply list_elem_of_fmap_2. }
  rewrite list_fmap_id. rd.
  assert (word (default (str "NONE") (tb_primary_key_column t))) as Hw.
  { destruct (tb_primary_key_column t) as [n|] eqn:E; [|closed_word]. destruct (to_pk _ Htok n E) as (cd & Hf & _).
    apply find_In in Hf as [Hf Hn%bool_decide_eq_true]. pose proof (to_idents _ Htok) as Hi. rewrite Forall_forall in Hi.
    apply ident_word, Hi. cbn. rewrite <- Hn. by apply list_elem_of_fmap_2. }
  do 2 rd. unfold zlen. rewrite Nat2Z.id.
  erewrite bind_ret; [|apply (repeat_reads _ index_text id)].
  2: { apply Forall_forall. intros i [Hi Hit]%on_table_facts. destruct (index_facts c i Hc Hi) as (_ & H1 & H2 & H3). rewrite <- Hit. by apply reads_index. }
  rewrite list_fmap_id. unfold mret, M_ret. do 3 f_equal. specialize (Hpk t Ht).
  destruct t as [n cs pk hid]. cbn in *. f_equal. destruct pk as [pk|]; cbn; [|done]. rewrite bool_decide_eq_false_2; [done|congruence].
Qed.

(** Reading a persisted schema gives it back. *)
Lemma Load_text dir_path c : storable c -> (Load dir_path (catalog_text c)).1 = Ret (regrouped dir_path c).
Proof.
  intros Hs. pose proof (st_ok _ Hs) as Hc. pose proof (co_next _ Hc) as Hn. destruct (counts_small c [] Hc) as [Hnt _].
  assert (forall rest, ExpectTag (str "FLINTDB_CATALOG") (line [str "FLINTDB_CATALOG"; str "1"] ++ rest) = (Ret tt, x20 :: str "1" ++ x0a :: rest)) as H1 by done.
  assert (forall rest, read (extract_signed 32) (x20 :: str "1" ++ x0a :: rest) = (Ret 1, x0a :: rest)) as H2 by done.
  unfold catalog_text, Load. rewrite (bind_ret _ _ _ _ _ (H1 _)), (bind_ret _ _ _ _ _ (H2 _)). cbn [Z.eqb negb Pos.eqb].
  rewrite !line_more, !line_last. do 2 rd. unfold zlen at 1. rewrite Nat2Z.id.
  rewrite <- (app_nil_r (concat _)).
  erewrite bind_ret; [|apply (repeat_reads load_table (table_text c) (fun t => (t, IndexesOnTable c (tb_name t))))].
  2: { apply Forall_forall. intros t Ht. by apply reads_table. }
  cbn. unfold regrouped. do 2 f_equal; rewrite <- list_fmap_compose; [by apply list_fmap_id|done].
Qed.

(** *** Grouping the indexes by table *)

Lemma filter_split {A} (p : A -> bool) l : List.filter p l ++ List.filter (fun x => negb (p x)) l ≡ₚ l.
Proof.
  induction l as [|x l IH]; [done|]. cbn. destruct (p x); cbn; [by rewrite IH|]. by rewrite <- Permutation_middle, IH.
Qed.

Lemma group_perm {A} (key : A -> bytes) (names : list bytes) (l : list A) :
  NoDup names -> (forall x, x ∈ l -> key x ∈ names) ->
  concat ((fun n => List.filter (fun x => bool_decide (key x = n)) l) <$> names) ≡ₚ l.
Proof.
  intros Hnd. revert l. induction Hnd as [|n names Hn Hnd IH]; intros l Hin.
  - destruct l as [|x l]; [done|]. exfalso. specialize (Hin x ltac:(by left)). by apply elem_of_nil in Hin.
  - cbn [fmap list_fmap concat]. set (l2 := List.filter (fun x => negb (bool_decide (key x = n))) l).
    etrans; [|apply (filter_split (fun x => bool_decide (key x = n)) l)]. apply Permutation_app_head. fold l2. rewrite <- (IH l2).
    + assert (forall a b : list A, a = b -> a ≡ₚ b) as Heq by (by intros ? ? ->). apply Heq. f_equal. apply list_fmap_ext. intros i m Hm. unfold l2. clear -Hm Hn.
      assert (m <> n) as Hne by (intros ->; apply Hn; by eapply list_elem_of_lookup_2).
      induction l as [|x l IH]; [done|]. cbn. repeat case_bool_decide; cbn; rewrite ?bool_decide_eq_true_2, ?bool_decide_eq_false_2, ?IH by done; congruence.
    + intros x Hx. unfold l2 in Hx. rewrite list_elem_of_In, filter_In, negb_true_iff, bool_decide_eq_false, <- list_elem_of_In in Hx.
      destruct Hx as [Hx Hne]. specialize (Hin x Hx). apply elem_of_cons in Hin as [?|?]; [congruence|done].
Qed.

Lemma filter_group {A} (key : A -> bytes) (names : list bytes) (l : list A) t :
  NoDup names -> (forall x, x ∈ l -> key x ∈ names) ->
  List.filter (fun x => bool_decide (key x = t)) (concat ((fun n => List.filter (fun x => bool_decide (key x = n)) l) <$> names)) =
  List.filter (fun x => bool_decide (key x = t)) l.
Proof.
  intros Hnd Hin.
  assert (forall n, List.filter (fun x => bool_decide (key x = t)) (List.filter (fun x => bool_decide (key x = n)) l) =
    if bool_decide (n = t) then List.filter (fun x => bool_decide (key x = t)) l else []) as Hone.
  { intros n. clear Hin. induction l as [|x l IH]; [by case_bool_decide|]. cbn. destruct (decide (key x = n)) as [<-|E].
    - rewrite (bool_decide_eq_true_2 (key x = key x)) by done. cbn. rewrite IH. by repeat case_bool_decide.
    - rewrite (bool_decide_eq_false_2 (key x = n)) by done. rewrite IH. repeat case_bool_decide; congruence. }
  assert (forall ns, NoDup ns -> List.filter (fun x => bool_decide (key x = t)) (concat ((fun n => List.filter (fun x => bool_decide (key x = n)) l) <$> ns)) =
    if bool_decide (t ∈ ns) then List.filter (fun x => bool_decide (key x = t)) l else []) as Hall.
  { induction 1 as [|n ns Hn Hns IH]; [by rewrite bool_decide_eq_false_2 by apply not_elem_of_nil|].
    cbn [fmap list_fmap concat]. rewrite List.filter_app, Hone, IH. destruct (decide (n = t)) as [->|Hne].
    - by rewrite (bool_decide_eq_true_2 (t = t)), (bool_decide_eq_true_2 (t ∈ t :: ns)), (bool_decide_eq_false_2 (t ∈ ns)), app_nil_r by (done || by left).
    - rewrite (bool_decide_eq_false_2 (n = t)) by done. cbn. apply (f_equal (fun b : bool => if b then _ else _)), bool_decide_ext. set_solver. }
  rewrite Hall by done. case_bool_decide as Ht; [done|]. symmetry. destruct (List.filter _ l) as [|x r] eqn:E; [done|].
  assert (In x (List.filter (fun x => bool_decide (key x = t)) l)) as Hx by (rewrite E; by left).
  apply filter_In in Hx as [Hx Hk%bool_decide_eq_true]. destruct Ht. rewrite <- Hk. apply Hin. by rewrite list_elem_of_In.
Qed.

Lemma index_tables c i : catalog_ok c -> i ∈ indexes_ c -> ix_table_name i ∈ (tb_name <$> tables_ c).
Proof. intros Hc Hi. by apply index_facts. Qed.

Lemma regrouped_indexes dir_path c : catalog_ok c ->
  indexes_ (regrouped dir_path c) ≡ₚ indexes_ c /\ forall t, IndexesOnTable (regrouped dir_path c) t = IndexesOnTable c t.
Proof.
  intros Hc. pose proof (index_tables c) as Hi.
  assert (indexes_ (regrouped dir_path c) = concat ((fun n => IndexesOnTable c n) <$> (tb_name <$> tables_ c))) as E
    by (unfold regrouped; cbn; by rewrite <- list_fmap_compose).
  unfold IndexesOnTable at 1. rewrite E. split.
  - apply group_perm; [apply Hc|auto].
  - intros t. apply filter_group; [apply Hc|auto].
Qed.

Lemma regrouped_ok dir_path c : catalog_ok c -> catalog_ok (regrouped dir_path c).
Proof.
  intros Hc. destruct (regrouped_indexes dir_path c Hc) as [Hp _]. unfold object_ids. split; unfold object_ids; cbn [tables_ regrouped next_object_id_];
    [apply Hc| | |apply Hc| | | |apply Hc]; change (indexes_ (mkCatalog _ _ ?l _)) with (indexes_ (regrouped dir_path c)).
  - rewrite Hp. apply Hc.
  - intros n Hn. rewrite Hp. by apply Hc.
  - rewrite Hp. apply Hc.
  - rewrite Hp. apply Hc.
  - rewrite Hp. apply Hc.
Qed.

(** ** The contract *)

Definition empty_catalog (dir_path : bytes) : Catalog := mkCatalog dir_path [] [] 0.

Lemma empty_ok dir_path : catalog_ok (empty_catalog dir_path) /\ pk_indexed (empty_catalog dir_path).
Proof.
  split; [|intros t n Ht; by apply elem_of_nil in Ht].
  split; cbn; [constructor|constructor|intros n _; apply not_elem_of_nil|constructor|constructor|constructor|constructor|lia].
Qed.

(** Every call of a DDL statement succeeds. *)
Definition smooth : persist_env := mkEnv true [] true true.

Definition people_columns : list ColumnDef :=
  [mkColumn (str "id") ColumnType.kInteger; mkColumn (str "name") ColumnType.kText; mkColumn (str "age") ColumnType.kInteger].

(** A schema with one table, its primary key and a secondary index. *)
Definition people : Catalog :=
  with_index (with_table (empty_catalog (str "db")) (str "people") people_columns (Some (str "id")))
    (str "by_age") (str "people") (str "age").

Lemma people_ok : catalog_ok people /\ pk_indexed people.
Proof.
  destruct (empty_ok (str "db")) as [H1 H2].
  destruct (with_table_ok (empty_catalog (str "db")) (str "people") people_columns (Some (str "id")) H1 H2) as [H3 H4];
    [by apply (bool_decide_unpack _); vm_compute|by apply (bool_decide_unpack _); vm_compute|done|done|].
  apply with_index_ok; [exact H3|exact H4|by apply (bool_decide_unpack _); vm_compute|done|done].
Qed.

Lemma people_storable : storable people.
Proof.
  split; [apply people_ok|..]; repeat constructor; done.
Qed.

(** C33: [CreateTable] and [CreateIndex] keep the schema well formed (names
    unique and apart, columns distinct, every primary key an INTEGER column
    with its own index, every index on an INTEGER column of an existing
    table, object ids never given out twice), whatever the file system
    answers. A statement that fails a check throws [invalid_argument] and
    changes nothing. One that passes leaves every table and every index that
    was there as it is: an accepted [CreateTable] appends its table under the
    next object id and, exactly when it has a primary key, that key's unique
    index under the id after it; an accepted [CreateIndex] appends its index
    under the next object id and no table. The id of the new object is
    returned. *)
Theorem ddl_keeps_schema (env : persist_env) (s : Store) :
  catalog_ok (catalog_ s) -> pk_indexed (catalog_ s) -> next_object_id_ (catalog_ s) + 2 < 2 ^ 32 ->
  (forall name columns pk, ident name -> Forall ident (col_name <$> columns) ->
    let '(o, s') := CreateTable env name columns pk s in
    catalog_ok (catalog_ s') /\ pk_indexed (catalog_ s') /\
    if table_accepted (catalog_ s) name columns pk
    then let id := next_object_id_ (catalog_ s) in
      tables_ (catalog_ s') = tables_ (catalog_ s) ++ [mkTable name columns pk id] /\
      indexes_ (catalog_ s') = indexes_ (catalog_ s) ++
        match pk with Some col => [mkIndex (pk_index_name name col) name col (id + 1) true] | None => [] end /\
      next_object_id_ (catalog_ s') = id + match pk with Some _ => 2 | None => 1 end /\
      (env = smooth -> o = Ret (next_object_id_ (catalog_ s)))
    else o = Throw InvalidArgument /\ s' = s) /\
  (forall name table_name column_name, ident name ->
    let '(o, s') := CreateIndex env name table_name column_name s in
    catalog_ok (catalog_ s') /\ pk_indexed (catalog_ s') /\
    if index_accepted (catalog_ s) name table_name column_name
    then tables_ (catalog_ s') = tables_ (catalog_ s) /\
      indexes_ (catalog_ s') = indexes_ (catalog_ s) ++ [mkIndex name table_name column_name (next_object_id_ (catalog_ s)) false] /\
      next_object_id_ (catalog_ s') = next_object_id_ (catalog_ s) + 1 /\
      (env = smooth -> o = Ret (next_object_id_ (catalog_ s)))
    else o = Throw InvalidArgument /\ s' = s).
Proof.
  intros Hc Hp Hn.
  assert (forall A (a : A) c d, (persisted smooth a c d).1 = Ret a) as Hsmooth.
  { intros A a c d. unfold persisted, persist_calls, smooth. cbn. by destruct (length (catalog_text c)). }
  assert (forall A (a : A) c d, catalog_ (persisted env a c d).2 = c) as Hcat
    by (intros A a c d; unfold persisted; by destruct (persist_calls _ _)).
  assert (0 <= next_object_id_ (catalog_ s)) as Hid0 by (by apply Hc).
  assert (u32 (next_object_id_ (catalog_ s) + 1) = next_object_id_ (catalog_ s) + 1) as Hu1 by (apply u32_small; lia).
  split; intros name.
  - intros columns pk Hid Hcols. rewrite CreateTable_run. destruct (table_accepted _ name columns pk) eqn:Ha; [|done].
    destruct (with_table_ok _ name columns pk Hc Hp Hid Hcols Hn Ha) as [H1 H2].
    pose proof (Hcat _ (next_object_id_ (catalog_ s)) (with_table (catalog_ s) name columns pk) (dir s)) as Hs.
    pose proof (Hsmooth _ (next_object_id_ (catalog_ s)) (with_table (catalog_ s) name columns pk) (dir s)) as Ho.
    destruct (persisted env _ _ _) as [o s'] eqn:E. cbn in Hs. rewrite Hs. cbv zeta. split_and!; [done|done|by destruct pk|..].
    + destruct pk; cbn; [by rewrite Hu1|by rewrite app_nil_r].
    + destruct pk; cbn; rewrite Hu1; [|done]. rewrite u32_small; lia.
    + intros ->. by rewrite E in Ho.
  - intros table_name column_name Hid. rewrite CreateIndex_run. destruct (index_accepted _ name table_name column_name) eqn:Ha; [|done].
    destruct (with_index_ok _ name table_name column_name Hc Hp Hid Hn Ha) as [H1 H2].
    pose proof (Hcat _ (next_object_id_ (catalog_ s)) (with_index (catalog_ s) name table_name column_name) (dir s)) as Hs.
    pose proof (Hsmooth _ (next_object_id_ (catalog_ s)) (with_index (catalog_ s) name table_name column_name) (dir s)) as Ho.
    destruct (persisted env _ _ _) as [o s'] eqn:E. cbn in Hs. rewrite Hs. split_and!; [done..|]. intros ->. by rewrite E in Ho.
Qed.

Lemma ddl_keeps_schema_witness :
  let s := mkStore people (mkDir None None) in
  catalog_ok people /\ table_accepted people (str "pets") people_columns None = true /\
  (CreateTable smooth (str "pets") people_columns None s).1 = Ret 3 /\
  tables_ (catalog_ (CreateTable smooth (str "pets") people_columns None s).2) = tables_ people ++ [mkTable (str "pets") people_columns None 3] /\
  indexes_ (catalog_ (CreateTable smooth (str "pets") people_columns None s).2) = indexes_ people.
Proof.
  destruct people_ok as [H1 H2]. intros s. split; [exact H1|]. split; [reflexivity|].
  destruct (ddl_keeps_schema smooth s H1 H2 ltac:(done)) as [H _].
  specialize (H (str "pets") people_columns None ltac:(by apply (bool_decide_unpack _); vm_compute) ltac:(by apply (bool_decide_unpack _); vm_compute)).
  destruct (CreateTable smooth (str "pets") people_columns None s) as [o s']. destruct H as (_ & _ & H3 & H4 & _ & H5).
  split; [exact (H5 eq_refl)|]. split; [exact H3|exact H4].
Defined.

(** A schema read back from the metadata file is the schema that was
    persisted: the same tables in the same order, the same indexes (grouped by
    table, in the same order on every table), the same next object id, and it
    is well formed again. *)
Theorem reopened_schema (dir_path : bytes) (c : Catalog) (d : Dir) :
  storable c -> meta_text d = Some (catalog_text c) ->
  exists c', OpenCatalog true dir_path d = Ret c' /\ catalog_ok c' /\ tables_ c' = tables_ c /\ next_object_id_ c' = next_object_id_ c /\
    indexes_ c' ≡ₚ indexes_ c /\ forall t, IndexesOnTable c' t = IndexesOnTable c t.
Proof.
  intros Hs Hd. exists (regrouped dir_path c). pose proof (st_ok _ Hs) as Hc. destruct (regrouped_indexes dir_path c Hc) as [H1 H2].
  split_and!; [|by apply regrouped_ok|done|done|done|done].
  unfold OpenCatalog, meta_text in *. destruct (meta d) as [f|]; [|done]. cbn in *. injection Hd as ->. by apply Load_text.
Qed.

Lemma reopened_schema_witness :
  exists c', OpenCatalog true (str "db") (mkDir (Some (mkFile (catalog_text people) 0)) None) = Ret c' /\ tables_ c' = tables_ people.
Proof.
  destruct (reopened_schema (str "db") people (mkDir (Some (mkFile (catalog_text people) 0)) None) people_storable eq_refl)
    as (c' & H1 & _ & H2 & _). exists c'. split; [exact H1|exact H2].
Defined.

(** C34: replacing the metadata file is atomic under crashes. Stop [Persist]
    after any number of its file system calls, whatever they answered, and
    lose any bytes no [fsync] covered: reopening gives the old schema or the
    new one. When [Persist] returns, the file in place is the new text, synced
    before it was renamed. *)
Theorem Persist_crash_atomic (env : persist_env) (dir_path : bytes) (old new : Catalog) (d d' : Dir) (n : nat) :
  storable old -> storable new -> meta_durable d -> meta_text d = Some (catalog_text old) ->
  let '(calls, o) := persist_calls env (catalog_text new) in
  (crash_dir (fs_runs (take n calls) d) d' ->
    OpenCatalog true dir_path d' = Ret (regrouped dir_path old) \/ OpenCatalog true dir_path d' = Ret (regrouped dir_path new)) /\
  (o = Ret tt -> meta_text (fs_runs calls d) = Some (catalog_text new) /\ meta_durable (fs_runs calls d)).
Proof.
  intros Ho Hn Hd Ht. pose proof (persist_calls_cases env (catalog_text new)) as Hcases. destruct (persist_calls env (catalog_text new)) as [calls o].
  assert (forall c, storable c -> meta_text d' = Some (catalog_text c) -> OpenCatalog true dir_path d' = Ret (regrouped dir_path c)) as Hopen.
  { intros c Hc Hm. unfold OpenCatalog, meta_text in *. destruct (meta d') as [f|]; [|done]. cbn in *. injection Hm as ->. by apply Load_text. }
  assert (forall calls, ~ (RenameTemp ∈ calls) -> crash_dir (fs_runs calls d) d' -> meta_text d' = Some (catalog_text old)) as Hsame.
  { intros cs Hno Hc. rewrite (crash_durable (fs_runs cs d) d'); [unfold meta_text; by rewrite fs_runs_meta| |done].
    unfold meta_durable. by rewrite fs_runs_meta. }
  destruct Hcases as [[Hno ->]|(pre & -> & Hno & -> & Hrun)].
  - split; [|done]. intros Hcr. left. apply Hopen; [done|]. eapply Hsame; [|exact Hcr]. intros Hin. by eapply Hno, subseteq_take.
  - split; [|intros _; rewrite Hrun; split; [done|by intros f [= <-]]]. intros Hcr. destruct (Nat.lt_ge_cases (length pre) n) as [Hlt|Hge].
    + rewrite take_ge, Hrun in Hcr by (rewrite length_app; cbn; lia). right. apply Hopen; [done|]. apply crash_durable in Hcr; [done|by intros f [= <-]].
    + left. apply Hopen; [done|]. rewrite take_app_le in Hcr by done. eapply Hsame; [|exact Hcr]. intros Hin. by eapply Hno, subseteq_take.
Qed.

Lemma Persist_crash_atomic_witness :
  let old := with_table (empty_catalog (str "db")) (str "people") people_columns (Some (str "id")) in
  let f := mkFile (catalog_text old) (zlen (catalog_text old)) in
  let calls := (persist_calls smooth (catalog_text people)).1 in
  crash_dir (fs_runs (take 2 calls) (mkDir (Some f) None)) (mkDir (Some f) None) /\
  (OpenCatalog true (str "db") (mkDir (Some f) None) = Ret (regrouped (str "db") old) \/
   OpenCatalog true (str "db") (mkDir (Some f) None) = Ret (regrouped (str "db") people)).
Proof.
  intros old f calls.
  assert (crash_dir (fs_runs (take 2 calls) (mkDir (Some f) None)) (mkDir (Some f) None)) as Hcr.
  { apply (crash_some _ _ f f); [by vm_compute|done|]. split; [done|]. exists (length (catalog_text old)). split; [by cbn|by rewrite take_ge]. }
  split; [exact Hcr|]. revert Hcr.
  apply (Persist_crash_atomic smooth (str "db") old people (mkDir (Some f) None) (mkDir (Some f) None) 2); [|exact people_storable|by intros g [= <-]|reflexivity].
  split; [|repeat constructor; done..].
  destruct (empty_ok (str "db")) as [H1 H2]. apply with_table_ok; [exact H1|exact H2|by apply (bool_decide_unpack _); vm_compute|by apply (bool_decide_unpack _); vm_compute|done|done].
Defined.

(** A primary key on a column called NONE is not there any more after a
    reload, although its index is. *)
Lemma reload_drops_pk_named_NONE :
  let c := with_table (empty_catalog []) (str "t") [mkColumn (str "NONE") ColumnType.kInteger] (Some (str "NONE")) in
  exists c', (Load [] (catalog_text c)).1 = Ret c' /\
    tb_primary_key_column <$> tables_ c = [Some (str "NONE")] /\ tb_primary_key_column <$> tables_ c' = [None] /\ indexes_ c' = indexes_ c.
Proof. eexists. by vm_compute. Qed.
