(* ===== verification/Ast.v ===== *)
(** * Ast: the statements of [src/sql/ast.h] and the checks of [sql_semantics.cpp] *)
From S2P Require Import Prelude Config DiskManager Text Catalog.

Module LiteralKind.
Inductive LiteralKind := kInteger | kString.
End LiteralKind.
Abbreviation LiteralKind := LiteralKind.LiteralKind.

#[global] Instance LiteralKind_eq_dec : EqDecision LiteralKind.
Proof. solve_decision. Defined.

Record LiteralValue := mkLiteral { kind : LiteralKind; int_value : Z; string_value : bytes }.

#[global] Instance LiteralValue_eq_dec : EqDecision LiteralValue.
Proof. solve_decision. Defined.

(** The two ways the code fills one in; the other field keeps its default. *)
Definition int_literal (z : Z) : LiteralValue := mkLiteral LiteralKind.kInteger z [].
Definition string_literal (s : bytes) : LiteralValue := mkLiteral LiteralKind.kString 0 s.

Record ColumnRef := mkColumnRef { cr_table_name : option bytes; cr_column_name : bytes }.

Module Comparator.
Inductive Comparator := kEq | kNeq | kLt | kLe | kGt | kGe.
End Comparator.
Abbreviation Comparator := Comparator.Comparator.

#[global] Instance Comparator_eq_dec : EqDecision Comparator.
Proof. solve_decision. Defined.

Record Predicate := mkPredicate { pr_column : ColumnRef; pr_op : Comparator; pr_value : LiteralValue }.

Record Assignment := mkAssignment { as_column_name : bytes; as_value : LiteralValue }.

Record JoinClause := mkJoin { jc_table_name : bytes; jc_left_column : ColumnRef; jc_right_column : ColumnRef }.

Record CreateTableStatement := mkCreateTable {
  ct_table_name : bytes;
  ct_columns : list ColumnDef;
  ct_primary_key_column : option bytes
}.

Record CreateIndexStatement := mkCreateIndex { ci_index_name : bytes; ci_table_name : bytes; ci_column_name : bytes }.

Record InsertStatement := mkInsert { in_table_name : bytes; in_values : list LiteralValue }.

Record SelectStatement := mkSelect {
  se_select_star : bool;
  se_select_list : list ColumnRef;
  se_from_table : bytes;
  se_join : option JoinClause;
  se_where_predicates : list Predicate
}.

Record UpdateStatement := mkUpdate {
  up_table_name : bytes;
  up_assignments : list Assignment;
  up_where_predicates : list Predicate
}.

Record DeleteStatement := mkDelete { de_table_name : bytes; de_where_predicates : list Predicate }.

Inductive Statement :=
| CreateTableStmt (s : CreateTableStatement)
| CreateIndexStmt (s : CreateIndexStatement)
| InsertStmt (s : InsertStatement)
| SelectStmt (s : SelectStatement)
| UpdateStmt (s : UpdateStatement)
| DeleteStmt (s : DeleteStatement)
| BeginStmt
| CommitStmt
| RollbackStmt.

(** ** sql_semantics.cpp *)

Definition RequireColumn (table : TableInfo) (column_name : bytes) : outcome ColumnDef :=
  match FindColumn table column_name with
  | Some col => Ret col
  | None => Throw SqlSemanticError
  end.

Definition literal_matches (t : ColumnType) (v : LiteralValue) : bool :=
  (bool_decide (t = ColumnType.kInteger) && bool_decide (kind v = LiteralKind.kInteger)) ||
  (bool_decide (t = ColumnType.kText) && bool_decide (kind v = LiteralKind.kString)).

Definition RequireLiteralMatchesColumn (col : ColumnDef) (v : LiteralValue) : outcome unit :=
  if literal_matches (col_type col) v then Ret tt else Throw SqlSemanticError.

Fixpoint column_position (cols : list ColumnDef) (n : bytes) : option nat :=
  match cols with
  | [] => None
  | c :: cols' => if bool_decide (col_name c = n) then Some O else S <$> column_position cols' n
  end.

Definition ColumnIndex (table : TableInfo) (column_name : bytes) : outcome nat :=
  RequireColumn table column_name ≫= fun _ =>
  match column_position (tb_columns table) column_name with
  | Some i => Ret i
  | None => Throw LogicError
  end.

(** ** Lemmas *)

(** A value a column of type [t] can hold, as the parser and the row decoder
    build it. *)
Definition literal_ok (t : ColumnType) (v : LiteralValue) : Prop :=
  match t with
  | ColumnType.kInteger => v = int_literal (int_value v) /\ int64_ok (int_value v)
  | ColumnType.kText => v = string_literal (string_value v) /\ zlen (string_value v) < 2 ^ 32
  end.

Lemma literal_ok_matches t v : literal_ok t v -> literal_matches t v = true.
Proof. destruct t; intros [-> _]; done. Qed.

Lemma column_position_find cols n :
  match column_position cols n, find_column cols n with
  | Some i, Some c => cols !! i = Some c /\ col_name c = n
  | None, None => True
  | _, _ => False
  end.
Proof.
  induction cols as [|c cols IH]; [done|]. cbn. unfold find_column in *. cbn. case_bool_decide as E; [done|].
  destruct (column_position cols n) as [i|], (List.find _ cols) as [c'|]; done.
Qed.

(** [ColumnIndex] finds the column or reports a semantic error: its
    "unreachable" throw is. *)
Lemma ColumnIndex_run table n :
  (exists i c, ColumnIndex table n = Ret i /\ FindColumn table n = Some c /\ tb_columns table !! i = Some c /\ col_name c = n) \/
  (ColumnIndex table n = Throw SqlSemanticError /\ FindColumn table n = None).
Proof.
  unfold ColumnIndex, RequireColumn. pose proof (column_position_find (tb_columns table) n) as H. unfold FindColumn in *.
  destruct (find_column (tb_columns table) n) as [c|]; destruct (column_position (tb_columns table) n) as [i|]; try done.
  - left. exists i, c. split_and!; [done|done|apply H|apply H].
  - right. done.
Qed.
