(* ===== verification/RowCodec.v ===== *)
(** * RowCodec: how a row is laid out in a heap file ([src/sql/row_codec.cpp])

    An INTEGER column is 8 little-endian bytes, a TEXT column a 4-byte length
    and the bytes; no tags, no null bitmap. Reading past the end throws. *)
From S2P Require Import Prelude Config DiskManager Text Catalog Ast.

Definition AppendInt64 (out : bytes) (v : Z) : bytes := out ++ le_encode 8 v.
Definition AppendUint32 (out : bytes) (v : Z) : bytes := out ++ le_encode 4 v.

Definition ReadInt64 (row_bytes : bytes) (offset : Z) : outcome Z :=
  if zlen row_bytes <? offset + 8 then Throw RuntimeError else Ret (to_int64 (read_at 8 offset row_bytes)).

Definition ReadUint32 (row_bytes : bytes) (offset : Z) : outcome Z :=
  if zlen row_bytes <? offset + 4 then Throw RuntimeError else Ret (read_at 4 offset row_bytes).

(** The loop of [EncodeRow]; [values[i]] past the end is undefined. *)
Fixpoint encode_loop (columns : list ColumnDef) (values : list LiteralValue) (out : bytes) : outcome bytes :=
  match columns, values with
  | [], _ => Ret out
  | _ :: _, [] => Undefined
  | col :: columns', value :: values' =>
      encode_loop columns' values'
        (if bool_decide (col_type col = ColumnType.kInteger) then AppendInt64 out (int_value value)
         else AppendUint32 out (u32 (zlen (string_value value))) ++ string_value value)
  end.

Definition EncodeRow (columns : list ColumnDef) (values : list LiteralValue) : outcome bytes :=
  encode_loop columns values [].

Fixpoint decode_loop (columns : list ColumnDef) (row_bytes : bytes) (offset : Z) : outcome (list LiteralValue) :=
  match columns with
  | [] => Ret []
  | col :: columns' =>
      if bool_decide (col_type col = ColumnType.kInteger) then
        v ← ReadInt64 row_bytes offset;
        vs ← decode_loop columns' row_bytes (offset + 8);
        Ret (int_literal v :: vs)
      else
        len ← ReadUint32 row_bytes offset;
        let offset := offset + 4 in
        if zlen row_bytes <? offset + len then Throw RuntimeError else
        vs ← decode_loop columns' row_bytes (offset + len);
        Ret (string_literal (slice offset len row_bytes) :: vs)
  end.

Definition DecodeRow (columns : list ColumnDef) (row_bytes : bytes) : outcome (list LiteralValue) :=
  decode_loop columns row_bytes 0.

(** ** Lemmas *)

(** The bytes of one value. *)
Definition field (t : ColumnType) (v : LiteralValue) : bytes :=
  match t with
  | ColumnType.kInteger => le_encode 8 (int_value v)
  | ColumnType.kText => le_encode 4 (zlen (string_value v)) ++ string_value v
  end.

Definition row_image (columns : list ColumnDef) (values : list LiteralValue) : bytes :=
  concat (zip_with (fun c v => field (col_type c) v) columns values).

Definition row_ok (columns : list ColumnDef) (values : list LiteralValue) : Prop :=
  Forall2 (fun c v => literal_ok (col_type c) v) columns values.

Lemma encode_loop_run columns values out :
  row_ok columns values -> encode_loop columns values out = Ret (out ++ row_image columns values).
Proof.
  intros H. revert out. induction H as [|c v columns values Hcv H IH]; intros out; cbn [encode_loop]; [by rewrite app_nil_r|].
  rewrite IH. unfold row_image. cbn. rewrite app_assoc. do 2 f_equal. unfold field, literal_ok, AppendInt64, AppendUint32 in *.
  destruct (col_type c); [done|]. rewrite bool_decide_eq_false_2 by done. destruct Hcv as [_ Hl].
  rewrite u32_small by (pose proof (zlen_nonneg (string_value v)); lia). by rewrite <- app_assoc.
Qed.

Lemma EncodeRow_run columns values : row_ok columns values -> EncodeRow columns values = Ret (row_image columns values).
Proof. intros H. by apply (encode_loop_run columns values []). Qed.

Lemma slice_exact {A} off (l1 l2 l3 : list A) : zlen l1 = off -> slice off (zlen l2) (l1 ++ l2 ++ l3) = l2.
Proof.
  intros <-. unfold slice, zlen. rewrite !Nat2Z.id, drop_app_length, take_app_length. done.
Qed.

Lemma read_at_exact w off z (l1 l3 : bytes) :
  zlen l1 = off -> read_at w off (l1 ++ le_encode w z ++ l3) = z mod 256 ^ Z.of_nat w.
Proof.
  intros H. unfold read_at. assert (Z.of_nat w = zlen (le_encode w z)) as Hw by (unfold zlen; by rewrite length_le_encode).
  rewrite Hw at 1. by rewrite slice_exact, le_decode_encode.
Qed.

Lemma zlen_le_encode w z : zlen (le_encode w z) = Z.of_nat w.
Proof. unfold zlen. by rewrite length_le_encode. Qed.

Lemma decode_loop_run columns values pre rest :
  row_ok columns values -> decode_loop columns (pre ++ row_image columns values ++ rest) (zlen pre) = Ret values.
Proof.
  intros H. revert pre. induction H as [|c v columns values Hcv H IH]; intros pre; cbn [decode_loop]; [done|].
  unfold row_image. cbn [zip_with concat]. fold (row_image columns values). rewrite <- app_assoc.
  specialize (IH (pre ++ field (col_type c) v)). rewrite <- app_assoc, zlen_app in IH.
  unfold literal_ok in Hcv. destruct v as [k z s], (col_type c); cbn [field int_value string_value] in *; destruct Hcv as [[= -> ->] Hi].
  - rewrite bool_decide_eq_true_2 by done. rewrite zlen_le_encode in IH. unfold ReadInt64.
    rewrite !zlen_app, zlen_le_encode, (proj2 (Z.ltb_ge _ _)) by (pose proof (zlen_nonneg (row_image columns values ++ rest)); rewrite zlen_app in *; lia).
    rewrite read_at_exact by done. rewrite to_int64_encode by done. change (zlen pre + Z.of_nat 8) with (zlen pre + 8) in IH.
    cbn [mbind outcome_bind]. by rewrite IH.
  - rewrite bool_decide_eq_false_2 by done.
    pose proof (zlen_nonneg s). rewrite zlen_app, zlen_le_encode in IH. rewrite <- (app_assoc (le_encode 4 (zlen s)) s) in *. unfold ReadUint32.
    assert (zlen (pre ++ le_encode 4 (zlen s) ++ s ++ row_image columns values ++ rest) = zlen pre + 4 + zlen s + zlen (row_image columns values ++ rest)) as Hz
      by (rewrite !zlen_app, zlen_le_encode; lia).
    pose proof (zlen_nonneg (row_image columns values ++ rest)). rewrite !Hz, (proj2 (Z.ltb_ge _ _)) by lia.
    rewrite read_at_exact by done. rewrite Z.mod_small by (change (256 ^ Z.of_nat 4) with (2 ^ 32); lia). cbn [mbind outcome_bind].
    rewrite (proj2 (Z.ltb_ge _ _)) by lia. rewrite <- Z.add_assoc. change (4 + zlen s) with (Z.of_nat 4 + zlen s). rewrite IH.
    cbn [mbind outcome_bind]. unfold string_literal. do 3 f_equal. rewrite app_assoc. apply slice_exact.
    rewrite zlen_app, zlen_le_encode. lia.
Qed.

Lemma le_encode_to_int64 bs : length bs = 8%nat -> le_encode 8 (to_int64 (le_decode bs)) = bs /\ int64_ok (to_int64 (le_decode bs)).
Proof.
  intros Hl. pose proof (le_decode_bound bs) as Hb. unfold zlen in Hb. rewrite Hl in Hb. change (256 ^ Z.of_nat 8) with (2 ^ 64) in Hb. split.
  - apply le_decode_inj; [by rewrite length_le_encode|]. rewrite le_decode_encode. change (256 ^ Z.of_nat 8) with (2 ^ 64). unfold to_int64.
    destruct (_ <? _); [by rewrite Z.mod_small|]. rewrite <- (Z.mod_add _ 1) by done. rewrite Z.mod_small; lia.
  - unfold int64_ok, to_int64. destruct (Z.ltb_spec (le_decode bs) (2 ^ 63)); lia.
Qed.

Lemma drop_slice {A} off n (l : list A) :
  0 <= off -> 0 <= n -> drop (Z.to_nat off) l = slice off n l ++ drop (Z.to_nat (off + n)) l.
Proof. intros H1 H2. unfold slice. rewrite Z2Nat.inj_add by done. by rewrite <- drop_drop, take_drop. Qed.

(** A decoded row is the image of the values it was decoded to, followed by
    whatever was not looked at. *)
Lemma decode_loop_inv columns row off :
  0 <= off ->
  decode_loop columns row off = Throw RuntimeError \/
  exists values, decode_loop columns row off = Ret values /\ row_ok columns values /\
    exists rest, drop (Z.to_nat off) row = row_image columns values ++ rest.
Proof.
  revert off. induction columns as [|c columns IH]; intros off Ho; cbn [decode_loop].
  { right. exists []. split_and!; [done|constructor|]. eauto. }
  destruct (col_type c) eqn:Et.
  - rewrite bool_decide_eq_true_2 by done. unfold ReadInt64. destruct (Z.ltb_spec (zlen row) (off + 8)) as [|Hs]; [by left|].
    cbn [mbind outcome_bind]. destruct (IH (off + 8)) as [-> |(vs & -> & Hok & rest & Hd)]; [lia|by left|]. right.
    assert (length (slice off 8 row) = 8%nat) as Hl by (pose proof (length_slice off 8 row Ho ltac:(done) Hs); unfold zlen in *; lia).
    destruct (le_encode_to_int64 _ Hl) as [He Hi]. eexists. split_and!; [done|constructor; [by rewrite Et|done]|].
    exists rest. unfold row_image. cbn [zip_with concat]. rewrite Et. cbn [field int_value int_literal].
    unfold read_at. change (Z.of_nat 8) with 8. rewrite He. rewrite (drop_slice off 8 row) by done. rewrite Hd. by rewrite <- app_assoc.
  - rewrite bool_decide_eq_false_2 by done. unfold ReadUint32. destruct (Z.ltb_spec (zlen row) (off + 4)) as [|Hs]; [by left|].
    cbn [mbind outcome_bind]. pose proof (read_at_bound 4 off row) as Hb. set (len := read_at 4 off row) in *.
    destruct (Z.ltb_spec (zlen row) (off + 4 + len)) as [|Hs2]; [by left|].
    destruct (IH (off + 4 + len)) as [-> |(vs & -> & Hok & rest & Hd)]; [lia|by left|]. right. cbn [mbind outcome_bind].
    assert (zlen (slice (off + 4) len row) = len) as Hz by (apply length_slice; lia).
    eexists. split_and!; [done|constructor; [rewrite Et; split; [done|cbn; rewrite Hz; apply Hb]|done]|].
    exists rest. unfold row_image. cbn [zip_with concat]. rewrite Et. cbn [field string_value string_literal]. rewrite Hz.
    assert (length (slice off 4 row) = 4%nat) as Hl by (pose proof (length_slice off 4 row Ho ltac:(done) Hs); unfold zlen in *; lia).
    assert (le_encode 4 len = slice off 4 row) as He by (rewrite <- (le_encode_decode (slice off 4 row)), Hl; done).
    rewrite He, (drop_slice off 4 row), (drop_slice (off + 4) len row), Hd by lia. by rewrite <- !app_assoc.
Qed.

(** ** The contract *)

(** C37: [DecodeRow] inverts [EncodeRow]: a row whose values fit its columns
    is encoded, and decoding the encoding, with any bytes after it, gives the
    values back. *)
Theorem row_roundtrip (columns : list ColumnDef) (values : list LiteralValue) (rest : bytes) :
  row_ok columns values ->
  exists row, EncodeRow columns values = Ret row /\ DecodeRow columns (row ++ rest) = Ret values.
Proof.
  intros H. exists (row_image columns values). split; [by apply EncodeRow_run|]. by apply (decode_loop_run columns values []).
Qed.

Lemma row_roundtrip_witness :
  exists row, EncodeRow people_columns [int_literal (-1); string_literal (str "ann"); int_literal 40] = Ret row /\
    DecodeRow people_columns (row ++ []) = Ret [int_literal (-1); string_literal (str "ann"); int_literal 40].
Proof. apply row_roundtrip. repeat constructor; done. Defined.

(** C38: on arbitrary bytes [DecodeRow] returns or throws [runtime_error],
    never anything else. It returns exactly when the bytes start with the
    encoding of some row of the table, and then returns that row; there is at
    most one such row. *)
Theorem DecodeRow_exact (columns : list ColumnDef) (bs : bytes) :
  (DecodeRow columns bs = Throw RuntimeError /\
    forall values row rest, row_ok columns values -> EncodeRow columns values = Ret row -> bs <> row ++ rest) \/
  exists values row rest, DecodeRow columns bs = Ret values /\ row_ok columns values /\ EncodeRow columns values = Ret row /\
    bs = row ++ rest /\ forall values' row' rest', row_ok columns values' -> EncodeRow columns values' = Ret row' -> bs = row' ++ rest' -> values' = values.
Proof.
  assert (forall values row rest, row_ok columns values -> EncodeRow columns values = Ret row -> bs = row ++ rest -> DecodeRow columns bs = Ret values) as Hdet.
  { intros values row rest Hok He ->. rewrite EncodeRow_run in He by done. injection He as <-. by apply (decode_loop_run columns values []). }
  destruct (decode_loop_inv columns bs 0) as [H|(values & H & Hok & rest & Hd)]; [lia|left|right]; fold (DecodeRow columns bs) in H.
  - split; [done|]. intros values row rest Hok He Hbs. rewrite (Hdet _ _ _ Hok He Hbs) in H. done.
  - exists values, (row_image columns values), rest. split_and!; [done|done|by apply EncodeRow_run|done|].
    intros values' row' rest' Hok' He' Hbs'. rewrite (Hdet _ _ _ Hok' He' Hbs') in H. by injection H.
Qed.
