(* ===== verification/Lexer.v ===== *)
(** * Lexer: tokens and [Tokenize] ([src/sql/token.h], [token.cpp], [lexer.cpp])

    The input is read from its current position on; a turn of the loop of
    [Tokenize] takes one token, or one blank, off its front. *)
From Stdlib Require Import Sorted.
From S2P Require Import Prelude Config DiskManager Text.

Module TokenType.
Inductive TokenType :=
| kCreate | kTable | kIndex | kOn | kInteger | kText | kPrimary | kKey
| kInsert | kInto | kValues | kSelect | kFrom | kJoin | kWhere | kAnd
| kUpdate | kSet | kDelete | kBegin | kCommit | kRollback
| kIdentifier | kIntegerLiteral | kStringLiteral
| kLParen | kRParen | kComma | kDot | kStar
| kEq | kNeq | kLt | kLe | kGt | kGe
| kSemicolon | kEndOfInput.
End TokenType.
Abbreviation TokenType := TokenType.TokenType.

#[global] Instance TokenType_eq_dec : EqDecision TokenType.
Proof. solve_decision. Defined.

Record Token := mkToken { tk_type : TokenType; tk_text : bytes; tk_int_value : Z; tk_position : Z }.

Import TokenType.

Definition TokenTypeName (t : TokenType) : bytes :=
  match t with
  | kCreate => str "CREATE" | kTable => str "TABLE" | kIndex => str "INDEX" | kOn => str "ON"
  | kInteger => str "INTEGER" | kText => str "TEXT" | kPrimary => str "PRIMARY" | kKey => str "KEY"
  | kInsert => str "INSERT" | kInto => str "INTO" | kValues => str "VALUES" | kSelect => str "SELECT"
  | kFrom => str "FROM" | kJoin => str "JOIN" | kWhere => str "WHERE" | kAnd => str "AND"
  | kUpdate => str "UPDATE" | kSet => str "SET" | kDelete => str "DELETE"
  | kBegin => str "BEGIN" | kCommit => str "COMMIT" | kRollback => str "ROLLBACK"
  | kIdentifier => str "IDENTIFIER" | kIntegerLiteral => str "INTEGER_LITERAL" | kStringLiteral => str "STRING_LITERAL"
  | kLParen => str "'('" | kRParen => str "')'" | kComma => str "','" | kDot => str "'.'" | kStar => str "'*'"
  | kEq => str "'='" | kNeq => str "'!='" | kLt => str "'<'" | kLe => str "'<='" | kGt => str "'>'" | kGe => str "'>='"
  | kSemicolon => str "';'" | kEndOfInput => str "end of input"
  end.

Definition KeywordTable : list (bytes * TokenType) :=
  [(str "CREATE", kCreate); (str "TABLE", kTable); (str "INDEX", kIndex); (str "ON", kOn);
   (str "INTEGER", kInteger); (str "TEXT", kText); (str "PRIMARY", kPrimary); (str "KEY", kKey);
   (str "INSERT", kInsert); (str "INTO", kInto); (str "VALUES", kValues); (str "SELECT", kSelect);
   (str "FROM", kFrom); (str "JOIN", kJoin); (str "WHERE", kWhere); (str "AND", kAnd);
   (str "UPDATE", kUpdate); (str "SET", kSet); (str "DELETE", kDelete);
   (str "BEGIN", kBegin); (str "COMMIT", kCommit); (str "ROLLBACK", kRollback)].

Definition IsIdentStart (c : byte) : bool := isalpha c || bool_decide (c = "_"%byte).
Definition IsIdentCont (c : byte) : bool := isalnum c || bool_decide (c = "_"%byte).
Definition IsDigit (c : byte) : bool := isdigit c.
Definition ToUpper (s : bytes) : bytes := toupper <$> s.

Definition is_blank (c : byte) : bool :=
  bool_decide (c = " "%byte) || bool_decide (c = x09) || bool_decide (c = x0a) || bool_decide (c = x0d).

Definition find_keyword (word : bytes) : option TokenType :=
  snd <$> List.find (fun e => bool_decide (e.1 = word)) KeywordTable.

(** An identifier or keyword: [c] and the characters that continue it. *)
Definition lex_word (start : Z) (c : byte) (s : bytes) : Token * bytes :=
  let '(cont, rest) := span IsIdentCont s in
  let word := c :: cont in
  (mkToken (default kIdentifier (find_keyword (ToUpper word))) word 0 start, rest).

(** An integer literal; [std::stoll] throws when the value does not fit. *)
Definition lex_integer (start : Z) (s : bytes) : outcome (Token * bytes) :=
  let '(neg, s1) := match s with "-"%byte :: s' => (true, s') | _ => (false, s) end in
  let '(ds, rest) := span IsDigit s1 in
  let digits := if neg then "-"%byte :: ds else ds in
  let value := if neg then - digits_value ds else digits_value ds in
  if (- 2 ^ 63 <=? value) && (value <? 2 ^ 63) then Ret (mkToken kIntegerLiteral digits value start, rest)
  else Throw (SqlSyntaxError start).

(** The characters after an opening quote, up to the closing one. *)
Fixpoint string_body (s : bytes) : option (bytes * bytes) :=
  match s with
  | [] => None
  | "'"%byte :: s' =>
      match s' with
      | "'"%byte :: s'' => '(value, rest) ← string_body s''; Some ("'"%byte :: value, rest)
      | _ => Some ([], s')
      end
  | c :: s' => '(value, rest) ← string_body s'; Some (c :: value, rest)
  end.

Definition lex_string (start : Z) (s : bytes) : outcome (Token * bytes) :=
  match string_body s with
  | Some (value, rest) => Ret (mkToken kStringLiteral value 0 start, rest)
  | None => Throw (SqlSyntaxError start)
  end.

(** Punctuation and comparators. *)
Definition lex_symbol (start : Z) (c : byte) (s : bytes) : outcome (Token * bytes) :=
  let token t text := mkToken t text 0 start in
  match c with
  | "("%byte => Ret (token kLParen (str "("), s)
  | ")"%byte => Ret (token kRParen (str ")"), s)
  | ","%byte => Ret (token kComma (str ","), s)
  | "."%byte => Ret (token kDot (str "."), s)
  | "*"%byte => Ret (token kStar (str "*"), s)
  | ";"%byte => Ret (token kSemicolon (str ";"), s)
  | "="%byte => Ret (token kEq (str "="), s)
  | "!"%byte => match s with "="%byte :: s' => Ret (token kNeq (str "!="), s') | _ => Throw (SqlSyntaxError start) end
  | "<"%byte => match s with "="%byte :: s' => Ret (token kLe (str "<="), s') | _ => Ret (token kLt (str "<"), s) end
  | ">"%byte => match s with "="%byte :: s' => Ret (token kGe (str ">="), s') | _ => Ret (token kGt (str ">"), s) end
  | _ => Throw (SqlSyntaxError start)
  end.

Definition starts_digit (s : bytes) : bool := match s with d :: _ => IsDigit d | [] => false end.

(** One turn of the loop: [None] for a blank. *)
Definition lex_one (start : Z) (c : byte) (s : bytes) : outcome (option Token * bytes) :=
  if is_blank c then Ret (None, s) else
  '(t, rest) ←
    (if IsIdentStart c then Ret (lex_word start c s)
     else if IsDigit c || (bool_decide (c = "-"%byte) && starts_digit s) then lex_integer start (c :: s)
     else if bool_decide (c = "'"%byte) then lex_string start s
     else lex_symbol start c s);
  Ret (Some t, rest).

(** The loop; a turn takes at least one character, so the length of the input
    bounds the turns. *)
Fixpoint tokenize_loop (fuel : nat) (pos : Z) (s : bytes) : outcome (list Token) :=
  match s, fuel with
  | [], _ => Ret [mkToken kEndOfInput [] 0 pos]
  | _, O => Undefined
  | c :: s', S fuel' =>
      '(t, rest) ← lex_one pos c s';
      ts ← tokenize_loop fuel' (pos + (zlen s - zlen rest)) rest;
      Ret (option_list t ++ ts)
  end.

Definition Tokenize (sql : bytes) : outcome (list Token) := tokenize_loop (length sql) 0 sql.

Example Tokenize_example :
  match Tokenize (str "select x<=-12 'a''b';") with
  | Ret ts => map (fun t => (tk_type t, tk_text t, tk_int_value t, tk_position t)) ts
  | _ => []
  end =
  [(kSelect, str "select", 0, 0); (kIdentifier, str "x", 0, 7); (kLe, str "<=", 0, 8); (kIntegerLiteral, str "-12", -12, 10);
   (kStringLiteral, str "a'b", 0, 14); (kSemicolon, str ";", 0, 20); (kEndOfInput, [], 0, 21)].
Proof. reflexivity. Qed.

(** ** Lemmas *)

(** What a turn of the loop can do: fail at its own position, or take some
    characters off the input. *)
Definition turn_ok (start : Z) (s : bytes) (o : outcome (Token * bytes)) : Prop :=
  o = Throw (SqlSyntaxError start) \/
  exists t k rest, o = Ret (t, rest) /\ s = k ++ rest /\ tk_position t = start /\ tk_type t <> kEndOfInput.

Lemma find_keyword_type w ty : find_keyword w = Some ty -> ty <> kEndOfInput /\ w = TokenTypeName ty.
Proof.
  unfold find_keyword. destruct (List.find _ KeywordTable) as [[w' ty']|] eqn:E; [|done]. intros [= <-].
  apply find_some in E as [E1 E2%bool_decide_eq_true]. cbn in E2. subst w'.
  cbn [KeywordTable In] in E1. repeat (destruct E1 as [[= <- <-]|E1]; [done|]). done.
Qed.

Lemma lex_word_ok start c s : turn_ok start s (Ret (lex_word start c s)).
Proof.
  right. unfold lex_word. pose proof (span_eq IsIdentCont s) as E. destruct (span IsIdentCont s) as [k rest]. cbn in E.
  do 3 eexists. split_and!; [done|exact E|done|].
  cbn [tk_type]. destruct (find_keyword (ToUpper (c :: k))) as [ty|] eqn:Ek; [|done]. cbn. by apply find_keyword_type in Ek as [? _].
Qed.

(** How an integer literal ends, once its digits are known. *)
Lemma integer_end_ok start s neg ds k rest digits :
  s = k ++ rest ->
  let value := if neg : bool then - digits_value ds else digits_value ds in
  turn_ok start s (if (- 2 ^ 63 <=? value) && (value <? 2 ^ 63) then Ret (mkToken kIntegerLiteral digits value start, rest) else Throw (SqlSyntaxError start)).
Proof. intros E. cbn zeta. destruct (_ && _); [|by left]. right. do 3 eexists. split_and!; [done|exact E|done|done]. Qed.

Lemma lex_integer_ok start c s : c = "-"%byte \/ IsDigit c = true -> turn_ok start s (lex_integer start (c :: s)).
Proof.
  intros Hc. destruct (decide (c = "-"%byte)) as [->|Hne].
  - unfold lex_integer. pose proof (span_eq IsDigit s) as E. destruct (span IsDigit s) as [ds rest]. by apply (integer_end_ok start s true ds ds).
  - destruct Hc as [?|Hd]; [done|]. assert (lex_integer start (c :: s) = let '(ds, rest) := span IsDigit (c :: s) in
      if (- 2 ^ 63 <=? digits_value ds) && (digits_value ds <? 2 ^ 63) then Ret (mkToken kIntegerLiteral ds (digits_value ds) start, rest)
      else Throw (SqlSyntaxError start)) as -> by (unfold lex_integer; by destruct c).
    pose proof (span_eq IsDigit s) as E. cbn [span]. rewrite Hd. destruct (span IsDigit s) as [ds rest].
    by apply (integer_end_ok start s false (c :: ds) ds).
Qed.

Lemma string_body_ok s value rest : string_body s = Some (value, rest) -> exists k, s = k ++ rest.
Proof.
  remember (length s) as n eqn:Hn. revert s value rest Hn. induction (lt_wf n) as [n _ IH]. intros s value rest ->.
  destruct s as [|c s]; [done|]. intros H.
  assert (forall s' v r, (length s' < length (c :: s))%nat -> string_body s' = Some (v, r) -> exists k, s' = k ++ r) as IH' by (intros; by eapply IH).
  clear IH. destruct (decide (c = "'"%byte)) as [->|Hne].
  - destruct s as [|d s]; [injection H as <- <-; by exists ["'"%byte]|]. destruct (decide (d = "'"%byte)) as [->|Hd].
    + cbn [string_body] in H. destruct (string_body s) as [[v r]|] eqn:E; [|done]. injection H as <- <-.
      destruct (IH' s v r) as [k ->]; [cbn; lia|done|]. by exists ("'"%byte :: "'"%byte :: k).
    + assert (Some ([], d :: s) = Some (value, rest)) as [= <- <-] by (rewrite <- H; by destruct d). by exists ["'"%byte].
  - assert (string_body (c :: s) = ('(v, r) ← string_body s; Some (c :: v, r))) as E by (by destruct c). rewrite E in H.
    destruct (string_body s) as [[v r]|] eqn:Es; [|done]. injection H as <- <-. destruct (IH' s v r) as [k ->]; [cbn; lia|done|]. by exists (c :: k).
Qed.

Lemma lex_string_ok start s : turn_ok start s (lex_string start s).
Proof.
  unfold lex_string. destruct (string_body s) as [[v r]|] eqn:E; [|by left]. apply string_body_ok in E as [k E]. right. do 3 eexists. by split_and!.
Qed.

Lemma lex_symbol_ok start c s : turn_ok start s (lex_symbol start c s).
Proof.
  unfold lex_symbol. destruct c; try (by left);
    try (right; do 3 eexists; split_and!; [done|exact (eq_sym (app_nil_l s))|done|done]);
    (destruct s as [|d s]; [|destruct (decide (d = "="%byte)) as [->|Hd]; [right; do 3 eexists; split_and!; [done|exact (eq_refl (["="%byte] ++ s))|done|done]|]]);
    try (by left); try (right; do 3 eexists; split_and!; [done|exact (eq_refl ([] ++ []))|done|done]);
    destruct d; try done; first [by left|right; do 3 eexists; split_and!; [done|exact (eq_sym (app_nil_l _))|done|done]].
Qed.

(** One turn: a blank, a token at the position, or an error there. *)
Lemma lex_one_ok start c s :
  lex_one start c s = Throw (SqlSyntaxError start) \/
  exists o k rest, lex_one start c s = Ret (o, rest) /\ s = k ++ rest /\ forall t, o = Some t -> tk_position t = start /\ tk_type t <> kEndOfInput.
Proof.
  unfold lex_one. destruct (is_blank c); [right; exists None, [], s; done|].
  set (o := if IsIdentStart c then _ else _). assert (turn_ok start s o) as Ho.
  { unfold o. destruct (IsIdentStart c); [apply lex_word_ok|]. destruct (IsDigit c || _) eqn:Ed.
    - apply lex_integer_ok. apply orb_true_iff in Ed as [Ed|[Ed%bool_decide_eq_true _]%andb_true_iff]; auto.
    - destruct (bool_decide (c = "'"%byte)); [apply lex_string_ok|apply lex_symbol_ok]. }
  destruct Ho as [-> |(t & k & rest & -> & -> & Hp & Ht)]; [by left|]. right. exists (Some t), k, rest. split_and!; [done|done|]. intros ? [= <-]. done.
Qed.

Definition end_token (pos : Z) : Token := mkToken kEndOfInput [] 0 pos.

(** The tokens found between two positions. *)
Definition tokens_ok (lo hi : Z) (ts : list Token) : Prop :=
  StronglySorted Z.lt (tk_position <$> ts) /\ Forall (fun t => lo <= tk_position t < hi /\ tk_type t <> kEndOfInput) ts.

Lemma tokenize_loop_ok fuel pos s :
  (length s <= fuel)%nat ->
  (exists p, tokenize_loop fuel pos s = Throw (SqlSyntaxError p) /\ pos <= p < pos + zlen s) \/
  exists ts, tokenize_loop fuel pos s = Ret (ts ++ [end_token (pos + zlen s)]) /\ tokens_ok pos (pos + zlen s) ts.
Proof.
  revert pos s. induction fuel as [|fuel IH]; intros pos [|c s] Hl; cbn [length] in Hl; try lia; cbn [tokenize_loop].
  1, 2: right; exists []; change (zlen []) with 0; rewrite Z.add_0_r; split; [done|split; constructor].
  assert (zlen (c :: s) = zlen s + 1) as Hz by (unfold zlen; cbn; lia). pose proof (zlen_nonneg s).
  destruct (lex_one_ok pos c s) as [-> |(o & k & rest & -> & -> & Ho)]; [left; exists pos; split; [done|lia]|].
  cbn [mbind outcome_bind]. rewrite zlen_app in *. rewrite length_app in Hl. pose proof (zlen_nonneg k). pose proof (zlen_nonneg rest).
  destruct (IH (pos + (zlen (c :: k ++ rest) - zlen rest)) rest) as [(p & -> & Hp)|(ts & -> & Hs & Hts)]; [lia|left|right];
    rewrite Hz in *; cbn [mbind outcome_bind].
  - exists p. split; [done|lia].
  - exists (option_list o ++ ts). rewrite <- app_assoc.
    replace (pos + (zlen k + zlen rest + 1 - zlen rest) + zlen rest) with (pos + (zlen k + zlen rest + 1)) in * by lia.
    split; [done|]. destruct o as [t|]; cbn [option_list app].
    + destruct (Ho t eq_refl) as [Hp Ht]. split; [|constructor; [split; [lia|done]|eapply Forall_impl; [exact Hts|]; intros t' [? ?]; split; [lia|done]]].
      cbn. constructor; [done|]. apply Forall_fmap. eapply Forall_impl; [exact Hts|]. intros t' [? ?]. cbn. lia.
    + split; [done|]. eapply Forall_impl; [exact Hts|]. intros t' [? ?]. split; [lia|done].
Qed.

(** ** Writing tokens *)

(** The spelling of a token without payload. *)
Definition symbol (t : TokenType) : bytes :=
  match t with
  | kLParen => str "(" | kRParen => str ")" | kComma => str "," | kDot => str "." | kStar => str "*"
  | kEq => str "=" | kNeq => str "!=" | kLt => str "<" | kLe => str "<=" | kGt => str ">" | kGe => str ">="
  | kSemicolon => str ";"
  | _ => TokenTypeName t
  end.

Definition int_text (z : Z) : bytes := if z <? 0 then "-"%byte :: decimal (- z) else decimal z.

Fixpoint quote (s : bytes) : bytes :=
  match s with
  | [] => []
  | c :: s' => if bool_decide (c = "'"%byte) then "'"%byte :: "'"%byte :: quote s' else c :: quote s'
  end.

(** A token to write: its type and payload, without a position. *)
Definition symbol_token (t : TokenType) : Token := mkToken t (symbol t) 0 0.
Definition ident_token (s : bytes) : Token := mkToken kIdentifier s 0 0.
Definition int_token (z : Z) : Token := mkToken kIntegerLiteral (int_text z) z 0.
Definition string_token (s : bytes) : Token := mkToken kStringLiteral s 0 0.

Definition lexeme (t : Token) : bytes :=
  match tk_type t with
  | kIdentifier | kIntegerLiteral => tk_text t
  | kStringLiteral => "'"%byte :: quote (tk_text t) ++ ["'"%byte]
  | ty => symbol ty
  end.

(** A name the lexer takes for an identifier. *)
Definition plain_name (s : bytes) : Prop :=
  match s with
  | [] => False
  | c :: s' => IsIdentStart c = true /\ Forall (fun c => IsIdentCont c = true) s' /\ find_keyword (ToUpper s) = None
  end.

#[global] Instance plain_name_dec s : Decision (plain_name s).
Proof. unfold plain_name. destruct s; apply _. Defined.

Definition has_payload (t : TokenType) : bool :=
  match t with kIdentifier | kIntegerLiteral | kStringLiteral | kEndOfInput => true | _ => false end.

Inductive writable : Token -> Prop :=
| writable_symbol t : has_payload t = false -> writable (symbol_token t)
| writable_ident s : plain_name s -> writable (ident_token s)
| writable_int z : int64_ok z -> writable (int_token z)
| writable_string s : writable (string_token s).

Definition at_position (p : Z) (t : Token) : Token := mkToken (tk_type t) (tk_text t) (tk_int_value t) p.

Lemma IsIdentStart_not_blank c : IsIdentStart c = true -> is_blank c = false.
Proof. destruct c; by vm_compute. Qed.

Lemma digit_class c : isdigit c = true -> is_blank c = false /\ IsIdentStart c = false /\ c <> "-"%byte.
Proof. destruct c; by vm_compute. Qed.

Lemma string_body_quote s rest :
  string_body (quote s ++ "'"%byte :: x20 :: rest) = Some (s, x20 :: rest).
Proof.
  induction s as [|c s IH]; [done|]. cbn [quote]. case_bool_decide as E.
  - subst. cbn [app string_body]. by rewrite IH.
  - assert (forall r, string_body (c :: r) = ('(v, r) ← string_body r; Some (c :: v, r))) as Hc by (intros r; by destruct c).
    cbn [app]. by rewrite Hc, IH.
Qed.

Lemma lex_digits pos ds rest z :
  ds <> [] -> Forall (fun c => isdigit c = true) ds -> digits_value ds = z -> z < 2 ^ 63 -> 0 <= z ->
  lex_integer pos (ds ++ x20 :: rest) = Ret (mkToken kIntegerLiteral ds z pos, x20 :: rest).
Proof.
  intros Hne Hd Hv Hz H0. destruct ds as [|d ds]; [done|]. pose proof (proj1 (Forall_cons _ _ _) Hd) as [Hd0 _].
  assert (lex_integer pos ((d :: ds) ++ x20 :: rest) = let '(ds', rest') := span IsDigit ((d :: ds) ++ x20 :: rest) in
    if (- 2 ^ 63 <=? digits_value ds') && (digits_value ds' <? 2 ^ 63) then Ret (mkToken kIntegerLiteral ds' (digits_value ds') pos, rest')
    else Throw (SqlSyntaxError pos)) as -> by (destruct (digit_class d Hd0) as (_ & _ & Hm); unfold lex_integer; by destruct d).
  rewrite (span_app IsDigit (d :: ds) x20 rest) by done. rewrite Hv.
  rewrite (proj2 (Z.leb_le _ _)), (proj2 (Z.ltb_lt _ _)) by lia. done.
Qed.

(** A lexeme followed by a blank is read back as its token. *)
Lemma lex_lexeme t pos rest :
  writable t -> exists c s, lexeme t ++ x20 :: rest = c :: s /\ lex_one pos c s = Ret (Some (at_position pos t), x20 :: rest).
Proof.
  intros [ty Hty|s Hs|z Hz|s].
  - destruct ty; try done; by do 2 eexists.
  - destruct s as [|c s]; [done|]. destruct Hs as (Hc & Hs & Hk). exists c, (s ++ x20 :: rest). split; [done|].
    unfold lex_one. rewrite IsIdentStart_not_blank, Hc by done. unfold lex_word. rewrite span_app by done. cbn [mbind outcome_bind].
    by rewrite Hk.
  - unfold lexeme, int_token, int_text. cbn [tk_type tk_text]. unfold int64_ok in Hz. destruct (Z.ltb_spec z 0) as [Hneg|Hpos].
    + destruct (decimal_ok (- z)) as (Hv & Hd & Hne); [lia|]. exists "-"%byte, (decimal (- z) ++ x20 :: rest). split; [done|].
      unfold lex_one. assert (starts_digit (decimal (- z) ++ x20 :: rest) = true) as Hsd.
      { destruct (decimal (- z)); [done|]. by apply Forall_cons in Hd as [? _]. }
      change (is_blank "-") with false. change (IsIdentStart "-") with false. change (IsDigit "-") with false. rewrite Hsd.
      change (false || bool_decide ("-"%byte = "-"%byte) && true) with true. unfold lex_integer. rewrite (span_app IsDigit (decimal (- z)) x20 rest) by done.
      rewrite Hv, Z.opp_involutive. rewrite (proj2 (Z.leb_le _ _)), (proj2 (Z.ltb_lt _ _)) by lia.
      done.
    + destruct (decimal_ok z) as (Hv & Hd & Hne); [lia|]. pose proof (fun H1 H2 => lex_digits pos (decimal z) rest z Hne Hd Hv H1 H2) as Hlex.
      destruct (decimal z) as [|d ds] eqn:Ed; [done|]. apply Forall_cons in Hd as [Hd0 Hd].
      exists d, (ds ++ x20 :: rest). split; [done|]. destruct (digit_class d Hd0) as (Hb & Hi & Hm). unfold lex_one. rewrite Hb, Hi.
      change (IsDigit d) with (isdigit d). rewrite Hd0. cbn [orb]. cbn [app] in Hlex. rewrite Hlex by lia. done.
  - exists "'"%byte, (quote s ++ "'"%byte :: x20 :: rest). split; [cbn; by rewrite <- app_assoc|]. unfold lex_one. cbn [is_blank].
    change (is_blank "'") with false. change (IsIdentStart "'") with false. change (IsDigit "'" || _) with false.
    change (bool_decide ("'"%byte = "'"%byte)) with true. unfold lex_string. rewrite string_body_quote. done.
Qed.

(** Tokens with a blank after each. *)
Definition render (ts : list Token) : bytes := concat ((fun t => lexeme t ++ [x20]) <$> ts).

Definition same (t t' : Token) : Prop := tk_type t' = tk_type t /\ tk_text t' = tk_text t /\ tk_int_value t' = tk_int_value t.

Lemma tokenize_render ts fuel pos :
  Forall writable ts -> (length (render ts) <= fuel)%nat ->
  exists ts', tokenize_loop fuel pos (render ts) = Ret (ts' ++ [end_token (pos + zlen (render ts))]) /\ Forall2 same ts ts'.
Proof.
  intros H. revert fuel pos. induction H as [|t ts Ht Hts IH]; intros fuel pos Hf.
  { exists []. change (zlen (render [])) with 0. rewrite Z.add_0_r. by destruct fuel. }
  assert (render (t :: ts) = lexeme t ++ x20 :: render ts) as E by (unfold render; cbn; by rewrite <- app_assoc). rewrite E in Hf |- *.
  destruct (lex_lexeme t pos (render ts) Ht) as (c & s & Hcs & Hlex). rewrite Hcs in Hf |- *.
  assert (length (c :: s) = length (lexeme t) + 1 + length (render ts))%nat as Hlen by (rewrite <- Hcs, length_app; cbn; lia).
  assert (1 <= length (lexeme t))%nat as Hl1.
  { destruct (lexeme t) as [|? ?] eqn:El; [|cbn; lia]. injection Hcs as <- <-. unfold lex_one in Hlex. by change (is_blank x20) with true in Hlex. }
  destruct fuel as [|[|fuel]]; [cbn in Hf; lia|lia|]. cbn [tokenize_loop]. rewrite Hlex. cbn [mbind outcome_bind option_list tokenize_loop].
  change (lex_one _ x20 (render ts)) with (Ret (None : option Token, render ts)). cbn [mbind outcome_bind option_list app].
  set (p' := pos + _ + _). destruct (IH fuel p') as (ts' & -> & Hs); [lia|]. cbn [mbind outcome_bind app].
  exists (at_position pos t :: ts'). split; [|by constructor].
  assert (p' + zlen (render ts) = pos + zlen (c :: s)) as -> by (unfold p', zlen; rewrite Hlen; cbn [length]; lia). done.
Qed.
