(* ===== verification/Parser.v ===== *)
(** * Parser: the recursive-descent parser of [src/sql/parser.cpp]

    The state is what is left of the token vector: [Peek] looks at its head,
    [Advance] drops it unless it is the end token. Reading past the end of
    the vector is undefined. A loop runs for at most as many turns as there
    are tokens left, each turn taking at least one. *)
From Stdlib Require Import Sorted.
From S2P Require Import Prelude Config DiskManager Text Catalog Ast Lexer.

Abbreviation P := (M (list Token)).

Definition Peek : P Token := fun ts => match ts with t :: _ => (Ret t, ts) | [] => (Undefined, ts) end.

Definition CheckType (type : TokenType) : P bool := t ← Peek; mret (bool_decide (tk_type t = type)).

Definition Advance : P Token := fun ts =>
  match ts with
  | t :: ts' => (Ret t, if bool_decide (tk_type t = TokenType.kEndOfInput) then ts else ts')
  | [] => (Undefined, ts)
  end.

Definition Match (type : TokenType) : P bool :=
  b ← CheckType type;
  if b : bool then Advance;; mret true else mret false.

(** A syntax error at the next token. *)
Definition syntax_error {A} : P A := t ← Peek; throw (SqlSyntaxError (tk_position t)).

Definition Expect (type : TokenType) : P Token :=
  b ← CheckType type;
  if b : bool then Advance else syntax_error.

Definition ExpectIdentifier : P bytes := t ← Expect TokenType.kIdentifier; mret (tk_text t).

Definition ExpectLiteral : P LiteralValue :=
  b ← CheckType TokenType.kIntegerLiteral;
  if b : bool then t ← Advance; mret (int_literal (tk_int_value t)) else
  b ← CheckType TokenType.kStringLiteral;
  if b : bool then t ← Advance; mret (string_literal (tk_text t)) else
  syntax_error.

Definition ExpectColumnType : P ColumnType :=
  b ← Match TokenType.kInteger;
  if b : bool then mret ColumnType.kInteger else
  b ← Match TokenType.kText;
  if b : bool then mret ColumnType.kText else
  syntax_error.

Definition ParseColumnRef : P ColumnRef :=
  first ← ExpectIdentifier;
  b ← Match TokenType.kDot;
  if b : bool then second ← ExpectIdentifier; mret (mkColumnRef (Some first) second)
  else mret (mkColumnRef None first).

Definition ExpectComparator : P Comparator :=
  b ← Match TokenType.kEq; if b : bool then mret Comparator.kEq else
  b ← Match TokenType.kNeq; if b : bool then mret Comparator.kNeq else
  b ← Match TokenType.kLt; if b : bool then mret Comparator.kLt else
  b ← Match TokenType.kLe; if b : bool then mret Comparator.kLe else
  b ← Match TokenType.kGt; if b : bool then mret Comparator.kGt else
  b ← Match TokenType.kGe; if b : bool then mret Comparator.kGe else
  syntax_error.

Definition ParsePredicate : P Predicate :=
  column ← ParseColumnRef;
  op ← ExpectComparator;
  value ← ExpectLiteral;
  mret (mkPredicate column op value).

(** [while (Match(sep)) out.push_back(item())]. *)
Fixpoint while_match {A} (fuel : nat) (sep : TokenType) (item : P A) : P (list A) :=
  match fuel with
  | O => undefined
  | S fuel' =>
      b ← Match sep;
      if b : bool then a ← item; l ← while_match fuel' sep item; mret (a :: l) else mret []
  end.

(** An item, then more of them after separators. *)
Definition ParseList {A} (sep : TokenType) (item : P A) : P (list A) :=
  a ← item;
  n ← gets length;
  l ← while_match (S n) sep item;
  mret (a :: l).

Definition ParseWhereClause : P (list Predicate) :=
  Expect TokenType.kWhere;;
  ParseList TokenType.kAnd ParsePredicate.

Definition ParseOptionalWhereClause : P (list Predicate) :=
  b ← CheckType TokenType.kWhere;
  if b : bool then ParseWhereClause else mret [].

Fixpoint columns_loop (fuel : nat) (columns : list ColumnDef) (pk : option bytes) : P (list ColumnDef * option bytes) :=
  match fuel with
  | O => undefined
  | S fuel' =>
      col_name ← ExpectIdentifier;
      col_type ← ExpectColumnType;
      let columns := columns ++ [mkColumn col_name col_type] in
      b ← Match TokenType.kPrimary;
      pk ← (if b : bool then
              Expect TokenType.kKey;;
              match pk with Some _ => syntax_error | None => mret (Some col_name) end
            else mret pk);
      b ← Match TokenType.kComma;
      if b : bool then columns_loop fuel' columns pk else mret (columns, pk)
  end.

Definition ParseCreateTable : P CreateTableStatement :=
  Expect TokenType.kTable;;
  table_name ← ExpectIdentifier;
  Expect TokenType.kLParen;;
  n ← gets length;
  '(columns, pk) ← columns_loop (S n) [] None;
  Expect TokenType.kRParen;;
  mret (mkCreateTable table_name columns pk).

Definition ParseCreateIndex : P CreateIndexStatement :=
  Expect TokenType.kIndex;;
  index_name ← ExpectIdentifier;
  Expect TokenType.kOn;;
  table_name ← ExpectIdentifier;
  Expect TokenType.kLParen;;
  column_name ← ExpectIdentifier;
  Expect TokenType.kRParen;;
  mret (mkCreateIndex index_name table_name column_name).

Definition ParseInsert : P InsertStatement :=
  Expect TokenType.kInto;;
  table_name ← ExpectIdentifier;
  Expect TokenType.kValues;;
  Expect TokenType.kLParen;;
  values ← ParseList TokenType.kComma ExpectLiteral;
  Expect TokenType.kRParen;;
  mret (mkInsert table_name values).

Definition ParseJoinClause : P JoinClause :=
  Expect TokenType.kJoin;;
  table_name ← ExpectIdentifier;
  Expect TokenType.kOn;;
  left_column ← ParseColumnRef;
  Expect TokenType.kEq;;
  right_column ← ParseColumnRef;
  mret (mkJoin table_name left_column right_column).

Definition ParseSelect : P SelectStatement :=
  star ← Match TokenType.kStar;
  select_list ← (if star : bool then mret [] else ParseList TokenType.kComma ParseColumnRef);
  Expect TokenType.kFrom;;
  from_table ← ExpectIdentifier;
  b ← CheckType TokenType.kJoin;
  join ← (if b : bool then j ← ParseJoinClause; mret (Some j) else mret None);
  where_predicates ← ParseOptionalWhereClause;
  mret (mkSelect star select_list from_table join where_predicates).

Definition parse_assignment : P Assignment :=
  column_name ← ExpectIdentifier;
  Expect TokenType.kEq;;
  value ← ExpectLiteral;
  mret (mkAssignment column_name value).

Definition ParseUpdate : P UpdateStatement :=
  table_name ← ExpectIdentifier;
  Expect TokenType.kSet;;
  assignments ← ParseList TokenType.kComma parse_assignment;
  where_predicates ← ParseOptionalWhereClause;
  mret (mkUpdate table_name assignments where_predicates).

Definition ParseDelete : P DeleteStatement :=
  Expect TokenType.kFrom;;
  table_name ← ExpectIdentifier;
  where_predicates ← ParseOptionalWhereClause;
  mret (mkDelete table_name where_predicates).

Definition ParseOneStatement : P Statement :=
  b ← Match TokenType.kCreate;
  if b : bool then
    b ← CheckType TokenType.kTable;
    if b : bool then s ← ParseCreateTable; mret (CreateTableStmt s) else
    b ← CheckType TokenType.kIndex;
    if b : bool then s ← ParseCreateIndex; mret (CreateIndexStmt s) else
    syntax_error
  else
  b ← Match TokenType.kInsert; if b : bool then s ← ParseInsert; mret (InsertStmt s) else
  b ← Match TokenType.kSelect; if b : bool then s ← ParseSelect; mret (SelectStmt s) else
  b ← Match TokenType.kUpdate; if b : bool then s ← ParseUpdate; mret (UpdateStmt s) else
  b ← Match TokenType.kDelete; if b : bool then s ← ParseDelete; mret (DeleteStmt s) else
  b ← Match TokenType.kBegin; if b : bool then mret BeginStmt else
  b ← Match TokenType.kCommit; if b : bool then mret CommitStmt else
  b ← Match TokenType.kRollback; if b : bool then mret RollbackStmt else
  syntax_error.

Definition ParseStatementTopLevel : P Statement :=
  stmt ← ParseOneStatement;
  Match TokenType.kSemicolon;;
  b ← CheckType TokenType.kEndOfInput;
  if b : bool then mret stmt else syntax_error.

Definition Parse (sql : bytes) : outcome Statement :=
  tokens ← Tokenize sql;
  (ParseStatementTopLevel tokens).1.

(** The fuzzing entry point ([src/sql/fuzz_parser.cpp]): it catches syntax
    errors and lets everything else through. *)
Definition LLVMFuzzerTestOneInput (data : bytes) : outcome Z :=
  match Parse data with
  | Ret _ | Throw (SqlSyntaxError _) => Ret 0
  | Throw e => Throw e
  | Sleep key => Sleep key
  | Undefined => Undefined
  end.

Example Parse_example :
  Parse (str "SELECT t.a, b FROM t WHERE a >= -3 AND b != 'x';") =
  Ret (SelectStmt (mkSelect false [mkColumnRef (Some (str "t")) (str "a"); mkColumnRef None (str "b")] (str "t") None
    [mkPredicate (mkColumnRef None (str "a")) Comparator.kGe (int_literal (-3));
     mkPredicate (mkColumnRef None (str "b")) Comparator.kNeq (string_literal (str "x"))])).
Proof. reflexivity. Qed.

(** ** Every parser function stays inside the tokens *)

(** A vector with one end token, its last. *)
Definition ended (ts : list Token) : Prop :=
  exists pre e, ts = pre ++ [e] /\ tk_type e = TokenType.kEndOfInput /\ Forall (fun t => tk_type t <> TokenType.kEndOfInput) pre.

(** Ends with the tokens behind the ones it took, or with a syntax error at
    one of the tokens it was given. *)
Definition safe_on {A} (item : P A) (ts : list Token) : Prop :=
  match item ts with
  | (Ret _, ts') => ended ts' /\ exists k, ts = k ++ ts'
  | (Throw (SqlSyntaxError p), _) => exists t, t ∈ ts /\ tk_position t = p
  | _ => False
  end.

Definition safe {A} (item : P A) : Prop := forall ts, ended ts -> safe_on item ts.

Lemma ended_cons ts : ended ts -> exists t ts', ts = t :: ts' /\
  (tk_type t = TokenType.kEndOfInput /\ ts' = [] \/ tk_type t <> TokenType.kEndOfInput /\ ended ts').
Proof.
  intros (pre & e & -> & He & Hp). destruct pre as [|t pre]; [by exists e, []; auto|].
  apply Forall_cons in Hp as [Ht Hp]. exists t, (pre ++ [e]). split; [done|]. right. split; [done|]. by exists pre, e.
Qed.

Lemma safe_on_bind {A B} (m : P A) (k : A -> P B) ts :
  safe_on m ts ->
  (forall a ts', m ts = (Ret a, ts') -> ended ts' -> (length ts' <= length ts)%nat -> safe_on (k a) ts') ->
  safe_on (m ≫= k) ts.
Proof.
  intros Hm Hk. unfold safe_on, mbind, M_bind in *.
  destruct (m ts) as [[a|e|key|] ts1]; try done. destruct Hm as [He [k1 ->]].
  specialize (Hk a ts1 eq_refl He ltac:(rewrite length_app; lia)).
  destruct (k a ts1) as [[b|e|key|] ts2]; try done.
  - destruct Hk as [He2 [k2 ->]]. split; [done|]. exists (k1 ++ k2). by rewrite app_assoc.
  - destruct e; try done. destruct Hk as (t & Hin & Hp). exists t. split; [set_solver|done].
Qed.

Lemma safe_bind {A B} (m : P A) (k : A -> P B) : safe m -> (forall a, safe (k a)) -> safe (m ≫= k).
Proof. intros Hm Hk ts Hts. apply safe_on_bind; [by apply Hm|]. intros a ts' _ Hts' _. by apply Hk. Qed.

Lemma safe_on_gets {A B} (f : list Token -> A) (k : A -> P B) ts : safe_on (k (f ts)) ts -> safe_on (gets f ≫= k) ts.
Proof. done. Qed.

Lemma safe_ret {A} (a : A) : safe (mret a).
Proof. intros ts Hts. split; [done|]. by exists []. Qed.

Lemma safe_Peek : safe Peek.
Proof. intros ts Hts. destruct (ended_cons ts Hts) as (t & ts' & -> & _). split; [done|]. by exists []. Qed.

Lemma safe_CheckType ty : safe (CheckType ty).
Proof. apply safe_bind; [apply safe_Peek|]. intros. apply safe_ret. Qed.

Lemma safe_Advance : safe Advance.
Proof.
  intros ts Hts. destruct (ended_cons ts Hts) as (t & ts' & -> & [[Ht ->]|[Ht He]]); unfold safe_on, Advance.
  - rewrite bool_decide_eq_true_2 by done. split; [done|]. by exists [].
  - rewrite bool_decide_eq_false_2 by done. split; [done|]. by exists [t].
Qed.

Lemma safe_syntax_error {A} : safe (syntax_error (A := A)).
Proof. intros ts Hts. destruct (ended_cons ts Hts) as (t & ts' & -> & _). exists t. split; [by left|done]. Qed.

Lemma safe_if {A} (b : bool) (m1 m2 : P A) : safe m1 -> safe m2 -> safe (if b then m1 else m2).
Proof. by destruct b. Qed.

Create HintDb parser.
#[export] Hint Resolve safe_bind safe_ret safe_Peek safe_CheckType safe_Advance safe_syntax_error safe_if : parser.

Ltac safe :=
  repeat match goal with
  | |- safe (_ ≫= _) => apply safe_bind
  | |- safe (if _ then _ else _) => apply safe_if
  | |- safe (match ?x with _ => _ end) => destruct x
  | |- safe _ => solve [eauto with parser]
  | |- forall _ : _, _ => intro
  end.

Lemma safe_Match ty : safe (Match ty).
Proof. unfold Match. safe. Qed.

Lemma safe_Expect ty : safe (Expect ty).
Proof. unfold Expect. safe. Qed.
#[export] Hint Resolve safe_Match safe_Expect : parser.

(** A match of anything but the end takes a token. *)
Lemma Match_shrinks ty ts ts' :
  ty <> TokenType.kEndOfInput -> ended ts -> Match ty ts = (Ret true, ts') -> (length ts' < length ts)%nat.
Proof.
  intros Hty Hts. destruct (ended_cons ts Hts) as (t & r & -> & Ht). unfold Match, CheckType, Peek, mbind, M_bind. cbn.
  case_bool_decide as E; [|done]. cbn. rewrite bool_decide_eq_false_2 by congruence. intros [= <-]. lia.
Qed.

(** A loop that matches [sep] before each turn. *)
Lemma safe_while_match {A} sep (item : P A) : sep <> TokenType.kEndOfInput -> safe item ->
  forall fuel ts, ended ts -> (length ts < fuel)%nat -> safe_on (while_match fuel sep item) ts.
Proof.
  intros Hsep Hitem. induction fuel as [|fuel IH]; intros ts Hts Hf; [lia|]. cbn [while_match].
  apply safe_on_bind; [by apply safe_Match|]. intros [] ts1 Hm Hts1 _; [|by apply safe_ret].
  apply Match_shrinks in Hm; [|done..]. apply safe_on_bind; [by apply Hitem|]. intros a ts2 _ Hts2 Hl2.
  apply safe_on_bind; [apply IH; [done|lia]|]. intros l ts3 _ Hts3 _. by apply safe_ret.
Qed.

Lemma safe_ParseList {A} sep (item : P A) : sep <> TokenType.kEndOfInput -> safe item -> safe (ParseList sep item).
Proof.
  intros Hsep Hi. unfold ParseList. apply safe_bind; [done|]. intros a ts Hts. apply safe_on_gets.
  apply safe_on_bind; [by apply safe_while_match; [..|lia]|]. intros l ts' _ Hts' _. by apply safe_ret.
Qed.
#[export] Hint Resolve safe_ParseList : parser.

Lemma safe_ExpectIdentifier : safe ExpectIdentifier.
Proof. unfold ExpectIdentifier. safe. Qed.

Lemma safe_ExpectLiteral : safe ExpectLiteral.
Proof. unfold ExpectLiteral. safe. Qed.

Lemma safe_ExpectColumnType : safe ExpectColumnType.
Proof. unfold ExpectColumnType. safe. Qed.

Lemma safe_ExpectComparator : safe ExpectComparator.
Proof. unfold ExpectComparator. safe. Qed.
#[export] Hint Resolve safe_ExpectIdentifier safe_ExpectLiteral safe_ExpectColumnType safe_ExpectComparator : parser.

Lemma safe_ParseColumnRef : safe ParseColumnRef.
Proof. unfold ParseColumnRef. safe. Qed.
#[export] Hint Resolve safe_ParseColumnRef : parser.

Lemma safe_ParsePredicate : safe ParsePredicate.
Proof. unfold ParsePredicate. safe. Qed.
#[export] Hint Resolve safe_ParsePredicate : parser.

Lemma safe_ParseOptionalWhereClause : safe ParseOptionalWhereClause.
Proof. unfold ParseOptionalWhereClause, ParseWhereClause. safe. Qed.
#[export] Hint Resolve safe_ParseOptionalWhereClause : parser.

Lemma safe_columns_loop fuel columns pk ts :
  ended ts -> (length ts < fuel)%nat -> safe_on (columns_loop fuel columns pk) ts.
Proof.
  revert columns pk ts. induction fuel as [|fuel IH]; intros columns pk ts Hts Hf; [lia|]. cbn [columns_loop].
  apply safe_on_bind; [by apply safe_ExpectIdentifier|]. intros name ts1 _ Hts1 Hl1.
  apply safe_on_bind; [by apply safe_ExpectColumnType|]. intros type ts2 _ Hts2 Hl2. cbn zeta.
  apply safe_on_bind; [by apply safe_Match|]. intros b ts3 _ Hts3 Hl3.
  apply safe_on_bind.
  { revert Hts3. generalize ts3. change (safe (if b then Expect TokenType.kKey;; match pk with Some _ => syntax_error | None => mret (Some name) end else mret pk)).
    safe. }
  intros pk' ts4 _ Hts4 Hl4. apply safe_on_bind; [by apply safe_Match|]. intros [] ts5 Hm Hts5 _; [|by apply safe_ret].
  apply Match_shrinks in Hm; [|done..]. apply IH; [done|lia].
Qed.

Lemma safe_ParseCreateTable : safe ParseCreateTable.
Proof.
  unfold ParseCreateTable. apply safe_bind; [safe|intros _]. apply safe_bind; [safe|intros name]. apply safe_bind; [safe|intros _].
  intros ts Hts. apply safe_on_gets. apply safe_on_bind; [apply safe_columns_loop; [done|lia]|]. intros [columns pk] ts' _ Hts' _.
  assert (safe (Expect TokenType.kRParen;; mret (mkCreateTable name columns pk))) as H by safe. by apply H.
Qed.

Lemma safe_ParseCreateIndex : safe ParseCreateIndex.
Proof. unfold ParseCreateIndex. safe. Qed.

Lemma safe_ParseInsert : safe ParseInsert.
Proof. unfold ParseInsert. safe. Qed.

Lemma safe_ParseJoinClause : safe ParseJoinClause.
Proof. unfold ParseJoinClause. safe. Qed.
#[export] Hint Resolve safe_ParseCreateTable safe_ParseCreateIndex safe_ParseInsert safe_ParseJoinClause : parser.

Lemma safe_ParseSelect : safe ParseSelect.
Proof. unfold ParseSelect. safe. Qed.

Lemma safe_ParseUpdate : safe ParseUpdate.
Proof. unfold ParseUpdate, parse_assignment. safe. Qed.

Lemma safe_ParseDelete : safe ParseDelete.
Proof. unfold ParseDelete. safe. Qed.
#[export] Hint Resolve safe_ParseSelect safe_ParseUpdate safe_ParseDelete : parser.

Lemma safe_ParseOneStatement : safe ParseOneStatement.
Proof. unfold ParseOneStatement. safe. Qed.
#[export] Hint Resolve safe_ParseOneStatement : parser.

Lemma safe_ParseStatementTopLevel : safe ParseStatementTopLevel.
Proof. unfold ParseStatementTopLevel. safe. Qed.

(** The tokens of an input are one such vector. *)
Lemma tokens_ended pos ts lo hi : tokens_ok lo hi ts -> ended (ts ++ [end_token pos]).
Proof.
  intros [_ H]. exists ts, (end_token pos). split_and!; [done|done|]. eapply Forall_impl; [exact H|]. by intros t [_ ?].
Qed.

Lemma Parse_ends (sql : bytes) :
  ((exists stmt, Parse sql = Ret stmt) \/ (exists p, Parse sql = Throw (SqlSyntaxError p) /\ 0 <= p <= zlen sql)) /\
  ((exists ts, Tokenize sql = Ret (ts ++ [end_token (zlen sql)]) /\ tokens_ok 0 (zlen sql) ts) \/
   (exists p, Tokenize sql = Throw (SqlSyntaxError p) /\ 0 <= p < zlen sql)).
Proof.
  unfold Parse. destruct (tokenize_loop_ok (length sql) 0 sql) as [(p & H & Hp)|(ts & H & Hts)]; [done|..]; fold (Tokenize sql) in H; rewrite H.
  - split; [right; exists p; split; [done|lia]|]. right. exists p. split; [done|lia].
  - split; [|by left; exists ts]. cbn [mbind outcome_bind]. pose proof (safe_ParseStatementTopLevel _ (tokens_ended (0 + zlen sql) ts _ _ Hts)) as Hs. unfold safe_on in Hs.
    destruct (ParseStatementTopLevel _) as [[stmt|e|key|] ts']; try done; [left; by exists stmt|]. destruct e as [| | | | |p|]; try done. right. exists p. split; [done|].
    destruct Hs as (t & Hin & <-). apply elem_of_app in Hin as [Hin|Hin].
    + destruct Hts as [_ Hf]. rewrite Forall_forall in Hf. apply Hf in Hin. lia.
    + apply list_elem_of_singleton in Hin as ->. cbn. pose proof (zlen_nonneg sql). lia.
Qed.

(** C39: parsing terminates on every input, without reading outside the token
    vector: [Parse] returns a statement or throws a syntax error whose position
    lies in the input (or at its end), and nothing else; [Tokenize] ends its
    vector with the one end token, positions increasing inside the input. So
    the fuzzing entry point returns on every input: the fuzzer has nothing to
    find. *)
Theorem Parse_total (sql : bytes) :
  ((exists stmt, Parse sql = Ret stmt) \/ (exists p, Parse sql = Throw (SqlSyntaxError p) /\ 0 <= p <= zlen sql)) /\
  ((exists ts, Tokenize sql = Ret (ts ++ [end_token (zlen sql)]) /\ tokens_ok 0 (zlen sql) ts) \/
   (exists p, Tokenize sql = Throw (SqlSyntaxError p) /\ 0 <= p < zlen sql)) /\
  LLVMFuzzerTestOneInput sql = Ret 0.
Proof.
  destruct (Parse_ends sql) as [Hp Ht]. split_and!; [done|done|]. unfold LLVMFuzzerTestOneInput. by destruct Hp as [[stmt ->]|(p & -> & _)].
Qed.
