(* ===== verification/SqlPrint.v ===== *)
(** * SqlPrint: statements written out and parsed back

    The tokens of a statement as [docs/SPEC.md] section 1.2 spells it, and the
    proof that [Parse] reads the text of those tokens back as the statement,
    with or without the trailing semicolon. *)
From S2P Require Import Prelude Config DiskManager Text Catalog Ast Lexer Parser.

Import TokenType.

Notation "$ t" := (symbol_token t) (at level 5, format "$ t") : flint_scope.
Open Scope flint_scope.

(** ** Printing *)

Definition print_ref (r : ColumnRef) : list Token :=
  match cr_table_name r with
  | Some t => [ident_token t; $kDot; ident_token (cr_column_name r)]
  | None => [ident_token (cr_column_name r)]
  end.

Definition print_literal (v : LiteralValue) : Token :=
  match kind v with
  | LiteralKind.kInteger => int_token (int_value v)
  | LiteralKind.kString => string_token (string_value v)
  end.

Definition comparator_type (c : Comparator) : TokenType :=
  match c with
  | Comparator.kEq => kEq | Comparator.kNeq => kNeq | Comparator.kLt => kLt
  | Comparator.kLe => kLe | Comparator.kGt => kGt | Comparator.kGe => kGe
  end.

Definition print_predicate (p : Predicate) : list Token :=
  print_ref (pr_column p) ++ [$(comparator_type (pr_op p)); print_literal (pr_value p)].

(** Items with a separator in front of each but the first. *)
Definition print_more {A} (sep : TokenType) (print : A -> list Token) (l : list A) : list Token :=
  concat ((fun a => $sep :: print a) <$> l).

Definition print_list {A} (sep : TokenType) (print : A -> list Token) (l : list A) : list Token :=
  match l with
  | [] => []
  | a :: l' => print a ++ print_more sep print l'
  end.

Definition print_where (ps : list Predicate) : list Token :=
  match ps with
  | [] => []
  | _ => $kWhere :: print_list kAnd print_predicate ps
  end.

Definition type_token (t : ColumnType) : Token :=
  match t with ColumnType.kInteger => $kInteger | ColumnType.kText => $kText end.

(** The primary key is marked on the first column of that name. *)
Fixpoint print_columns (cols : list ColumnDef) (pk : option bytes) : list Token :=
  match cols with
  | [] => []
  | c :: cols' =>
      let marked := bool_decide (pk = Some (col_name c)) in
      ident_token (col_name c) :: type_token (col_type c) :: (if marked then [$kPrimary; $kKey] else []) ++
      (match cols' with [] => [] | _ => [$kComma] end) ++ print_columns cols' (if marked then None else pk)
  end.

Definition print_join (j : JoinClause) : list Token :=
  $kJoin :: ident_token (jc_table_name j) :: $kOn :: print_ref (jc_left_column j) ++ $kEq :: print_ref (jc_right_column j).

Definition print_assignment (a : Assignment) : list Token :=
  [ident_token (as_column_name a); $kEq; print_literal (as_value a)].

Definition print_statement (s : Statement) : list Token :=
  match s with
  | CreateTableStmt s =>
      $kCreate :: $kTable :: ident_token (ct_table_name s) :: $kLParen ::
      print_columns (ct_columns s) (ct_primary_key_column s) ++ [$kRParen]
  | CreateIndexStmt s =>
      [$kCreate; $kIndex; ident_token (ci_index_name s); $kOn; ident_token (ci_table_name s); $kLParen;
       ident_token (ci_column_name s); $kRParen]
  | InsertStmt s =>
      $kInsert :: $kInto :: ident_token (in_table_name s) :: $kValues :: $kLParen ::
      print_list kComma (fun v => [print_literal v]) (in_values s) ++ [$kRParen]
  | SelectStmt s =>
      $kSelect :: (if se_select_star s then [$kStar] else print_list kComma print_ref (se_select_list s)) ++
      $kFrom :: ident_token (se_from_table s) ::
      (match se_join s with Some j => print_join j | None => [] end) ++ print_where (se_where_predicates s)
  | UpdateStmt s =>
      $kUpdate :: ident_token (up_table_name s) :: $kSet ::
      print_list kComma print_assignment (up_assignments s) ++ print_where (up_where_predicates s)
  | DeleteStmt s => $kDelete :: $kFrom :: ident_token (de_table_name s) :: print_where (de_where_predicates s)
  | BeginStmt => [$kBegin]
  | CommitStmt => [$kCommit]
  | RollbackStmt => [$kRollback]
  end.

(** ** Statements that can be written *)

Definition ref_ok (r : ColumnRef) : Prop :=
  match cr_table_name r with Some t => plain_name t | None => True end /\ plain_name (cr_column_name r).

Definition value_ok (v : LiteralValue) : Prop :=
  match kind v with
  | LiteralKind.kInteger => v = int_literal (int_value v) /\ int64_ok (int_value v)
  | LiteralKind.kString => v = string_literal (string_value v)
  end.

Definition predicate_ok (p : Predicate) : Prop := ref_ok (pr_column p) /\ value_ok (pr_value p).

Definition statement_ok (s : Statement) : Prop :=
  match s with
  | CreateTableStmt s =>
      plain_name (ct_table_name s) /\ ct_columns s <> [] /\ Forall (fun c => plain_name (col_name c)) (ct_columns s) /\
      (forall n, ct_primary_key_column s = Some n -> n ∈ (col_name <$> ct_columns s))
  | CreateIndexStmt s => plain_name (ci_index_name s) /\ plain_name (ci_table_name s) /\ plain_name (ci_column_name s)
  | InsertStmt s => plain_name (in_table_name s) /\ in_values s <> [] /\ Forall value_ok (in_values s)
  | SelectStmt s =>
      (if se_select_star s then se_select_list s = [] else se_select_list s <> []) /\ Forall ref_ok (se_select_list s) /\
      plain_name (se_from_table s) /\
      match se_join s with
      | Some j => plain_name (jc_table_name j) /\ ref_ok (jc_left_column j) /\ ref_ok (jc_right_column j)
      | None => True
      end /\ Forall predicate_ok (se_where_predicates s)
  | UpdateStmt s =>
      plain_name (up_table_name s) /\ up_assignments s <> [] /\
      Forall (fun a => plain_name (as_column_name a) /\ value_ok (as_value a)) (up_assignments s) /\
      Forall predicate_ok (up_where_predicates s)
  | DeleteStmt s => plain_name (de_table_name s) /\ Forall predicate_ok (de_where_predicates s)
  | _ => True
  end.

(** ** Reading tokens *)

(** [item] reads exactly [ts], whatever the positions, and gives [a], when
    the next token is none of [bad]. *)
Definition takes {A} (item : P A) (ts : list Token) (a : A) (bad : list TokenType) : Prop :=
  forall ts' t rest, Forall2 same ts ts' -> ~ (tk_type t ∈ bad) -> item (ts' ++ t :: rest) = (Ret a, t :: rest).

(** The token after [l] is none of [bad1] when the one after [ts] is none of
    [bad2]. *)
Definition head_not (bad1 : list TokenType) (ts : list Token) (bad2 : list TokenType) : bool :=
  match ts with
  | [] => forallb (fun x => bool_decide (x ∈ bad2)) bad1
  | t :: _ => forallb (fun x => negb (bool_decide (tk_type t = x))) bad1
  end.

Lemma head_not_nil ts bad : head_not [] ts bad = true.
Proof. by destruct ts. Qed.

Lemma head_not_next bad1 ts bad2 ts' t rest :
  head_not bad1 ts bad2 = true -> Forall2 same ts ts' -> ~ (tk_type t ∈ bad2) ->
  exists u r, ts' ++ t :: rest = u :: r /\ ~ (tk_type u ∈ bad1).
Proof.
  intros H Hs Hn. unfold head_not in H. destruct Hs as [|t1 u ts ts' Htu Hs]; rewrite forallb_forall in H.
  - exists t, rest. split; [done|]. intros Hin. rewrite list_elem_of_In in Hin. apply H, bool_decide_eq_true in Hin. done.
  - exists u, (ts' ++ t :: rest). split; [done|]. intros Hin. rewrite list_elem_of_In in Hin. apply H, negb_true_iff, bool_decide_eq_false in Hin.
    apply Hin. by destruct Htu as [-> _].
Qed.

Lemma takes_bind {A B} (m : P A) (k : A -> P B) ts1 ts2 a b bad1 bad2 :
  takes m ts1 a bad1 -> takes (k a) ts2 b bad2 -> head_not bad1 ts2 bad2 = true -> takes (m ≫= k) (ts1 ++ ts2) b bad2.
Proof.
  intros H1 H2 Hh ts' t rest (l1 & l2 & Hs1 & Hs2 & ->)%Forall2_app_inv_l Hn.
  destruct (head_not_next _ _ _ _ _ rest Hh Hs2 Hn) as (u & r & E & Hu). rewrite <- app_assoc.
  unfold mbind, M_bind. rewrite E. rewrite (H1 _ _ _ Hs1 Hu). rewrite <- E. by apply H2.
Qed.

Lemma takes_ret {A} (a : A) bad : takes (mret a) [] a bad.
Proof. intros ts' t rest ->%Forall2_nil_inv_l _. done. Qed.

Lemma takes_weaken {A} (m : P A) ts a bad1 bad2 : takes m ts a bad1 -> bad1 ⊆ bad2 -> takes m ts a bad2.
Proof. intros H Hb ts' t rest Hs Hn. apply H; [done|]. set_solver. Qed.

(** The decisions on the next token. *)
Lemma CheckType_run ty t ts : CheckType ty (t :: ts) = (Ret (bool_decide (tk_type t = ty)), t :: ts).
Proof. done. Qed.

Lemma Advance_run t ts : tk_type t <> kEndOfInput -> Advance (t :: ts) = (Ret t, ts).
Proof. intros H. unfold Advance. by rewrite bool_decide_eq_false_2. Qed.

Lemma Match_true t ty ts : tk_type t = ty -> ty <> kEndOfInput -> Match ty (t :: ts) = (Ret true, ts).
Proof.
  intros H Hne. unfold Match. run (CheckType_run ty t ts). rewrite bool_decide_eq_true_2 by done.
  by run (Advance_run t ts ltac:(congruence)).
Qed.

Lemma Match_false t ty ts : tk_type t <> ty -> Match ty (t :: ts) = (Ret false, t :: ts).
Proof. intros H. unfold Match. run (CheckType_run ty t ts). by rewrite bool_decide_eq_false_2. Qed.

Lemma Expect_run t ty ts : tk_type t = ty -> ty <> kEndOfInput -> Expect ty (t :: ts) = (Ret t, ts).
Proof.
  intros H Hne. unfold Expect. run (CheckType_run ty t ts). rewrite bool_decide_eq_true_2 by done. apply Advance_run. congruence.
Qed.

Lemma takes_check_true {A} ty (k : bool -> P A) t ts b bad :
  tk_type t = ty -> takes (k true) (t :: ts) b bad -> takes (CheckType ty ≫= k) (t :: ts) b bad.
Proof.
  intros Ht H ts' u rest Hs Hn. specialize (H _ _ rest Hs Hn). apply Forall2_cons_inv_l in Hs as (t' & l & [Ht' _] & Hs & ->).
  cbn [app] in *. run (CheckType_run ty t' (l ++ u :: rest)). by rewrite bool_decide_eq_true_2 by congruence.
Qed.

Lemma takes_check_head {A} ty (k : bool -> P A) ts b bad :
  tk_type <$> head ts = Some ty -> takes (k true) ts b bad -> takes (CheckType ty ≫= k) ts b bad.
Proof. destruct ts as [|t ts]; [done|]. intros [= Ht]. by apply takes_check_true. Qed.

Lemma takes_check_false {A} ty (k : bool -> P A) ts b bad :
  head_not [ty] ts bad = true -> takes (k false) ts b bad -> takes (CheckType ty ≫= k) ts b bad.
Proof.
  intros Hh H ts' u rest Hs Hn. specialize (H _ _ rest Hs Hn). destruct (head_not_next _ _ _ _ _ rest Hh Hs Hn) as (v & r & E & Hv).
  rewrite E in *. run (CheckType_run ty v r). rewrite bool_decide_eq_false_2; [done|]. set_solver.
Qed.

Lemma takes_advance {A} (k : Token -> P A) t ts b bad :
  tk_type t <> kEndOfInput -> (forall t', same t t' -> takes (k t') ts b bad) -> takes (Advance ≫= k) (t :: ts) b bad.
Proof.
  intros Ht H ts' u rest Hs Hn. apply Forall2_cons_inv_l in Hs as (t' & l & Htt & Hs & ->). pose proof Htt as [E _].
  cbn [app]. run (Advance_run t' (l ++ u :: rest) ltac:(congruence)). by apply H.
Qed.

Lemma takes_match {A} ty (k : bool -> P A) ts b bad :
  ty <> kEndOfInput -> takes (k true) ts b bad -> takes (Match ty ≫= k) ($ty :: ts) b bad.
Proof.
  intros Ht H ts' u rest Hs Hn. apply Forall2_cons_inv_l in Hs as (t' & l & [E _] & Hs & ->).
  cbn [app]. run (Match_true t' ty (l ++ u :: rest) E Ht). by apply H.
Qed.

Lemma takes_no_match {A} ty (k : bool -> P A) ts b bad :
  head_not [ty] ts bad = true -> takes (k false) ts b bad -> takes (Match ty ≫= k) ts b bad.
Proof.
  intros Hh H ts' u rest Hs Hn. specialize (H _ _ rest Hs Hn). destruct (head_not_next _ _ _ _ _ rest Hh Hs Hn) as (v & r & E & Hv).
  rewrite E in *. run (Match_false v ty r ltac:(set_solver)). done.
Qed.

Lemma takes_expect {A} ty (k : Token -> P A) t ts b bad :
  tk_type t = ty -> ty <> kEndOfInput -> (forall t', same t t' -> takes (k t') ts b bad) -> takes (Expect ty ≫= k) (t :: ts) b bad.
Proof.
  intros Ht Hne H ts' u rest Hs Hn. apply Forall2_cons_inv_l in Hs as (t' & l & Htt & Hs & ->). pose proof Htt as [E _].
  cbn [app]. run (Expect_run t' ty (l ++ u :: rest) ltac:(congruence) Hne). by apply H.
Qed.

(** [takes] of a call that ends an item. *)
Lemma takes_last {A B} (m : P A) (f : A -> B) ts a bad : takes m ts a bad -> takes (x ← m; mret (f x)) ts (f a) bad.
Proof. intros H ts' t rest Hs Hn. by run (H ts' t rest Hs Hn). Qed.

Lemma takes_identifier s : takes ExpectIdentifier [ident_token s] s [].
Proof. apply takes_expect; [done|done|]. intros t' (_ & -> & _). apply takes_ret. Qed.

Lemma takes_literal v : value_ok v -> takes ExpectLiteral [print_literal v] v [].
Proof.
  unfold value_ok, print_literal, ExpectLiteral. intros Hv. destruct (kind v).
  - apply takes_check_true; [done|]. apply takes_advance; [done|]. intros t' (_ & _ & ->). destruct Hv as [-> _]. apply takes_ret.
  - apply takes_check_false; [done|]. apply takes_check_true; [done|]. apply takes_advance; [done|]. intros t' (_ & -> & _). rewrite Hv. apply takes_ret.
Qed.

Lemma takes_column_type t : takes ExpectColumnType [type_token t] t [].
Proof.
  unfold ExpectColumnType. destruct t; [apply takes_match; [done|apply takes_ret]|].
  apply takes_no_match; [done|]. apply takes_match; [done|apply takes_ret].
Qed.

Lemma takes_comparator c : takes ExpectComparator [$(comparator_type c)] c [].
Proof.
  unfold ExpectComparator. destruct c; repeat (first [apply takes_match; [done|apply takes_ret]|apply takes_no_match; [done|]]).
Qed.

Lemma takes_ref r : takes ParseColumnRef (print_ref r) r [kDot].
Proof.
  destruct r as [[t|] c]; unfold ParseColumnRef, print_ref; cbn [cr_table_name cr_column_name].
  - apply (takes_bind _ _ [_] _ _ _ _ _ (takes_identifier t)); [|done]. apply takes_match; [done|].
    apply takes_last. eapply takes_weaken; [apply takes_identifier|set_solver].
  - apply (takes_bind _ _ [_] [] _ _ _ _ (takes_identifier c)); [|done]. apply takes_no_match; [done|]. apply takes_ret.
Qed.

Lemma takes_predicate p : value_ok (pr_value p) -> takes ParsePredicate (print_predicate p) p [].
Proof.
  intros Hv. destruct p as [c op v]. unfold ParsePredicate, print_predicate. cbn [pr_column pr_op pr_value] in *.
  eapply takes_bind; [apply takes_ref| |by destruct op].
  apply (takes_bind _ _ [_] [_] _ _ _ _ (takes_comparator op)); [|done]. apply takes_last. by apply takes_literal.
Qed.

(** ** Loops *)

Lemma takes_while_match {A} sep (item : P A) (print : A -> list Token) bad l :
  sep <> kEndOfInput -> bool_decide (sep ∈ bad) = false -> Forall (fun a => takes item (print a) a bad) l ->
  forall fuel, (length l < fuel)%nat -> takes (while_match fuel sep item) (print_more sep print l) l (sep :: bad).
Proof.
  intros Hsep Hb%bool_decide_eq_false H. induction H as [|a l Ha Hl IH]; intros fuel Hf; (destruct fuel as [|fuel]; [lia|]); cbn [while_match].
  - apply takes_no_match; [cbn; by rewrite bool_decide_eq_true_2 by (by left)|]. apply takes_ret.
  - unfold print_more. cbn [fmap list_fmap concat app]. apply takes_match; [done|].
    eapply takes_bind; [exact Ha|apply takes_last; apply IH; cbn in Hf; lia|].
    destruct l as [|a' l]; cbn; apply forallb_forall; intros x Hx; rewrite <- list_elem_of_In in Hx.
    + apply bool_decide_eq_true. by right.
    + apply negb_true_iff, bool_decide_eq_false. congruence.
Qed.

Lemma length_print_more {A} sep (print : A -> list Token) l : (length l <= length (print_more sep print l))%nat.
Proof. unfold print_more. induction l as [|a l IH]; cbn; [lia|]. rewrite length_app. lia. Qed.

Lemma takes_list {A} sep (item : P A) (print : A -> list Token) bad l :
  sep <> kEndOfInput -> bool_decide (sep ∈ bad) = false -> l <> [] -> Forall (fun a => takes item (print a) a bad) l ->
  takes (ParseList sep item) (print_list sep print l) l (sep :: bad).
Proof.
  intros Hsep Hb Hne H. destruct l as [|a l]; [done|]. apply Forall_cons in H as [Ha Hl]. unfold ParseList, print_list.
  eapply takes_bind; [exact Ha| |].
  - intros ts' t rest Hs Hn. run (gets_run (@length Token) (ts' ++ t :: rest)).
    refine (takes_last _ (cons a) _ _ _ (takes_while_match sep item print bad l Hsep Hb Hl _ _) ts' t rest Hs Hn).
    pose proof (length_print_more sep print l). apply Forall2_length in Hs. rewrite length_app. lia.
  - destruct l as [|a' l]; cbn; apply forallb_forall; intros x Hx; rewrite <- list_elem_of_In in Hx.
    + apply bool_decide_eq_true. by right.
    + apply negb_true_iff, bool_decide_eq_false. apply bool_decide_eq_false in Hb. congruence.
Qed.

Lemma head_ref r bad1 ts bad2 : forallb (fun x => negb (bool_decide (kIdentifier = x))) bad1 = true -> head_not bad1 (print_ref r ++ ts) bad2 = true.
Proof. by destruct r as [[|] ?]. Qed.

Lemma takes_where ps :
  Forall predicate_ok ps -> takes ParseOptionalWhereClause (print_where ps) ps [kWhere; kAnd].
Proof.
  intros H. unfold ParseOptionalWhereClause, print_where. destruct ps as [|p ps].
  - apply takes_check_false; [done|apply takes_ret].
  - apply takes_check_true; [done|]. unfold ParseWhereClause. apply takes_expect; [done|done|]. intros _ _.
    eapply takes_weaken; [apply (takes_list kAnd ParsePredicate print_predicate []); [done|done|done|]|set_solver].
    eapply Forall_impl; [exact H|]. intros q [_ Hq]. by apply takes_predicate.
Qed.

(** [columns_loop] with the columns and the primary key found so far. *)
Lemma takes_columns cols pk acc found fuel :
  cols <> [] -> (length cols <= fuel)%nat -> (forall n, pk = Some n -> n ∈ (col_name <$> cols) /\ found = None) ->
  takes (columns_loop fuel acc found) (print_columns cols pk) (acc ++ cols, match pk with Some n => Some n | None => found end) [kPrimary; kComma].
Proof.
  revert pk acc found fuel. induction cols as [|c cols IH]; intros pk acc found fuel Hne Hf Hpk; [done|].
  destruct fuel as [|fuel]; [cbn in Hf; lia|]. cbn [columns_loop print_columns].
  set (marked := bool_decide (pk = Some (col_name c))). set (pk' := if marked then None else pk).
  set (found' := if marked then Some (col_name c) else found).
  assert (takes (b ← Match kComma; if b : bool then columns_loop fuel (acc ++ [c]) found' else mret (acc ++ [c], found'))
    ((match cols with [] => [] | _ => [$kComma] end) ++ print_columns cols pk')
    (acc ++ c :: cols, match pk with Some n => Some n | None => found end) [kPrimary; kComma]) as Hend.
  { destruct cols as [|c' cols].
    - apply takes_no_match; [done|]. cbn [print_columns app].
      replace (match pk with Some n => Some n | None => found end) with found'; [apply takes_ret|].
      unfold found', marked. case_bool_decide as E; [by rewrite E|]. destruct pk as [n|]; [|done].
      destruct (Hpk n eq_refl) as [Hin _]. cbn in Hin. apply list_elem_of_singleton in Hin. congruence.
    - apply takes_match; [done|]. specialize (IH pk' (acc ++ [c]) found' fuel). rewrite <- app_assoc in IH.
      replace (match pk with Some n => Some n | None => found end) with (match pk' with Some n => Some n | None => found' end).
      + apply IH; [done|cbn in *; lia|]. intros n Hn. unfold pk', found', marked in *. case_bool_decide as E; [done|]. destruct (Hpk n Hn) as [Hin ->].
        split; [|done]. cbn in Hin. apply elem_of_cons in Hin as [->|Hin]; [congruence|done].
      + unfold pk', found', marked. case_bool_decide as E; [by rewrite E|done]. }
  apply (takes_bind _ _ [_] _ _ _ [] _ (takes_identifier (col_name c))); [|done].
  apply (takes_bind _ _ [_] _ _ _ [] _ (takes_column_type (col_type c))); [|apply head_not_nil].
  replace (mkColumn (col_name c) (col_type c)) with c by (by destruct c).
  destruct marked eqn:Em.
  - cbn [app]. apply takes_match; [done|]. rewrite <- (app_nil_l (_ ++ _)). apply (takes_bind _ _ [_] _ found' _ []); [|exact Hend|apply head_not_nil].
    apply takes_expect; [done|done|]. intros _ _. unfold marked in Em. apply bool_decide_eq_true in Em.
    destruct (Hpk (col_name c) Em) as [_ ->]. apply takes_ret.
  - cbn [app]. apply takes_no_match; [by destruct cols|]. apply (takes_bind _ _ [] _ found' _ []); [apply takes_ret|exact Hend|apply head_not_nil].
Qed.

(** ** Statements *)

(** What may not follow a statement. *)
Definition inside : list TokenType := [kDot; kComma; kPrimary; kJoin; kWhere; kAnd].

Ltac name_then := eapply (takes_bind _ _ [_]); [apply takes_identifier| |try apply head_not_nil].
Ltac expect_then := apply takes_expect; [done|done|intros _ _].

Lemma takes_where_last {B} (f : list Predicate -> B) ps :
  Forall predicate_ok ps -> takes (x ← ParseOptionalWhereClause; mret (f x)) (print_where ps) (f ps) inside.
Proof. intros H. apply takes_last. eapply takes_weaken; [by apply takes_where|]. unfold inside. set_solver. Qed.

Lemma takes_create_table s :
  statement_ok (CreateTableStmt s) ->
  takes ParseCreateTable ($kTable :: ident_token (ct_table_name s) :: $kLParen :: print_columns (ct_columns s) (ct_primary_key_column s) ++ [$kRParen]) s inside.
Proof.
  destruct s as [name cols pk]. cbn. intros (Hn & Hne & Hc & Hpk). unfold ParseCreateTable. expect_then. name_then. expect_then.
  intros ts' t rest Hs Hnext. run (gets_run (@length Token) (ts' ++ t :: rest)). revert ts' t rest Hs Hnext.
  enough (forall fuel, (length cols <= fuel)%nat ->
    takes ('(columns, pk) ← columns_loop fuel [] None; Expect kRParen;; mret (mkCreateTable name columns pk)) (print_columns cols pk ++ [$kRParen]) (mkCreateTable name cols pk) inside) as He.
  { intros ts' t rest Hs Hnext. apply (He (S (length (ts' ++ t :: rest)))); [|done|done].
    assert (forall pk, length cols <= length (print_columns cols pk))%nat as Hl.
    { clear. induction cols as [|c cols IH]; intros pk; cbn; [lia|]. rewrite !length_app. specialize (IH (if bool_decide (pk = Some (col_name c)) then None else pk)). lia. }
    specialize (Hl pk). apply Forall2_length in Hs. rewrite length_app in *. lia. }
  intros fuel Hf. eapply takes_bind; [apply (takes_columns cols pk [] None fuel); [done|done|intros n ->; split; [by apply Hpk|done]]| |done].
  cbn [app]. replace (match pk with Some n => Some n | None => None end) with pk by (by destruct pk). expect_then. apply takes_ret.
Qed.

Lemma takes_join j :
  ref_ok (jc_left_column j) -> ref_ok (jc_right_column j) -> takes ParseJoinClause (print_join j) j [kDot].
Proof.
  destruct j as [t l r]. cbn. intros Hl Hr. unfold ParseJoinClause, print_join. cbn. expect_then. name_then. expect_then.
  eapply takes_bind; [apply takes_ref| |done]. expect_then. apply takes_last, takes_ref.
Qed.

Lemma takes_select s :
  statement_ok (SelectStmt s) ->
  takes ParseSelect ((if se_select_star s then [$kStar] else print_list kComma print_ref (se_select_list s)) ++
    $kFrom :: ident_token (se_from_table s) ::
    (match se_join s with Some j => print_join j | None => [] end) ++ print_where (se_where_predicates s)) s inside.
Proof.
  destruct s as [star l from join ps]. cbn. intros (Hstar & Hrefs & Hfrom & Hjoin & Hps). unfold ParseSelect.
  assert (takes (Expect kFrom;; from_table ← ExpectIdentifier; b ← CheckType kJoin;
    join ← (if b : bool then j ← ParseJoinClause; mret (Some j) else mret None);
    where_predicates ← ParseOptionalWhereClause; mret (mkSelect star l from_table join where_predicates))
    ($kFrom :: ident_token from :: (match join with Some j => print_join j | None => [] end) ++ print_where ps) (mkSelect star l from join ps) inside) as Hend.
  { expect_then. name_then. destruct join as [j|].
    - apply takes_check_head; [done|]. destruct Hjoin as (_ & Hl & Hr). eapply takes_bind; [apply takes_last, (takes_join j Hl Hr)|by apply (takes_where_last (mkSelect star l from (Some j)))|].
      by destruct ps.
    - apply takes_check_false; [by destruct ps|]. apply (takes_bind _ _ [] _ None _ []); [apply takes_ret|by apply (takes_where_last (mkSelect star l from None))|apply head_not_nil]. }
  destruct star.
  - subst l. cbn [app]. apply takes_match; [done|]. apply (takes_bind _ _ [] _ [] _ []); [apply takes_ret|exact Hend|done].
  - apply takes_no_match; [destruct l as [|r l]; [done|]; cbn [print_list]; rewrite <- app_assoc; by apply head_ref|].
    eapply takes_bind; [apply (takes_list kComma ParseColumnRef print_ref [kDot])|exact Hend|done]; [done|done|done|].
    eapply Forall_impl; [exact Hrefs|]. intros r _. apply takes_ref.
Qed.

Lemma takes_update s :
  statement_ok (UpdateStmt s) ->
  takes ParseUpdate (ident_token (up_table_name s) :: $kSet :: print_list kComma print_assignment (up_assignments s) ++ print_where (up_where_predicates s)) s inside.
Proof.
  destruct s as [name l ps]. cbn. intros (Hn & Hne & Hl & Hps). unfold ParseUpdate. name_then. expect_then.
  eapply takes_bind; [apply (takes_list kComma parse_assignment print_assignment [])|by apply (takes_where_last (mkUpdate name l))|by destruct ps]; [done|done|done|].
  eapply Forall_impl; [exact Hl|]. intros [c v] [_ Hv]. unfold parse_assignment, print_assignment. name_then. expect_then. apply takes_last. by apply takes_literal.
Qed.

Lemma takes_statement s : statement_ok s -> takes ParseOneStatement (print_statement s) s inside.
Proof.
  intros Hok. unfold ParseOneStatement.
  destruct s as [s|s|s|s|s|s| | |]; cbn [print_statement];
    try (repeat (apply takes_no_match; [done|]); apply takes_match; [done|apply takes_ret]).
  - apply takes_match; [done|]. apply takes_check_true; [done|]. by apply takes_last, takes_create_table.
  - apply takes_match; [done|]. apply takes_check_false; [done|]. apply takes_check_true; [done|]. apply takes_last.
    destruct s as [i t c]. unfold ParseCreateIndex. cbn. expect_then. name_then. expect_then. name_then. expect_then. name_then. expect_then. apply takes_ret.
  - apply takes_no_match; [done|]. apply takes_match; [done|]. apply takes_last. destruct s as [n l]. destruct Hok as (_ & Hne & Hv). cbn in *. unfold ParseInsert.
    expect_then. name_then. expect_then. expect_then. eapply takes_bind; [apply (takes_list kComma ExpectLiteral (fun v => [print_literal v]) [])| |done]; [done|done|done| |].
    + eapply Forall_impl; [exact Hv|]. intros v. apply takes_literal.
    + expect_then. apply takes_ret.
  - do 2 (apply takes_no_match; [done|]). apply takes_match; [done|]. by apply takes_last, takes_select.
  - do 3 (apply takes_no_match; [done|]). apply takes_match; [done|]. by apply takes_last, takes_update.
  - do 4 (apply takes_no_match; [done|]). apply takes_match; [done|]. apply takes_last. destruct s as [n ps]. destruct Hok as [_ Hps]. cbn in *.
    unfold ParseDelete. expect_then. name_then. by apply takes_where_last.
Qed.

(** ** Their tokens can be written *)

Lemma writable_ref r : ref_ok r -> Forall writable (print_ref r).
Proof. destruct r as [[t|] c]; intros [H1 H2]; cbn in *; repeat constructor; done. Qed.

Lemma writable_literal v : value_ok v -> writable (print_literal v).
Proof. unfold value_ok, print_literal. destruct (kind v); intros H; constructor. by destruct H. Qed.

Lemma writable_predicate p : predicate_ok p -> Forall writable (print_predicate p).
Proof.
  intros [H1 H2]. apply Forall_app. split; [by apply writable_ref|]. constructor; [by destruct (pr_op p); constructor|]. constructor; [by apply writable_literal|constructor].
Qed.

Lemma writable_list {A} sep (print : A -> list Token) l :
  has_payload sep = false -> Forall (fun a => Forall writable (print a)) l -> Forall writable (print_list sep print l).
Proof.
  intros Hsep H. destruct H as [|a l Ha Hl]; [constructor|]. apply Forall_app. split; [done|]. unfold print_more.
  induction Hl as [|b l Hb Hl IH]; [constructor|]. cbn. constructor; [by constructor|]. by apply Forall_app.
Qed.

Lemma writable_where ps : Forall predicate_ok ps -> Forall writable (print_where ps).
Proof.
  intros H. unfold print_where. destruct ps as [|p ps]; [constructor|]. constructor; [by constructor|]. apply writable_list; [done|].
  eapply Forall_impl; [exact H|]. intros q. apply writable_predicate.
Qed.

Lemma writable_columns cols pk : Forall (fun c => plain_name (col_name c)) cols -> Forall writable (print_columns cols pk).
Proof.
  intros H. revert pk. induction H as [|c cols Hc Hcols IH]; intros pk; cbn; [constructor|].
  constructor; [by constructor|]. constructor; [by destruct (col_type c); constructor|]. apply Forall_app. split; [case_bool_decide; repeat constructor|].
  apply Forall_app. split; [destruct cols; repeat constructor|apply IH].
Qed.

Ltac sym := constructor; [by apply writable_symbol|].
Ltac named H := constructor; [apply writable_ident, H|].

Lemma writable_statement s : statement_ok s -> Forall writable (print_statement s).
Proof.
  destruct s as [s|s|s|s|s|s| | |]; cbn [print_statement statement_ok]; intros H; [..|by sym|by sym|by sym].
  - destruct H as (Hn & _ & Hc & _). do 2 sym. named Hn. sym. apply Forall_app. split; [exact (writable_columns _ _ Hc)|by sym].
  - destruct H as (H1 & H2 & H3). do 2 sym. named H1. sym. named H2. sym. named H3. by sym.
  - destruct H as (Hn & _ & Hv). do 2 sym. named Hn. do 2 sym. apply Forall_app. split; [|by sym].
    apply writable_list; [done|]. eapply Forall_impl; [exact Hv|]. intros v Hok. constructor; [exact (writable_literal v Hok)|constructor].
  - destruct H as (_ & Hr & Hf & Hj & Hps). sym. apply Forall_app. split.
    + destruct (se_select_star s); [by sym|]. apply writable_list; [done|]. eapply Forall_impl; [exact Hr|]. intros r. apply writable_ref.
    + sym. named Hf. apply Forall_app. split; [|exact (writable_where _ Hps)]. destruct (se_join s) as [j|]; [|constructor].
      destruct Hj as (Ht & Hl & Hrr). unfold print_join. sym. named Ht. sym. apply Forall_app. split; [exact (writable_ref _ Hl)|].
      sym. exact (writable_ref _ Hrr).
  - destruct H as (Hn & _ & Hl & Hps). sym. named Hn. sym. apply Forall_app. split; [|exact (writable_where _ Hps)].
    apply writable_list; [done|]. eapply Forall_impl; [exact Hl|]. intros a [Hc Hv]. named Hc. sym. constructor; [exact (writable_literal _ Hv)|constructor].
  - destruct H as (Hn & Hps). do 2 sym. named Hn. exact (writable_where _ Hps).
Qed.

(** ** The contract *)

(** C40: a statement survives being written out and parsed: [Parse] applied to
    the text of its tokens, with or without the closing semicolon, returns the
    statement itself, for every statement whose names are identifiers, whose
    integers fit 64 bits and whose lists are not empty where the grammar wants
    one. String literals may hold any bytes, quotes included. *)
Theorem parse_print (s : Statement) (semicolon : bool) :
  statement_ok s -> Parse (render (print_statement s ++ if semicolon then [$kSemicolon] else [])) = Ret s.
Proof.
  intros Hok. set (ts := print_statement s ++ _).
  assert (Forall writable ts) as Hw by (apply Forall_app; split; [by apply writable_statement|destruct semicolon; [by sym|constructor]]).
  destruct (tokenize_render ts (length (render ts)) 0 Hw ltac:(done)) as (ts' & H & Hs). unfold Parse, Tokenize. rewrite H. cbn [mbind outcome_bind].
  unfold ts in Hs. apply Forall2_app_inv_l in Hs as (l1 & l2 & Hs1 & Hs2 & ->). rewrite <- app_assoc.
  set (e := end_token _). unfold ParseStatementTopLevel. pose proof (takes_statement s Hok) as Ht.
  destruct semicolon.
  - apply Forall2_cons_inv_l in Hs2 as (t' & l & [Et _] & Hs2 & ->). apply Forall2_nil_inv_l in Hs2 as ->. cbn [app].
    run (Ht l1 t' [e] Hs1 ltac:(rewrite Et; set_solver)). run (Match_true t' kSemicolon [e] Et ltac:(done)). done.
  - apply Forall2_nil_inv_l in Hs2 as ->. cbn [app]. run (Ht l1 e [] Hs1 ltac:(set_solver)). done.
Qed.

Lemma parse_print_witness :
  let s := SelectStmt (mkSelect false [mkColumnRef (Some (str "t")) (str "a"); mkColumnRef None (str "b")] (str "t")
    (Some (mkJoin (str "u") (mkColumnRef None (str "k")) (mkColumnRef (Some (str "u")) (str "k"))))
    [mkPredicate (mkColumnRef None (str "a")) Comparator.kLe (int_literal (-12));
     mkPredicate (mkColumnRef None (str "b")) Comparator.kNeq (string_literal (str "it's"))]) in
  Parse (str "SELECT t . a , b FROM t JOIN u ON k = u . k WHERE a <= -12 AND b != 'it''s' ; ") = Ret s.
Proof.
  intros s. apply (parse_print s true). split; [done|]. split; [repeat constructor|]. split; [by repeat constructor|].
  split; repeat constructor; done.
Defined.
