(* ===== verification/Planner.v ===== *)
(** * Planner: access paths for SELECT, UPDATE and DELETE ([src/sql/planner.cpp])

    An equality on an indexed column turns a scan into an index probe and
    drops out of the predicates left to check; the first one in WHERE order
    wins. A join scans the FROM table and probes or scans the JOIN table. *)
From S2P Require Import Prelude Config DiskManager Text Catalog Ast.

Module ScanMethod.
Inductive ScanMethod := kSeqScan | kIndexScan.
End ScanMethod.
Abbreviation ScanMethod := ScanMethod.ScanMethod.

#[global] Instance ScanMethod_eq_dec : EqDecision ScanMethod.
Proof. solve_decision. Defined.

Record TableAccessPlan := mkAccess {
  ap_table_name : bytes;
  ap_method : ScanMethod;
  ap_index_name : bytes;
  ap_index_key : Z;
  ap_residual_predicates : list Predicate
}.

Record JoinPlan := mkJoinPlan {
  jp_outer : TableAccessPlan;
  jp_inner_table_name : bytes;
  jp_inner_method : ScanMethod;
  jp_inner_index_name : bytes;
  jp_inner_residual_predicates : list Predicate;
  jp_outer_join_column : bytes;
  jp_inner_join_column : bytes
}.

Inductive AccessPath := TableAccess (a : TableAccessPlan) | JoinAccess (j : JoinPlan).

Record SelectPlan := mkSelectPlan { sp_select_star : bool; sp_select_list : list ColumnRef; sp_access : AccessPath }.

(** A loop that only checks. *)
Fixpoint check_each {A} (check : A -> outcome unit) (l : list A) : outcome unit :=
  match l with
  | [] => Ret tt
  | a :: l' => check a ≫= fun _ => check_each check l'
  end.

Fixpoint map_outcome {A B} (f : A -> outcome B) (l : list A) : outcome (list B) :=
  match l with
  | [] => Ret []
  | a :: l' => b ← f a; bs ← map_outcome f l'; Ret (b :: bs)
  end.

Definition ValidatePredicateAgainstTable (table : TableInfo) (pred : Predicate) : outcome unit :=
  if match cr_table_name (pr_column pred) with Some t => negb (bool_decide (t = tb_name table)) | None => false end
  then Throw SqlSemanticError else
  col ← RequireColumn table (cr_column_name (pr_column pred));
  RequireLiteralMatchesColumn col (pr_value pred).

Definition FindIndexOnColumn (catalog : Catalog) (table_name column_name : bytes) : option IndexInfo :=
  List.find (fun idx => bool_decide (ix_column_name idx = column_name)) (IndexesOnTable catalog table_name).

Module JoinSide.
Inductive JoinSide := kOuter | kInner.
End JoinSide.
Abbreviation JoinSide := JoinSide.JoinSide.

#[global] Instance JoinSide_eq_dec : EqDecision JoinSide.
Proof. solve_decision. Defined.

Definition ResolveColumnSide (outer inner : TableInfo) (col : ColumnRef) : outcome JoinSide :=
  match cr_table_name col with
  | Some t =>
      if bool_decide (t = tb_name outer) then RequireColumn outer (cr_column_name col) ≫= fun _ => Ret JoinSide.kOuter
      else if bool_decide (t = tb_name inner) then RequireColumn inner (cr_column_name col) ≫= fun _ => Ret JoinSide.kInner
      else Throw SqlSemanticError
  | None =>
      match FindColumn outer (cr_column_name col), FindColumn inner (cr_column_name col) with
      | Some _, Some _ => Throw SqlSemanticError
      | Some _, None => Ret JoinSide.kOuter
      | None, Some _ => Ret JoinSide.kInner
      | None, None => Throw SqlSemanticError
      end
  end.

(** The first predicate an index can answer, its index and position. *)
Fixpoint driving_predicate (catalog : Catalog) (table_name : bytes) (i : nat) (predicates : list Predicate) : option (nat * IndexInfo * Z) :=
  match predicates with
  | [] => None
  | pred :: predicates' =>
      if negb (bool_decide (pr_op pred = Comparator.kEq)) then driving_predicate catalog table_name (S i) predicates' else
      match FindIndexOnColumn catalog table_name (cr_column_name (pr_column pred)) with
      | None => driving_predicate catalog table_name (S i) predicates'
      | Some index => Some (i, index, int_value (pr_value pred))
      end
  end.

(** The predicates without the one that drives the probe. *)
Definition residual (driving : nat) (predicates : list Predicate) : list Predicate :=
  take driving predicates ++ drop (S driving) predicates.

Definition PlanTableAccess (catalog : Catalog) (table_name : bytes) (predicates : list Predicate) : outcome TableAccessPlan :=
  match FindTable catalog table_name with
  | None => Throw SqlSemanticError
  | Some table =>
      check_each (ValidatePredicateAgainstTable table) predicates ≫= fun _ =>
      Ret (match driving_predicate catalog table_name 0 predicates with
           | Some (i, index, key) => mkAccess table_name ScanMethod.kIndexScan (ix_name index) key (residual i predicates)
           | None => mkAccess table_name ScanMethod.kSeqScan [] 0 predicates
           end)
  end.

(** The select list of a query on one table. *)
Definition resolve_single (table : TableInfo) (col : ColumnRef) : outcome ColumnRef :=
  if match cr_table_name col with Some t => negb (bool_decide (t = tb_name table)) | None => false end
  then Throw SqlSemanticError else
  RequireColumn table (cr_column_name col) ≫= fun _ =>
  Ret (mkColumnRef (Some (tb_name table)) (cr_column_name col)).

Definition side_table (outer inner : TableInfo) (side : JoinSide) : TableInfo :=
  if bool_decide (side = JoinSide.kOuter) then outer else inner.

Definition resolve_joined (outer inner : TableInfo) (col : ColumnRef) : outcome ColumnRef :=
  side ← ResolveColumnSide outer inner col;
  Ret (mkColumnRef (Some (tb_name (side_table outer inner side))) (cr_column_name col)).

(** The WHERE predicates of a join, split by table. *)
Fixpoint split_predicates (outer inner : TableInfo) (predicates : list Predicate) : outcome (list Predicate * list Predicate) :=
  match predicates with
  | [] => Ret ([], [])
  | pred :: predicates' =>
      side ← ResolveColumnSide outer inner (pr_column pred);
      col ← RequireColumn (side_table outer inner side) (cr_column_name (pr_column pred));
      RequireLiteralMatchesColumn col (pr_value pred) ≫= fun _ =>
      '(os, is_) ← split_predicates outer inner predicates';
      Ret (if bool_decide (side = JoinSide.kOuter) then (pred :: os, is_) else (os, pred :: is_))
  end.

Definition plan_join (catalog : Catalog) (from_table : TableInfo) (join : JoinClause) (predicates : list Predicate) : outcome (JoinPlan * TableInfo) :=
  match FindTable catalog (jc_table_name join) with
  | None => Throw SqlSemanticError
  | Some inner_table =>
      if bool_decide (tb_name inner_table = tb_name from_table) then Throw SqlSemanticError else
      left_side ← ResolveColumnSide from_table inner_table (jc_left_column join);
      right_side ← ResolveColumnSide from_table inner_table (jc_right_column join);
      if bool_decide (left_side = right_side) then Throw SqlSemanticError else
      let outer_join_column := cr_column_name (if bool_decide (left_side = JoinSide.kOuter) then jc_left_column join else jc_right_column join) in
      let inner_join_column := cr_column_name (if bool_decide (left_side = JoinSide.kInner) then jc_left_column join else jc_right_column join) in
      outer_join_col ← RequireColumn from_table outer_join_column;
      inner_join_col ← RequireColumn inner_table inner_join_column;
      if negb (bool_decide (col_type outer_join_col = col_type inner_join_col)) then Throw SqlSemanticError else
      '(outer_predicates, inner_predicates) ← split_predicates from_table inner_table predicates;
      outer ← PlanTableAccess catalog (tb_name from_table) outer_predicates;
      let '(method, index_name) :=
        match FindIndexOnColumn catalog (tb_name inner_table) inner_join_column with
        | Some inner_index => (ScanMethod.kIndexScan, ix_name inner_index)
        | None => (ScanMethod.kSeqScan, [])
        end in
      Ret (mkJoinPlan outer (tb_name inner_table) method index_name inner_predicates outer_join_column inner_join_column, inner_table)
  end.

Definition PlanSelect (catalog : Catalog) (stmt : SelectStatement) : outcome SelectPlan :=
  match FindTable catalog (se_from_table stmt) with
  | None => Throw SqlSemanticError
  | Some from_table =>
      match se_join stmt with
      | None =>
          select_list ← (if se_select_star stmt then Ret [] else map_outcome (resolve_single from_table) (se_select_list stmt));
          access ← PlanTableAccess catalog (se_from_table stmt) (se_where_predicates stmt);
          Ret (mkSelectPlan (se_select_star stmt) select_list (TableAccess access))
      | Some join =>
          '(jplan, inner_table) ← plan_join catalog from_table join (se_where_predicates stmt);
          select_list ← (if se_select_star stmt then Ret [] else map_outcome (resolve_joined from_table inner_table) (se_select_list stmt));
          Ret (mkSelectPlan (se_select_star stmt) select_list (JoinAccess jplan))
      end
  end.
