(* ===== verification/Storage.v ===== *)
(** * Storage: what the executor asks of heap files and indexes

    [Storage] has the operations, [StorageLaws] what they do to the rows of
    each heap and the entries of each index when nothing else holds a lock.
    The executor is verified against these laws; WorldStorage proves them of
    the real heap files and B+ trees. *)
From S2P Require Import Prelude Config HeapFile BTreeSpec.

Abbreviation entry := BTreeSpec.entry.

(** ** The operations *)

Class Storage (W : Type) := {
  heap_Scan : ObjectId -> M W (list (RID * bytes));
  heap_GetRow : ObjectId -> RID -> M W (option bytes);
  heap_Insert : ObjectId -> bytes -> M W RID;
  heap_Delete : ObjectId -> RID -> M W bool;
  tree_Search : ObjectId -> Z -> M W (list RID);
  tree_Insert : ObjectId -> Z -> RID -> M W unit;
  tree_Delete : ObjectId -> Z -> RID -> M W bool
}.

(** ** What is stored *)

(** The rows of every heap, in scan order, and the entries of every index, in
    key order. *)
Record Data := mkData {
  heaps : gmap ObjectId (list (RID * bytes));
  trees : gmap ObjectId (list entry)
}.

Definition set_heap (h : ObjectId) (rows : list (RID * bytes)) (d : Data) : Data := mkData (<[h := rows]> (heaps d)) (trees d).
Definition set_tree (t : ObjectId) (es : list entry) (d : Data) : Data := mkData (heaps d) (<[t := es]> (trees d)).

(** ** The laws *)

(** [holds w d n]: the state [w] is sound, no other transaction is in the way,
    it stores [d], and there is room for [n] insertions. *)
Class StorageLaws (W : Type) `{!Storage W} := {
  holds : W -> Data -> nat -> Prop;
  holds_le w d n m : holds w d n -> (m <= n)%nat -> holds w d m;
  holds_rows w d n h rows :
    holds w d n -> heaps d !! h = Some rows -> NoDup rows.*1 /\ Forall BTreeNode.BTreeNode.rid_ok rows.*1;
  Scan_law w d n h rows :
    holds w d n -> heaps d !! h = Some rows -> exists w', heap_Scan h w = (Ret rows, w') /\ holds w' d n;
  GetRow_law w d n h rows rid :
    holds w d n -> heaps d !! h = Some rows -> BTreeNode.BTreeNode.rid_ok rid ->
    exists w', heap_GetRow h rid w = (Ret ((list_to_map rows : gmap RID bytes) !! rid), w') /\ holds w' d n;
  Insert_large_law w d n h rows row :
    holds w d n -> heaps d !! h = Some rows -> HeapFile.kMaxRowSize < zlen row -> heap_Insert h row w = (Throw InvalidArgument, w);
  Insert_law w d n h rows row :
    holds w d (Datatypes.S n) -> heaps d !! h = Some rows -> zlen row <= HeapFile.kMaxRowSize ->
    exists rid w', heap_Insert h row w = (Ret rid, w') /\ holds w' (set_heap h (rows ++ [(rid, row)]) d) n;
  Delete_law w d n h rows rid :
    holds w d n -> heaps d !! h = Some rows -> BTreeNode.BTreeNode.rid_ok rid ->
    exists w', heap_Delete h rid w = (Ret (bool_decide (rid ∈ rows.*1)), w') /\
      holds w' (set_heap h (filter (HeapFile.other_row rid) rows) d) n;
  Search_law w d n t es key :
    holds w d n -> trees d !! t = Some es ->
    exists w', tree_Search t key w = (Ret (BTreeSpec.search_entries key es), w') /\ holds w' d n;
  tree_Insert_law w d n t es key rid :
    holds w d (Datatypes.S n) -> trees d !! t = Some es -> BTreeNode.BTreeNode.entry_ok (key, rid) ->
    (forall k, BTreeSpec.key_count k (BTreeSpec.insert_entry key rid es) <= BTreeNode.BTreeNode.kLeafMaxKeys) ->
    exists w', tree_Insert t key rid w = (Ret tt, w') /\ holds w' (set_tree t (BTreeSpec.insert_entry key rid es) d) n;
  tree_Delete_law w d n t es key rid :
    holds w d n -> trees d !! t = Some es ->
    exists w', tree_Delete t key rid w = (Ret (bool_decide ((key, rid) ∈ es)), w') /\
      holds w' (set_tree t (BTreeSpec.delete_entry key rid es) d) n
}.
