(* ===== verification/Executor.v ===== *)
(** * Executor: INSERT, SELECT, UPDATE and DELETE ([src/sql/executor.cpp])

    The statements run against the catalog and whatever storage has the
    operations of a heap file and of a B+ tree for each object: the class
    [Storage]. *)
From S2P Require Import Prelude Config DiskManager HeapFile Storage Text Catalog Ast RowCodec Planner.

Record ExecuteResult := mkResult {
  er_rows : list (list LiteralValue);
  er_column_names : list bytes;
  er_rows_affected : Z
}.

Definition no_result : ExecuteResult := mkResult [] [] 0.

(** ** Comparing values *)

(** [std::string::compare]: bytes as unsigned characters. *)
Fixpoint compare_bytes (a b : bytes) : comparison :=
  match a, b with
  | [], [] => Eq
  | [], _ :: _ => Lt
  | _ :: _, [] => Gt
  | x :: a', y :: b' => match Z.compare (Z_of_byte x) (Z_of_byte y) with Eq => compare_bytes a' b' | c => c end
  end.

Definition LiteralsEqual (a b : LiteralValue) : bool :=
  if bool_decide (kind a = LiteralKind.kInteger) then int_value a =? int_value b
  else bool_decide (string_value a = string_value b).

Definition CompareLiterals (a b : LiteralValue) : Z :=
  if bool_decide (kind a = LiteralKind.kInteger) then
    if int_value a <? int_value b then -1 else if int_value b <? int_value a then 1 else 0
  else match compare_bytes (string_value a) (string_value b) with Lt => -1 | Gt => 1 | Eq => 0 end.

Definition compares (op : Comparator) (cmp : Z) : bool :=
  match op with
  | Comparator.kEq => cmp =? 0
  | Comparator.kNeq => negb (cmp =? 0)
  | Comparator.kLt => cmp <? 0
  | Comparator.kLe => cmp <=? 0
  | Comparator.kGt => 0 <? cmp
  | Comparator.kGe => 0 <=? cmp
  end.

(** [values[i]]. *)
Definition value_at (values : list LiteralValue) (i : nat) : outcome LiteralValue :=
  match values !! i with Some v => Ret v | None => Undefined end.

Definition column_value (table : TableInfo) (values : list LiteralValue) (column : bytes) : outcome LiteralValue :=
  i ← ColumnIndex table column; value_at values i.

Definition EvaluatePredicate (table : TableInfo) (values : list LiteralValue) (pred : Predicate) : outcome bool :=
  v ← column_value table values (cr_column_name (pr_column pred));
  Ret (compares (pr_op pred) (CompareLiterals v (pr_value pred))).

Fixpoint MatchesAll (table : TableInfo) (values : list LiteralValue) (predicates : list Predicate) : outcome bool :=
  match predicates with
  | [] => Ret true
  | pred :: predicates' =>
      b ← EvaluatePredicate table values pred;
      if b : bool then MatchesAll table values predicates' else Ret false
  end.

Section Statements.
Context {W : Type} `{!Storage W} (catalog : Catalog).

(** A pointer that must not be null. *)
Definition deref {A} (p : option A) : M W A := match p with Some a => mret a | None => undefined end.

(** [GetHeapFileForTable] and [GetIndexByName]: the object behind a name. *)
Definition heap_of (table_name : bytes) : M W ObjectId :=
  t ← deref (FindTable catalog table_name); mret (tb_heap_object_id t).
Definition index_by_name (index_name : bytes) : M W ObjectId :=
  i ← deref (FindIndex catalog index_name); mret (ix_object_id i).

(** ** Finding rows *)

Fixpoint get_rows (heap : ObjectId) (rids : list RID) : M W (list (RID * bytes)) :=
  match rids with
  | [] => mret []
  | rid :: rids' =>
      row ← heap_GetRow heap rid;
      match row with
      | None => throw LogicError
      | Some row_bytes => rows ← get_rows heap rids'; mret ((rid, row_bytes) :: rows)
      end
  end.

Definition FetchCandidateRows (access : TableAccessPlan) : M W (list (RID * bytes)) :=
  if bool_decide (ap_method access = ScanMethod.kSeqScan) then
    heap ← heap_of (ap_table_name access);
    heap_Scan heap
  else
    index ← index_by_name (ap_index_name access);
    heap ← heap_of (ap_table_name access);
    rids ← tree_Search index (ap_index_key access);
    get_rows heap rids.

(** The rows of a candidate list that satisfy the predicates, decoded. *)
Fixpoint filter_rows (table : TableInfo) (predicates : list Predicate) (rows : list (RID * bytes)) : outcome (list (RID * list LiteralValue)) :=
  match rows with
  | [] => Ret []
  | (rid, row_bytes) :: rows' =>
      values ← DecodeRow (tb_columns table) row_bytes;
      b ← MatchesAll table values predicates;
      rest ← filter_rows table predicates rows';
      Ret (if b : bool then (rid, values) :: rest else rest)
  end.

(** ** Indexes and the primary key *)

Definition InsertIntoAllIndexes (table : TableInfo) (values : list LiteralValue) (rid : RID) : M W unit :=
  for_each (fun idx => v ← lift (column_value table values (ix_column_name idx)); tree_Insert (ix_object_id idx) (int_value v) rid)
    (IndexesOnTable catalog (tb_name table)).

Definition DeleteFromAllIndexes (table : TableInfo) (values : list LiteralValue) (rid : RID) : M W unit :=
  for_each (fun idx => v ← lift (column_value table values (ix_column_name idx)); tree_Delete (ix_object_id idx) (int_value v) rid;; mret tt)
    (IndexesOnTable catalog (tb_name table)).

Definition CheckPrimaryKeyUniqueness (table : TableInfo) (values : list LiteralValue) : M W unit :=
  match PrimaryKeyIndex catalog (tb_name table) with
  | None => mret tt
  | Some pk =>
      v ← lift (column_value table values (ix_column_name pk));
      found ← tree_Search (ix_object_id pk) (int_value v);
      if bool_decide (found = []) then mret tt else throw SqlSemanticError
  end.

(** No two rows of the batch with the same new key. *)
Fixpoint check_new_keys (keys seen : list Z) : outcome unit :=
  match keys with
  | [] => Ret tt
  | key :: keys' => if bool_decide (key ∈ seen) then Throw SqlSemanticError else check_new_keys keys' (key :: seen)
  end.

Definition check_external (pk : ObjectId) (updating : list RID) (key : Z) : M W unit :=
  found ← tree_Search pk key;
  if forallb (fun rid => bool_decide (rid ∈ updating)) found then mret tt else throw SqlSemanticError.

Definition ValidateUpdateBatch (table : TableInfo) (matched : list (RID * list LiteralValue))
    (new_values_per_row : list (list LiteralValue)) (new_row_bytes_per_row : list bytes) : M W unit :=
  lift (check_each (fun row : bytes => if HeapFile.kMaxRowSize <? zlen row then Throw InvalidArgument else Ret tt) new_row_bytes_per_row);;
  match PrimaryKeyIndex catalog (tb_name table) with
  | None => mret tt
  | Some pk =>
      pk_col ← lift (ColumnIndex table (ix_column_name pk));
      new_keys ← lift (map_outcome (fun values => v ← value_at values pk_col; Ret (int_value v)) new_values_per_row);
      lift (check_new_keys new_keys []);;
      for_each (check_external (ix_object_id pk) matched.*1) new_keys
  end.

Definition ValidateValuesAgainstColumns (table : TableInfo) (values : list LiteralValue) : outcome unit :=
  if negb (length values =? length (tb_columns table))%nat then Throw SqlSemanticError else
  check_each (fun '(col, v) => RequireLiteralMatchesColumn col v) (zip (tb_columns table) values).

(** ** Statements *)

Definition ExecuteInsert (stmt : InsertStatement) : M W ExecuteResult :=
  match FindTable catalog (in_table_name stmt) with
  | None => throw SqlSemanticError
  | Some table =>
      lift (ValidateValuesAgainstColumns table (in_values stmt));;
      CheckPrimaryKeyUniqueness table (in_values stmt);;
      heap ← heap_of (in_table_name stmt);
      row_bytes ← lift (EncodeRow (tb_columns table) (in_values stmt));
      rid ← heap_Insert heap row_bytes;
      InsertIntoAllIndexes table (in_values stmt) rid;;
      mret (mkResult [] [] 1)
  end.

(** One turn of the loop of DELETE. *)
Definition delete_candidate (table : TableInfo) (heap : ObjectId) (predicates : list Predicate) (count : Z) (row : RID * bytes) : M W Z :=
  let '(rid, row_bytes) := row in
  values ← lift (DecodeRow (tb_columns table) row_bytes);
  b ← lift (MatchesAll table values predicates);
  if b : bool then
    DeleteFromAllIndexes table values rid;;
    heap_Delete heap rid;;
    mret (count + 1)
  else mret count.

Definition ExecuteDelete (stmt : DeleteStatement) : M W ExecuteResult :=
  access ← lift (PlanTableAccess catalog (de_table_name stmt) (de_where_predicates stmt));
  table ← deref (FindTable catalog (de_table_name stmt));
  heap ← heap_of (de_table_name stmt);
  rows ← FetchCandidateRows access;
  n ← fold_m (delete_candidate table heap (ap_residual_predicates access)) 0 rows;
  mret (mkResult [] [] n).

(** The column an assignment writes to. *)
Definition resolve_assignment (table : TableInfo) (a : Assignment) : outcome nat :=
  col ← RequireColumn table (as_column_name a);
  RequireLiteralMatchesColumn col (as_value a) ≫= fun _ =>
  ColumnIndex table (as_column_name a).

(** [new_values[idx] = value], assignment after assignment. *)
Fixpoint assign (values : list LiteralValue) (targets : list (nat * LiteralValue)) : outcome (list LiteralValue) :=
  match targets with
  | [] => Ret values
  | (i, v) :: targets' => if bool_decide (i < length values)%nat then assign (<[i := v]> values) targets' else Undefined
  end.

Definition new_row (table : TableInfo) (targets : list (nat * LiteralValue)) (old_values : list LiteralValue) : outcome (list LiteralValue * bytes) :=
  values ← assign old_values targets;
  row_bytes ← EncodeRow (tb_columns table) values;
  Ret (values, row_bytes).

(** One turn of the mutation loop of UPDATE. *)
Definition move_row (table : TableInfo) (heap : ObjectId) (x : (RID * list LiteralValue) * (list LiteralValue * bytes)) : M W unit :=
  let '((rid, old_values), (new_values, row_bytes)) := x in
  DeleteFromAllIndexes table old_values rid;;
  heap_Delete heap rid;;
  new_rid ← heap_Insert heap row_bytes;
  InsertIntoAllIndexes table new_values new_rid.

Definition ExecuteUpdate (stmt : UpdateStatement) : M W ExecuteResult :=
  match FindTable catalog (up_table_name stmt) with
  | None => throw SqlSemanticError
  | Some table =>
      assignment_col_idx ← lift (map_outcome (resolve_assignment table) (up_assignments stmt));
      access ← lift (PlanTableAccess catalog (up_table_name stmt) (up_where_predicates stmt));
      heap ← heap_of (up_table_name stmt);
      rows ← FetchCandidateRows access;
      matched ← lift (filter_rows table (ap_residual_predicates access) rows);
      new_rows ← lift (map_outcome (fun x => new_row table (zip assignment_col_idx (as_value <$> up_assignments stmt)) x.2) matched);
      ValidateUpdateBatch table matched new_rows.*1 new_rows.*2;;
      for_each (move_row table heap) (zip matched new_rows);;
      mret (mkResult [] [] (zlen matched))
  end.

(** *** SELECT *)

Definition project (table : TableInfo) (select_list : list ColumnRef) (values : list LiteralValue) : outcome (list LiteralValue) :=
  map_outcome (fun col => column_value table values (cr_column_name col)) select_list.

(** The output row of one matching row. *)
Definition output_row (plan : SelectPlan) (table : TableInfo) (values : list LiteralValue) : outcome (list LiteralValue) :=
  if sp_select_star plan then Ret values else project table (sp_select_list plan) values.

Definition ExecuteSelectSingleTable (plan : SelectPlan) (access : TableAccessPlan) : M W ExecuteResult :=
  table ← deref (FindTable catalog (ap_table_name access));
  let names := if sp_select_star plan then col_name <$> tb_columns table else cr_column_name <$> sp_select_list plan in
  candidates ← FetchCandidateRows access;
  matched ← lift (filter_rows table (ap_residual_predicates access) candidates);
  rows ← lift (map_outcome (fun x => output_row plan table x.2) matched);
  mret (mkResult rows names 0).

(** The inner rows joined to one outer row. *)
Definition join_inner (plan : SelectPlan) (jp : JoinPlan) (outer_table inner_table : TableInfo) (outer_join_idx inner_join_idx : nat)
    (outer_values : list LiteralValue) (row : RID * bytes) : outcome (option (list LiteralValue)) :=
  inner_values ← DecodeRow (tb_columns inner_table) row.2;
  equal ← (if bool_decide (jp_inner_method jp = ScanMethod.kSeqScan) then
             a ← value_at outer_values outer_join_idx; b ← value_at inner_values inner_join_idx; Ret (LiteralsEqual a b)
           else Ret true);
  if negb equal then Ret None else
  b ← MatchesAll inner_table inner_values (jp_inner_residual_predicates jp);
  if negb b then Ret None else
  if sp_select_star plan then Ret (Some (outer_values ++ inner_values)) else
  out ← map_outcome (fun col =>
    if bool_decide (cr_table_name col = Some (tb_name outer_table)) then column_value outer_table outer_values (cr_column_name col)
    else column_value inner_table inner_values (cr_column_name col)) (sp_select_list plan);
  Ret (Some out).

Definition join_outer (plan : SelectPlan) (jp : JoinPlan) (outer_table inner_table : TableInfo) (outer_join_idx inner_join_idx : nat)
    (inner_heap : ObjectId) (inner_index : option ObjectId) (inner_seq_rows : list (RID * bytes))
    (out : list (list LiteralValue)) (row : RID * bytes) : M W (list (list LiteralValue)) :=
  outer_values ← lift (DecodeRow (tb_columns outer_table) row.2);
  b ← lift (MatchesAll outer_table outer_values (ap_residual_predicates (jp_outer jp)));
  if negb b then mret out else
  inner_candidates ←
    match inner_index with
    | Some index =>
        v ← lift (value_at outer_values outer_join_idx);
        rids ← tree_Search index (int_value v);
        get_rows inner_heap rids
    | None => mret inner_seq_rows
    end;
  joined ← lift (map_outcome (join_inner plan jp outer_table inner_table outer_join_idx inner_join_idx outer_values) inner_candidates);
  mret (out ++ omap id joined).

Definition ExecuteSelectJoin (plan : SelectPlan) (jp : JoinPlan) : M W ExecuteResult :=
  outer_table ← deref (FindTable catalog (ap_table_name (jp_outer jp)));
  inner_table ← deref (FindTable catalog (jp_inner_table_name jp));
  outer_join_idx ← lift (ColumnIndex outer_table (jp_outer_join_column jp));
  inner_join_idx ← lift (ColumnIndex inner_table (jp_inner_join_column jp));
  let names := if sp_select_star plan then (col_name <$> tb_columns outer_table) ++ (col_name <$> tb_columns inner_table)
               else cr_column_name <$> sp_select_list plan in
  inner_heap ← heap_of (jp_inner_table_name jp);
  inner_index ← (if bool_decide (jp_inner_method jp = ScanMethod.kIndexScan) then i ← index_by_name (jp_inner_index_name jp); mret (Some i)
                 else mret None);
  inner_seq_rows ← (if bool_decide (jp_inner_method jp = ScanMethod.kSeqScan) then heap_Scan inner_heap else mret []);
  outer_rows ← FetchCandidateRows (jp_outer jp);
  rows ← fold_m (join_outer plan jp outer_table inner_table outer_join_idx inner_join_idx inner_heap inner_index inner_seq_rows) [] outer_rows;
  mret (mkResult rows names 0).

Definition ExecuteSelect (stmt : SelectStatement) : M W ExecuteResult :=
  plan ← lift (PlanSelect catalog stmt);
  match sp_access plan with
  | TableAccess access => ExecuteSelectSingleTable plan access
  | JoinAccess jp => ExecuteSelectJoin plan jp
  end.

End Statements.
