(* ===== verification/Query.v ===== *)
(** * Query: what WHERE means, and plans that keep it

    [satisfies] says what a predicate asks of a row, without the planner.
    Every plan keeps the meaning of the clause: the predicate an index answers
    and the ones left over are together the clause, and on the rows of a table
    the probe finds exactly those that satisfy the first. *)
From S2P Require Import Prelude Config DiskManager HeapFile BTreeSpec Storage Text Catalog Ast RowCodec Planner Executor.

(** ** The meaning of predicates *)

Definition literal_compare (a b : LiteralValue) : comparison :=
  if bool_decide (kind a = LiteralKind.kInteger) then int_value a ?= int_value b
  else compare_bytes (string_value a) (string_value b).

Definition meets (op : Comparator) (a b : LiteralValue) : Prop :=
  match op with
  | Comparator.kEq => literal_compare a b = Eq
  | Comparator.kNeq => literal_compare a b <> Eq
  | Comparator.kLt => literal_compare a b = Lt
  | Comparator.kLe => literal_compare a b <> Gt
  | Comparator.kGt => literal_compare a b = Gt
  | Comparator.kGe => literal_compare a b <> Lt
  end.

#[global] Instance comparison_eq_dec : EqDecision comparison.
Proof. solve_decision. Defined.

#[global] Instance meets_dec op a b : Decision (meets op a b).
Proof. unfold meets. destruct op; apply _. Defined.

(** The value of a row in a column. *)
Definition value_of (t : TableInfo) (values : list LiteralValue) (n : bytes) : option LiteralValue :=
  column_position (tb_columns t) n ≫= fun i => values !! i.

Definition satisfies (t : TableInfo) (values : list LiteralValue) (p : Predicate) : Prop :=
  match value_of t values (cr_column_name (pr_column p)) with
  | Some v => meets (pr_op p) v (pr_value p)
  | None => False
  end.

#[global] Instance satisfies_dec t values p : Decision (satisfies t values p).
Proof. unfold satisfies. destruct (value_of _ _ _); apply _. Defined.

Abbreviation row := (RID * list LiteralValue)%type.

Definition matching (t : TableInfo) (ps : list Predicate) (x : row) : Prop := Forall (satisfies t x.2) ps.

#[global] Instance matching_dec t ps x : Decision (matching t ps x).
Proof. unfold matching. apply _. Defined.

(** The column of a predicate exists. *)
Definition known (t : TableInfo) (p : Predicate) : Prop := is_Some (FindColumn t (cr_column_name (pr_column p))).

(** ** Evaluating them *)

Lemma compare_bytes_eq a b : compare_bytes a b = Eq <-> a = b.
Proof.
  revert b. induction a as [|x a IH]; intros [|y b]; cbn; try done.
  destruct (Z.compare_spec (Z_of_byte x) (Z_of_byte y)) as [E|E|E].
  - apply Z_of_byte_inj in E as ->. rewrite IH. split; [by intros ->|by intros [= ->]].
  - split; [done|]. intros [= -> _]. lia.
  - split; [done|]. intros [= -> _]. lia.
Qed.

(** Values of one kind, as the parser and the row decoder build them, compare
    equal when they are. *)
Lemma literal_compare_eq t a b : literal_ok t a -> literal_ok t b -> literal_compare a b = Eq <-> a = b.
Proof.
  unfold literal_compare. destruct t; intros [-> _] [-> _]; cbn [kind int_literal string_literal int_value string_value].
  - rewrite bool_decide_eq_true_2, Z.compare_eq_iff by done. split; [by intros ->|by intros [= ->]].
  - rewrite bool_decide_eq_false_2, compare_bytes_eq by done. split; [by intros ->|by intros [= ->]].
Qed.

Lemma compares_meets op a b : compares op (CompareLiterals a b) = bool_decide (meets op a b).
Proof.
  assert (CompareLiterals a b = match literal_compare a b with Eq => 0 | Lt => -1 | Gt => 1 end) as ->.
  { unfold CompareLiterals, literal_compare. case_bool_decide; [|by destruct (compare_bytes _ _)].
    destruct (Z.compare_spec (int_value a) (int_value b)) as [E|E|E].
    - rewrite E, Z.ltb_irrefl. done.
    - by rewrite (proj2 (Z.ltb_lt _ _) E).
    - rewrite (proj2 (Z.ltb_lt _ _) E), (proj2 (Z.ltb_ge _ _)) by lia. done. }
  case_bool_decide as H; unfold meets in H; destruct op, (literal_compare a b); first [done | by destruct H].
Qed.

Lemma column_value_run t values n c :
  FindColumn t n = Some c -> row_ok (tb_columns t) values ->
  exists v, column_value t values n = Ret v /\ value_of t values n = Some v /\ literal_ok (col_type c) v.
Proof.
  intros Hf Hok. destruct (ColumnIndex_run t n) as [(i & c' & H1 & H2 & H3 & H4)|[_ H]]; [|congruence].
  rewrite Hf in H2. injection H2 as <-. destruct (Forall2_lookup_l _ _ _ _ _ Hok H3) as (v & Hv & Hlit). exists v.
  unfold column_value, value_at, value_of. rewrite H1. cbn [mbind outcome_bind option_bind]. rewrite Hv. split_and!; [done| |done].
  pose proof (column_position_find (tb_columns t) n) as Hp. unfold FindColumn in Hf. rewrite Hf in Hp. unfold ColumnIndex, RequireColumn, FindColumn in H1.
  rewrite Hf in H1. cbn in H1. destruct (column_position (tb_columns t) n) as [j|]; [|done]. injection H1 as ->. exact Hv.
Qed.

Lemma EvaluatePredicate_run t values p :
  known t p -> row_ok (tb_columns t) values -> EvaluatePredicate t values p = Ret (bool_decide (satisfies t values p)).
Proof.
  intros [c Hc] Hok. destruct (column_value_run _ _ _ _ Hc Hok) as (v & H1 & H2 & _). unfold EvaluatePredicate. rewrite H1.
  cbn [mbind outcome_bind]. rewrite compares_meets. f_equal. apply bool_decide_ext. unfold satisfies. by rewrite H2.
Qed.

Lemma MatchesAll_run t values ps :
  Forall (known t) ps -> row_ok (tb_columns t) values -> MatchesAll t values ps = Ret (bool_decide (Forall (satisfies t values) ps)).
Proof.
  intros Hk Hok. induction Hk as [|p ps Hp _ IH]; [done|]. cbn [MatchesAll]. rewrite EvaluatePredicate_run by done.
  cbn [mbind outcome_bind]. destruct (bool_decide_reflect (satisfies t values p)) as [H|H].
  - rewrite IH. f_equal. apply bool_decide_ext. rewrite Forall_cons. tauto.
  - f_equal. symmetry. apply bool_decide_eq_false_2. intros [? _]%Forall_cons. done.
Qed.

(** ** Rows as the heap stores them *)

Definition stored_row (t : TableInfo) (x : row) : RID * bytes := (x.1, row_image (tb_columns t) x.2).
Definition raw (t : TableInfo) (rows : list row) : list (RID * bytes) := stored_row t <$> rows.
Definition rows_ok (t : TableInfo) (rows : list row) : Prop := Forall (row_ok (tb_columns t)) rows.*2.

Lemma raw_rids t rows : (raw t rows).*1 = rows.*1.
Proof. unfold raw. rewrite <- list_fmap_compose. done. Qed.

Lemma DecodeRow_run t x : row_ok (tb_columns t) x.2 -> DecodeRow (tb_columns t) (stored_row t x).2 = Ret x.2.
Proof.
  intros H. pose proof (decode_loop_run (tb_columns t) x.2 [] [] H) as Hd. by rewrite app_nil_r in Hd.
Qed.

Lemma filter_rows_run t ps rows :
  Forall (known t) ps -> rows_ok t rows -> filter_rows t ps (raw t rows) = Ret (filter (matching t ps) rows).
Proof.
  intros Hk. unfold rows_ok. induction rows as [|[rid values] rows IH]; intros Hok; [done|].
  cbn [fmap list_fmap] in Hok. apply Forall_cons in Hok as [Hv Hok].
  cbn [raw fmap list_fmap stored_row filter_rows fst snd]. pose proof (DecodeRow_run t (rid, values) Hv) as Hd. cbn [stored_row fst snd] in Hd. rewrite Hd.
  cbn [mbind outcome_bind]. rewrite MatchesAll_run by done. cbn [mbind outcome_bind]. fold (raw t rows). rewrite IH by done.
  cbn [mbind outcome_bind]. f_equal. rewrite filter_cons. unfold matching at 3. cbn [snd]. by case_bool_decide; case_decide.
Qed.

(** ** Plans *)

Lemma check_each_ret {A} (f : A -> outcome unit) l : check_each f l = Ret tt <-> Forall (fun a => f a = Ret tt) l.
Proof.
  induction l as [|a l IH]; cbn [check_each]; [split; [constructor|done]|]. rewrite Forall_cons, <- IH. unfold mbind, outcome_bind.
  destruct (f a) as [[]|e|key|]; [tauto|split; intros; naive_solver..].
Qed.

Definition sql_checked {A} (o : outcome A) : Prop := match o with Ret _ | Throw SqlSemanticError => True | _ => False end.

Lemma check_each_checked {A} (f : A -> outcome unit) l : (forall a, sql_checked (f a)) -> sql_checked (check_each f l).
Proof.
  intros H. induction l as [|a l IH]; [done|]. cbn [check_each]. specialize (H a). unfold mbind, outcome_bind.
  destruct (f a); [exact IH|exact H..].
Qed.

Lemma RequireColumn_checked t n : sql_checked (RequireColumn t n).
Proof. unfold RequireColumn. by destruct (FindColumn t n). Qed.

Lemma RequireLiteral_checked c v : sql_checked (RequireLiteralMatchesColumn c v).
Proof. unfold RequireLiteralMatchesColumn. by destruct (literal_matches _ _). Qed.

Lemma bind_checked {A B} (o : outcome A) (k : A -> outcome B) :
  sql_checked o -> (forall a, o = Ret a -> sql_checked (k a)) -> sql_checked (o ≫= k).
Proof. intros Ho Hk. destruct o as [a|e|key|]; [by apply Hk|exact Ho..]. Qed.

Lemma map_outcome_checked {A B} (f : A -> outcome B) l : (forall a, sql_checked (f a)) -> sql_checked (map_outcome f l).
Proof.
  intros H. induction l as [|a l IH]; [done|]. cbn [map_outcome]. apply bind_checked; [done|]. intros b _. by apply bind_checked.
Qed.

Lemma map_outcome_ret {A B} (f : A -> outcome B) (g : A -> B) l :
  Forall (fun a => f a = Ret (g a)) l -> map_outcome f l = Ret (g <$> l).
Proof. induction 1 as [|a l Ha _ IH]; [done|]. cbn [map_outcome]. rewrite Ha. cbn [mbind outcome_bind]. by rewrite IH. Qed.

Lemma Validate_checked t p : sql_checked (ValidatePredicateAgainstTable t p).
Proof.
  unfold ValidatePredicateAgainstTable. destruct (match cr_table_name (pr_column p) with Some _ => _ | None => _ end); [done|].
  apply bind_checked; [apply RequireColumn_checked|]. intros c _. apply RequireLiteral_checked.
Qed.

(** What validation establishes. *)
Definition valid_predicate (t : TableInfo) (p : Predicate) : Prop := ValidatePredicateAgainstTable t p = Ret tt.

Lemma valid_predicate_facts t p :
  valid_predicate t p -> exists c, FindColumn t (cr_column_name (pr_column p)) = Some c /\ literal_matches (col_type c) (pr_value p) = true.
Proof.
  unfold valid_predicate, ValidatePredicateAgainstTable, RequireColumn, RequireLiteralMatchesColumn.
  destruct (match cr_table_name (pr_column p) with Some _ => _ | None => _ end); [done|].
  destruct (FindColumn t _) as [c|]; [|done]. cbn. destruct (literal_matches _ _) eqn:E; [|done]. eauto.
Qed.

Lemma check_each_cases t ps : Forall (valid_predicate t) ps \/ ~ Forall (valid_predicate t) ps.
Proof.
  pose proof (check_each_checked (ValidatePredicateAgainstTable t) ps (Validate_checked t)) as Hc.
  pose proof (check_each_ret (ValidatePredicateAgainstTable t) ps) as Hiff.
  destruct (check_each _ ps) as [[]|[]| |]; try done; [left; by apply Hiff|right; intros H%Hiff; done].
Qed.

Lemma valid_known t ps : Forall (valid_predicate t) ps -> Forall (known t) ps.
Proof. intros H. eapply Forall_impl; [exact H|]. intros p (c & Hc & _)%valid_predicate_facts. by exists c. Qed.

(** The predicate a plan probes an index for. *)
Lemma driving_predicate_Some c n i ps k idx key :
  driving_predicate c n i ps = Some (k, idx, key) ->
  exists p, (i <= k)%nat /\ ps !! (k - i)%nat = Some p /\ pr_op p = Comparator.kEq /\ key = int_value (pr_value p) /\
    idx ∈ IndexesOnTable c n /\ ix_column_name idx = cr_column_name (pr_column p).
Proof.
  revert i. induction ps as [|p ps IH]; intros i; cbn [driving_predicate]; [done|].
  assert (driving_predicate c n (Datatypes.S i) ps = Some (k, idx, key) -> exists q, (i <= k)%nat /\ (p :: ps) !! (k - i)%nat = Some q /\
    pr_op q = Comparator.kEq /\ key = int_value (pr_value q) /\ idx ∈ IndexesOnTable c n /\ ix_column_name idx = cr_column_name (pr_column q)) as Hnext.
  { intros (q & Hle & Hq & Hrest)%IH. exists q. split; [lia|]. split; [|done]. replace (k - i)%nat with (Datatypes.S (k - Datatypes.S i)) by lia. done. }
  case_bool_decide as Hop; cbn [negb]; [|exact Hnext]. unfold FindIndexOnColumn.
  destruct (List.find _ (IndexesOnTable c n)) as [ix|] eqn:E; [|exact Hnext]. intros [= <- <- <-].
  apply find_In in E as [Hin Hcol%bool_decide_eq_true]. exists p. rewrite Nat.sub_diag. done.
Qed.

Lemma residual_perm k (ps : list Predicate) p : ps !! k = Some p -> ps ≡ₚ p :: residual k ps.
Proof. intros H. unfold residual. rewrite <- (take_drop_middle _ _ _ H) at 1. symmetry. apply Permutation_middle. Qed.

(** A plan for the clause [ps] on the table [t]. *)
Inductive access_for (c : Catalog) (t : TableInfo) (ps : list Predicate) (plan : TableAccessPlan) : Prop :=
| by_scan : ap_method plan = ScanMethod.kSeqScan -> ap_residual_predicates plan = ps -> access_for c t ps plan
| by_index i p : ap_method plan = ScanMethod.kIndexScan -> i ∈ IndexesOnTable c (tb_name t) -> ap_index_name plan = ix_name i ->
    p ∈ ps -> pr_op p = Comparator.kEq -> cr_column_name (pr_column p) = ix_column_name i -> ap_index_key plan = int_value (pr_value p) ->
    ps ≡ₚ p :: ap_residual_predicates plan -> access_for c t ps plan.

Lemma FindTable_Some c n t : FindTable c n = Some t -> t ∈ tables_ c /\ tb_name t = n.
Proof. intros [H E%bool_decide_eq_true]%find_In. done. Qed.

Lemma PlanTableAccess_run c n ps :
  (PlanTableAccess c n ps = Throw SqlSemanticError /\ (FindTable c n = None \/ exists t, FindTable c n = Some t /\ ~ Forall (valid_predicate t) ps)) \/
  exists t plan, FindTable c n = Some t /\ Forall (valid_predicate t) ps /\ PlanTableAccess c n ps = Ret plan /\
    ap_table_name plan = n /\ access_for c t ps plan.
Proof.
  unfold PlanTableAccess. destruct (FindTable c n) as [t|] eqn:Et; [|by left; auto].
  pose proof (check_each_checked (ValidatePredicateAgainstTable t) ps (Validate_checked t)) as Hc.
  pose proof (check_each_ret (ValidatePredicateAgainstTable t) ps) as Hiff.
  destruct (check_each _ ps) as [[]|[]| |] eqn:E; try done.
  - right. eexists t, _. split_and!; [done|by apply Hiff|done|..].
    + by destruct (driving_predicate c n 0 ps) as [[[? ?] ?]|].
    + destruct (driving_predicate c n 0 ps) as [[[k idx] key]|] eqn:Ed; [|by constructor 1].
      apply driving_predicate_Some in Ed as (p & _ & Hp & Hop & -> & Hi & Hcol). rewrite Nat.sub_0_r in Hp.
      apply (by_index _ _ _ _ idx p); cbn; [done| |done|by eapply list_elem_of_lookup_2|done|done|done|by apply residual_perm].
      apply FindTable_Some in Et as [_ ->]. done.
  - left. split; [done|]. right. exists t. split; [done|]. intros Hv%Hiff. done.
Qed.
