(* ===== verification/Tables.v ===== *)
(** * Tables: a database as the rows of its tables

    [stored] says how one table lies in storage: its heap holds the encoded
    rows and every index on it holds one entry per row. The steps of the
    statements (fetching candidate rows, taking a row out, putting one in)
    are proved here against the laws of [Storage]. *)
From S2P Require Import Prelude Config DiskManager HeapFile BTreeSpec Storage Text Catalog Ast RowCodec Planner Executor Query.

(** ** What a table looks like in storage *)

(** The key a row has in an index on column [n]. *)
Definition col_key (t : TableInfo) (n : bytes) (values : list LiteralValue) : Z :=
  match value_of t values n with Some v => int_value v | None => 0 end.

Definition row_key (t : TableInfo) (i : IndexInfo) (x : row) : Z := col_key t (ix_column_name i) x.2.

Definition index_entries (t : TableInfo) (i : IndexInfo) (rows : list row) : list entry := (fun x => (row_key t i x, x.1)) <$> rows.

Record stored (c : Catalog) (d : Data) (t : TableInfo) (rows : list row) : Prop := mkStored {
  sd_heap : heaps d !! tb_heap_object_id t = Some (raw t rows);
  sd_rows : rows_ok t rows;
  sd_index i : i ∈ IndexesOnTable c (tb_name t) -> exists es, trees d !! ix_object_id i = Some es /\ es ≡ₚ index_entries t i rows
}.

(** No two rows with the same primary key. *)
Definition pk_distinct (c : Catalog) (t : TableInfo) (vals : list (list LiteralValue)) : Prop :=
  match PrimaryKeyIndex c (tb_name t) with
  | Some i => NoDup (col_key t (ix_column_name i) <$> vals)
  | None => True
  end.

#[global] Instance pk_distinct_dec c t vals : Decision (pk_distinct c t vals).
Proof. unfold pk_distinct. destruct (PrimaryKeyIndex _ _); apply _. Defined.

(** How many rows have the key [k] in an index, and that it never exceeds what
    one leaf holds. *)
Definition key_uses (t : TableInfo) (i : IndexInfo) (k : Z) (vals : list (list LiteralValue)) : Z :=
  zlen (filter (fun values => col_key t (ix_column_name i) values = k) vals).

Definition dups_ok (c : Catalog) (t : TableInfo) (vals : list (list LiteralValue)) : Prop :=
  forall i k, i ∈ IndexesOnTable c (tb_name t) -> key_uses t i k vals <= BTreeNode.BTreeNode.kLeafMaxKeys.

(** Only the objects of the table [t] differ. *)
Record touches (c : Catalog) (t : TableInfo) (d d' : Data) : Prop := mkTouches {
  tc_heaps h : h <> tb_heap_object_id t -> heaps d' !! h = heaps d !! h;
  tc_trees o : ~ (o ∈ (ix_object_id <$> IndexesOnTable c (tb_name t))) -> trees d' !! o = trees d !! o
}.

#[global] Instance touches_preorder c t : PreOrder (touches c t).
Proof.
  split; [by intros d|]. intros d1 d2 d3 [H1 H2] [H3 H4]. split; [intros h Hh; by rewrite H3, H1|intros o Ho; by rewrite H4, H2].
Qed.

(** ** Facts about well-formed schemas *)

Lemma table_by_name c t t' : catalog_ok c -> t ∈ tables_ c -> t' ∈ tables_ c -> tb_name t = tb_name t' -> t = t'.
Proof.
  intros Hc Ht Ht' Hn. pose proof (find_key tb_name _ _ (co_tables _ Hc) Ht) as H1. pose proof (find_key tb_name _ _ (co_tables _ Hc) Ht') as H2.
  rewrite Hn in H1. congruence.
Qed.

Lemma FindTable_In c t : catalog_ok c -> t ∈ tables_ c -> FindTable c (tb_name t) = Some t.
Proof. intros Hc Ht. exact (find_key tb_name _ _ (co_tables _ Hc) Ht). Qed.

Lemma FindIndex_In c i : catalog_ok c -> i ∈ indexes_ c -> FindIndex c (ix_name i) = Some i.
Proof. intros Hc Hi. exact (find_key ix_name _ _ (co_indexes _ Hc) Hi). Qed.

Lemma PrimaryKeyIndex_In c n i : PrimaryKeyIndex c n = Some i -> i ∈ IndexesOnTable c n.
Proof.
  intros [Hin H]%find_In. apply andb_true_iff in H as [H%bool_decide_eq_true _]. by apply on_table_facts.
Qed.

(** An index is on an INTEGER column of its table. *)
Lemma index_column c t i :
  catalog_ok c -> t ∈ tables_ c -> i ∈ IndexesOnTable c (tb_name t) ->
  exists cd, FindColumn t (ix_column_name i) = Some cd /\ col_type cd = ColumnType.kInteger.
Proof.
  intros Hc Ht [Hi Hn]%on_table_facts. pose proof (co_index _ Hc) as Ho. rewrite Forall_forall in Ho.
  destruct (Ho i Hi) as [(t' & cd & Ht' & Hn' & Hf & Hty & _) _]. assert (t' = t) as -> by (eapply table_by_name; [done..|congruence]). eauto.
Qed.

Lemma index_value c t i values :
  catalog_ok c -> t ∈ tables_ c -> i ∈ IndexesOnTable c (tb_name t) -> row_ok (tb_columns t) values ->
  exists v, column_value t values (ix_column_name i) = Ret v /\ int_value v = col_key t (ix_column_name i) values /\ int64_ok (int_value v) /\
    kind v = LiteralKind.kInteger.
Proof.
  intros Hc Ht Hi Hok. destruct (index_column c t i Hc Ht Hi) as (cd & Hf & Hty).
  destruct (column_value_run t values _ cd Hf Hok) as (v & H1 & H2 & H3). exists v. unfold col_key. rewrite H2, Hty in *.
  destruct H3 as [Hv Hr]. split_and!; [done..|by rewrite Hv].
Qed.

Lemma index_ids_NoDup c n : catalog_ok c -> NoDup (ix_object_id <$> IndexesOnTable c n).
Proof.
  intros Hc. pose proof (co_ids _ Hc) as H. apply NoDup_app in H as (_ & _ & H).
  assert (forall l, NoDup (ix_object_id <$> l) -> NoDup (ix_object_id <$> List.filter (fun i => bool_decide (ix_table_name i = n)) l)) as Hf; [|by apply Hf].
  induction l as [|i l IH]; intros Hnd; [done|]. cbn in *. apply NoDup_cons in Hnd as [Hi Hnd]. case_bool_decide; cbn; [|by apply IH].
  constructor; [|by apply IH]. intros (j & Hj & Hin)%list_elem_of_fmap. apply Hi. rewrite Hj. apply list_elem_of_fmap_2.
  apply list_elem_of_In, filter_In in Hin as [Hin _]. by apply list_elem_of_In.
Qed.

(** Different tables share no object. *)
Lemma index_id_inj c i j : catalog_ok c -> i ∈ indexes_ c -> j ∈ indexes_ c -> ix_object_id i = ix_object_id j -> i = j.
Proof.
  intros Hc Hi Hj He. pose proof (co_ids _ Hc) as H. apply NoDup_app in H as (_ & _ & H).
  apply list_elem_of_lookup in Hi as [a Hi], Hj as [b Hj]. assert (a = b) as ->; [|congruence].
  eapply (NoDup_lookup _ _ _ _ H); rewrite list_lookup_fmap; [by rewrite Hi|rewrite Hj; cbn; by rewrite He].
Qed.

Lemma heap_id_inj c t t' : catalog_ok c -> t ∈ tables_ c -> t' ∈ tables_ c -> tb_heap_object_id t = tb_heap_object_id t' -> t = t'.
Proof.
  intros Hc Hi Hj He. pose proof (co_ids _ Hc) as H. apply NoDup_app in H as (H & _ & _).
  apply list_elem_of_lookup in Hi as [a Hi], Hj as [b Hj]. assert (a = b) as ->; [|congruence].
  eapply (NoDup_lookup _ _ _ _ H); rewrite list_lookup_fmap; [by rewrite Hi|rewrite Hj; cbn; by rewrite He].
Qed.

Lemma stored_other c d d' t t' rows :
  catalog_ok c -> t ∈ tables_ c -> t' ∈ tables_ c -> t' <> t -> touches c t d d' -> stored c d t' rows -> stored c d' t' rows.
Proof.
  intros Hc Ht Ht' Hne [H1 H2] [S1 S2 S3]. split; [|done|].
  - rewrite H1; [done|]. intros He. apply Hne. by eapply heap_id_inj.
  - intros i Hi. rewrite H2; [by apply S3|]. intros (j & Hj & Hin)%list_elem_of_fmap.
    apply on_table_facts in Hi as [Hi Hn], Hin as [Hin Hn']. apply Hne. eapply table_by_name; [done..|].
    rewrite <- Hn, <- Hn'. by rewrite (index_id_inj c i j).
Qed.

(** ** Keys *)

Lemma index_entries_fst t i rows : (index_entries t i rows).*1 = col_key t (ix_column_name i) <$> rows.*2.
Proof. unfold index_entries. by rewrite <- !list_fmap_compose. Qed.

Lemma key_count_entries t i k rows : BTreeSpec.key_count k (index_entries t i rows) = key_uses t i k rows.*2.
Proof.
  unfold BTreeSpec.key_count, key_uses, index_entries, zlen. f_equal. by rewrite !list_filter_map, !length_fmap.
Qed.

Lemma key_uses_submseteq t i k vals vals' : vals ⊆+ vals' -> key_uses t i k vals <= key_uses t i k vals'.
Proof.
  intros H. unfold key_uses, zlen. apply inj_le, submseteq_length. by apply filter_submseteq.
Qed.

Lemma dups_ok_submseteq c t vals vals' : vals ⊆+ vals' -> dups_ok c t vals' -> dups_ok c t vals.
Proof. intros Hs Hd i k Hi. etrans; [by apply key_uses_submseteq|by apply Hd]. Qed.

Lemma search_index_entries t i k rows :
  BTreeSpec.search_entries k (index_entries t i rows) = (filter (fun x => row_key t i x = k) rows).*1.
Proof.
  unfold BTreeSpec.search_entries, index_entries. rewrite list_filter_map, <- list_fmap_compose. done.
Qed.

(** ** Fetching rows *)

Section Steps.
Context {W : Type} `{HL : StorageLaws W} (c : Catalog) (Hc : catalog_ok c) (t : TableInfo) (Ht : t ∈ tables_ c).

Lemma heap_of_run (w : W) : heap_of c (tb_name t) w = (Ret (tb_heap_object_id t), w).
Proof. unfold heap_of. rewrite FindTable_In by done. done. Qed.

Lemma index_by_name_run i (w : W) : i ∈ indexes_ c -> index_by_name c (ix_name i) w = (Ret (ix_object_id i), w).
Proof. intros Hi. unfold index_by_name. rewrite FindIndex_In by done. done. Qed.

(** The record ids of a stored table. *)
Lemma stored_rids w d n rows :
  holds w d n -> stored c d t rows -> NoDup rows.*1 /\ Forall BTreeNode.BTreeNode.rid_ok rows.*1.
Proof. intros Hh Hs. rewrite <- (raw_rids t). eapply holds_rows; [exact Hh|apply Hs]. Qed.

Lemma stored_row_ok d rows x : stored c d t rows -> x ∈ rows -> row_ok (tb_columns t) x.2.
Proof. intros Hs Hx. pose proof (sd_rows _ _ _ _ Hs) as H. unfold rows_ok in H. rewrite Forall_forall in H. apply H. by apply list_elem_of_fmap_2. Qed.

Lemma get_rows_run w d n rows cand :
  holds w d n -> stored c d t rows -> (forall x, x ∈ cand -> x ∈ rows) ->
  exists w', get_rows (tb_heap_object_id t) cand.*1 w = (Ret (raw t cand), w') /\ holds w' d n.
Proof.
  intros Hh Hs Hin. revert w Hh. induction cand as [|x cand IH]; intros w Hh; [by exists w|]. cbn [fmap list_fmap get_rows].
  destruct (stored_rids _ _ _ _ Hh Hs) as [Hnd Hok]. assert (x ∈ rows) as Hx by (apply Hin; by left).
  destruct (GetRow_law w d n _ _ x.1 Hh (sd_heap _ _ _ _ Hs)) as (w1 & H1 & Hh1).
  { rewrite Forall_forall in Hok. apply Hok. by apply list_elem_of_fmap_2. }
  destruct (IH ltac:(intros; apply Hin; by right) w1 Hh1) as (w2 & H2 & Hh2). exists w2. split; [|done]. run H1.
  assert ((list_to_map (raw t rows) : gmap RID bytes) !! x.1 = Some (row_image (tb_columns t) x.2)) as ->.
  { apply elem_of_list_to_map_1; [by rewrite raw_rids|]. apply list_elem_of_fmap. by exists x. }
  run H2. done.
Qed.

(** The rows an index probe finds. *)
Lemma probe_run w d n rows i key :
  holds w d n -> stored c d t rows -> i ∈ IndexesOnTable c (tb_name t) ->
  exists w' cand, tree_Search (ix_object_id i) key w = (Ret cand.*1, w') /\ holds w' d n /\ cand ≡ₚ filter (fun x => row_key t i x = key) rows.
Proof.
  intros Hh Hs Hi. destruct (sd_index _ _ _ _ Hs i Hi) as (es & Hes & Hp). destruct (Search_law w d n _ es key Hh Hes) as (w' & H1 & Hh').
  apply (BTreeSpec.search_entries_perm key) in Hp. rewrite search_index_entries in Hp.
  destruct (Permutation_map_inv _ _ Hp) as (cand & Hcand & Hpc).
  exists w', cand. split_and!; [|done|by symmetry]. rewrite H1, Hcand. done.
Qed.

(** A row satisfies an equality on an indexed column when its key in the
    index is the value. *)
Lemma satisfies_key i p values :
  i ∈ IndexesOnTable c (tb_name t) -> valid_predicate t p -> pr_op p = Comparator.kEq ->
  cr_column_name (pr_column p) = ix_column_name i -> row_ok (tb_columns t) values ->
  satisfies t values p <-> col_key t (ix_column_name i) values = int_value (pr_value p).
Proof.
  intros Hi Hv Hop Hcol Hok. destruct (index_column c t i Hc Ht Hi) as (cd & Hf & Hty).
  destruct (column_value_run t values _ cd Hf Hok) as (v & _ & H2 & H3). unfold satisfies, col_key. rewrite Hcol, H2, Hop. cbn [meets].
  rewrite Hty in H3. destruct H3 as [-> _]. unfold literal_compare. cbn [kind int_value int_literal]. rewrite bool_decide_eq_true_2 by done.
  apply Z.compare_eq_iff.
Qed.

Lemma FetchCandidateRows_run w d n rows ps plan :
  holds w d n -> stored c d t rows -> Forall (valid_predicate t) ps -> ap_table_name plan = tb_name t -> access_for c t ps plan ->
  exists w' cand, FetchCandidateRows c plan w = (Ret (raw t cand), w') /\ holds w' d n /\ cand ⊆+ rows /\
    filter (matching t (ap_residual_predicates plan)) cand ≡ₚ filter (matching t ps) rows /\
    Forall (known t) (ap_residual_predicates plan) /\ rows_ok t cand.
Proof.
  intros Hh Hs Hv Hn Hplan. unfold FetchCandidateRows. rewrite Hn. destruct Hplan as [Hm Hres|i p Hm Hi Hname Hp Hop Hcol Hkey Hperm].
  - rewrite bool_decide_eq_true_2 by done. run (heap_of_run w). destruct (Scan_law w d n _ _ Hh (sd_heap _ _ _ _ Hs)) as (w' & H1 & Hh').
    exists w', rows. rewrite Hres. split_and!; [done..|by apply valid_known|apply Hs].
  - rewrite bool_decide_eq_false_2 by (rewrite Hm; done). rewrite Hname, Hkey.
    assert (i ∈ indexes_ c) as Hi' by (by apply on_table_facts in Hi as [? _]).
    run (index_by_name_run i w Hi'). run (heap_of_run w).
    destruct (probe_run w d n rows i (int_value (pr_value p)) Hh Hs Hi) as (w1 & cand & H1 & Hh1 & Hcand). run H1.
    assert (cand ⊆+ rows) as Hsub by (rewrite Hcand; apply filter_submseteq_self).
    destruct (get_rows_run w1 d n rows cand Hh1 Hs) as (w2 & H2 & Hh2); [intros x Hx; by eapply elem_of_submseteq|].
    assert (Forall (valid_predicate t) (ap_residual_predicates plan)) as Hvr.
    { rewrite Forall_forall in *. intros q Hq. apply Hv. rewrite Hperm. by right. }
    exists w2, cand. split_and!; [done..| |by apply valid_known|].
    + rewrite Hcand, list_filter_filter. erewrite list_filter_ext_in; [done|]. intros x Hx. cbn beta.
      unfold matching. rewrite Hperm at 1. rewrite Forall_cons. rewrite Forall_forall in Hv.
      rewrite (satisfies_key i p x.2 Hi (Hv p Hp) Hop Hcol) by (by eapply stored_row_ok). unfold row_key. tauto.
    + pose proof (sd_rows _ _ _ _ Hs) as Hok. unfold rows_ok in *. rewrite Forall_forall in *. intros values (x & -> & Hx)%list_elem_of_fmap.
      apply Hok, list_elem_of_fmap_2. by eapply elem_of_submseteq.
Qed.

(** ** Changing rows *)

(** A loop over indexes, each turn changing the one tree. *)
Lemma index_loop (body : IndexInfo -> M W unit) (P Q : IndexInfo -> list entry -> Prop) (k : nat) idxs w d n :
  (forall i w d n es, i ∈ idxs -> holds w d (k + n) -> trees d !! ix_object_id i = Some es -> P i es ->
     exists w' es', body i w = (Ret tt, w') /\ holds w' (set_tree (ix_object_id i) es' d) n /\ Q i es') ->
  NoDup (ix_object_id <$> idxs) -> (forall i, i ∈ idxs -> exists es, trees d !! ix_object_id i = Some es /\ P i es) ->
  holds w d (length idxs * k + n) ->
  exists w' d', for_each body idxs w = (Ret tt, w') /\ holds w' d' n /\ heaps d' = heaps d /\
    (forall i, i ∈ idxs -> exists es, trees d' !! ix_object_id i = Some es /\ Q i es) /\
    (forall o, ~ (o ∈ (ix_object_id <$> idxs)) -> trees d' !! o = trees d !! o).
Proof.
  revert w d. induction idxs as [|i idxs IH]; intros w d Hb Hnd Hp Hh.
  { exists w, d. split_and!; [done..| |done]. intros i Hi. by apply elem_of_nil in Hi. }
  cbn [fmap list_fmap] in Hnd. apply NoDup_cons in Hnd as [Hi Hnd]. destruct (Hp i ltac:(by left)) as (es & Hes & HP).
  destruct (Hb i w d (length idxs * k + n)%nat es ltac:(by left)) as (w1 & es1 & H1 & Hh1 & HQ); [|done..|].
  { cbn in Hh. by rewrite Nat.add_assoc. }
  assert (forall o, o <> ix_object_id i -> trees (set_tree (ix_object_id i) es1 d) !! o = trees d !! o) as Hoth.
  { intros o Ho. cbn. by rewrite lookup_insert_ne. }
  destruct (IH w1 (set_tree (ix_object_id i) es1 d)) as (w2 & d2 & H2 & Hh2 & Hheaps & HQ2 & Hoth2); [|done| |done|].
  { intros j w' d' n' es' Hj. apply Hb. by right. }
  { intros j Hj. destruct (Hp j ltac:(by right)) as (es' & Hes' & HP'). exists es'. split; [|done]. rewrite Hoth; [done|].
    intros He. apply Hi. rewrite <- He. by apply list_elem_of_fmap_2. }
  exists w2, d2. cbn [for_each]. run H1. split_and!; [done..| |].
  - intros j [->|Hj]%elem_of_cons; [|by apply HQ2]. exists es1. split; [|done]. rewrite Hoth2 by done. cbn. apply lookup_insert_eq.
  - intros o Ho. cbn [fmap list_fmap] in Ho. rewrite elem_of_cons in Ho. rewrite Hoth2 by tauto. apply Hoth. tauto.
Qed.

Lemma index_column_run i x (w : W) :
  i ∈ IndexesOnTable c (tb_name t) -> row_ok (tb_columns t) x.2 ->
  exists v, lift (column_value t x.2 (ix_column_name i)) w = (Ret v, w) /\ int_value v = row_key t i x /\ int64_ok (row_key t i x).
Proof.
  intros Hi Hok. destruct (index_value c t i x.2 Hc Ht Hi Hok) as (v & H1 & H2 & H3 & _). exists v. unfold lift. rewrite H1.
  split_and!; [done..|]. unfold row_key. by rewrite <- H2.
Qed.

Definition without (rid : RID) (rows : list row) : list row := filter (fun y : row => y.1 <> rid) rows.

Lemma without_perm x (rows : list row) : NoDup rows.*1 -> x ∈ rows -> rows ≡ₚ x :: without x.1 rows.
Proof.
  unfold without. induction rows as [|y rows IH]; intros Hnd Hx; [by apply elem_of_nil in Hx|].
  cbn [fmap list_fmap] in Hnd. apply NoDup_cons in Hnd as [Hy Hnd]. rewrite filter_cons. apply elem_of_cons in Hx as [->|Hx].
  - rewrite decide_False by tauto. rewrite list_filter_all; [done|]. apply Forall_forall. intros z Hz He. apply Hy. rewrite <- He.
    by apply list_elem_of_fmap_2.
  - rewrite decide_True; [|intros He; apply Hy; rewrite He; by apply list_elem_of_fmap_2]. rewrite (IH Hnd Hx) at 1. by constructor.
Qed.

Lemma raw_without rid rows : filter (HeapFile.other_row rid) (raw t rows) = raw t (without rid rows).
Proof. unfold raw, without. rewrite list_filter_map. done. Qed.

(** Taking a row out of the table and its indexes. *)
Lemma remove_row_run w d n rows x :
  holds w d n -> stored c d t rows -> x ∈ rows ->
  exists w' w'' d'', DeleteFromAllIndexes c t x.2 x.1 w = (Ret tt, w') /\ heap_Delete (tb_heap_object_id t) x.1 w' = (Ret true, w'') /\
    holds w'' d'' n /\ stored c d'' t (without x.1 rows) /\ touches c t d d''.
Proof.
  intros Hh Hs Hx. destruct (stored_rids _ _ _ _ Hh Hs) as [Hnd Hrid]. pose proof (stored_row_ok _ _ _ Hs Hx) as Hok.
  pose proof (without_perm x rows Hnd Hx) as Hperm. unfold DeleteFromAllIndexes.
  destruct (index_loop (fun idx => v ← lift (column_value t x.2 (ix_column_name idx)); tree_Delete (ix_object_id idx) (int_value v) x.1;; mret tt)
    (fun i es => es ≡ₚ index_entries t i rows) (fun i es => es ≡ₚ index_entries t i (without x.1 rows)) 0 (IndexesOnTable c (tb_name t)) w d n)
    as (w1 & d1 & H1 & Hh1 & Hheaps & Hidx & Hoth).
  - intros i w1 d1 n1 es Hi Hh1 Hes Hp. destruct (index_column_run i x w1 Hi Hok) as (v & Hv & Hk & _).
    destruct (tree_Delete_law w1 d1 n1 _ es (row_key t i x) x.1 Hh1 Hes) as (w2 & H2 & Hh2). exists w2, (BTreeSpec.delete_entry (row_key t i x) x.1 es).
    run Hv. rewrite Hk. run H2. split_and!; [done..|]. assert (es ≡ₚ (row_key t i x, x.1) :: index_entries t i (without x.1 rows)) as Hp2.
    { rewrite Hp. unfold index_entries. by rewrite Hperm at 1. }
    apply (Permutation_cons_inv (a := (row_key t i x, x.1))). rewrite <- Hp2. symmetry. apply BTreeSpec.delete_entry_perm. rewrite Hp2. by left.
  - by apply index_ids_NoDup.
  - intros i Hi. apply (sd_index _ _ _ _ Hs i Hi).
  - by rewrite Nat.mul_0_r.
  - rewrite Forall_forall in Hrid. destruct (Delete_law w1 d1 n (tb_heap_object_id t) (raw t rows) x.1 Hh1) as (w2 & H2 & Hh2);
      [rewrite Hheaps; apply Hs|by apply Hrid, list_elem_of_fmap_2|].
    rewrite bool_decide_eq_true_2 in H2 by (rewrite raw_rids; by apply list_elem_of_fmap_2).
    exists w1, w2, (set_heap (tb_heap_object_id t) (filter (HeapFile.other_row x.1) (raw t rows)) d1). split_and!; [done..| |].
    + split; cbn; [by rewrite lookup_insert_eq, raw_without| |done]. pose proof (sd_rows _ _ _ _ Hs) as Hr. unfold rows_ok in *.
      rewrite Forall_forall in *. intros v (y & -> & [_ Hy]%list_elem_of_filter)%list_elem_of_fmap. by apply Hr, list_elem_of_fmap_2.
    + split; cbn; [|done]. intros h Hhne. by rewrite lookup_insert_ne, Hheaps.
Qed.

(** The insertions one new row takes. *)
Definition writes : nat := 1 + length (IndexesOnTable c (tb_name t)).

Lemma insert_entries_perm i rows x : index_entries t i (rows ++ [x]) ≡ₚ (row_key t i x, x.1) :: index_entries t i rows.
Proof. unfold index_entries. rewrite fmap_app. cbn. by rewrite <- Permutation_cons_append. Qed.

(** Putting a row into the table and its indexes. *)
Lemma add_row_run w d n rows values :
  holds w d (writes + n) -> stored c d t rows -> row_ok (tb_columns t) values ->
  zlen (row_image (tb_columns t) values) <= HeapFile.kMaxRowSize -> dups_ok c t (rows.*2 ++ [values]) ->
  exists rid w' w'' d'', heap_Insert (tb_heap_object_id t) (row_image (tb_columns t) values) w = (Ret rid, w') /\
    InsertIntoAllIndexes c t values rid w' = (Ret tt, w'') /\
    holds w'' d'' n /\ stored c d'' t (rows ++ [(rid, values)]) /\ touches c t d d''.
Proof.
  intros Hh Hs Hok Hsz Hd. destruct (Insert_law w d _ _ _ _ Hh (sd_heap _ _ _ _ Hs) Hsz) as (rid & w1 & H1 & Hh1). exists rid, w1.
  set (x := (rid, values)). set (d1 := set_heap _ _ d) in *.
  assert (heaps d1 !! tb_heap_object_id t = Some (raw t (rows ++ [x]))) as Hheap.
  { unfold d1. cbn. rewrite lookup_insert_eq. unfold raw. by rewrite fmap_app. }
  assert (BTreeNode.BTreeNode.rid_ok rid) as Hrid.
  { destruct (holds_rows _ _ _ _ _ Hh1 Hheap) as [_ Hr]. rewrite raw_rids, fmap_app, Forall_app in Hr.
    destruct Hr as [_ Hr]. exact (proj1 (Forall_singleton _ _) Hr). }
  destruct (index_loop (fun idx => v ← lift (column_value t values (ix_column_name idx)); tree_Insert (ix_object_id idx) (int_value v) rid)
    (fun i es => es ≡ₚ index_entries t i rows) (fun i es => es ≡ₚ index_entries t i (rows ++ [x])) 1 (IndexesOnTable c (tb_name t)) w1 d1 n)
    as (w2 & d2 & H2 & Hh2 & Hheaps & Hidx & Hoth).
  - intros i w2 d2 n2 es Hi Hh2 Hes Hp. destruct (index_column_run i x w2 Hi Hok) as (v & Hv & Hk & Hr).
    assert (BTreeSpec.insert_entry (row_key t i x) rid es ≡ₚ index_entries t i (rows ++ [x])) as Hp2.
    { rewrite BTreeSpec.insert_entry_perm, insert_entries_perm, Hp. done. }
    destruct (tree_Insert_law w2 d2 n2 _ es (row_key t i x) rid Hh2 Hes) as (w3 & H3 & Hh3); [by split| |].
    { intros k. rewrite (BTreeSpec.key_count_perm k _ _ Hp2), key_count_entries, fmap_app. by apply Hd. }
    exists w3, (BTreeSpec.insert_entry (row_key t i x) rid es). change values with x.2. run Hv. rewrite Hk. split_and!; done.
  - by apply index_ids_NoDup.
  - intros i Hi. apply (sd_index _ _ _ _ Hs i Hi).
  - by rewrite Nat.mul_1_r.
  - exists w2, d2. split_and!; [done..| |].
    + split; [by rewrite Hheaps| |done]. unfold rows_ok. rewrite fmap_app. apply Forall_app. split; [apply Hs|by apply Forall_singleton].
    + split; [|done]. intros h Hne. rewrite Hheaps. unfold d1. cbn. by rewrite lookup_insert_ne.
Qed.

End Steps.
