(* ===== verification/Statements.v ===== *)
(** * Statements: what INSERT, DELETE and UPDATE do to the tables

    [database] reads a storage state as the rows of every table. Each
    statement is a function of those rows: INSERT appends one, DELETE keeps
    those the clause does not match, UPDATE replaces the matching ones, all or
    nothing; every index follows, and a statement that would break a primary
    key, or a row that fits no page, is refused with nothing changed. *)
From stdpp Require Import functions.
From S2P Require Import Prelude Config DiskManager HeapFile BTreeSpec Storage Text Catalog Ast RowCodec Planner Executor Query Tables.

(** ** The tables of a database *)

(** The rows of each table, by name. *)
Abbreviation contents := (bytes -> list row).

Definition tables_state (c : Catalog) (d : Data) (T : contents) : Prop :=
  forall t, t ∈ tables_ c -> stored c d t (T (tb_name t)) /\ pk_distinct c t (T (tb_name t)).*2.

(** [w] holds the tables [T] and has room for [n] insertions. *)
Definition database {W} `{StorageLaws W} (c : Catalog) (w : W) (T : contents) (n : nat) : Prop :=
  catalog_ok c /\ exists d, holds w d n /\ tables_state c d T.

Lemma database_le {W} `{StorageLaws W} c w T n m : database c w T n -> (m <= n)%nat -> database c w T m.
Proof. intros [Hc (d & Hh & HT)] Hle. split; [done|]. exists d. split; [by eapply holds_le|done]. Qed.

#[global] Instance literal_ok_dec ty v : Decision (literal_ok ty v).
Proof. destruct ty; unfold literal_ok, int64_ok; apply _. Defined.

#[global] Instance row_ok_dec cols values : Decision (row_ok cols values).
Proof. unfold row_ok. apply _. Defined.

(** A literal as the parser builds it. *)
Definition literal_wf (v : LiteralValue) : Prop := exists ty, literal_ok ty v.

(** ** Lemmas: values *)

Lemma literal_wf_ok ty v : literal_wf v -> literal_matches ty v = true -> literal_ok ty v.
Proof. intros [ty' H] Hm. destruct ty, ty'; try exact H; destruct H as [Hv _]; rewrite Hv in Hm; discriminate Hm. Qed.

Lemma matches_values cols values :
  Forall literal_wf values -> length values = length cols ->
  check_each (fun '(col, v) => RequireLiteralMatchesColumn col v) (zip cols values) = Ret tt <-> row_ok cols values.
Proof.
  intros Hwf Hl. rewrite check_each_ret. unfold row_ok. revert values Hwf Hl.
  induction cols as [|col cols IH]; intros [|v values] Hwf Hl; try done.
  apply Forall_cons in Hwf as [Hv Hwf]. cbn [zip zip_with]. rewrite Forall_cons, Forall2_cons. cbn in Hl. rewrite IH by (done || lia).
  apply and_iff_compat_r. unfold RequireLiteralMatchesColumn. split.
  - destruct (literal_matches _ _) eqn:E; [|done]. intros _. by apply literal_wf_ok.
  - intros H%literal_ok_matches. by rewrite H.
Qed.

(** INSERT accepts exactly the rows of the table's type. *)
Lemma ValidateValues_run t values :
  Forall literal_wf values ->
  ValidateValuesAgainstColumns t values = if decide (row_ok (tb_columns t) values) then Ret tt else Throw SqlSemanticError.
Proof.
  intros Hwf. unfold ValidateValuesAgainstColumns. destruct (Nat.eqb_spec (length values) (length (tb_columns t))) as [Hl|Hl]; cbn [negb].
  - pose proof (check_each_checked (fun '(col, v) => RequireLiteralMatchesColumn col v) (zip (tb_columns t) values)) as Hc.
    pose proof (matches_values (tb_columns t) values Hwf Hl) as Hiff.
    destruct (check_each _ _) as [[]|[]| |]; try (by destruct Hc; intros [? ?]; apply RequireLiteral_checked).
    + rewrite decide_True; [done|by apply Hiff].
    + rewrite decide_False; [done|]. intros H%Hiff. done.
  - rewrite decide_False; [done|]. intros H%Forall2_length. lia.
Qed.

Lemma tables_update c d d' t T rows :
  catalog_ok c -> t ∈ tables_ c -> touches c t d d' -> tables_state c d T -> stored c d' t rows -> pk_distinct c t rows.*2 ->
  tables_state c d' (<[tb_name t := rows]> T).
Proof.
  intros Hc Ht Hd HT Hs Hpk t' Ht'. destruct (decide (tb_name t = tb_name t')) as [He|Hne].
  { assert (t' = t) as -> by (by eapply table_by_name). by rewrite fn_lookup_insert. }
  rewrite fn_lookup_insert_ne by done. split; [|by apply HT].
  eapply stored_other; [exact Hc|exact Ht|exact Ht'|by intros ->|exact Hd|by apply HT].
Qed.

Section Contract.
Context {W : Type} `{HL : StorageLaws W} (c : Catalog).

(** *** The primary key *)

Lemma pk_distinct_snoc t rows values :
  pk_distinct c t rows.*2 ->
  pk_distinct c t (rows.*2 ++ [values]) <->
  match PrimaryKeyIndex c (tb_name t) with
  | Some i => filter (fun x => row_key t i x = col_key t (ix_column_name i) values) rows = []
  | None => True
  end.
Proof.
  unfold pk_distinct. destruct (PrimaryKeyIndex c (tb_name t)) as [i|]; [|done]. intros Hnd. rewrite fmap_app. cbn. split.
  - intros (_ & Hx & _)%NoDup_app. apply list_filter_none. intros x Hin He. apply (Hx (col_key t (ix_column_name i) x.2)).
    + by apply list_elem_of_fmap_2, list_elem_of_fmap_2.
    + unfold row_key in He. rewrite He. by left.
  - intros Hf. apply NoDup_snoc; [done|]. intros (v & He & (x & -> & Hin)%list_elem_of_fmap)%list_elem_of_fmap.
    assert (x ∈ filter (fun x => row_key t i x = col_key t (ix_column_name i) values) rows) as Hx by (by apply list_elem_of_filter).
    rewrite Hf in Hx. by apply elem_of_nil in Hx.
Qed.

Lemma CheckPrimaryKeyUniqueness_run t rows values w d n :
  catalog_ok c -> t ∈ tables_ c -> holds w d n -> stored c d t rows -> pk_distinct c t rows.*2 -> row_ok (tb_columns t) values ->
  exists w', CheckPrimaryKeyUniqueness c t values w = (if decide (pk_distinct c t (rows.*2 ++ [values])) then Ret tt else Throw SqlSemanticError, w') /\
    holds w' d n.
Proof.
  intros Hc Ht Hh Hs Hpk Hok. pose proof (pk_distinct_snoc t rows values Hpk) as Hiff. unfold CheckPrimaryKeyUniqueness.
  destruct (PrimaryKeyIndex c (tb_name t)) as [i|] eqn:Ei; [|exists w; rewrite decide_True by tauto; done].
  pose proof (PrimaryKeyIndex_In _ _ _ Ei) as Hi. destruct (index_column_run c Hc t Ht i (mkRID 0 0, values) w Hi Hok) as (v & Hv & Hk & _).
  cbn [snd] in Hv. run Hv. rewrite Hk. unfold row_key in Hk |- *. cbn [snd] in Hk |- *.
  destruct (probe_run c t w d n rows i (col_key t (ix_column_name i) values) Hh Hs Hi) as (w' & cand & H1 & Hh' & Hp). exists w'. split; [|done].
  run H1. destruct (filter _ rows) as [|y l].
  - apply Permutation_nil_r in Hp as ->. rewrite bool_decide_eq_true_2, decide_True by (done || tauto). done.
  - rewrite bool_decide_eq_false_2, decide_False; [done|intros H%Hiff; done|].
    intros Hnil%fmap_nil_inv. rewrite Hnil in Hp. by apply Permutation_nil_l in Hp.
Qed.

(** *** INSERT *)

(** What INSERT makes of the tables. A row that has the types of the table's
    columns, whose primary key is new and that fits a page is appended under a
    fresh record id. *)
Definition insert_effect (T : contents) (stmt : InsertStatement) (o : outcome ExecuteResult) (T' : contents) : Prop :=
  match FindTable c (in_table_name stmt) with
  | None => o = Throw SqlSemanticError /\ T' = T
  | Some t =>
      let rows := T (tb_name t) in let values := in_values stmt in
      if decide (row_ok (tb_columns t) values /\ pk_distinct c t (rows.*2 ++ [values]) /\
                 zlen (row_image (tb_columns t) values) <= HeapFile.kMaxRowSize)
      then o = Ret (mkResult [] [] 1) /\ exists rid, ~ (rid ∈ rows.*1) /\ T' = <[tb_name t := rows ++ [(rid, values)]]> T
      else o = Throw (if decide (row_ok (tb_columns t) values /\ pk_distinct c t (rows.*2 ++ [values])) then InvalidArgument else SqlSemanticError) /\ T' = T
  end.

(** The insertions it takes, and that no key gets too many duplicates. *)
Definition insert_room (stmt : InsertStatement) : nat := match FindTable c (in_table_name stmt) with Some t => writes c t | None => 0 end.

Definition insert_dups (T : contents) (stmt : InsertStatement) : Prop :=
  match FindTable c (in_table_name stmt) with Some t => dups_ok c t ((T (tb_name t)).*2 ++ [in_values stmt]) | None => True end.

Lemma ExecuteInsert_run w T n stmt :
  Forall literal_wf (in_values stmt) -> insert_dups T stmt -> database c w T (insert_room stmt + n) ->
  exists o w' T', ExecuteInsert c stmt w = (o, w') /\ insert_effect T stmt o T' /\ database c w' T' n.
Proof.
  unfold insert_dups, insert_room, insert_effect. intros Hwf Hd Hdb. unfold ExecuteInsert. destruct (FindTable c (in_table_name stmt)) as [t|] eqn:Et.
  2: { exists (Throw SqlSemanticError), w, T. done. }
  cbn zeta. destruct (FindTable_Some _ _ _ Et) as [Ht Hname]. set (rows := T (tb_name t)) in *. set (values := in_values stmt) in *.
  pose proof (database_le c w T _ n Hdb ltac:(lia)) as Hdb'. destruct Hdb as [Hc (d & Hh & HT)]. destruct (HT t Ht) as [Hs Hpk]. fold rows in Hs, Hpk.
  rewrite ValidateValues_run by done. destruct (decide (row_ok (tb_columns t) values)) as [Hok|Hok].
  2: { exists (Throw SqlSemanticError), w, T. rewrite !decide_False by tauto. done. }
  run (eq_refl : lift (Ret tt) w = (Ret tt, w)).
  destruct (CheckPrimaryKeyUniqueness_run t rows values w d _ Hc Ht Hh Hs Hpk Hok) as (w1 & H1 & Hh1).
  assert (database c w1 T n) as Hdb1 by (split; [done|]; exists d; split; [eapply holds_le; [exact Hh1|lia]|done]).
  destruct (decide (pk_distinct c t (rows.*2 ++ [values]))) as [Hk|Hk].
  2: { exists (Throw SqlSemanticError), w1, T. rewrite !decide_False by tauto. by rewrite (bind_throw _ _ _ _ _ H1). }
  run H1. rewrite <- Hname. run (heap_of_run c Hc t Ht w1). rewrite EncodeRow_run by done.
  run (eq_refl : lift (Ret (row_image (tb_columns t) values)) w1 = (Ret (row_image (tb_columns t) values), w1)).
  destruct (decide (zlen (row_image (tb_columns t) values) <= HeapFile.kMaxRowSize)) as [Hsz|Hsz].
  - destruct (add_row_run c Hc t Ht w1 d n rows values Hh1 Hs Hok Hsz Hd) as (rid & w2 & w3 & d3 & H2 & H3 & Hh3 & Hs3 & Htc).
    exists (Ret (mkResult [] [] 1)), w3, (<[tb_name t := rows ++ [(rid, values)]]> T). run H2. run H3. rewrite decide_True by done. split; [done|split; [split; [done|]|]].
    + exists rid. split; [|done]. destruct (stored_rids c t w3 d3 n _ Hh3 Hs3) as [Hnd _]. rewrite fmap_app in Hnd. apply NoDup_app in Hnd as (_ & Hnd & _).
      intros Hin. apply (Hnd rid Hin). by left.
    + split; [done|]. exists d3. split; [done|]. eapply tables_update; [done..|]. by rewrite fmap_app.
  - exists (Throw InvalidArgument), w1, T. rewrite decide_False, decide_True by tauto.
    by rewrite (bind_throw _ _ _ _ _ (Insert_large_law w1 d _ _ _ (row_image (tb_columns t) values) Hh1 (sd_heap _ _ _ _ Hs) ltac:(lia))).
Qed.

(** C21: INSERT appends. On a database with room, a row that has the types of
    the table's columns, whose primary key is new and that fits a page is
    appended to the table under a fresh record id and entered into every
    index; every other table keeps its rows. A row of the wrong types or with
    a key in use, or an unknown table, is a semantic error, and a row larger
    than a page an invalid argument, and then the tables are as before. *)
Theorem ExecuteInsert_appends (w : W) (T : contents) (n : nat) (stmt : InsertStatement) :
  Forall literal_wf (in_values stmt) -> insert_dups T stmt -> database c w T (insert_room stmt + n) ->
  exists o w' T', ExecuteInsert c stmt w = (o, w') /\ insert_effect T stmt o T' /\ database c w' T' n.
Proof. apply ExecuteInsert_run. Qed.

(** *** DELETE *)

Lemma pk_distinct_submseteq t vals vals' : vals ⊆+ vals' -> pk_distinct c t vals' -> pk_distinct c t vals.
Proof.
  unfold pk_distinct. destruct (PrimaryKeyIndex c (tb_name t)) as [i|]; [|done].
  intros [k Hk]%submseteq_Permutation. rewrite Hk, fmap_app. intros (H & _ & _)%NoDup_app. exact H.
Qed.

Lemma pk_distinct_perm t vals vals' : vals ≡ₚ vals' -> pk_distinct c t vals -> pk_distinct c t vals'.
Proof. intros H. apply pk_distinct_submseteq. by rewrite H. Qed.

(** The rows whose record id is in [rids], taken out. *)
Definition except (rids : list RID) (rows : list row) : list row := filter (fun x : row => ~ (x.1 ∈ rids)) rows.

Lemma except_cons rid rids rows : except rids (without rid rows) = except (rid :: rids) rows.
Proof.
  unfold except, without. rewrite list_filter_filter. apply list_filter_iff. intros x. rewrite not_elem_of_cons. tauto.
Qed.

Lemma except_nil rows : except [] rows = rows.
Proof. unfold except. apply list_filter_all, Forall_forall. intros x _. apply not_elem_of_nil. Qed.

(** Taking out the record ids of the matching rows leaves the others. *)
Lemma except_matching t ps rows matched :
  NoDup rows.*1 -> matched ≡ₚ filter (matching t ps) rows -> except matched.*1 rows = filter (fun x => ~ matching t ps x) rows.
Proof.
  intros Hnd Hp. unfold except. apply list_filter_ext_in. intros x Hx. apply not_iff_compat. rewrite Hp. split.
  - intros (y & He & [Hm Hy]%list_elem_of_filter)%list_elem_of_fmap. assert (x = y) as ->; [|done].
    destruct x as [r1 v1], y as [r2 v2]. cbn in He. subst r2. f_equal.
    apply list_elem_of_lookup in Hx as [a Ha], Hy as [b Hb].
    assert (a = b) as ->; [|congruence]. eapply (NoDup_lookup _ _ _ _ Hnd); rewrite list_lookup_fmap; [by rewrite Ha|by rewrite Hb].
  - intros Hm. apply list_elem_of_fmap_2. by apply list_elem_of_filter.
Qed.

Lemma delete_candidate_run t ps heap k x (w : W) :
  Forall (known t) ps -> row_ok (tb_columns t) x.2 ->
  delete_candidate c t heap ps k (stored_row t x) w =
    if decide (matching t ps x) then (DeleteFromAllIndexes c t x.2 x.1;; heap_Delete heap x.1;; mret (k + 1)) w else (Ret k, w).
Proof.
  intros Hk Hok. unfold delete_candidate. pose proof (DecodeRow_run t x Hok) as Hd. unfold stored_row in *. cbn [snd] in Hd.
  rewrite Hd. run (eq_refl : lift (Ret x.2) w = (Ret x.2, w)). rewrite MatchesAll_run by done.
  run (eq_refl : lift (Ret (bool_decide (Forall (satisfies t x.2) ps))) w = (Ret (bool_decide (matching t ps x)), w)).
  by case_decide as H; [rewrite bool_decide_eq_true_2|rewrite bool_decide_eq_false_2].
Qed.

Lemma delete_loop t ps cand : catalog_ok c -> t ∈ tables_ c -> Forall (known t) ps -> forall rows w d n k,
  holds w d n -> stored c d t rows -> (forall x, x ∈ cand -> x ∈ rows) -> NoDup cand.*1 ->
  exists w' d', fold_m (delete_candidate c t (tb_heap_object_id t) ps) k (raw t cand) w = (Ret (k + zlen (filter (matching t ps) cand)), w') /\
    holds w' d' n /\ stored c d' t (except (filter (matching t ps) cand).*1 rows) /\ touches c t d d'.
Proof.
  intros Hc Ht Hk. induction cand as [|x cand IH]; intros rows w d n k Hh Hs Hin Hnd.
  { exists w, d. cbn. rewrite except_nil. unfold zlen. cbn. by rewrite Z.add_0_r. }
  cbn [fmap list_fmap] in Hnd. apply NoDup_cons in Hnd as [Hx Hnd]. assert (x ∈ rows) as Hxr by (apply Hin; by left).
  pose proof (stored_row_ok c t d rows x Hs Hxr) as Hok. pose proof (delete_candidate_run t ps (tb_heap_object_id t) k x w Hk Hok) as Hbody.
  cbn [raw fmap list_fmap fold_m]. fold (raw t cand). rewrite filter_cons. destruct (decide (matching t ps x)) as [Hm|Hm].
  - destruct (remove_row_run c Hc t Ht w d n rows x Hh Hs Hxr) as (w1 & w2 & d2 & H1 & H2 & Hh2 & Hs2 & Htc).
    rewrite (bind_ret _ _ _ _ _ H1), (bind_ret _ _ _ _ _ H2) in Hbody.
    destruct (IH (without x.1 rows) w2 d2 n (k + 1) Hh2 Hs2) as (w3 & d3 & H3 & Hh3 & Hs3 & Htc3); [|done|].
    { intros y Hy. unfold without. apply list_elem_of_filter. split; [|apply Hin; by right]. intros He. apply Hx. rewrite <- He. by apply list_elem_of_fmap_2. }
    exists w3, d3. rewrite except_cons in Hs3. split_and!; [|done|done|by etrans].
    run Hbody. rewrite H3. do 2 f_equal. unfold zlen. cbn. lia.
  - destruct (IH rows w d n k Hh Hs) as (w3 & d3 & H3 & Hrest); [intros y Hy; apply Hin; by right|done|].
    exists w3, d3. split; [|done]. run Hbody. exact H3.
Qed.

(** What DELETE makes of the tables: the rows the clause matches are gone. *)
Definition delete_effect (T : contents) (stmt : DeleteStatement) (o : outcome ExecuteResult) (T' : contents) : Prop :=
  match FindTable c (de_table_name stmt) with
  | None => o = Throw SqlSemanticError /\ T' = T
  | Some t =>
      let rows := T (tb_name t) in let ps := de_where_predicates stmt in
      (~ Forall (valid_predicate t) ps -> o = Throw SqlSemanticError /\ T' = T) /\
      (Forall (valid_predicate t) ps ->
        o = Ret (mkResult [] [] (zlen (filter (matching t ps) rows))) /\ T' = <[tb_name t := filter (fun x => ~ matching t ps x) rows]> T)
  end.

Lemma ExecuteDelete_run w T n stmt :
  database c w T n -> exists o w' T', ExecuteDelete c stmt w = (o, w') /\ delete_effect T stmt o T' /\ database c w' T' n.
Proof.
  intros Hdb. pose proof Hdb as [Hc (d & Hh & HT)]. unfold delete_effect. set (ps := de_where_predicates stmt).
  destruct (PlanTableAccess_run c (de_table_name stmt) ps) as [[Hthrow Hwhy]|(t & plan & Et & Hv & Hplan & Hname & Hacc)].
  { exists (Throw SqlSemanticError), w, T. split_and!; [unfold ExecuteDelete; fold ps; by rewrite Hthrow| |done].
    destruct Hwhy as [->|(t & -> & Hbad)]; [done|]. split; [done|]. by intros ?. }
  rewrite Et. cbn zeta. unfold ExecuteDelete. fold ps. destruct (FindTable_Some _ _ _ Et) as [Ht Hn]. rewrite <- Hn in Hname.
  destruct (HT t Ht) as [Hs Hpk]. set (rows := T (tb_name t)) in *. destruct (stored_rids c t w d n rows Hh Hs) as [Hnd _].
  rewrite Hplan. run (eq_refl : lift (Ret plan) w = (Ret plan, w)). rewrite <- Hn.
  assert (deref (FindTable c (tb_name t)) w = (Ret t, w)) as Hd by (by rewrite Hn, Et). run Hd. run (heap_of_run c Hc t Ht w).
  destruct (FetchCandidateRows_run c Hc t Ht w d n rows ps plan Hh Hs Hv Hname Hacc) as (w1 & cand & H1 & Hh1 & Hsub & Hperm & Hknown & _). run H1.
  destruct (delete_loop t (ap_residual_predicates plan) cand Hc Ht Hknown rows w1 d n 0 Hh1 Hs) as (w2 & d2 & H2 & Hh2 & Hs2 & Htc).
  { intros x Hx. by eapply elem_of_submseteq. }
  { apply (fmap_submseteq fst) in Hsub. apply submseteq_Permutation in Hsub as [l Hl]. rewrite Hl in Hnd. by apply NoDup_app in Hnd as (? & _ & _). }
  run H2. rewrite (except_matching t ps rows) in Hs2 by done.
  eexists _, w2, (<[tb_name t := filter (fun x => ~ matching t ps x) rows]> T). split; [reflexivity|].
  split; [split; [by intros []|]; intros _; split; [|reflexivity]|].
  - do 2 f_equal. unfold zlen. by rewrite Hperm.
  - split; [done|]. exists d2. split; [done|]. eapply tables_update; [done..|]. eapply pk_distinct_submseteq; [|exact Hpk].
    apply fmap_submseteq, filter_submseteq_self.
Qed.

(** C22: DELETE removes exactly the rows its clause matches, whether the plan
    scans the table or probes an index, and reports their number; their
    entries leave every index, the other rows keep their record ids and order,
    and every other table is as before. An unknown table or a clause that does
    not type-check is a semantic error and changes nothing. *)
Theorem ExecuteDelete_removes (w : W) (T : contents) (n : nat) (stmt : DeleteStatement) :
  database c w T n -> exists o w' T', ExecuteDelete c stmt w = (o, w') /\ delete_effect T stmt o T' /\ database c w' T' n.
Proof. apply ExecuteDelete_run. Qed.

End Contract.
