(* ===== verification/Update.v ===== *)
(** * Update: UPDATE is all or nothing

    [ExecuteUpdate] computes every new row, validates the whole batch against
    the untouched table, then moves the rows one by one. *)
From stdpp Require Import functions.
From S2P Require Import Prelude Config DiskManager HeapFile BTreeSpec Storage Text Catalog Ast RowCodec Planner Executor Query Tables Statements.

(** ** The meaning of SET *)

(** The values of a row after the assignments, in order. *)
Definition assigned (t : TableInfo) (l : list Assignment) (values : list LiteralValue) : list LiteralValue :=
  foldl (fun values a =>
    match column_position (tb_columns t) (as_column_name a) with Some i => <[i := as_value a]> values | None => values end) values l.

Definition valid_assignment (t : TableInfo) (a : Assignment) : Prop :=
  exists cd, FindColumn t (as_column_name a) = Some cd /\ literal_matches (col_type cd) (as_value a) = true.

(** The rows that fit a page. *)
Definition fits (t : TableInfo) (values : list LiteralValue) : Prop := zlen (row_image (tb_columns t) values) <= HeapFile.kMaxRowSize.

#[global] Instance fits_dec t values : Decision (fits t values).
Proof. unfold fits. apply _. Defined.

(** ** Computing the new rows *)

Lemma resolve_assignment_run t a :
  (exists i, resolve_assignment t a = Ret i /\ column_position (tb_columns t) (as_column_name a) = Some i /\ (i < length (tb_columns t))%nat /\ valid_assignment t a) \/
  (resolve_assignment t a = Throw SqlSemanticError /\ ~ valid_assignment t a).
Proof.
  unfold resolve_assignment, valid_assignment, RequireColumn, RequireLiteralMatchesColumn.
  destruct (ColumnIndex_run t (as_column_name a)) as [(i & cd & H1 & H2 & H3 & H4)|[_ H]].
  - rewrite H2. cbn [mbind outcome_bind]. destruct (literal_matches (col_type cd) (as_value a)) eqn:E.
    + left. exists i. pose proof (column_position_find (tb_columns t) (as_column_name a)) as Hp. unfold FindColumn in H2. rewrite H2 in Hp.
      cbn [mbind outcome_bind]. rewrite H1. unfold ColumnIndex, RequireColumn, FindColumn in H1. rewrite H2 in H1. cbn in H1.
      destruct (column_position (tb_columns t) (as_column_name a)) as [j|]; [|done]. injection H1 as ->.
      split_and!; [done|done|by eapply lookup_lt_Some|eauto].
    + right. split; [done|]. intros (cd' & Hf & Hl). congruence.
  - right. rewrite H. split; [done|]. intros (cd & ? & _). congruence.
Qed.

(** Resolving every column of SET. *)
Lemma resolve_assignments_run t l :
  (exists idx, map_outcome (resolve_assignment t) l = Ret idx /\ Forall (valid_assignment t) l /\
     Forall2 (fun a i => column_position (tb_columns t) (as_column_name a) = Some i /\ (i < length (tb_columns t))%nat) l idx) \/
  (map_outcome (resolve_assignment t) l = Throw SqlSemanticError /\ ~ Forall (valid_assignment t) l).
Proof.
  induction l as [|a l IH]; [left; exists []; by repeat constructor|]. cbn [map_outcome].
  destruct (resolve_assignment_run t a) as [(i & -> & Hp & Hi & Hv)|[-> Hv]]; cbn [mbind outcome_bind].
  - destruct IH as [(idx & -> & Hall & H2)|[-> Hn]]; cbn [mbind outcome_bind].
    + left. exists (i :: idx). by repeat constructor.
    + right. split; [done|]. by intros [_ ?]%Forall_cons.
  - right. split; [done|]. by intros [? _]%Forall_cons.
Qed.

Lemma assigned_length t l values : length (assigned t l values) = length values.
Proof.
  unfold assigned. revert values. induction l as [|a l IH]; intros values; [done|]. cbn [foldl]. rewrite IH.
  destruct (column_position _ _); [by rewrite length_insert|done].
Qed.

Lemma assign_run t l idx values :
  Forall2 (fun a i => column_position (tb_columns t) (as_column_name a) = Some i /\ (i < length (tb_columns t))%nat) l idx ->
  length values = length (tb_columns t) -> assign values (zip idx (as_value <$> l)) = Ret (assigned t l values).
Proof.
  intros H. revert values. induction H as [|a i l idx [Hp Hi] _ IH]; intros values Hl; [done|]. cbn [fmap list_fmap zip zip_with assign].
  rewrite bool_decide_eq_true_2 by lia. unfold assigned. cbn [foldl]. rewrite Hp. fold (assigned t l (<[i:=as_value a]> values)).
  apply IH. by rewrite length_insert.
Qed.

Lemma assigned_ok t l values :
  Forall literal_wf (as_value <$> l) -> Forall (valid_assignment t) l -> row_ok (tb_columns t) values -> row_ok (tb_columns t) (assigned t l values).
Proof.
  intros Hwf Hv. revert values. induction l as [|a l IH]; intros values Hok; [done|]. cbn [fmap list_fmap] in Hwf.
  apply Forall_cons in Hwf as [Hw Hwf], Hv as [(cd & Hf & Hm) Hv]. unfold assigned. cbn [foldl].
  destruct (column_position (tb_columns t) (as_column_name a)) as [i|] eqn:Ep; [|by apply IH]. apply IH; [done|done|].
  pose proof (column_position_find (tb_columns t) (as_column_name a)) as Hp. unfold FindColumn in Hf. rewrite Ep, Hf in Hp. destruct Hp as [Hi _].
  unfold row_ok in *. rewrite <- (list_insert_id (tb_columns t) i cd Hi). apply Forall2_insert; [done|]. by apply literal_wf_ok.
Qed.

Lemma new_rows_run t l idx (ms : list row) :
  Forall2 (fun a i => column_position (tb_columns t) (as_column_name a) = Some i /\ (i < length (tb_columns t))%nat) l idx ->
  Forall literal_wf (as_value <$> l) -> Forall (valid_assignment t) l -> rows_ok t ms ->
  map_outcome (fun x => new_row t (zip idx (as_value <$> l)) x.2) ms =
    Ret ((fun x : row => (assigned t l x.2, row_image (tb_columns t) (assigned t l x.2))) <$> ms).
Proof.
  intros H2 Hwf Hv Hok. apply map_outcome_ret, Forall_forall. intros x Hx. cbn beta.
  assert (row_ok (tb_columns t) x.2) as Hx2 by (apply (proj1 (Forall_forall _ _) Hok); by apply list_elem_of_fmap_2).
  unfold new_row. rewrite (assign_run t l idx) by (done || (symmetry; by apply Forall2_length in Hx2)). cbn [mbind outcome_bind].
  rewrite EncodeRow_run; [done|]. by apply assigned_ok.
Qed.

(** ** Validating the batch *)

Lemma check_new_keys_run keys seen :
  check_new_keys keys seen = if decide (NoDup keys /\ Forall (fun k => ~ (k ∈ seen)) keys) then Ret tt else Throw SqlSemanticError.
Proof.
  revert seen. induction keys as [|k keys IH]; intros seen; cbn [check_new_keys]; [by rewrite decide_True by (split; constructor)|].
  case_bool_decide as Hk.
  - rewrite decide_False; [done|]. intros [_ [? _]%Forall_cons]. done.
  - rewrite IH. apply decide_ext. rewrite NoDup_cons, Forall_cons, !Forall_forall. setoid_rewrite not_elem_of_cons. split.
    + intros [Hnd Hs]. split_and!; [|done|done|]; [intros Hin; by destruct (Hs k Hin)|]. intros k' Hin. by apply Hs.
    + intros [[Hni Hnd] [_ Hs]]. split; [done|]. intros k' Hin. split; [|by apply Hs]. by intros ->.
Qed.

Section Batch.
Context {W : Type} `{HL : StorageLaws W} (c : Catalog) (Hc : catalog_ok c) (t : TableInfo) (Ht : t ∈ tables_ c).

(** Every row that has the key [k] is among those being updated. *)
Definition freed (i : IndexInfo) (rids : list RID) (rows : list row) (k : Z) : Prop :=
  Forall (fun x : row => x.1 ∈ rids) (filter (fun x => row_key t i x = k) rows).

#[global] Instance freed_dec i rids rows k : Decision (freed i rids rows k).
Proof. unfold freed. apply _. Defined.

Lemma check_external_run w d n rows rids i k :
  holds w d n -> stored c d t rows -> i ∈ IndexesOnTable c (tb_name t) ->
  exists w', check_external (ix_object_id i) rids k w = (if decide (freed i rids rows k) then Ret tt else Throw SqlSemanticError, w') /\ holds w' d n.
Proof.
  intros Hh Hs Hi. destruct (probe_run c t w d n rows i k Hh Hs Hi) as (w' & cand & H1 & Hh' & Hp). exists w'. split; [|done].
  unfold check_external. run H1. assert (forallb (fun rid => bool_decide (rid ∈ rids)) cand.*1 = true <-> freed i rids rows k) as Hiff.
  { rewrite forallb_forall. unfold freed. rewrite <- Hp, Forall_forall. split.
    - intros H x Hx. apply (bool_decide_eq_true_1 _), H. apply list_elem_of_In. by apply list_elem_of_fmap_2.
    - intros H rid (x & -> & Hx)%list_elem_of_In%list_elem_of_fmap. by apply bool_decide_eq_true_2, H. }
  case_decide as Hd; [by rewrite (proj2 Hiff Hd)|]. destruct (forallb _ cand.*1); [|done]. destruct Hd. by apply Hiff.
Qed.

Lemma check_externals_run rows rids i keys : i ∈ IndexesOnTable c (tb_name t) -> forall w d n, holds w d n -> stored c d t rows ->
  exists w', for_each (check_external (ix_object_id i) rids) keys w =
    (if decide (Forall (freed i rids rows) keys) then Ret tt else Throw SqlSemanticError, w') /\ holds w' d n.
Proof.
  intros Hi. induction keys as [|k keys IH]; intros w d n Hh Hs; [by exists w|]. cbn [for_each].
  destruct (check_external_run w d n rows rids i k Hh Hs Hi) as (w1 & H1 & Hh1). destruct (decide (freed i rids rows k)) as [Hf|Hf].
  - destruct (IH w1 d n Hh1 Hs) as (w2 & H2 & Hh2). exists w2. run H1. rewrite H2. split; [|done]. f_equal.
    apply decide_ext. rewrite Forall_cons. tauto.
  - exists w1. rewrite (bind_throw _ _ _ _ _ H1). split; [|done]. rewrite decide_False; [done|]. by intros [? _]%Forall_cons.
Qed.

(** The batch is valid when the rows fit and the table it leaves has distinct
    keys. *)
Lemma keys_after i rows rids news :
  PrimaryKeyIndex c (tb_name t) = Some i -> pk_distinct c t rows.*2 ->
  pk_distinct c t ((except rids rows).*2 ++ news) <->
  NoDup (col_key t (ix_column_name i) <$> news) /\ Forall (freed i rids rows) (col_key t (ix_column_name i) <$> news).
Proof.
  intros Ei Hpk. pose proof (pk_distinct_submseteq c t (except rids rows).*2 rows.*2) as Hkept.
  unfold pk_distinct in *. rewrite Ei in *. rewrite fmap_app, NoDup_app, Forall_forall. set (f := col_key t (ix_column_name i)) in *.
  assert (NoDup (f <$> (except rids rows).*2)) as Hk by (apply Hkept; [apply fmap_submseteq, filter_submseteq_self|done]).
  assert ((forall k, k ∈ f <$> (except rids rows).*2 -> ~ (k ∈ f <$> news)) <-> (forall k, k ∈ f <$> news -> freed i rids rows k)) as Hdisj; [|tauto].
  unfold freed, except. setoid_rewrite Forall_forall. split.
  - intros H k Hk' x [Hxk Hx]%list_elem_of_filter. destruct (decide (x.1 ∈ rids)) as [|Hn]; [done|].
    destruct (H k); [|done]. rewrite <- Hxk. unfold row_key. fold f. by apply list_elem_of_fmap_2, list_elem_of_fmap_2, list_elem_of_filter.
  - intros H k (v & -> & (x & -> & [Hn Hx]%list_elem_of_filter)%list_elem_of_fmap)%list_elem_of_fmap Hin. apply Hn.
    apply (H _ Hin). by apply list_elem_of_filter.
Qed.

Lemma ValidateUpdateBatch_run w d n rows matched news :
  holds w d n -> stored c d t rows -> pk_distinct c t rows.*2 -> Forall (row_ok (tb_columns t)) news ->
  exists w', ValidateUpdateBatch c t matched news (row_image (tb_columns t) <$> news) w =
    (if decide (Forall (fits t) news) then
       if decide (pk_distinct c t ((except matched.*1 rows).*2 ++ news)) then Ret tt else Throw SqlSemanticError
     else Throw InvalidArgument, w') /\ holds w' d n.
Proof.
  intros Hh Hs Hpk Hok. unfold ValidateUpdateBatch.
  set (sizes := check_each _ (row_image (tb_columns t) <$> news)).
  assert (sizes = if decide (Forall (fits t) news) then Ret tt else Throw InvalidArgument) as ->.
  { subst sizes. clear. induction news as [|v news IH]; [done|]. cbn [fmap list_fmap check_each].
    destruct (Z.ltb_spec HeapFile.kMaxRowSize (zlen (row_image (tb_columns t) v))) as [Hl|Hl]; cbn [mbind outcome_bind].
    - rewrite decide_False; [done|]. intros [Hf _]%Forall_cons. unfold fits in Hf. lia.
    - fold (fmap (M:=list) (row_image (tb_columns t)) news) in IH |- *. rewrite IH. apply decide_ext. rewrite Forall_cons. unfold fits at 2. tauto. }
  destruct (decide (Forall (fits t) news)) as [Hf|Hf]; [|exists w; done].
  run (eq_refl : lift (Ret tt) w = (Ret tt, w)). destruct (PrimaryKeyIndex c (tb_name t)) as [i|] eqn:Ei.
  2: { exists w. rewrite decide_True; [done|]. unfold pk_distinct. by rewrite Ei. }
  pose proof (PrimaryKeyIndex_In _ _ _ Ei) as Hi. destruct (index_column c t i Hc Ht Hi) as (cd & Hcol & _).
  destruct (ColumnIndex_run t (ix_column_name i)) as [(j & cd' & H1 & _ & Hj & _)|[_ H]]; [|congruence].
  rewrite H1. run (eq_refl : lift (Ret j) w = (Ret j, w)).
  assert (map_outcome (fun values => v ← value_at values j; Ret (int_value v)) news = Ret (col_key t (ix_column_name i) <$> news)) as ->.
  { apply map_outcome_ret. eapply Forall_impl; [exact Hok|]. intros values Hv. cbn beta.
    destruct (index_value c t i values Hc Ht Hi Hv) as (v & Hcv & Hk & _). unfold column_value in Hcv. rewrite H1 in Hcv. cbn [mbind outcome_bind] in Hcv.
    rewrite Hcv. cbn [mbind outcome_bind]. by rewrite Hk. }
  set (keys := col_key t (ix_column_name i) <$> news). run (eq_refl : lift (Ret keys) w = (Ret keys, w)).
  pose proof (keys_after i rows matched.*1 news Ei Hpk) as Hiff. fold keys in Hiff. rewrite check_new_keys_run.
  destruct (decide (NoDup keys)) as [Hnd|Hnd].
  - rewrite decide_True by (split; [done|]; apply Forall_forall; intros k _; apply not_elem_of_nil). run (eq_refl : lift (Ret tt) w = (Ret tt, w)).
    destruct (check_externals_run rows matched.*1 i keys Hi w d n Hh Hs) as (w' & H2 & Hh'). exists w'. split; [|done]. rewrite H2. f_equal.
    apply decide_ext. rewrite Hiff. tauto.
  - rewrite decide_False by tauto. exists w. split; [|done]. rewrite decide_False by tauto. done.
Qed.

(** ** Moving the rows *)

Lemma move_loop ms news : length ms = length news -> forall rows w d n,
  holds w d (length ms * writes c t + n) -> stored c d t rows -> (forall x, x ∈ ms -> x ∈ rows) -> NoDup ms.*1 ->
  Forall (row_ok (tb_columns t)) news -> Forall (fits t) news -> dups_ok c t (rows.*2 ++ news) ->
  exists w' d' moved,
    for_each (move_row c t (tb_heap_object_id t)) (zip ms ((fun v => (v, row_image (tb_columns t) v)) <$> news)) w = (Ret tt, w') /\
    holds w' d' n /\ stored c d' t (except ms.*1 rows ++ moved) /\ moved.*2 = news /\ touches c t d d'.
Proof.
  revert news. induction ms as [|x ms IH]; intros [|v news] Hl rows w d n Hh Hs Hin Hnd Hok Hfit Hdup; try done.
  { exists w, d, []. split_and!; [done|done| |done|done]. by rewrite except_nil, app_nil_r. }
  cbn [fmap list_fmap] in Hnd. apply NoDup_cons in Hnd as [Hx Hnd]. apply Forall_cons in Hok as [Hv Hok], Hfit as [Hf Hfit].
  assert (x ∈ rows) as Hxr by (apply Hin; by left).
  destruct (remove_row_run c Hc t Ht w d _ rows x Hh Hs Hxr) as (w1 & w2 & d2 & H1 & H2 & Hh2 & Hs2 & Ht2).
  cbn [length] in Hh2. rewrite Nat.mul_succ_l, (Nat.add_comm _ (writes c t)), <- Nat.add_assoc in Hh2.
  assert ((without x.1 rows).*2 ⊆+ rows.*2) as Hsub by apply fmap_submseteq, filter_submseteq_self.
  destruct (add_row_run c Hc t Ht w2 d2 _ (without x.1 rows) v Hh2 Hs2 Hv Hf) as (rid & w3 & w4 & d4 & H3 & H4 & Hh4 & Hs4 & Ht4).
  { eapply dups_ok_submseteq; [|exact Hdup]. apply submseteq_app; [exact Hsub|]. apply submseteq_skip, submseteq_nil_l. }
  destruct (stored_rids c t w4 d4 _ _ Hh4 Hs4) as [Hnd4 _]. rewrite fmap_app in Hnd4. apply NoDup_app in Hnd4 as (_ & Hfresh & _).
  assert (forall y, y ∈ ms -> y ∈ without x.1 rows) as Hms.
  { intros y Hy. apply list_elem_of_filter. split; [|apply Hin; by right]. intros He. apply Hx. rewrite <- He. by apply list_elem_of_fmap_2. }
  destruct (IH news ltac:(cbn in Hl; lia) (without x.1 rows ++ [(rid, v)]) w4 d4 n Hh4 Hs4) as (w5 & d5 & moved & H5 & Hh5 & Hs5 & Hm & Ht5); [|done..| |].
  { intros y Hy. apply elem_of_app. left. by apply Hms. }
  { eapply dups_ok_submseteq; [|exact Hdup]. rewrite fmap_app, <- app_assoc. by apply submseteq_app. }
  exists w5, d5, ((rid, v) :: moved). split_and!; [|done| |cbn; by rewrite Hm|by etrans; [|etrans]].
  - cbn [fmap list_fmap zip zip_with for_each]. unfold move_row at 1.
    assert ((DeleteFromAllIndexes c t x.2 x.1;; heap_Delete (tb_heap_object_id t) x.1;; rid0 ← heap_Insert (tb_heap_object_id t) (row_image (tb_columns t) v);
      InsertIntoAllIndexes c t v rid0) w = (Ret tt, w4)) as Hbody by (run H1; run H2; run H3; exact H4).
    destruct x as [xr xv]. run Hbody. exact H5.
  - unfold except in Hs5 |- *. rewrite filter_app in Hs5. rewrite filter_cons, decide_True in Hs5.
    2: { cbn. intros (y & He & Hy)%list_elem_of_fmap. apply (Hfresh y.1); [by apply list_elem_of_fmap_2, Hms|]. rewrite <- He. by left. }
    cbn [filter list_filter app] in Hs5. rewrite <- app_assoc in Hs5. fold (except ms.*1 (without x.1 rows)) in Hs5. rewrite except_cons in Hs5. exact Hs5.
Qed.

End Batch.

(** ** The contract *)

Section Contract.
Context {W : Type} `{HL : StorageLaws W} (c : Catalog).

(** The matched rows, once their new values are computed: all moved, or none. *)
Lemma update_batch_run w T n d t ps ms news :
  catalog_ok c -> t ∈ tables_ c -> tables_state c d T ->
  let rows := T (tb_name t) in let kept := filter (fun x => ~ matching t ps x) rows in
  holds w d (length ms * writes c t + n) -> ms ⊆+ rows -> ms ≡ₚ filter (matching t ps) rows ->
  length news = length ms -> Forall (row_ok (tb_columns t)) news -> dups_ok c t (rows.*2 ++ news) ->
  exists o w' T', (ValidateUpdateBatch c t ms news (row_image (tb_columns t) <$> news);;
      for_each (move_row c t (tb_heap_object_id t)) (zip ms ((fun v => (v, row_image (tb_columns t) v)) <$> news));; mret (mkResult [] [] (zlen ms))) w = (o, w') /\
    database c w' T' n /\
    if decide (Forall (fits t) news /\ pk_distinct c t (kept.*2 ++ news))
    then o = Ret (mkResult [] [] (zlen ms)) /\ exists moved, moved.*2 ≡ₚ news /\ T' = <[tb_name t := kept ++ moved]> T
    else o = Throw (if decide (Forall (fits t) news) then SqlSemanticError else InvalidArgument) /\ T' = T.
Proof.
  intros Hc Ht HT rows kept Hh Hsub Hperm Hlen Hnok Hdup. destruct (HT t Ht) as [Hs Hpk]. fold rows in Hs, Hpk.
  destruct (stored_rids c t w d _ rows Hh Hs) as [Hnd _]. pose proof (except_matching t ps rows ms Hnd Hperm) as Hexc.
  destruct (ValidateUpdateBatch_run c Hc t Ht w d _ rows ms news Hh Hs Hpk Hnok) as (w2 & H3 & Hh2). rewrite Hexc in H3. fold kept in H3, Hexc.
  assert (database c w2 T n) as Hdb2 by (split; [done|]; exists d; split; [eapply holds_le; [exact Hh2|lia]|done]).
  destruct (decide (Forall (fits t) news)) as [Hf|Hf].
  2: { exists (Throw InvalidArgument), w2, T. by rewrite (bind_throw _ _ _ _ _ H3), decide_False by tauto. }
  destruct (decide (pk_distinct c t (kept.*2 ++ news))) as [Hk|Hk].
  2: { exists (Throw SqlSemanticError), w2, T. by rewrite (bind_throw _ _ _ _ _ H3), decide_False by tauto. }
  run H3. destruct (move_loop c Hc t Ht ms news (eq_sym Hlen) rows w2 d n) as (w3 & d3 & moved & H4 & Hh3 & Hs3 & Hm & Ht3); [done|done| | |done|done|done|].
  { intros x Hx. by eapply elem_of_submseteq. }
  { apply (fmap_submseteq fst) in Hsub. apply submseteq_Permutation in Hsub as [k Hkk]. rewrite Hkk in Hnd. by apply NoDup_app in Hnd as (? & _ & _). }
  rewrite Hexc in Hs3. exists (Ret (mkResult [] [] (zlen ms))), w3, (<[tb_name t := kept ++ moved]> T). run H4. rewrite decide_True by done.
  split; [done|]. split; [|split; [done|exists moved; split; [by rewrite Hm|done]]]. split; [done|]. exists d3. split; [done|].
  eapply tables_update; [done..|]. by rewrite fmap_app, Hm.
Qed.

(** What UPDATE makes of the tables. When the statement type-checks, every
    row the clause matches gets the values of SET, under new record ids,
    provided each new row fits a page and the resulting table has no duplicate
    primary key. *)
Definition update_effect (T : contents) (stmt : UpdateStatement) (o : outcome ExecuteResult) (T' : contents) : Prop :=
  match FindTable c (up_table_name stmt) with
  | None => o = Throw SqlSemanticError /\ T' = T
  | Some t =>
      let rows := T (tb_name t) in let ps := up_where_predicates stmt in let l := up_assignments stmt in
      let matched := filter (matching t ps) rows in let kept := filter (fun x => ~ matching t ps x) rows in
      let news := assigned t l <$> matched.*2 in
      (~ (Forall (valid_assignment t) l /\ Forall (valid_predicate t) ps) -> o = Throw SqlSemanticError /\ T' = T) /\
      (Forall (valid_assignment t) l -> Forall (valid_predicate t) ps ->
         if decide (Forall (fits t) news /\ pk_distinct c t (kept.*2 ++ news))
         then o = Ret (mkResult [] [] (zlen matched)) /\
              exists moved, moved.*2 ≡ₚ news /\ T' = <[tb_name t := kept ++ moved]> T
         else o = Throw (if decide (Forall (fits t) news) then SqlSemanticError else InvalidArgument) /\ T' = T)
  end.

(** The insertions it takes: every row it matches may move. *)
Definition update_room (T : contents) (stmt : UpdateStatement) : nat :=
  match FindTable c (up_table_name stmt) with
  | Some t => length (filter (matching t (up_where_predicates stmt)) (T (tb_name t))) * writes c t
  | None => 0
  end.

Definition update_dups (T : contents) (stmt : UpdateStatement) : Prop :=
  match FindTable c (up_table_name stmt) with
  | Some t => dups_ok c t ((T (tb_name t)).*2 ++ (assigned t (up_assignments stmt) <$> (filter (matching t (up_where_predicates stmt)) (T (tb_name t))).*2))
  | None => True
  end.

Lemma ExecuteUpdate_run w T n stmt :
  Forall literal_wf (as_value <$> up_assignments stmt) -> update_dups T stmt -> database c w T (update_room T stmt + n) ->
  exists o w' T', ExecuteUpdate c stmt w = (o, w') /\ update_effect T stmt o T' /\ database c w' T' n.
Proof.
  unfold update_dups, update_room, update_effect. intros Hwf.
  destruct (FindTable c (up_table_name stmt)) as [t|] eqn:Et; [|exists (Throw SqlSemanticError), w, T; unfold ExecuteUpdate; by rewrite Et].
  cbn zeta. destruct (FindTable_Some _ _ _ Et) as [Ht Hn]. intros Hdup Hdb. pose proof (database_le c w T _ n Hdb ltac:(lia)) as Hdbn.
  destruct Hdb as [Hc (d & Hh & HT)].
  unfold ExecuteUpdate. rewrite Et. set (ps := up_where_predicates stmt) in *. set (l := up_assignments stmt) in *. set (rows := T (tb_name t)) in *.
  destruct (HT t Ht) as [Hs Hpk]. fold rows in Hs, Hpk.
  destruct (resolve_assignments_run t l) as [(idx & Hr & Hva & H2)|[Hr Hva]]; [|rewrite Hr; exists (Throw SqlSemanticError), w, T; split; [done|split; [tauto|done]]].
  rewrite Hr. run (eq_refl : lift (Ret idx) w = (Ret idx, w)).
  destruct (PlanTableAccess_run c (up_table_name stmt) ps) as [[Hp Hbad]|(t' & plan & Et' & Hvp & Hp & Hname & Hacc)].
  { rewrite Hp. exists (Throw SqlSemanticError), w, T. split; [done|]. split; [|done]. split; [done|]. intros _ Hvp. destruct Hbad as [?|(t' & Et' & Hnv)]; [congruence|].
    assert (t' = t) as -> by congruence. done. }
  assert (t' = t) as -> by congruence. rewrite <- Hn in Hname.
  rewrite Hp. run (eq_refl : lift (Ret plan) w = (Ret plan, w)). rewrite <- Hn. run (heap_of_run c Hc t Ht w).
  destruct (FetchCandidateRows_run c Hc t Ht w d _ rows ps plan Hh Hs Hvp Hname Hacc) as (w1 & cand & H1 & Hh1 & Hsub & Hperm & Hknown & Hrok). run H1.
  rewrite filter_rows_run by done. set (ms := filter (matching t (ap_residual_predicates plan)) cand) in *.
  run (eq_refl : lift (Ret ms) w1 = (Ret ms, w1)).
  assert (rows_ok t ms) as Hmok.
  { unfold rows_ok in *. rewrite Forall_forall in *. intros v (x & -> & [_ Hx]%list_elem_of_filter)%list_elem_of_fmap. by apply Hrok, list_elem_of_fmap_2. }
  rewrite (new_rows_run t l idx ms H2 Hwf Hva Hmok). set (news := assigned t l <$> ms.*2).
  assert ((fun x : row => (assigned t l x.2, row_image (tb_columns t) (assigned t l x.2))) <$> ms = (fun v => (v, row_image (tb_columns t) v)) <$> news) as ->.
  { unfold news. by rewrite <- !list_fmap_compose. }
  set (new_rows := (fun v => (v, row_image (tb_columns t) v)) <$> news). run (eq_refl : lift (Ret new_rows) w1 = (Ret new_rows, w1)).
  assert (new_rows.*1 = news) as -> by (unfold new_rows; rewrite <- list_fmap_compose; apply list_fmap_id).
  assert (new_rows.*2 = row_image (tb_columns t) <$> news) as -> by (unfold new_rows; by rewrite <- list_fmap_compose).
  assert (length ms = length (filter (matching t ps) rows)) as Hlen by (by rewrite Hperm).
  assert (news ≡ₚ assigned t l <$> (filter (matching t ps) rows).*2) as Hnews by (unfold news; by rewrite Hperm).
  destruct (update_batch_run w1 T n d t ps ms news Hc Ht HT) as (o & w2 & T' & H3 & Hdb2 & Heff);
    [by rewrite Hlen|unfold ms; etrans; [apply filter_submseteq_self|done]|done|unfold news; by rewrite !length_fmap| | |].
  { unfold news. apply Forall_fmap. eapply Forall_impl; [exact Hmok|]. intros v Hv. by apply assigned_ok. }
  { eapply dups_ok_submseteq; [|exact Hdup]. fold rows. by rewrite Hnews. }
  exists o, w2, T'. split; [exact H3|]. split; [|done]. split; [tauto|]. intros _ _. fold rows in Heff.
  set (kept := filter (fun x => ~ matching t ps x) rows) in *.
  assert (Forall (fits t) news <-> Forall (fits t) (assigned t l <$> (filter (matching t ps) rows).*2)) as Hfits by (by rewrite Hnews).
  assert (pk_distinct c t (kept.*2 ++ news) <-> pk_distinct c t (kept.*2 ++ (assigned t l <$> (filter (matching t ps) rows).*2))) as Hpks
    by (split; apply pk_distinct_perm; by rewrite Hnews).
  assert (zlen ms = zlen (filter (matching t ps) rows)) as Hz by (unfold zlen; by rewrite Hlen).
  rewrite Hz, (decide_ext _ _ _ _ Hfits) in Heff. erewrite decide_ext in Heff; [|rewrite Hfits, Hpks; reflexivity].
  case_decide; [|done]. destruct Heff as (-> & moved & Hm & ->). split; [done|]. exists moved. by rewrite Hm.
Qed.

(** C18: UPDATE is all or nothing. When the statement type-checks, every row
    the clause matches gets the values of SET, under new record ids, the other
    rows keep theirs, and every index follows, provided each new row fits a
    page and the resulting table has no duplicate primary key: keys may move
    between the updated rows. Otherwise it throws and the tables are as
    before. A statement that does not type-check is a semantic error. *)
Theorem ExecuteUpdate_atomic (w : W) (T : contents) (n : nat) (stmt : UpdateStatement) :
  Forall literal_wf (as_value <$> up_assignments stmt) -> update_dups T stmt -> database c w T (update_room T stmt + n) ->
  exists o w' T', ExecuteUpdate c stmt w = (o, w') /\ update_effect T stmt o T' /\ database c w' T' n.
Proof. apply ExecuteUpdate_run. Qed.

End Contract.
