(* ===== verification/Select.v ===== *)
(** * Select: what a query returns

    The reference meaning of SELECT, with and without a JOIN, is a filter and
    a nested loop over the rows of the tables. The planner and the executor
    return exactly that, up to order, whatever plan was chosen. *)
From S2P Require Import Prelude Config DiskManager HeapFile BTreeSpec Storage Text Catalog Ast RowCodec Planner Executor Query Tables Statements.

(** ** The reference *)

Definition projected (t : TableInfo) (stmt : SelectStatement) (values : list LiteralValue) : list LiteralValue :=
  if se_select_star stmt then values else omap (fun r => value_of t values (cr_column_name r)) (se_select_list stmt).

(** A query on one table. *)
Definition select_rows (t : TableInfo) (stmt : SelectStatement) (rows : list row) : list (list LiteralValue) :=
  (fun x => projected t stmt x.2) <$> filter (matching t (se_where_predicates stmt)) rows.

(** A column of a pair of rows: a qualified name is of the table it says, a
    bare one of the table that has it. *)
Definition pair_value (o i : TableInfo) (vo vi : list LiteralValue) (r : ColumnRef) : option LiteralValue :=
  match cr_table_name r with
  | Some n => if bool_decide (n = tb_name o) then value_of o vo (cr_column_name r) else value_of i vi (cr_column_name r)
  | None => if bool_decide (is_Some (FindColumn o (cr_column_name r))) then value_of o vo (cr_column_name r) else value_of i vi (cr_column_name r)
  end.

Definition pair_satisfies (o i : TableInfo) (vo vi : list LiteralValue) (p : Predicate) : Prop :=
  match pair_value o i vo vi (pr_column p) with Some v => meets (pr_op p) v (pr_value p) | None => False end.

#[global] Instance pair_satisfies_dec o i vo vi p : Decision (pair_satisfies o i vo vi p).
Proof. unfold pair_satisfies. destruct (pair_value _ _ _ _ _); apply _. Defined.

(** The ON clause. *)
Definition joined (o i : TableInfo) (j : JoinClause) (vo vi : list LiteralValue) : Prop :=
  match pair_value o i vo vi (jc_left_column j), pair_value o i vo vi (jc_right_column j) with
  | Some a, Some b => a = b
  | _, _ => False
  end.

#[global] Instance joined_dec o i j vo vi : Decision (joined o i j vo vi).
Proof. unfold joined. destruct (pair_value o i vo vi (jc_left_column j)), (pair_value o i vo vi (jc_right_column j)); apply _. Defined.

Definition pair_output (o i : TableInfo) (stmt : SelectStatement) (vo vi : list LiteralValue) : list LiteralValue :=
  if se_select_star stmt then vo ++ vi else omap (pair_value o i vo vi) (se_select_list stmt).

Definition pair_selected (o i : TableInfo) (stmt : SelectStatement) (j : JoinClause) (vo vi : list LiteralValue) : Prop :=
  joined o i j vo vi /\ Forall (pair_satisfies o i vo vi) (se_where_predicates stmt).

#[global] Instance pair_selected_dec o i stmt j vo vi : Decision (pair_selected o i stmt j vo vi).
Proof. unfold pair_selected. apply _. Defined.

(** A query on two tables. *)
Definition join_rows (o i : TableInfo) (stmt : SelectStatement) (j : JoinClause) (rows_o rows_i : list row) : list (list LiteralValue) :=
  rows_o ≫= fun x : row => (fun y : row => pair_output o i stmt x.2 y.2) <$> filter (fun y : row => pair_selected o i stmt j x.2 y.2) rows_i.

(** The answer to a query that type-checks, and the names of its columns. *)
Definition query_rows (c : Catalog) (T : bytes -> list row) (stmt : SelectStatement) : list (list LiteralValue) :=
  match FindTable c (se_from_table stmt), se_join stmt with
  | Some t, None => select_rows t stmt (T (tb_name t))
  | Some o, Some j =>
      match FindTable c (jc_table_name j) with
      | Some i => join_rows o i stmt j (T (tb_name o)) (T (tb_name i))
      | None => []
      end
  | None, _ => []
  end.

Definition query_columns (c : Catalog) (stmt : SelectStatement) : list bytes :=
  if se_select_star stmt then
    match FindTable c (se_from_table stmt) with
    | Some t => (col_name <$> tb_columns t) ++
        match se_join stmt ≫= fun j => FindTable c (jc_table_name j) with Some i => col_name <$> tb_columns i | None => [] end
    | None => []
    end
  else cr_column_name <$> se_select_list stmt.

(** ** Planning *)

Lemma map_outcome_inv {A B} (f : A -> outcome B) l bs : map_outcome f l = Ret bs -> Forall2 (fun a b => f a = Ret b) l bs.
Proof.
  revert bs. induction l as [|a l IH]; intros bs H; cbn [map_outcome] in H; [by injection H as <-|].
  apply outcome_bind_inv in H as (b & Hb & H). apply outcome_bind_inv in H as (bs' & Hbs & [= <-]). constructor; auto.
Qed.

Lemma resolve_single_inv t l refs :
  map_outcome (resolve_single t) l = Ret refs ->
  refs = (fun r => mkColumnRef (Some (tb_name t)) (cr_column_name r)) <$> l /\ Forall (fun r => is_Some (FindColumn t (cr_column_name r))) l.
Proof.
  intros H%map_outcome_inv. induction H as [|r r' l refs Hr _ [-> IH]]; [done|]. unfold resolve_single, RequireColumn in Hr.
  destruct (match cr_table_name r with Some _ => _ | None => _ end); [done|]. destruct (FindColumn t (cr_column_name r)) as [cd|] eqn:E; [|done].
  cbn in Hr. injection Hr as <-. split; [done|]. constructor; [by rewrite E|done].
Qed.

Lemma PlanTableAccess_inv c n ps plan :
  PlanTableAccess c n ps = Ret plan ->
  exists t, FindTable c n = Some t /\ Forall (valid_predicate t) ps /\ ap_table_name plan = n /\ access_for c t ps plan.
Proof.
  intros H. destruct (PlanTableAccess_run c n ps) as [[H' _]|(t & plan' & H1 & H2 & H3 & H4 & H5)]; [congruence|].
  rewrite H in H3. injection H3 as <-. eauto.
Qed.

Lemma plan_single c stmt plan :
  se_join stmt = None -> PlanSelect c stmt = Ret plan ->
  exists t acc, FindTable c (se_from_table stmt) = Some t /\ Forall (valid_predicate t) (se_where_predicates stmt) /\
    ap_table_name acc = se_from_table stmt /\ access_for c t (se_where_predicates stmt) acc /\
    (se_select_star stmt = false -> Forall (fun r => is_Some (FindColumn t (cr_column_name r))) (se_select_list stmt)) /\
    plan = mkSelectPlan (se_select_star stmt)
      (if se_select_star stmt then [] else (fun r => mkColumnRef (Some (tb_name t)) (cr_column_name r)) <$> se_select_list stmt) (TableAccess acc).
Proof.
  intros Hj H. unfold PlanSelect in H. destruct (FindTable c (se_from_table stmt)) as [t|] eqn:Et; [|done]. rewrite Hj in H.
  apply outcome_bind_inv in H as (refs & Hr & H). apply outcome_bind_inv in H as (acc & Ha & [= <-]).
  apply PlanTableAccess_inv in Ha as (t' & Et' & Hv & Hn & Hacc). assert (t' = t) as -> by congruence.
  exists t, acc. split_and!; try done.
  - intros Hs. rewrite Hs in Hr. by apply resolve_single_inv in Hr as [_ ?].
  - f_equal. destruct (se_select_star stmt); [by injection Hr as <-|]. by apply resolve_single_inv in Hr as [-> _].
Qed.

Lemma ResolveColumnSide_checked o i r : sql_checked (ResolveColumnSide o i r).
Proof.
  unfold ResolveColumnSide. destruct (cr_table_name r) as [n|].
  - case_bool_decide; [apply bind_checked; [apply RequireColumn_checked|done]|].
    case_bool_decide; [apply bind_checked; [apply RequireColumn_checked|done]|done].
  - by destruct (FindColumn o _), (FindColumn i _).
Qed.

Lemma split_predicates_checked o i ps : sql_checked (split_predicates o i ps).
Proof.
  induction ps as [|p ps IH]; [done|]. cbn [split_predicates]. apply bind_checked; [apply ResolveColumnSide_checked|]. intros side _.
  apply bind_checked; [apply RequireColumn_checked|]. intros cd _. apply bind_checked; [apply RequireLiteral_checked|]. intros _ _.
  apply bind_checked; [exact IH|]. by intros [os is_] _.
Qed.

Lemma PlanTableAccess_checked c n ps : sql_checked (PlanTableAccess c n ps).
Proof. destruct (PlanTableAccess_run c n ps) as [[-> _]|(t & plan & _ & _ & -> & _)]; done. Qed.

(** Planning a query answers or reports a semantic error. *)
Lemma PlanSelect_checked c stmt : sql_checked (PlanSelect c stmt).
Proof.
  unfold PlanSelect. destruct (FindTable c (se_from_table stmt)) as [t|]; [|done]. destruct (se_join stmt) as [j|].
  - apply bind_checked.
    + unfold plan_join. destruct (FindTable c (jc_table_name j)) as [i|]; [|done]. case_bool_decide; [done|].
      do 2 (apply bind_checked; [apply ResolveColumnSide_checked|]; intros ? _). case_bool_decide; [done|].
      do 2 (apply bind_checked; [apply RequireColumn_checked|]; intros ? _). destruct (negb _); [done|].
      apply bind_checked; [apply split_predicates_checked|]. intros [os is_] _. apply bind_checked; [apply PlanTableAccess_checked|]. intros acc _.
      by destruct (FindIndexOnColumn _ _ _).
    + intros [jp i] _. apply bind_checked; [|done]. destruct (se_select_star stmt); [done|]. apply map_outcome_checked. intros r.
      unfold resolve_joined. apply bind_checked; [apply ResolveColumnSide_checked|done].
  - apply bind_checked; [|intros refs _; apply bind_checked; [apply PlanTableAccess_checked|done]].
    destruct (se_select_star stmt); [done|]. apply map_outcome_checked. intros r. unfold resolve_single.
    destruct (match cr_table_name r with Some _ => _ | None => _ end); [done|]. apply bind_checked; [apply RequireColumn_checked|done].
Qed.

(** *** Planning a join *)

Definition on_side (o i : TableInfo) (vo vi : list LiteralValue) (side : JoinSide) (n : bytes) : option LiteralValue :=
  match side with JoinSide.kOuter => value_of o vo n | JoinSide.kInner => value_of i vi n end.

Lemma side_outer o i : side_table o i JoinSide.kOuter = o.
Proof. done. Qed.

Lemma side_inner o i : side_table o i JoinSide.kInner = i.
Proof. done. Qed.

Lemma ResolveColumnSide_inv o i r side :
  tb_name i <> tb_name o -> ResolveColumnSide o i r = Ret side ->
  is_Some (FindColumn (side_table o i side) (cr_column_name r)) /\
  forall vo vi, pair_value o i vo vi r = on_side o i vo vi side (cr_column_name r).
Proof.
  intros Hne. unfold ResolveColumnSide, pair_value, RequireColumn. destruct (cr_table_name r) as [n|].
  - case_bool_decide as Ho; [|case_bool_decide as Hi; [|done]].
    + destruct (FindColumn o (cr_column_name r)) eqn:E; [|done]. intros [= <-]. by rewrite side_outer, E.
    + destruct (FindColumn i (cr_column_name r)) eqn:E; [|done]. intros [= <-]. by rewrite side_inner, E.
  - destruct (FindColumn o (cr_column_name r)) eqn:Eo, (FindColumn i (cr_column_name r)) eqn:Ei; try done; intros [= <-].
    + rewrite side_outer, Eo. split; [done|]. intros vo vi. by rewrite bool_decide_eq_true_2.
    + rewrite side_inner, Ei. split; [done|]. intros vo vi. rewrite bool_decide_eq_false_2; [done|]. apply is_Some_None.
Qed.

Lemma split_predicates_inv o i ps os is_ :
  tb_name i <> tb_name o -> split_predicates o i ps = Ret (os, is_) ->
  Forall (known i) is_ /\ forall vo vi, Forall (pair_satisfies o i vo vi) ps <-> Forall (satisfies o vo) os /\ Forall (satisfies i vi) is_.
Proof.
  intros Hne. revert os is_. induction ps as [|p ps IH]; intros os is_ H; cbn [split_predicates] in H.
  { injection H as <- <-. split; [done|]. intros vo vi. rewrite !Forall_nil. tauto. }
  apply outcome_bind_inv in H as (side & Hside & H). apply outcome_bind_inv in H as (cd & Hcd & H).
  apply outcome_bind_inv in H as ([] & _ & H). apply outcome_bind_inv in H as (oi & Hrest & H). destruct oi as [os' is'].
  destruct (IH os' is' Hrest) as [Hk Hiff]. destruct (ResolveColumnSide_inv o i (pr_column p) side Hne Hside) as [Hcol Hval].
  assert (forall vo vi, pair_satisfies o i vo vi p <->
    match side with JoinSide.kOuter => satisfies o vo p | JoinSide.kInner => satisfies i vi p end) as Hp.
  { intros vo vi. unfold pair_satisfies. rewrite Hval. by destruct side. }
  destruct side; [rewrite bool_decide_eq_true_2 in H by done|rewrite bool_decide_eq_false_2 in H by done]; injection H as <- <-.
  - split; [done|]. intros vo vi. rewrite !Forall_cons, Hp, Hiff. tauto.
  - split; [by constructor|]. intros vo vi. rewrite !Forall_cons, Hp, Hiff. tauto.
Qed.

(** What a join plan is good for. *)
Record join_plan_for (c : Catalog) (o i : TableInfo) (j : JoinClause) (ps : list Predicate) (jp : JoinPlan) (co ci : ColumnDef) (os : list Predicate) : Prop := mkJoinFor {
  jf_inner : jp_inner_table_name jp = tb_name i;
  jf_outer_column : FindColumn o (jp_outer_join_column jp) = Some co;
  jf_inner_column : FindColumn i (jp_inner_join_column jp) = Some ci;
  jf_types : col_type co = col_type ci;
  jf_outer_valid : Forall (valid_predicate o) os;
  jf_outer_name : ap_table_name (jp_outer jp) = tb_name o;
  jf_outer_access : access_for c o os (jp_outer jp);
  jf_inner_known : Forall (known i) (jp_inner_residual_predicates jp);
  jf_where vo vi : Forall (pair_satisfies o i vo vi) ps <-> Forall (satisfies o vo) os /\ Forall (satisfies i vi) (jp_inner_residual_predicates jp);
  jf_on vo vi : joined o i j vo vi <->
    match value_of o vo (jp_outer_join_column jp), value_of i vi (jp_inner_join_column jp) with Some a, Some b => a = b | _, _ => False end;
  jf_method : jp_inner_method jp = ScanMethod.kSeqScan \/
    jp_inner_method jp = ScanMethod.kIndexScan /\ exists ix, ix ∈ IndexesOnTable c (tb_name i) /\ jp_inner_index_name jp = ix_name ix /\
      ix_column_name ix = jp_inner_join_column jp
}.

Lemma FindIndexOnColumn_In c n col ix : FindIndexOnColumn c n col = Some ix -> ix ∈ IndexesOnTable c n /\ ix_column_name ix = col.
Proof. intros [H E%bool_decide_eq_true]%find_In. done. Qed.

Lemma plan_join_inv c o j ps jp i :
  FindTable c (tb_name o) = Some o -> plan_join c o j ps = Ret (jp, i) ->
  FindTable c (jc_table_name j) = Some i /\ tb_name i <> tb_name o /\ exists co ci os, join_plan_for c o i j ps jp co ci os.
Proof.
  intros Ho H. unfold plan_join in H. destruct (FindTable c (jc_table_name j)) as [i'|] eqn:Ei; [|done].
  case_bool_decide as Hne; [done|]. apply outcome_bind_inv in H as (ls & Hls & H). apply outcome_bind_inv in H as (rs & Hrs & H).
  case_bool_decide as Hsides; [done|]. apply outcome_bind_inv in H as (co & Hco & H). apply outcome_bind_inv in H as (ci & Hci & H).
  destruct (bool_decide (col_type co = col_type ci)) eqn:Hty; [|done]. cbn [negb] in H. apply bool_decide_eq_true in Hty.
  apply outcome_bind_inv in H as ([os is_] & Hsplit & H). apply outcome_bind_inv in H as (acc & Hacc & H).
  set (oc := cr_column_name (if bool_decide (ls = JoinSide.kOuter) then jc_left_column j else jc_right_column j)) in *.
  set (ic := cr_column_name (if bool_decide (ls = JoinSide.kInner) then jc_left_column j else jc_right_column j)) in *.
  assert (i' = i /\ exists method name, jp = mkJoinPlan acc (tb_name i) method name is_ oc ic /\
    (method = ScanMethod.kSeqScan \/ method = ScanMethod.kIndexScan /\ exists ix, ix ∈ IndexesOnTable c (tb_name i) /\ name = ix_name ix /\ ix_column_name ix = ic))
    as (-> & method & name & -> & Hmethod).
  { destruct (FindIndexOnColumn c (tb_name i') ic) as [ix|] eqn:Ex; injection H as <- <-; (split; [done|]); eexists _, _; (split; [done|]); [right|by left].
    apply FindIndexOnColumn_In in Ex as [? ?]. split; [done|]. by exists ix. }
  split; [done|]. split; [done|]. exists co, ci, os. apply PlanTableAccess_inv in Hacc as (o' & Ho' & Hv & Hn & Hacc). assert (o' = o) as -> by congruence.
  destruct (split_predicates_inv o i ps os is_ Hne Hsplit) as [Hk Hw].
  destruct (ResolveColumnSide_inv o i _ ls Hne Hls) as [_ Hl], (ResolveColumnSide_inv o i _ rs Hne Hrs) as [_ Hr].
  unfold RequireColumn in Hco, Hci. destruct (FindColumn o oc) as [co'|] eqn:Eo; [|done]. destruct (FindColumn i ic) as [ci'|] eqn:Ec; [|done].
  injection Hco as ->. injection Hci as ->. split; cbn; try done.
  intros vo vi. unfold joined. rewrite Hl, Hr. unfold oc, ic. destruct ls, rs; try done; cbn [on_side]; repeat case_bool_decide; try done.
  destruct (value_of o vo _), (value_of i vi _); [split; congruence|tauto..].
Qed.

Lemma resolve_joined_inv o i l refs :
  tb_name i <> tb_name o -> map_outcome (resolve_joined o i) l = Ret refs ->
  Forall2 (fun r r' => cr_column_name r' = cr_column_name r /\ exists side, cr_table_name r' = Some (tb_name (side_table o i side)) /\
    is_Some (FindColumn (side_table o i side) (cr_column_name r)) /\
    forall vo vi, pair_value o i vo vi r = on_side o i vo vi side (cr_column_name r)) l refs.
Proof.
  intros Hne H%map_outcome_inv. induction H as [|r r' l refs Hr _ IH]; constructor; [|done]. unfold resolve_joined in Hr.
  apply outcome_bind_inv in Hr as (side & Hside & [= <-]). cbn. split; [done|]. exists side. split; [done|]. by apply ResolveColumnSide_inv.
Qed.

Lemma plan_join_select c stmt j plan :
  catalog_ok c -> se_join stmt = Some j -> PlanSelect c stmt = Ret plan ->
  exists o i jp co ci os refs, FindTable c (se_from_table stmt) = Some o /\ FindTable c (jc_table_name j) = Some i /\ tb_name i <> tb_name o /\
    join_plan_for c o i j (se_where_predicates stmt) jp co ci os /\ plan = mkSelectPlan (se_select_star stmt) refs (JoinAccess jp) /\
    (se_select_star stmt = false -> map_outcome (resolve_joined o i) (se_select_list stmt) = Ret refs).
Proof.
  intros Hc Hj H. unfold PlanSelect in H. destruct (FindTable c (se_from_table stmt)) as [o|] eqn:Eo; [|done]. rewrite Hj in H.
  apply outcome_bind_inv in H as ([jp i] & Hjp & H). apply outcome_bind_inv in H as (refs & Hr & [= <-]).
  destruct (FindTable_Some _ _ _ Eo) as [Ho Hn]. destruct (plan_join_inv c o j (se_where_predicates stmt) jp i) as (Hi & Hne & co & ci & os & Hf); [by apply FindTable_In|done|].
  exists o, i, jp, co, ci, os, refs. split_and!; try done. intros Hs. by rewrite Hs in Hr.
Qed.

(** ** Execution *)

Section Run.
Context {W : Type} `{HL : StorageLaws W} (c : Catalog) (Hc : catalog_ok c).

Lemma project_run t refs values :
  Forall (fun r => is_Some (FindColumn t (cr_column_name r))) refs -> row_ok (tb_columns t) values ->
  project t ((fun r => mkColumnRef (Some (tb_name t)) (cr_column_name r)) <$> refs) values = Ret (omap (fun r => value_of t values (cr_column_name r)) refs).
Proof.
  intros H Hok. unfold project. induction H as [|r refs [cd Hcd] _ IH]; [done|]. cbn [fmap list_fmap map_outcome omap list_omap cr_column_name].
  destruct (column_value_run t values _ cd Hcd Hok) as (v & -> & -> & _). cbn [mbind outcome_bind].
  fold (fmap (M:=list) (fun r => mkColumnRef (Some (tb_name t)) (cr_column_name r)) refs). rewrite IH. done.
Qed.

Lemma select_single_run w d n stmt plan t rows :
  holds w d n -> stored c d t rows -> t ∈ tables_ c -> se_join stmt = None -> FindTable c (se_from_table stmt) = Some t -> PlanSelect c stmt = Ret plan ->
  exists w' out, ExecuteSelect c stmt w = (Ret (mkResult out (query_columns c stmt) 0), w') /\ holds w' d n /\ out ≡ₚ select_rows t stmt rows.
Proof.
  intros Hh Hs Ht Hj Et Hplan. destruct (plan_single c stmt plan Hj Hplan) as (t' & acc & Et' & Hv & Hname & Hacc & Hcols & ->).
  assert (t' = t) as -> by congruence. destruct (FindTable_Some _ _ _ Et) as [_ Hn]. rewrite <- Hn in Hname.
  unfold ExecuteSelect. rewrite Hplan. run (eq_refl : lift (Ret (mkSelectPlan (se_select_star stmt)
    (if se_select_star stmt then [] else (fun r => mkColumnRef (Some (tb_name t)) (cr_column_name r)) <$> se_select_list stmt) (TableAccess acc))) w = (Ret _, w)).
  cbn [sp_access]. unfold ExecuteSelectSingleTable. rewrite Hname, FindTable_In by done. run (eq_refl : deref (Some t) w = (Ret t, w)). cbn zeta.
  destruct (FetchCandidateRows_run c Hc t Ht w d n rows _ acc Hh Hs Hv Hname Hacc) as (w1 & cand & H1 & Hh1 & _ & Hperm & Hknown & Hrok). run H1.
  rewrite filter_rows_run by done. set (ms := filter (matching t (ap_residual_predicates acc)) cand) in *.
  run (eq_refl : lift (Ret ms) w1 = (Ret ms, w1)). exists w1, ((fun x : row => projected t stmt x.2) <$> ms). split_and!; [|done|].
  - assert (Forall (fun x : row => row_ok (tb_columns t) x.2) ms) as Hok.
    { unfold rows_ok in Hrok. rewrite Forall_fmap in Hrok. unfold ms. rewrite Forall_forall in *. intros x [_ Hx]%list_elem_of_filter. by apply Hrok. }
    rewrite (map_outcome_ret _ (fun x : row => projected t stmt x.2)).
    + unfold lift, mbind, M_bind, mret, M_ret. do 3 f_equal. unfold query_columns. rewrite Et, Hj. cbn [sp_select_star sp_select_list].
      destruct (se_select_star stmt); cbn; [by rewrite app_nil_r|]. by rewrite <- list_fmap_compose.
    + eapply Forall_impl; [exact Hok|]. intros x Hx. cbn beta. unfold output_row, projected. cbn [sp_select_star sp_select_list].
      destruct (se_select_star stmt); [done|]. apply project_run; [by apply Hcols|done].
  - unfold select_rows. by rewrite Hperm.
Qed.

(** *** Joins *)

Lemma LiteralsEqual_run ty a b : literal_ok ty a -> literal_ok ty b -> LiteralsEqual a b = bool_decide (a = b).
Proof.
  unfold LiteralsEqual. destruct ty; intros [-> _] [-> _]; cbn [kind int_literal string_literal int_value string_value].
  - rewrite bool_decide_eq_true_2 by done. destruct (Z.eqb_spec (int_value a) (int_value b)) as [->|Hne]; [by rewrite bool_decide_eq_true_2|].
    rewrite bool_decide_eq_false_2; [done|]. by intros [= ?].
  - rewrite bool_decide_eq_false_2 by done. apply bool_decide_ext. split; [by intros ->|by intros [= ->]].
Qed.

Lemma column_at t n cd :
  FindColumn t n = Some cd -> exists k, ColumnIndex t n = Ret k /\
    forall values, row_ok (tb_columns t) values -> exists v, value_at values k = Ret v /\ value_of t values n = Some v /\ literal_ok (col_type cd) v.
Proof.
  intros Hf. destruct (ColumnIndex_run t n) as [(k & cd' & H1 & H2 & _)|[_ H]]; [|congruence]. exists k. split; [done|]. intros values Hok.
  destruct (column_value_run t values n cd Hf Hok) as (v & Hv & Hrest). exists v. unfold column_value in Hv. rewrite H1 in Hv. done.
Qed.

Lemma project_joined o i l refs vo vi :
  tb_name i <> tb_name o -> row_ok (tb_columns o) vo -> row_ok (tb_columns i) vi -> map_outcome (resolve_joined o i) l = Ret refs ->
  map_outcome (fun col => if bool_decide (cr_table_name col = Some (tb_name o)) then column_value o vo (cr_column_name col)
                          else column_value i vi (cr_column_name col)) refs = Ret (omap (pair_value o i vo vi) l).
Proof.
  intros Hne Ho Hi H%resolve_joined_inv; [|done]. induction H as [|r r' l refs (Hn & side & Ht & [cd Hcd] & Hv) _ IH]; [done|].
  cbn [map_outcome omap list_omap]. rewrite Hv, Ht, Hn, IH. destruct side; cbn [on_side]; [rewrite side_outer in *|rewrite side_inner in *].
  - rewrite bool_decide_eq_true_2 by done. by destruct (column_value_run o vo _ cd Hcd Ho) as (v & -> & -> & _).
  - rewrite bool_decide_eq_false_2 by congruence. by destruct (column_value_run i vi _ cd Hcd Hi) as (v & -> & -> & _).
Qed.

(** The rows of the inner table a turn of the loop joins to an outer row. *)
Definition on_row (o i : TableInfo) (j : JoinClause) (jp : JoinPlan) (vo vi : list LiteralValue) : Prop :=
  joined o i j vo vi /\ Forall (satisfies i vi) (jp_inner_residual_predicates jp).

#[local] Instance on_row_dec o i j jp vo vi : Decision (on_row o i j jp vo vi).
Proof. unfold on_row. apply _. Defined.

Section Join.
Context (o i : TableInfo) (Ho : o ∈ tables_ c) (Hi : i ∈ tables_ c) (Hne : tb_name i <> tb_name o) (stmt : SelectStatement) (j : JoinClause).
Context (jp : JoinPlan) (co ci : ColumnDef) (os : list Predicate) (Hjp : join_plan_for c o i j (se_where_predicates stmt) jp co ci os).
Context (refs : list ColumnRef) (Hrefs : se_select_star stmt = false -> map_outcome (resolve_joined o i) (se_select_list stmt) = Ret refs).
Context (ko ki : nat).
Context (Hko : forall v, row_ok (tb_columns o) v -> exists a, value_at v ko = Ret a /\ value_of o v (jp_outer_join_column jp) = Some a /\ literal_ok (col_type co) a).
Context (Hki : forall v, row_ok (tb_columns i) v -> exists b, value_at v ki = Ret b /\ value_of i v (jp_inner_join_column jp) = Some b /\ literal_ok (col_type ci) b).

Let plan := mkSelectPlan (se_select_star stmt) refs (JoinAccess jp).

Lemma join_inner_run vo y :
  row_ok (tb_columns o) vo -> row_ok (tb_columns i) y.2 ->
  (jp_inner_method jp <> ScanMethod.kSeqScan -> joined o i j vo y.2) ->
  join_inner plan jp o i ko ki vo (stored_row i y) = Ret (if decide (on_row o i j jp vo y.2) then Some (pair_output o i stmt vo y.2) else None).
Proof.
  intros Hvo Hvi Hjoined. destruct (Hko vo Hvo) as (a & Ha & Hva & Hla), (Hki y.2 Hvi) as (b & Hb & Hvb & Hlb).
  assert (joined o i j vo y.2 <-> a = b) as Hiff by (by rewrite (jf_on _ _ _ _ _ _ _ _ _ Hjp), Hva, Hvb).
  rewrite <- (jf_types _ _ _ _ _ _ _ _ _ Hjp) in Hlb. unfold join_inner. rewrite DecodeRow_run by done. cbn [mbind outcome_bind].
  assert ((if bool_decide (jp_inner_method jp = ScanMethod.kSeqScan) then a ← value_at vo ko; b ← value_at y.2 ki; Ret (LiteralsEqual a b) else Ret true : outcome bool)
    = Ret (bool_decide (joined o i j vo y.2))) as E.
  { case_bool_decide as Hm; [|by rewrite bool_decide_eq_true_2 by auto]. rewrite Ha, Hb. cbn [mbind outcome_bind].
    rewrite (LiteralsEqual_run _ _ _ Hla Hlb). f_equal. apply bool_decide_ext. by symmetry. }
  rewrite E. clear E. cbn [mbind outcome_bind]. unfold on_row. case_bool_decide as Hj; cbn [negb]; [|by rewrite decide_False by tauto].
  rewrite MatchesAll_run by (done || apply Hjp). cbn [mbind outcome_bind]. case_bool_decide as Hr; cbn [negb]; [|by rewrite decide_False by tauto].
  rewrite decide_True by done. unfold pair_output. cbn [plan sp_select_star sp_select_list]. destruct (se_select_star stmt); [done|].
  by rewrite (project_joined o i (se_select_list stmt)) by auto.
Qed.

Lemma omap_decide {A B} (P : A -> Prop) `{!forall x, Decision (P x)} (f : A -> B) (l : list A) :
  omap id ((fun x => if decide (P x) then Some (f x) else None) <$> l) = f <$> filter P l.
Proof. induction l as [|x l IH]; [done|]. rewrite filter_cons. cbn. destruct (decide (P x)); cbn; by rewrite IH. Qed.

(** All inner candidates of one outer row. *)
Lemma join_inners_run vo cand :
  row_ok (tb_columns o) vo -> rows_ok i cand ->
  (jp_inner_method jp <> ScanMethod.kSeqScan -> Forall (fun y => joined o i j vo y.2) cand) ->
  exists outs, map_outcome (join_inner plan jp o i ko ki vo) (raw i cand) = Ret outs /\
    omap id outs = (fun y : row => pair_output o i stmt vo y.2) <$> filter (fun y : row => on_row o i j jp vo y.2) cand.
Proof.
  intros Hvo Hok Hj. eexists. split; [|apply (omap_decide (fun y : row => on_row o i j jp vo y.2))]. unfold raw. revert Hok Hj. unfold rows_ok.
  induction cand as [|y cand IH]; intros Hok Hj; [done|]. cbn [fmap list_fmap] in Hok |- *. apply Forall_cons in Hok as [Hy Hok].
  cbn [map_outcome]. rewrite join_inner_run; [|done..|intros Hm; by apply Hj, Forall_cons in Hm as [? _]]. cbn [mbind outcome_bind].
  fold (fmap (M:=list) (stored_row i) cand). rewrite IH; [done..|]. intros Hm. by apply Hj, Forall_cons in Hm as [_ ?].
Qed.

(** An index on the join column has the key of a row exactly when the row is
    joined. *)
Lemma joined_key ix vo a y :
  ix ∈ IndexesOnTable c (tb_name i) -> ix_column_name ix = jp_inner_join_column jp -> row_ok (tb_columns i) y.2 ->
  value_of o vo (jp_outer_join_column jp) = Some a -> literal_ok (col_type co) a -> row_key i ix y = int_value a <-> joined o i j vo y.2.
Proof.
  intros Hix Hcol Hy Hva Hla. destruct (Hki y.2 Hy) as (b & _ & Hvb & Hlb). destruct (index_column c i ix Hc Hi Hix) as (cd & Hf & Hty).
  rewrite Hcol, (jf_inner_column _ _ _ _ _ _ _ _ _ Hjp) in Hf. injection Hf as ->.
  rewrite (jf_on _ _ _ _ _ _ _ _ _ Hjp), Hva, Hvb. unfold row_key, col_key. rewrite Hcol, Hvb.
  rewrite (jf_types _ _ _ _ _ _ _ _ _ Hjp) in Hla. rewrite Hty in Hla, Hlb. destruct Hla as [-> _], Hlb as [-> _]. cbn. split; [by intros ->|by intros [= ->]].
Qed.

Definition candidates (index : option ObjectId) (rows_i : list row) (vo : list LiteralValue) : M W (list (RID * bytes)) :=
  match index with
  | Some index => v ← lift (value_at vo ko); rids ← tree_Search index (int_value v); get_rows (tb_heap_object_id i) rids
  | None => mret (raw i rows_i)
  end.

Definition index_of_plan (index : option ObjectId) : Prop :=
  match index with
  | Some id => jp_inner_method jp = ScanMethod.kIndexScan /\
      exists ix, ix ∈ IndexesOnTable c (tb_name i) /\ ix_object_id ix = id /\ ix_column_name ix = jp_inner_join_column jp
  | None => jp_inner_method jp = ScanMethod.kSeqScan
  end.

Lemma candidates_run w d n rows_i index vo :
  holds w d n -> stored c d i rows_i -> row_ok (tb_columns o) vo -> index_of_plan index ->
  exists w' cand, candidates index rows_i vo w = (Ret (raw i cand), w') /\ holds w' d n /\ rows_ok i cand /\
    (jp_inner_method jp <> ScanMethod.kSeqScan -> Forall (fun y => joined o i j vo y.2) cand) /\
    filter (fun y : row => on_row o i j jp vo y.2) cand ≡ₚ filter (fun y : row => on_row o i j jp vo y.2) rows_i.
Proof.
  intros Hh Hs Hvo Hindex. pose proof (sd_rows _ _ _ _ Hs) as Hok. destruct index as [id|].
  2: { exists w, rows_i. split_and!; [done..| |done]. intros Hm. by destruct Hm. }
  destruct Hindex as (Hm & ix & Hix & <- & Hcol). destruct (Hko vo Hvo) as (a & Ha & Hva & Hla). unfold candidates. rewrite Ha.
  run (eq_refl : lift (Ret a) w = (Ret a, w)). destruct (probe_run c i w d n rows_i ix (int_value a) Hh Hs Hix) as (w1 & cand & H1 & Hh1 & Hcand). run H1.
  assert (forall y, y ∈ cand -> y ∈ rows_i) as Hsub by (intros y; rewrite Hcand; by intros [_ ?]%list_elem_of_filter).
  destruct (get_rows_run c i w1 d n rows_i cand Hh1 Hs Hsub) as (w2 & H2 & Hh2).
  assert (forall y, y ∈ rows_i -> row_key i ix y = int_value a <-> joined o i j vo y.2) as Hkey.
  { intros y Hy. by eapply joined_key; [exact Hix|exact Hcol|eapply stored_row_ok; [exact Hs|exact Hy]|..]. }
  exists w2, cand. split_and!; [done|done|..].
  - unfold rows_ok. apply Forall_fmap, Forall_forall. intros y Hy. eapply stored_row_ok; [exact Hs|by apply Hsub].
  - intros _. apply Forall_forall. intros y Hy. apply Hkey; [by apply Hsub|]. rewrite Hcand in Hy. by apply list_elem_of_filter in Hy as [? _].
  - rewrite Hcand, list_filter_filter. erewrite list_filter_ext_in; [done|]. intros y Hy. cbn beta. unfold on_row. rewrite (Hkey y Hy). tauto.
Qed.

(** The inner rows scanned up front, when there is no index. *)
Definition scanned (index : option ObjectId) (rows_i : list row) : list row := match index with Some _ => [] | None => rows_i end.

(** What one turn of the outer loop adds. *)
Definition turn (rows_i : list row) (x : row) : list (list LiteralValue) :=
  (fun y : row => pair_output o i stmt x.2 y.2) <$> filter (fun y : row => on_row o i j jp x.2 y.2) rows_i.

Lemma join_outer_run w d n rows_i index out x :
  holds w d n -> stored c d i rows_i -> row_ok (tb_columns o) x.2 -> Forall (known o) (ap_residual_predicates (jp_outer jp)) -> index_of_plan index ->
  exists w' outs,
    join_outer plan jp o i ko ki (tb_heap_object_id i) index (raw i (scanned index rows_i)) out (stored_row o x) w = (Ret (out ++ outs), w') /\
    holds w' d n /\ outs ≡ₚ (if decide (matching o (ap_residual_predicates (jp_outer jp)) x) then turn rows_i x else []).
Proof.
  intros Hh Hs Hx Hknown Hindex. unfold join_outer. rewrite DecodeRow_run by done. run (eq_refl : lift (Ret x.2) w = (Ret x.2, w)).
  rewrite MatchesAll_run by done. unfold matching. set (P := Forall _ _).
  run (eq_refl : lift (Ret (bool_decide P)) w = (Ret (bool_decide P), w)).
  destruct (bool_decide_reflect P) as [Hp|Hp]; cbn [negb]; [rewrite decide_True by done|rewrite decide_False by done; exists w, []; by rewrite app_nil_r].
  destruct (candidates_run w d n rows_i index x.2 Hh Hs Hx Hindex) as (w1 & cand & H1 & Hh1 & Hok & Hj & Hperm).
  destruct (join_inners_run x.2 cand Hx Hok Hj) as (outs & H2 & Houts).
  exists w1, (omap id outs). split_and!; [|done|by rewrite Houts, Hperm].
  assert (match index with
    | Some index => v ← lift (value_at x.2 ko); rids ← tree_Search index (int_value v); get_rows (tb_heap_object_id i) rids
    | None => mret (raw i (scanned index rows_i))
    end w = (Ret (raw i cand), w1)) as E by (rewrite <- H1; by destruct index).
  run E. rewrite H2. run (eq_refl : lift (Ret outs) w1 = (Ret outs, w1)). done.
Qed.

Lemma join_loop d n rows_i index cand : stored c d i rows_i -> Forall (known o) (ap_residual_predicates (jp_outer jp)) -> index_of_plan index ->
  rows_ok o cand -> forall w out, holds w d n ->
  exists w' outs,
    fold_m (join_outer plan jp o i ko ki (tb_heap_object_id i) index (raw i (scanned index rows_i))) out (raw o cand) w = (Ret (out ++ outs), w') /\
    holds w' d n /\ outs ≡ₚ filter (matching o (ap_residual_predicates (jp_outer jp))) cand ≫= turn rows_i.
Proof.
  intros Hs Hknown Hindex. induction cand as [|x cand IH]; intros Hok w out Hh; [exists w, []; by rewrite app_nil_r|].
  unfold rows_ok in Hok. cbn [fmap list_fmap] in Hok. apply Forall_cons in Hok as [Hx Hok]. cbn [raw fmap list_fmap fold_m]. fold (raw o cand).
  destruct (join_outer_run w d n rows_i index out x Hh Hs Hx Hknown Hindex) as (w1 & outs1 & H1 & Hh1 & Hp1).
  destruct (IH Hok w1 (out ++ outs1) Hh1) as (w2 & outs2 & H2 & Hh2 & Hp2). exists w2, (outs1 ++ outs2). rewrite app_assoc. run H1.
  split_and!; [done|done|]. rewrite filter_cons, Hp1, Hp2. by destruct (decide _).
Qed.

(** The loop adds up to the reference. *)
Lemma turns_join_rows rows_o rows_i cand :
  filter (matching o (ap_residual_predicates (jp_outer jp))) cand ≡ₚ filter (matching o os) rows_o ->
  filter (matching o (ap_residual_predicates (jp_outer jp))) cand ≫= turn rows_i ≡ₚ join_rows o i stmt j rows_o rows_i.
Proof.
  intros ->. unfold join_rows. induction rows_o as [|x rows_o IH]; [done|]. rewrite filter_cons. cbn [mbind list_bind].
  assert ((if decide (matching o os x) then turn rows_i x else [])
    = (fun y : row => pair_output o i stmt x.2 y.2) <$> filter (fun y : row => pair_selected o i stmt j x.2 y.2) rows_i) as <-.
  { unfold turn. case_decide as Hm.
    - f_equal. apply list_filter_iff. intros y. unfold on_row, pair_selected. rewrite (jf_where _ _ _ _ _ _ _ _ _ Hjp). unfold matching in Hm. tauto.
    - rewrite list_filter_none; [done|]. intros y _ [_ Hw]. apply Hm. by apply (jf_where _ _ _ _ _ _ _ _ _ Hjp) in Hw as [? _]. }
  by destruct (decide (matching o os x)); cbn; [f_equiv|].
Qed.
End Join.

Lemma select_join_run w d n stmt plan j T :
  holds w d n -> tables_state c d T -> se_join stmt = Some j -> PlanSelect c stmt = Ret plan ->
  exists w' out, ExecuteSelect c stmt w = (Ret (mkResult out (query_columns c stmt) 0), w') /\ holds w' d n /\ out ≡ₚ query_rows c T stmt.
Proof.
  intros Hh HT Hj Hplan. destruct (plan_join_select c stmt j plan Hc Hj Hplan) as (o & i & jp & co & ci & os & refs & Eo & Ei & Hne & Hjp & -> & Hrefs).
  destruct (FindTable_Some _ _ _ Eo) as [Ho Hon], (FindTable_Some _ _ _ Ei) as [Hi Hin]. destruct (HT o Ho) as [Hso _], (HT i Hi) as [Hsi _].
  destruct (column_at o _ co (jf_outer_column _ _ _ _ _ _ _ _ _ Hjp)) as (ko & Eko & Hko), (column_at i _ ci (jf_inner_column _ _ _ _ _ _ _ _ _ Hjp)) as (ki & Eki & Hki).
  pose proof (jf_outer_name _ _ _ _ _ _ _ _ _ Hjp) as Hname. unfold ExecuteSelect. rewrite Hplan.
  run (eq_refl : lift (Ret (mkSelectPlan (se_select_star stmt) refs (JoinAccess jp))) w = (Ret _, w)). cbn [sp_access].
  unfold ExecuteSelectJoin. rewrite Hname, (jf_inner _ _ _ _ _ _ _ _ _ Hjp), !FindTable_In by done.
  run (eq_refl : deref (Some o) w = (Ret o, w)). run (eq_refl : deref (Some i) w = (Ret i, w)). rewrite Eko, Eki.
  run (eq_refl : lift (Ret ko) w = (Ret ko, w)). run (eq_refl : lift (Ret ki) w = (Ret ki, w)). cbn zeta. run (heap_of_run c Hc i Hi w).
  assert (exists w1 index, (if bool_decide (jp_inner_method jp = ScanMethod.kIndexScan) then x ← index_by_name c (jp_inner_index_name jp); mret (Some x) else mret None) w = (Ret index, w)
    /\ index_of_plan i jp index /\ (if bool_decide (jp_inner_method jp = ScanMethod.kSeqScan) then heap_Scan (tb_heap_object_id i) else mret []) w = (Ret (raw i (scanned index (T (tb_name i)))), w1)
    /\ holds w1 d n) as (w1 & index & H1 & Hindex & H2 & Hh1).
  { destruct (jf_method _ _ _ _ _ _ _ _ _ Hjp) as [Hm|(Hm & ix & Hix & Hn & Hcol)]; rewrite Hm.
    - destruct (Scan_law w d n _ _ Hh (sd_heap _ _ _ _ Hsi)) as (w1 & H1 & Hh1). by exists w1, None.
    - exists w, (Some (ix_object_id ix)). rewrite Hn. split_and!; [|split; [done|by exists ix]|done|done].
      rewrite bool_decide_eq_true_2 by done. run (index_by_name_run c Hc ix w ltac:(by apply on_table_facts in Hix as [? _])). done. }
  run H1. run H2. pose proof (jf_outer_access _ _ _ _ _ _ _ _ _ Hjp) as Hacc.
  destruct (FetchCandidateRows_run c Hc o Ho w1 d n _ os (jp_outer jp) Hh1 Hso (jf_outer_valid _ _ _ _ _ _ _ _ _ Hjp) Hname Hacc)
    as (w2 & cand & H3 & Hh2 & _ & Hperm & Hknown & Hok). run H3.
  destruct (join_loop o i Hi Hne stmt j jp co ci os Hjp refs Hrefs ko ki Hko Hki d n (T (tb_name i)) index cand Hsi Hknown Hindex Hok w2 [] Hh2)
    as (w3 & outs & H4 & Hh3 & Houts). run H4.
  exists w3, outs. split_and!; [|done|].
  - unfold mret, M_ret. do 3 f_equal. unfold query_columns. cbn [sp_select_star sp_select_list]. rewrite Eo, Hj. cbn [mbind option_bind]. rewrite Ei.
    destruct (se_select_star stmt) eqn:Es; [done|]. pose proof (resolve_joined_inv o i _ _ Hne (Hrefs eq_refl)) as Hr. cbn.
    clear -Hr. induction Hr as [|r r' l l' [Hr _] _ IH]; [done|]. cbn. by rewrite Hr, IH.
  - rewrite Houts. unfold query_rows. rewrite Eo, Hj, Ei. by eapply turns_join_rows.
Qed.

End Run.

(** ** The contract *)

Section Contract.
Context {W : Type} `{HL : StorageLaws W} (c : Catalog).

(** A query the planner accepts is answered, up to order, with the columns
    asked for and the rows of the reference; the tables stay. *)
Definition select_effect (T : contents) (stmt : SelectStatement) (o : outcome ExecuteResult) (T' : contents) : Prop :=
  match PlanSelect c stmt with
  | Ret _ => exists out, o = Ret (mkResult out (query_columns c stmt) 0) /\ out ≡ₚ query_rows c T stmt
  | _ => o = Throw SqlSemanticError
  end /\ T' = T.

Lemma ExecuteSelect_run w T n stmt :
  database c w T n -> exists o w' T', ExecuteSelect c stmt w = (o, w') /\ select_effect T stmt o T' /\ database c w' T' n.
Proof.
  unfold select_effect. intros Hdb. pose proof Hdb as [Hc (d & Hh & HT)]. pose proof (PlanSelect_checked c stmt) as Hchk.
  destruct (PlanSelect c stmt) as [plan|[]| |] eqn:Hplan; try done.
  2: { exists (Throw SqlSemanticError), w, T. split; [unfold ExecuteSelect; by rewrite Hplan|done]. }
  destruct (se_join stmt) as [j|] eqn:Hj.
  - destruct (select_join_run c Hc w d n stmt plan j T Hh HT Hj Hplan) as (w' & out & H1 & Hh' & Hp).
    eexists _, w', T. split; [exact H1|]. split; [split; [|reflexivity]; eauto|split; eauto].
  - destruct (plan_single c stmt plan Hj Hplan) as (t & _ & Et & _). destruct (FindTable_Some _ _ _ Et) as [Ht _]. destruct (HT t Ht) as [Hs _].
    destruct (select_single_run c Hc w d n stmt plan t _ Hh Hs Ht Hj Et Hplan) as (w' & out & H1 & Hh' & Hp).
    eexists _, w', T. split; [exact H1|]. split; [split; [|reflexivity]|split; eauto]. exists out. unfold query_rows. by rewrite Et, Hj.
Qed.

(** C19: SELECT answers the query. When the planner accepts the statement, the
    executor returns the columns asked for and, up to order, exactly the rows
    of the reference semantics: the filtered projection of the table, or the
    nested loop over both tables that keeps the pairs satisfying the ON and
    WHERE clauses, whether the plan scans or probes an index, on either side.
    Otherwise it reports a semantic error. The tables are as before. *)
Theorem ExecuteSelect_returns (w : W) (T : contents) (n : nat) (stmt : SelectStatement) :
  database c w T n -> exists o w' T', ExecuteSelect c stmt w = (o, w') /\ select_effect T stmt o T' /\ database c w' T' n.
Proof. apply ExecuteSelect_run. Qed.

End Contract.
