(* ===== verification/WorldStorage.v ===== *)
(** * WorldStorage: heap files and B+ trees under the executor

    The real storage as an instance of [Storage]: every operation runs on the
    registered object of its id. The laws follow from the contracts of heap
    files and B+ trees, each of which only looks at its own pool. *)
From S2P Require Import Prelude Config DiskManager BufferPool HeapFile BTreeNode BTree BTreeSpec BTreeReads BTreeInsert BTreeDelete BTreeContract.
From S2P Require Import TransactionManager Storage.
Import HeapFile BTreeNode BTreeSpec.

Section World.
Context (th : ThreadId) (frames : nat).

(** What else the caller wants kept: anything storage operations keep. *)
Definition kept_by_storage (I : World -> Prop) : Prop := forall oid o v w,
  I w -> buffer_pools_ w !! oid = Some o -> frame (view_of th o w) v -> pool_wf (v_pool v) -> I (put_view oid v w).

Context (I : World -> Prop) (HI : kept_by_storage I).

(** Each operation on the object of its id; [frames] is the stack left. *)
#[local] Instance world_storage : Storage World := {
  heap_Scan h := on_pool th h (HeapFile.Scan h);
  heap_GetRow h rid := on_pool th h (HeapFile.GetRow h rid);
  heap_Insert h row := on_pool th h (HeapFile.Insert h row);
  heap_Delete h rid := on_pool th h (HeapFile.Delete h rid);
  tree_Search t key := on_pool th t (BTree.Search t key);
  tree_Insert t key rid := on_pool th t (BTree.Insert t frames key rid);
  tree_Delete t key rid := on_pool th t (BTree.Delete t frames key rid)
}.

(** ** One object *)

Abbreviation object := (BufferPool * list PageId)%type.

(** The object by itself. *)
Definition alone (o : object) : View := mkView o.1 o.2 ∅ empty_lm None 0.

(** Room for [n] insertions: each takes at most seven new pages. *)
Definition room (o : object) (n : nat) : Prop := BTreeReads.next (alone o) + 7 * Z.of_nat n < 2 ^ 32.

Record heap_object (o : object) (rows : list (RID * bytes)) : Prop := mkHeapObject {
  ho_wf : heap_wf (alone o);
  ho_rows : heap_rows (alone o) = rows
}.

Definition tree_object (o : object) (es : list entry) : Prop := btree (alone o) es.

(** No other transaction's lock is in the way. *)
Definition calm (w : World) : Prop := forall o, uncontended (view_of th o w).

Record stores (w : World) (d : Data) (n : nat) : Prop := mkStores {
  st_calm : calm w;
  st_room oid o : buffer_pools_ w !! oid = Some o -> room o n;
  st_heap h rows : heaps d !! h = Some rows -> exists o, buffer_pools_ w !! h = Some o /\ heap_object o rows;
  st_tree t es : trees d !! t = Some es -> exists o, buffer_pools_ w !! t = Some o /\ tree_object o es;
  st_apart h rows : heaps d !! h = Some rows -> trees d !! h = None
}.

(** Heap files and trees only look at their own pool. *)
Lemma heap_wf_alone v : heap_wf v <-> heap_wf (alone (v_pool v, v_page_ids v)).
Proof. split; intros [H1 H2 H3]; split; assumption. Qed.

Lemma btree_alone v es : btree v es <-> btree (alone (v_pool v, v_page_ids v)) es.
Proof. split; intros [H1 H2]; split; assumption. Qed.

Lemma view_object o w : (v_pool (view_of th o w), v_page_ids (view_of th o w)) = o.
Proof. by destruct o. Qed.

Lemma heap_object_view o w rows : heap_object o rows -> heap_wf (view_of th o w) /\ heap_rows (view_of th o w) = rows.
Proof. intros [H1 H2]. split; [|exact H2]. apply (proj2 (heap_wf_alone _)). by rewrite view_object. Qed.

Lemma tree_object_view o w es : tree_object o es -> btree (view_of th o w) es.
Proof. intros H. apply (proj2 (btree_alone _ _)). by rewrite view_object. Qed.

Lemma room_view o w n : room o n -> BTreeReads.next (view_of th o w) + 7 * Z.of_nat n < 2 ^ 32.
Proof. intros H. exact H. Qed.

Lemma room_of v n : BTreeReads.next v + 7 * Z.of_nat n < 2 ^ 32 -> room (v_pool v, v_page_ids v) n.
Proof. intros H. exact H. Qed.

Lemma heap_object_of v : heap_wf v -> heap_object (v_pool v, v_page_ids v) (heap_rows v).
Proof. intros H1. split; [by apply (proj1 (heap_wf_alone v))|reflexivity]. Qed.

Lemma tree_object_of v es : btree v es -> tree_object (v_pool v, v_page_ids v) es.
Proof. intros H1. by apply (proj1 (btree_alone v es)). Qed.

Lemma calm_view o w : calm w -> uncontended (view_of th o w).
Proof. intros H. apply H. Qed.

Lemma room_le o n m : room o n -> (m <= n)%nat -> room o m.
Proof. unfold room. lia. Qed.

(** ** All objects *)

Lemma stores_le w d n m : stores w d n -> (m <= n)%nat -> stores w d m.
Proof. intros [H1 H2 H3 H4 H5] Hle. split; [done| |done..]. intros oid o Ho. by eapply room_le; [eapply H2|]. Qed.

Lemma calm_put oid o v w : calm w -> frame (view_of th o w) v -> calm (put_view oid v w).
Proof.
  intros Hc Hf o'. pose proof (fr_uncontended _ _ Hf (Hc o)) as Hu. unfold uncontended, view_of, put_view in *. cbn in *.
  rewrite (fr_current _ _ Hf) in Hu. exact Hu.
Qed.

Lemma room_put w d n m oid v : stores w d n -> (m <= n)%nat -> room (v_pool v, v_page_ids v) m ->
  forall oid' o', buffer_pools_ (put_view oid v w) !! oid' = Some o' -> room o' m.
Proof.
  intros Hs Hle Hr oid' o'. cbn. rewrite lookup_insert_Some. intros [[<- <-]|[_ Ho]]; [done|]. by eapply room_le; [eapply st_room|].
Qed.

(** What an operation on one object leaves behind. *)
Lemma stores_put_heap w d n m h o rows v rows' :
  stores w d n -> (m <= n)%nat -> heaps d !! h = Some rows -> buffer_pools_ w !! h = Some o -> frame (view_of th o w) v ->
  heap_object (v_pool v, v_page_ids v) rows' -> room (v_pool v, v_page_ids v) m -> stores (put_view h v w) (set_heap h rows' d) m.
Proof.
  intros Hs Hle Hh Ho Hf Hobj Hroom. pose proof (room_put w d n m h v Hs Hle Hroom) as Hr'.
  pose proof Hs as [H1 _ H2 H3 H4]. split; [by eapply calm_put|exact Hr'|..]; cbn.
  - intros h' r Hr. destruct (decide (h' = h)) as [->|Hne].
    + rewrite lookup_insert_eq in Hr. rewrite lookup_insert_eq. injection Hr as <-. eauto.
    + rewrite lookup_insert_ne in Hr by done. rewrite lookup_insert_ne by done. by apply H2.
  - intros t es Ht. rewrite lookup_insert_ne; [by apply H3|]. intros ->. rewrite (H4 _ _ Hh) in Ht. done.
  - intros h' r Hr. destruct (decide (h' = h)) as [->|Hne]; [by eapply H4|]. rewrite lookup_insert_ne in Hr by done. by eapply H4.
Qed.

Lemma stores_put_tree w d n m t o es v es' :
  stores w d n -> (m <= n)%nat -> trees d !! t = Some es -> buffer_pools_ w !! t = Some o -> frame (view_of th o w) v ->
  tree_object (v_pool v, v_page_ids v) es' -> room (v_pool v, v_page_ids v) m -> stores (put_view t v w) (set_tree t es' d) m.
Proof.
  intros Hs Hle Ht Ho Hf Hobj Hroom. pose proof (room_put w d n m t v Hs Hle Hroom) as Hr'.
  pose proof Hs as [H1 _ H2 H3 H4]. split; [by eapply calm_put|exact Hr'|..]; cbn.
  - intros h rows Hh. rewrite lookup_insert_ne; [by apply H2|]. intros ->. rewrite (H4 _ _ Hh) in Ht. done.
  - intros t' e He. destruct (decide (t' = t)) as [->|Hne].
    + rewrite lookup_insert_eq in He. rewrite lookup_insert_eq. injection He as <-. eauto.
    + rewrite lookup_insert_ne in He by done. rewrite lookup_insert_ne by done. by apply H3.
  - intros h rows Hh. destruct (decide (h = t)) as [->|Hne]; [rewrite (H4 _ _ Hh) in Ht; done|]. rewrite lookup_insert_ne by done. by eapply H4.
Qed.

Lemma set_heap_same h rows d : heaps d !! h = Some rows -> set_heap h rows d = d.
Proof. intros H. destruct d. unfold set_heap. cbn in *. by rewrite insert_id. Qed.

Lemma set_tree_same t es d : trees d !! t = Some es -> set_tree t es d = d.
Proof. intros H. destruct d. unfold set_tree. cbn in *. by rewrite insert_id. Qed.

(** The tables, and what the caller wants kept. *)
Definition held (w : World) (d : Data) (n : nat) : Prop := stores w d n /\ I w.

Lemma held_le w d n m : held w d n -> (m <= n)%nat -> held w d m.
Proof. intros [H1 H2] H. split; [by eapply stores_le|done]. Qed.

(** Running [m] on the heap of [h], and on the tree of [t]. *)
Lemma heap_step {A} w d n m h rows (op : M View A) (r : outcome A) (rows' : list (RID * bytes)) (v : View) o :
  held w d n -> (m <= n)%nat -> heaps d !! h = Some rows -> buffer_pools_ w !! h = Some o -> op (view_of th o w) = (r, v) ->
  frame (view_of th o w) v -> heap_wf v -> heap_rows v = rows' -> BTreeReads.next v + 7 * Z.of_nat m < 2 ^ 32 ->
  exists w', on_pool th h op w = (r, w') /\ held w' (set_heap h rows' d) m.
Proof.
  intros [H1 H2] Hle Hh Ho E Hf Hwf <- Hn. exists (put_view h v w). split; [by eapply on_pool_run|]. split.
  - eapply stores_put_heap; [done..|by apply heap_object_of|exact Hn].
  - eapply HI; [done..|apply Hwf].
Qed.

Lemma tree_step {A} w d n m t es (op : M View A) (r : outcome A) es' (v : View) o :
  held w d n -> (m <= n)%nat -> trees d !! t = Some es -> buffer_pools_ w !! t = Some o -> op (view_of th o w) = (r, v) ->
  frame (view_of th o w) v -> btree v es' -> BTreeReads.next v + 7 * Z.of_nat m < 2 ^ 32 ->
  exists w', on_pool th t op w = (r, w') /\ held w' (set_tree t es' d) m.
Proof.
  intros [H1 H2] Hle Ht Ho E Hf Hb Hn. exists (put_view t v w). split; [by eapply on_pool_run|]. split.
  - eapply stores_put_tree; [done..|by apply tree_object_of|exact Hn].
  - eapply HI; [done..|apply Hb].
Qed.

(** What there is to know about the object an operation runs on. *)
Lemma heap_at w d n h rows : held w d n -> heaps d !! h = Some rows -> exists o, buffer_pools_ w !! h = Some o /\
  heap_wf (view_of th o w) /\ heap_rows (view_of th o w) = rows /\ uncontended (view_of th o w) /\ BTreeReads.next (view_of th o w) + 7 * Z.of_nat n < 2 ^ 32.
Proof.
  intros [Hs _] Hh. destruct (st_heap _ _ _ Hs h rows Hh) as (o & Ho & Hobj). exists o.
  destruct (heap_object_view o w rows Hobj). split_and!; [done..|apply Hs|by eapply room_view, st_room].
Qed.

Lemma tree_at w d n t es : held w d n -> trees d !! t = Some es -> exists o, buffer_pools_ w !! t = Some o /\
  btree (view_of th o w) es /\ uncontended (view_of th o w) /\ BTreeReads.next (view_of th o w) + 7 * Z.of_nat n < 2 ^ 32.
Proof.
  intros [Hs _] Ht. destruct (st_tree _ _ _ Hs t es Ht) as (o & Ho & Hobj). exists o.
  split_and!; [done|by apply tree_object_view|apply Hs|by eapply room_view, st_room].
Qed.

Lemma heap_read {A} w d n h rows (m : M View A) (r : outcome A) :
  held w d n -> heaps d !! h = Some rows ->
  (forall v, heap_wf v -> uncontended v -> heap_rows v = rows -> exists v', m v = (r, v') /\ reads v v') ->
  exists w', on_pool th h m w = (r, w') /\ held w' d n.
Proof.
  intros Hs Hh Hm. destruct (heap_at _ _ _ _ _ Hs Hh) as (o & Ho & H1 & H2 & Hu & Hn). destruct (Hm _ H1 Hu H2) as (v & E & Hr).
  rewrite <- (set_heap_same h rows d) by done. eapply heap_step; [done..|apply Hr|by eapply reads_wf|by rewrite (reads_rows _ _ Hr)|].
  unfold BTreeReads.next in *. by rewrite (rd_next _ _ Hr).
Qed.

(** ** The laws *)

Lemma rids_ok v : heap_wf v -> Forall rid_ok (heap_rows v).*1.
Proof.
  intros Hwf. apply Forall_forall. intros rid ([r row] & -> & Hin)%list_elem_of_fmap. cbn. apply elem_of_heap_rows in Hin as [Hp Hin].
  destruct (hw_pages _ Hwf _ Hp) as (p & Hm & Hpg). unfold rows_at in Hin. rewrite Hm in Hin. apply elem_of_page_rows in Hin as (_ & Hs & _).
  pose proof (heap_page_count p Hpg). destruct (mem_page_facts _ _ _ (hw_pool _ Hwf) Hm) as [Hpid _].
  pose proof (dw_bound _ (pw_disk _ (hw_pool _ Hwf))). split; [unfold u32_ok; lia|lia].
Qed.

Lemma world_holds_rows w d n h rows :
  held w d n -> heaps d !! h = Some rows -> NoDup rows.*1 /\ Forall rid_ok rows.*1.
Proof.
  intros [Hs _] Hh. destruct (st_heap _ _ _ Hs h rows Hh) as (o & _ & [Hwf <-]). split; [apply heap_rows_NoDup, hw_nodup, Hwf|by apply rids_ok].
Qed.

Lemma world_Scan w d n h rows :
  held w d n -> heaps d !! h = Some rows -> exists w', heap_Scan h w = (Ret rows, w') /\ held w' d n.
Proof. intros Hs Hh. eapply heap_read; [done..|]. intros v Hwf Hu <-. by apply Scan_run. Qed.

Lemma world_GetRow w d n h rows rid :
  held w d n -> heaps d !! h = Some rows -> rid_ok rid ->
  exists w', heap_GetRow h rid w = (Ret ((list_to_map rows : gmap RID bytes) !! rid), w') /\ held w' d n.
Proof. intros Hs Hh [_ [Hr _]]. eapply heap_read; [done..|]. intros v Hwf Hu <-. by apply GetRow_run. Qed.

Lemma world_Insert_large w d n h rows row :
  held w d n -> heaps d !! h = Some rows -> HeapFile.kMaxRowSize < zlen row -> heap_Insert h row w = (Throw InvalidArgument, w).
Proof.
  intros Hs Hh Hsz. destruct (heap_at _ _ _ _ _ Hs Hh) as (o & Ho & _). cbn. unfold on_pool. rewrite Ho. unfold HeapFile.Insert.
  rewrite (proj2 (Z.ltb_lt _ _) Hsz). cbn. by rewrite put_view_of.
Qed.

Lemma world_Insert w d n h rows row :
  held w d (S n) -> heaps d !! h = Some rows -> zlen row <= HeapFile.kMaxRowSize ->
  exists rid w', heap_Insert h row w = (Ret rid, w') /\ held w' (set_heap h (rows ++ [(rid, row)]) d) n.
Proof.
  intros Hs Hh Hsz. destruct (heap_at _ _ _ _ _ Hs Hh) as (o & Ho & H1 & H2 & Hu & Hn).
  destruct (Insert_run h row _ H1 Hu Hsz) as (rid & v & E & Hf & Hwf & Hr & Hnx); [unfold BTreeReads.next in Hn; lia|]. rewrite H2 in Hr.
  exists rid. eapply (heap_step _ _ _ n); [done|lia|done..|]. unfold BTreeReads.next in *. lia.
Qed.

Lemma world_Delete w d n h rows rid :
  held w d n -> heaps d !! h = Some rows -> rid_ok rid ->
  exists w', heap_Delete h rid w = (Ret (bool_decide (rid ∈ rows.*1)), w') /\ held w' (set_heap h (filter (other_row rid) rows) d) n.
Proof.
  intros Hs Hh [_ [Hrid _]]. destruct (heap_at _ _ _ _ _ Hs Hh) as (o & Ho & H1 & H2 & Hu & Hn).
  destruct (Delete_run h rid _ H1 Hu Hrid) as (v & E & Hf & Hwf & Hr & Hnx). rewrite H2 in E, Hr.
  eapply heap_step; [done..|]. unfold BTreeReads.next in *. lia.
Qed.

Lemma peek_btree v v' es : BTreeReads.peek v v' -> btree v es -> btree v' es.
Proof.
  intros Hp [Hwf (hp & root & H)]. split; [by apply Hp|]. exists hp, root. rewrite (BTreeReads.pk_mem _ _ Hp).
  destruct H as (? & ? & [?|(h & S & f & ? & ?)]); split_and!; try done; [by left|].
  right. exists h, S, f. split; [|done]. by eapply BTreeReads.peek_subtree.
Qed.

Lemma world_Search w d n t es key :
  held w d n -> trees d !! t = Some es -> exists w', tree_Search t key w = (Ret (search_entries key es), w') /\ held w' d n.
Proof.
  intros Hs Ht. destruct (tree_at _ _ _ _ _ Hs Ht) as (o & Ho & Hb & Hu & Hn). destruct (BTreeReads.Search_run t key _ es Hb Hu) as (v & E & Hp).
  rewrite <- (set_tree_same t es d) by done. eapply tree_step; [done..|apply Hp|by eapply peek_btree|by rewrite (BTreeReads.pk_next _ _ Hp)].
Qed.

Lemma world_tree_Insert w d n t es key rid :
  (6 <= frames)%nat -> held w d (S n) -> trees d !! t = Some es -> entry_ok (key, rid) ->
  (forall k, key_count k (insert_entry key rid es) <= kLeafMaxKeys) ->
  exists w', tree_Insert t key rid w = (Ret tt, w') /\ held w' (set_tree t (insert_entry key rid es) d) n.
Proof.
  intros Hfr Hs Ht He Hd. destruct (tree_at _ _ _ _ _ Hs Ht) as (o & Ho & Hb & Hu & Hn).
  destruct (BTreeInsert.tree_Insert_run t frames key rid _ es Hb Hu He Hfr) as (v & E & Hst & Hnx & Hb'); [lia|done|].
  eapply (tree_step _ _ _ n); [done|lia|done..|apply Hst|done|lia].
Qed.

Lemma world_tree_Delete w d n t es key rid :
  (6 <= frames)%nat -> held w d n -> trees d !! t = Some es ->
  exists w', tree_Delete t key rid w = (Ret (bool_decide ((key, rid) ∈ es)), w') /\ held w' (set_tree t (delete_entry key rid es) d) n.
Proof.
  intros Hfr Hs Ht. destruct (tree_at _ _ _ _ _ Hs Ht) as (o & Ho & Hb & Hu & Hn).
  destruct (BTreeDelete.tree_Delete_run t frames key rid _ es Hb Hu Hfr) as (v & E & Hst & Hnx & Hb').
  eapply tree_step; [done..|apply Hst|done|lia].
Qed.

(** Heap files and B+ trees keep the promises the executor relies on. *)
Lemma world_storage_laws : (6 <= frames)%nat -> StorageLaws World.
Proof.
  intros Hfr. exact {|
    holds := held; holds_le := held_le; holds_rows := world_holds_rows; Scan_law := world_Scan; GetRow_law := world_GetRow;
    Insert_large_law := world_Insert_large; Insert_law := world_Insert; Delete_law := world_Delete; Search_law := world_Search;
    tree_Insert_law := fun w d n t es key rid => world_tree_Insert w d n t es key rid Hfr;
    tree_Delete_law := fun w d n t es key rid => world_tree_Delete w d n t es key rid Hfr |}.
Defined.

End World.
