(* ===== verification/People.v ===== *)
(** * People: the statements on a concrete database

    The schema [people] of Catalog on fresh heap and index files, empty and
    with two rows, and each statement run on it: the contracts of INSERT,
    DELETE, UPDATE and SELECT hold of real storage. *)
From stdpp Require Import functions.
From S2P Require Import Prelude Config DiskManager HeapFile BTreeSpec BTreeContract TransactionManager TxnSystem Storage Text Catalog Ast RowCodec Planner.
From S2P Require Import Executor Query Tables Statements Update Select WorldStorage.

(** Thread 0, with the six stack frames a tree needs. *)
#[local] Instance people_storage : Storage World := world_storage 0 6.
#[local] Instance people_laws : StorageLaws World := world_storage_laws 0 6 (fun _ => True) (fun _ _ _ _ _ _ _ _ => Logic.I) (le_n 6).

Definition person (id : Z) (name : String.string) (age : Z) : list LiteralValue := [int_literal id; string_literal (str name); int_literal age].

Definition people_table : TableInfo := mkTable (str "people") people_columns (Some (str "id")) 0.

(** A fresh heap file and two fresh indexes. *)
Definition people_world : World :=
  let heap := (v_pool HeapFile.empty_view, []) in let tree := (v_pool BTreeContract.fresh_index, []) in
  set_buffer_pools (<[0 := heap]> (<[1 := tree]> (<[2 := tree]> ∅))) new_world.

Lemma fresh_tree : tree_object (v_pool BTreeContract.fresh_index, []) [].
Proof. by destruct BTreeContract.fresh_index_ok as ([H1 H2] & _). Qed.

Lemma fresh_heap : heap_object (v_pool HeapFile.empty_view, []) [].
Proof. split; [apply HeapFile.empty_view_wf|done]. Qed.

Lemma people_In : people_table ∈ tables_ people.
Proof. by left. Qed.

Lemma people_tables t : t ∈ tables_ people -> t = people_table.
Proof. intros [->|[]%elem_of_nil]%elem_of_cons. done. Qed.

Lemma people_empty n : 1 + 7 * Z.of_nat n < 2 ^ 32 -> database people people_world (fun _ => []) n.
Proof.
  intros Hn. split; [apply people_ok|]. exists (mkData {[0 := []]} (<[1 := []]> {[2 := []]})). split.
  - split; [split|done].
    + intros o. done.
    + assert (BTreeReads.BTreeReads.next BTreeContract.fresh_index = 1) as Hnx by apply BTreeContract.fresh_index_ok.
      intros oid o Ho. cbn in Ho. rewrite !lookup_insert_Some, lookup_empty in Ho.
      destruct Ho as [[_ <-]|[_ [[_ <-]|[_ [[_ <-]|[_ Ho]]]]]]; [change (0 + 7 * Z.of_nat n < 2 ^ 32); lia|..|done];
        change (BTreeReads.BTreeReads.next BTreeContract.fresh_index + 7 * Z.of_nat n < 2 ^ 32); lia.
    + intros h rows Hr. cbn in Hr. apply lookup_singleton_Some in Hr as [<- <-]. eexists. split; [reflexivity|]. apply fresh_heap.
    + intros t es Ht. cbn in Ht. apply lookup_insert_Some in Ht as [[<- <-]|[_ [<- <-]%lookup_singleton_Some]]; (eexists; split; [reflexivity|]); apply fresh_tree.
    + intros h rows Hr. cbn in Hr. apply lookup_singleton_Some in Hr as [<- <-]. reflexivity.
  - intros t ->%people_tables. split; [|constructor]. split; [reflexivity|constructor|]. intros i Hi.
    assert (ix_object_id i = 1 \/ ix_object_id i = 2) as [->| ->]; [|by exists []..].
    apply elem_of_cons in Hi as [->|[->|[]%elem_of_nil]%elem_of_cons]; [left|right]; reflexivity.
Qed.

(** A small table never exceeds what a leaf holds of one key. *)
Lemma dups_small c t vals : zlen vals <= BTreeNode.BTreeNode.kLeafMaxKeys -> dups_ok c t vals.
Proof.
  intros H i k _. unfold key_uses, zlen in *. pose proof (length_filter (fun values => col_key t (ix_column_name i) values = k) vals). lia.
Qed.

Definition ann : list LiteralValue := person 1 "ann" 30.
Definition bob : list LiteralValue := person 2 "bob" 41.

(** Two rows, put in one after the other. *)
Lemma two_people n : 50 + 7 * Z.of_nat n < 2 ^ 32 -> exists w r1 r2 T, database people w T n /\ T (str "people") = [(r1, ann); (r2, bob)].
Proof.
  intros Hn. destruct (people_empty (3 + (3 + n))) as [Hc (d & Hh & HT)]; [lia|]. destruct (HT _ people_In) as [Hs Hpk].
  destruct (add_row_run people Hc people_table people_In people_world d (3 + n) [] ann Hh Hs) as (r1 & w1 & w2 & d2 & _ & _ & Hh2 & Hs2 & Ht2);
    [by apply (bool_decide_unpack _); vm_compute|by vm_compute|by apply dups_small|].
  destruct (add_row_run people Hc people_table people_In w2 d2 n [(r1, ann)] bob Hh2 Hs2) as (r2 & w3 & w4 & d4 & _ & _ & Hh4 & Hs4 & Ht4);
    [by apply (bool_decide_unpack _); vm_compute|by vm_compute|by apply dups_small|].
  exists w4, r1, r2, (<[tb_name people_table := [(r1, ann); (r2, bob)]]> (fun _ => [])). split; [|apply fn_lookup_insert].
  split; [done|]. exists d4. split; [done|]. eapply tables_update; [done|apply people_In|etrans; [exact Ht2|exact Ht4]|done|done|].
  by apply (bool_decide_unpack _); vm_compute.
Qed.

Lemma literals_wf l : Forall (fun v => literal_ok ColumnType.kInteger v \/ literal_ok ColumnType.kText v) l -> Forall literal_wf l.
Proof. intros H. eapply Forall_impl; [exact H|]. intros v [Hv|Hv]; eexists; exact Hv. Qed.

(** INSERT INTO people VALUES (1, 'ann', 30). *)
Lemma ExecuteInsert_appends_witness :
  exists w' rid, ExecuteInsert people (mkInsert (str "people") ann) people_world = (Ret (mkResult [] [] 1), w') /\
    database people w' (<[str "people" := [(rid, ann)]]> (fun _ => [])) 5.
Proof.
  destruct (ExecuteInsert_appends people people_world (fun _ => []) 5 (mkInsert (str "people") ann)) as (o & w' & T' & H1 & H2 & H3).
  - by apply literals_wf, (bool_decide_unpack _); vm_compute.
  - exact (dups_small people people_table [ann] ltac:(by vm_compute)).
  - apply (people_empty (3 + 5)). vm_compute. reflexivity.
  - unfold insert_effect in H2. change (FindTable people _) with (Some people_table) in H2. cbv iota zeta in H2.
    rewrite decide_True in H2 by (split_and!; [by apply (bool_decide_unpack _); vm_compute..|by vm_compute]).
    destruct H2 as (-> & rid & _ & ->). exists w', rid. split; [exact H1|exact H3].
Defined.

Definition where_id_1 : DeleteStatement := mkDelete (str "people") [mkPredicate (mkColumnRef None (str "id")) Comparator.kEq (int_literal 1)].

(** DELETE FROM people WHERE id = 1. *)
Lemma ExecuteDelete_removes_witness :
  exists w T w' r2, database people w T 5 /\ ExecuteDelete people where_id_1 w = (Ret (mkResult [] [] 1), w') /\
    database people w' (<[str "people" := [(r2, bob)]]> T) 5.
Proof.
  destruct (two_people 5 ltac:(vm_compute; reflexivity)) as (w & r1 & r2 & T & Hd & HT).
  destruct (ExecuteDelete_removes people w T 5 where_id_1 Hd) as (o & w' & T' & H1 & H2 & H3).
  unfold delete_effect in H2. change (FindTable people _) with (Some people_table) in H2. cbv iota zeta in H2.
  change (tb_name people_table) with (str "people") in H2. rewrite HT in H2. destruct H2 as [_ H2].
  destruct H2 as [-> ->]; [by repeat constructor|]. exists w, T, w', r2. split; [exact Hd|]. split; [exact H1|exact H3].
Defined.

Definition set_id_7 : UpdateStatement :=
  mkUpdate (str "people") [mkAssignment (str "id") (int_literal 7); mkAssignment (str "age") (int_literal 42)]
    [mkPredicate (mkColumnRef None (str "age")) Comparator.kGe (int_literal 40)].

(** UPDATE people SET id = 7, age = 42 WHERE age >= 40. *)
Lemma ExecuteUpdate_atomic_witness :
  exists w T w' r1 r, database people w T 8 /\ ExecuteUpdate people set_id_7 w = (Ret (mkResult [] [] 1), w') /\
    database people w' (<[str "people" := [(r1, ann); (r, person 7 "bob" 42)]]> T) 5.
Proof.
  destruct (two_people 8 ltac:(vm_compute; reflexivity)) as (w & r1 & r2 & T & Hd & HT).
  assert (FindTable people (up_table_name set_id_7) = Some people_table) as Et by reflexivity.
  assert (T (tb_name people_table) = [(r1, ann); (r2, bob)]) as HT' by exact HT.
  destruct (ExecuteUpdate_atomic people w T 5 set_id_7) as (o & w' & T' & H1 & H2 & H3).
  - by apply literals_wf, (bool_decide_unpack _); vm_compute.
  - unfold update_dups. rewrite Et, HT'. by apply dups_small.
  - unfold update_room. rewrite Et, HT'. exact Hd.
  - unfold update_effect in H2. rewrite Et in H2. cbv zeta in H2. rewrite HT' in H2. destruct H2 as [_ H2].
    specialize (H2 ltac:(by repeat (apply Forall_cons; split; [eexists; split; reflexivity|])) ltac:(by repeat constructor)).
    rewrite decide_True in H2 by (split; [repeat constructor; by vm_compute|by apply (bool_decide_unpack _); vm_compute]).
    destruct H2 as (-> & moved & Hm & ->).
    change (moved.*2 ≡ₚ [person 7 "bob" 42]) in Hm. apply Permutation_singleton_r in Hm. destruct moved as [|[r v] [|]]; try discriminate Hm.
    cbn in Hm. injection Hm as ->. exists w, T, w', r1, r. split; [exact Hd|]. split; [exact H1|exact H3].
Defined.

Definition select_young : SelectStatement :=
  mkSelect false [mkColumnRef None (str "name"); mkColumnRef None (str "age")] (str "people") None
    [mkPredicate (mkColumnRef None (str "age")) Comparator.kLt (int_literal 40)].

(** SELECT name, age FROM people WHERE age < 40. *)
Lemma ExecuteSelect_returns_witness :
  exists w w', ExecuteSelect people select_young w = (Ret (mkResult [[string_literal (str "ann"); int_literal 30]] [str "name"; str "age"] 0), w').
Proof.
  destruct (two_people 8 ltac:(vm_compute; reflexivity)) as (w & r1 & r2 & T & Hd & HT). exists w.
  destruct (ExecuteSelect_returns people w T 8 select_young Hd) as (o & w' & T' & H1 & [H2 _] & _). exists w'.
  destruct (PlanSelect people _) as [plan| | |] eqn:E; [|exfalso; vm_compute in E; discriminate E..].
  destruct H2 as (out & -> & H2). assert (query_rows people T select_young = select_rows people_table select_young [(r1, ann); (r2, bob)]) as E2.
  { unfold query_rows. change (FindTable people (se_from_table select_young)) with (Some people_table).
    cbv iota. change (tb_name people_table) with (str "people"). by rewrite HT. }
  rewrite E2 in H2. apply Permutation_singleton_r in H2 as ->. exact H1.
Defined.
