(* ===== verification/Database.v ===== *)
(** * Database: the facade over catalog, log and objects ([src/db/database.{h,cpp}])

    A [Database] is the catalog with its directory, the world of the
    transaction manager (log, locks, every open object's pool) and what each
    object is. The file [obj_<id>.dat] is known by its id. Methods take the
    calling thread as a parameter. *)
From S2P Require Import Prelude Config DiskManager BufferPool HeapFile BTreeNode BTree LogManager Recovery TransactionManager.
From S2P Require Import Text Catalog.

(** ** Data *)

(** Which of [heap_file] and [btree] an [ObjectStorage] has. *)
Inductive ObjectKind := kHeap | kIndex.

#[global] Instance ObjectKind_eq_dec : EqDecision ObjectKind.
Proof. solve_decision. Defined.

(** The files of a database directory: [catalog.meta] and its temporary file,
    [wal.log], and the object files by id. *)
Record Files := mkFiles {
  f_catalog : Dir;
  f_wal : bytes;
  f_objects : gmap ObjectId bytes
}.

(** [unopened] are the object files no [DiskManager] has open. *)
Record Database := mkDatabase {
  store : Store;
  world : World;
  objects_ : gmap ObjectId ObjectKind;
  unopened : gmap ObjectId bytes
}.

Definition GetCatalog (db : Database) : Catalog := catalog_ (store db).

Definition on_catalog {A} (m : M Store A) : M Database A := fun db =>
  let '(o, s) := m (store db) in (o, mkDatabase s (world db) (objects_ db) (unopened db)).

Definition on_world {A} (m : M World A) : M Database A := fun db =>
  let '(o, w) := m (world db) in (o, mkDatabase (store db) w (objects_ db) (unopened db)).

(** [std::make_unique<DiskManager>(path)]: an absent file is created empty. *)
Definition open_file (files : gmap ObjectId bytes) (object_id : ObjectId) : outcome DiskManager :=
  OpenDiskManager (default [] (files !! object_id)).

Definition create_file (object_id : ObjectId) : M Database DiskManager := fun db =>
  (open_file (unopened db) object_id, mkDatabase (store db) (world db) (objects_ db) (delete object_id (unopened db))).

(** The [disk_managers] of the constructor. *)
Fixpoint open_files (files : gmap ObjectId bytes) (ids : list ObjectId) : outcome disks :=
  match ids with
  | [] => Ret ∅
  | id :: ids' => d ← open_file files id; ds ← open_files files ids'; Ret (<[id := d]> ds)
  end.

Section Operations.
Context (th : ThreadId).

(** A fresh buffer pool, and the constructor of the heap file or tree on it. *)
Definition construct (open : M View unit) (d : DiskManager) : M World (BufferPool * list PageId) := fun w =>
  let '(r, v) := open (view_of th (mkPool d ∅ ∅ ∅, []) w) in
  (r ≫= fun _ => Ret (v_pool v, v_page_ids v),
   mkWorld (log_manager_ w) (v_locks v) (buffer_pools_ w) (v_txns v) (next_txn_id_ w) (current_txn w)).

Definition attach (k : ObjectKind) (open : M View unit) (object_id : ObjectId) (d : DiskManager) : M Database unit :=
  o ← on_world (construct open d);
  on_world (RegisterObject object_id o);;
  modify (fun db => mkDatabase (store db) (world db) (<[object_id := default k (objects_ db !! object_id)]> (objects_ db)) (unopened db)).

Definition AttachHeapStorage : ObjectId -> DiskManager -> M Database unit := attach kHeap HeapFile.Open.
Definition AttachIndexStorage : ObjectId -> DiskManager -> M Database unit := attach kIndex BTree.Open.

(** [disk_managers.at(object_id)]. *)
Definition disk_at (ds : disks) (object_id : ObjectId) : outcome DiskManager :=
  match ds !! object_id with Some d => Ret d | None => Throw OutOfRange end.

(** Phase 2 of the constructor. *)
Definition attach_all (c : Catalog) (ds : disks) : M Database unit :=
  for_each (fun t => d ← lift (disk_at ds (tb_heap_object_id t)); AttachHeapStorage (tb_heap_object_id t) d) (tables_ c);;
  for_each (fun i => d ← lift (disk_at ds (ix_object_id i)); AttachIndexStorage (ix_object_id i) d) (indexes_ c).

(** The constructor; [mkdir_ok] is what creating the directory answers. *)
Definition OpenDatabase (mkdir_ok : bool) (dir_path : bytes) (fs : Files) : outcome Database :=
  c ← OpenCatalog mkdir_ok dir_path (f_catalog fs);
  let lm := OpenLogManager (f_wal fs) in
  let ids := (tb_heap_object_id <$> tables_ c) ++ (ix_object_id <$> indexes_ c) in
  ds ← open_files (f_objects fs) ids;
  let '(r, ds') := RunRecovery (records_on_open_ lm) ds in
  r ≫= fun _ =>
  let db := mkDatabase (mkStore c (f_catalog fs)) (OpenTransactionManager lm) ∅ (filter (fun x => ~ (x.1 ∈ ids)) (f_objects fs)) in
  let '(r, db') := attach_all c ds' db in
  r ≫= fun _ => Ret db'.

Definition CreateTable (env : persist_env) (name : bytes) (columns : list ColumnDef) (pk : option bytes) : M Database ObjectId :=
  heap_id ← on_catalog (Catalog.CreateTable env name columns pk);
  d ← create_file heap_id;
  AttachHeapStorage heap_id d;;
  match pk with
  | None => mret tt
  | Some _ =>
      c ← gets GetCatalog;
      match PrimaryKeyIndex c name with
      | None => undefined
      | Some i => d ← create_file (ix_object_id i); AttachIndexStorage (ix_object_id i) d
      end
  end;;
  mret heap_id.

Definition CreateIndex (env : persist_env) (name table_name column_name : bytes) (populate : option (ObjectId -> M Database unit)) : M Database ObjectId :=
  object_id ← on_catalog (Catalog.CreateIndex env name table_name column_name);
  d ← create_file object_id;
  AttachIndexStorage object_id d;;
  match populate with
  | None => mret tt
  | Some f => f object_id;; on_world (on_pool th object_id FlushAll)
  end;;
  mret object_id.

(** [objects_.at(object_id)], and its heap file or tree if it is one. *)
Definition kind_of (object_id : ObjectId) : M Database ObjectKind :=
  db ← gets (fun db => db);
  match objects_ db !! object_id with Some k => mret k | None => throw OutOfRange end.

Definition GetHeapFile (object_id : ObjectId) : M Database (option ObjectId) :=
  k ← kind_of object_id; mret (if bool_decide (k = kHeap) then Some object_id else None).

Definition GetIndex (object_id : ObjectId) : M Database (option ObjectId) :=
  k ← kind_of object_id; mret (if bool_decide (k = kIndex) then Some object_id else None).

Definition GetHeapFileForTable (table_name : bytes) : M Database (option ObjectId) :=
  c ← gets GetCatalog;
  match FindTable c table_name with None => mret None | Some t => GetHeapFile (tb_heap_object_id t) end.

Definition GetIndexByName (index_name : bytes) : M Database (option ObjectId) :=
  c ← gets GetCatalog;
  match FindIndex c index_name with None => mret None | Some i => GetIndex (ix_object_id i) end.

Definition Checkpoint : M Database unit :=
  active ← gets (fun db => HasActiveTransaction (world db));
  if active : bool then throw LogicError else
  objects ← gets (fun db => (map_to_list (objects_ db)).*1);
  for_each (fun object_id => on_world (on_pool th object_id FlushAll)) objects;;
  on_world (on_log LogManager.Checkpoint).

End Operations.
