(* ===== verification/Session.v ===== *)
(** * Session: running one statement ([src/sql/session.{h,cpp}], [src/sql/executor.cpp])

    [ExecuteInCurrentTransaction] dispatches a statement, DDL included;
    [Execute] adds BEGIN, COMMIT, ROLLBACK and the implicit transaction around
    a statement outside one. *)
From S2P Require Import Prelude Config DiskManager BufferPool HeapFile TransactionManager Storage Text Catalog Ast RowCodec Planner Executor WorldStorage Database.

(** How the machine behaves during one call: the file system under DDL, the
    log's [fsync], the stack left. *)
Record Env := mkSessionEnv { e_persist : persist_env; e_fsync_ok : bool; e_frames : nat }.

Section Operations.
Context (th : ThreadId) (env : Env).

#[local] Instance session_storage : Storage World := world_storage th (e_frames env).

(** ** DDL *)

Definition RequireNoActiveTransaction : M Database unit :=
  active ← gets (fun db => HasActiveTransaction (world db));
  if active : bool then throw LogicError else mret tt.

Definition ExecuteCreateTable (stmt : CreateTableStatement) : M Database ExecuteResult :=
  RequireNoActiveTransaction;;
  Database.CreateTable th (e_persist env) (ct_table_name stmt) (ct_columns stmt) (ct_primary_key_column stmt);;
  mret no_result.

(** One row entered into the new index. *)
Definition backfill_row (table : TableInfo) (col_idx : nat) (index : ObjectId) (row : RID * bytes) : M World unit :=
  values ← lift (DecodeRow (tb_columns table) row.2);
  v ← lift (value_at values col_idx);
  tree_Insert index (int_value v) row.1.

(** The callback that fills the new index. *)
Definition backfill (stmt : CreateIndexStatement) (index : ObjectId) : M Database unit :=
  c ← gets GetCatalog;
  on_world (
    table ← deref (FindTable c (ci_table_name stmt));
    col_idx ← lift (ColumnIndex table (ci_column_name stmt));
    heap ← heap_of c (ci_table_name stmt);
    rows ← heap_Scan heap;
    for_each (backfill_row table col_idx index) rows).

Definition ExecuteCreateIndex (stmt : CreateIndexStatement) : M Database ExecuteResult :=
  RequireNoActiveTransaction;;
  Database.CreateIndex th (e_persist env) (ci_index_name stmt) (ci_table_name stmt) (ci_column_name stmt) (Some (backfill stmt));;
  mret no_result.

Definition ExecuteInCurrentTransaction (stmt : Statement) : M Database ExecuteResult :=
  c ← gets GetCatalog;
  match stmt with
  | CreateTableStmt s => ExecuteCreateTable s
  | CreateIndexStmt s => ExecuteCreateIndex s
  | InsertStmt s => on_world (ExecuteInsert c s)
  | SelectStmt s => on_world (ExecuteSelect c s)
  | UpdateStmt s => on_world (ExecuteUpdate c s)
  | DeleteStmt s => on_world (ExecuteDelete c s)
  | BeginStmt | CommitStmt | RollbackStmt => throw LogicError
  end.

(** ** Transactions *)

Definition GetCurrentTransaction : M Database (option TxnId) := gets (fun db => current_txn (world db) !! th).

Definition ExecuteBegin : M Database ExecuteResult := on_world (Begin th);; mret no_result.

Definition ExecuteCommit : M Database ExecuteResult :=
  txn ← GetCurrentTransaction;
  match txn with
  | None => throw LogicError
  | Some t => on_world (Commit th (e_fsync_ok env) t);; mret no_result
  end.

Definition ExecuteRollback : M Database ExecuteResult :=
  txn ← GetCurrentTransaction;
  match txn with
  | None => throw LogicError
  | Some t => on_world (Abort th t);; mret no_result
  end.

(** [try { m } catch (...) { handler; throw; }]. *)
Definition catch_rethrow {A} (m : M Database A) (handler : M Database unit) : M Database A := fun db =>
  match m db with
  | (Throw e, db') => (handler;; throw e) db'
  | r => r
  end.

(** The implicit transaction around one statement. *)
Definition autocommit (stmt : Statement) : M Database ExecuteResult :=
  txn ← on_world (Begin th);
  catch_rethrow
    (result ← ExecuteInCurrentTransaction stmt; on_world (Commit th (e_fsync_ok env) txn);; mret result)
    (on_world (Abort th txn)).

Definition Execute (stmt : Statement) : M Database ExecuteResult :=
  match stmt with
  | BeginStmt => ExecuteBegin
  | CommitStmt => ExecuteCommit
  | RollbackStmt => ExecuteRollback
  | CreateTableStmt _ | CreateIndexStmt _ => ExecuteInCurrentTransaction stmt
  | _ =>
      txn ← GetCurrentTransaction;
      match txn with
      | Some _ => ExecuteInCurrentTransaction stmt
      | None => autocommit stmt
      end
  end.

End Operations.
