(* ===== verification/WorldTables.v ===== *)
(** * WorldTables: a world as the tables it holds

    [tables_in] reads a world as the rows of its tables. It depends only on
    the pages, so it moves to any world with the same pages (after a commit,
    an abort, a reopening), extra zero pages included. *)
From S2P Require Import Prelude Config DiskManager BufferPool HeapFile BTreeNode BTree BTreeSpec BTreeReads TransactionManager Recovery Storage Text Catalog Ast.
From S2P Require Import RowCodec Query Tables Statements WorldStorage.
Import HeapFile BTreeNode BTreeSpec.

(** ** Pages *)

(** [g] has the pages of [f], and maybe further zero pages. *)
Definition extends {K} (f g : K -> option Page) : Prop := forall k, g k = f k \/ (f k = None /\ g k = Some zero_page).

Lemma extends_Some {K} (f g : K -> option Page) k p : extends f g -> f k = Some p -> g k = Some p.
Proof. intros H Hk. destruct (H k) as [->|[? _]]; congruence. Qed.

(** A pool has the pages below its page count. *)
Lemma mem_page_some bp q : pool_wf bp -> is_Some (mem_page bp q) <-> 0 <= q < next_page_id_ (disk_manager_ bp).
Proof.
  intros Hwf. split.
  - intros [p Hp]. by apply mem_page_facts in Hp as [? _].
  - intros Hq. unfold mem_page. destruct (pages_ bp !! q); [eauto|]. apply disk_page_is_Some; [apply Hwf|done].
Qed.

Lemma next_extends bp bp' : pool_wf bp -> pool_wf bp' -> extends (mem_page bp) (mem_page bp') ->
  0 <= next_page_id_ (disk_manager_ bp) <= next_page_id_ (disk_manager_ bp').
Proof.
  intros H1 H2 He. pose proof (dw_next _ (pw_disk _ H1)). pose proof (dw_next _ (pw_disk _ H2)). unfold zlen in *.
  destruct (decide (next_page_id_ (disk_manager_ bp) <= next_page_id_ (disk_manager_ bp'))); [lia|]. exfalso.
  assert (is_Some (mem_page bp (next_page_id_ (disk_manager_ bp')))) as [p Hp] by (apply mem_page_some; [done|lia]).
  apply (extends_Some _ _ _ _ He) in Hp. apply mem_page_facts in Hp as [? _]; [lia|done].
Qed.

Lemma zero_page_rows pid : page_rows pid zero_page = [].
Proof. unfold page_rows, GetSlotCount, zero_page. by rewrite read_at_zeros. Qed.

(** ** Objects *)

Lemma heap_extends o o' rows :
  heap_object o rows -> pool_wf o'.1 -> extends (mem_page o.1) (mem_page o'.1) -> o'.2 = seqZ 0 (next_page_id_ (disk_manager_ o'.1)) ->
  heap_object o' rows.
Proof.
  intros [[H1 H2 H3] Hrows] Hwf He Hids. cbn in H1, H2, H3. destruct (next_extends _ _ H1 Hwf He) as [Hn0 Hn].
  set (n := next_page_id_ (disk_manager_ o.1)) in *. set (n' := next_page_id_ (disk_manager_ o'.1)) in *.
  assert (o'.2 = o.2 ++ seqZ n (n' - n)) as Happ.
  { rewrite Hids, H2. replace n' with (n + (n' - n)) at 1 by lia. rewrite seqZ_app by lia. done. }
  assert (forall q, n <= q < n' -> mem_page o'.1 q = Some zero_page) as Hnew.
  { intros q Hq. destruct (He q) as [Heq|[_ ?]]; [|done]. assert (is_Some (mem_page o'.1 q)) as [p Hp] by (apply mem_page_some; [done|lia]).
    rewrite Heq in Hp. apply mem_page_facts in Hp as [? _]; [lia|done]. }
  split; [split; cbn|].
  - done.
  - done.
  - intros q. rewrite Happ, elem_of_app, elem_of_seqZ. intros [Hq|Hq].
    + destruct (H3 q Hq) as (p & Hp & Hpg). exists p. split; [by eapply extends_Some|done].
    + exists zero_page. split; [apply Hnew; lia|by right].
  - rewrite <- Hrows. unfold heap_rows. cbn. rewrite Happ, fmap_app, concat_app.
    assert (concat (rows_at o'.1 <$> seqZ n (n' - n)) = []) as ->.
    { assert (forall l, Forall (fun q => n <= q < n') l -> concat (rows_at o'.1 <$> l) = []) as Hl.
      { induction 1 as [|q l Hq _ IH]; [done|]. cbn. rewrite IH. unfold rows_at. by rewrite (Hnew q Hq), zero_page_rows. }
      apply Hl, Forall_forall. intros q Hq%elem_of_seqZ. lia. }
    rewrite app_nil_r. f_equal. apply list_fmap_ext. intros j q Hq. apply list_elem_of_lookup_2 in Hq. unfold rows_at.
    destruct (H3 q Hq) as (p & Hp & _). by rewrite Hp, (extends_Some _ _ _ _ He Hp).
Qed.

Lemma tree_extends o o' es :
  tree_object o es -> pool_wf o'.1 -> extends (mem_page o.1) (mem_page o'.1) -> tree_object o' es.
Proof.
  intros [H1 (hp & root & Hhp & Hr & Ht)] Hwf He. split; [done|]. exists hp, root.
  split; [by eapply extends_Some|]. split; [done|]. destruct Ht as [?|(h & S & f & Ht & H0)]; [by left|right]. exists h, S, f. split; [|done].
  eapply subtree_frame; [|exact Ht]. intros q Hq. destruct (subtree_alloc _ _ _ _ _ _ _ _ _ _ _ q Ht Hq) as [p Hp].
  transitivity (Some p); [by eapply extends_Some|by symmetry].
Qed.

(** ** Tables *)

Section Tables.
Context (th : ThreadId).

Definition tables_in (c : Catalog) (w : World) (T : contents) (n : nat) : Prop :=
  catalog_ok c /\ exists d, stores th w d n /\ tables_state c d T.

(** What the statements' contracts say of a world. *)
Lemma database_world frames I HI Hfr c w T n :
  @database World _ (world_storage_laws th frames I HI Hfr) c w T n <-> tables_in c w T n /\ I w.
Proof.
  split.
  - intros [Hc (d & [Hs Hi] & HT)]. split; [split; eauto|done].
  - intros [[Hc (d & Hs & HT)] Hi]. split; [done|]. exists d. done.
Qed.

(** Only the objects of the catalog. *)
Definition trim (c : Catalog) (d : Data) : Data :=
  mkData (filter (fun x => x.1 ∈ (tb_heap_object_id <$> tables_ c)) (heaps d)) (filter (fun x => x.1 ∈ (ix_object_id <$> indexes_ c)) (trees d)).

Lemma trim_stored c d t rows : t ∈ tables_ c -> stored c d t rows -> stored c (trim c d) t rows.
Proof.
  intros Ht [H1 H2 H3]. split; [|done|].
  - cbn. apply map_lookup_filter_Some. split; [done|]. cbn. by apply list_elem_of_fmap_2.
  - intros i Hi. destruct (H3 i Hi) as (es & Hes & Hp). exists es. split; [|done]. cbn. apply map_lookup_filter_Some. split; [done|].
    cbn. apply list_elem_of_fmap_2. by apply on_table_facts in Hi as [? _].
Qed.

Lemma mem_of_object w oid o q : buffer_pools_ w !! oid = Some o -> mem_of w (mkPageKey oid q) = mem_page o.1 q.
Proof. intros H. unfold mem_of. cbn. by rewrite H. Qed.

Lemma object_extends w w' oid o o' :
  extends (mem_of w) (mem_of w') -> buffer_pools_ w !! oid = Some o -> buffer_pools_ w' !! oid = Some o' -> extends (mem_page o.1) (mem_page o'.1).
Proof. intros He Ho Ho' q. rewrite <- (mem_of_object w oid o q Ho), <- (mem_of_object w' oid o' q Ho'). apply He. Qed.

(** A world fit to hold the tables of the catalog. *)
Record objects_ready (c : Catalog) (w : World) (n : nat) : Prop := mkReady {
  or_pools oid o : buffer_pools_ w !! oid = Some o -> pool_wf o.1 /\ room o n;
  or_tables t : t ∈ tables_ c -> exists o, buffer_pools_ w !! tb_heap_object_id t = Some o /\ o.2 = seqZ 0 (next_page_id_ (disk_manager_ o.1));
  or_indexes i : i ∈ indexes_ c -> is_Some (buffer_pools_ w !! ix_object_id i);
  or_calm : calm th w
}.

Lemma stored_of_heap c d t T : tables_state c d T -> t ∈ tables_ c -> heaps d !! tb_heap_object_id t = Some (raw t (T (tb_name t))).
Proof. intros HT Ht. destruct (HT t Ht) as [Hs _]. apply Hs. Qed.

Lemma index_table c i : catalog_ok c -> i ∈ indexes_ c -> exists t, t ∈ tables_ c /\ i ∈ IndexesOnTable c (tb_name t).
Proof.
  intros Hc Hi. pose proof (co_index _ Hc) as Ho. rewrite Forall_forall in Ho. destruct (io_column _ _ (Ho i Hi)) as (t & cd & Ht & Hn & _).
  exists t. split; [done|]. by apply on_table_facts.
Qed.

(** The tables of one world are those of another with its pages. *)
Lemma tables_transfer c w w' T n n' :
  tables_in c w T n -> extends (mem_of w) (mem_of w') -> objects_ready c w' n' -> tables_in c w' T n'.
Proof.
  intros [Hc (d & Hs & HT)] He [R1 R2 R3 R4]. split; [done|]. exists (trim c d). split.
  - split; [done|intros oid o Ho; by apply (R1 oid)|..].
    + intros h rows. cbn. rewrite map_lookup_filter_Some. intros [Hh Hin]. cbn in Hin. apply list_elem_of_fmap in Hin as (t & -> & Ht).
      destruct (R2 t Ht) as (o' & Ho' & Hids). exists o'. split; [done|]. destruct (st_heap _ _ _ _ Hs _ _ Hh) as (o & Ho & Hobj).
      eapply heap_extends; [exact Hobj|by apply (R1 _ _ Ho')|by eapply object_extends|done].
    + intros t es. cbn. rewrite map_lookup_filter_Some. intros [Ht Hin]. cbn in Hin. apply list_elem_of_fmap in Hin as (i & -> & Hi).
      destruct (R3 i Hi) as [o' Ho']. exists o'. split; [done|]. destruct (st_tree _ _ _ _ Hs _ _ Ht) as (o & Ho & Hobj).
      eapply tree_extends; [exact Hobj|by apply (R1 _ _ Ho')|by eapply object_extends].
    + intros h rows. cbn. rewrite map_lookup_filter_Some. intros [Hh _]. apply map_lookup_filter_None. left. by eapply (st_apart _ _ _ _ Hs).
  - intros t Ht. destruct (HT t Ht) as [Hst Hpk]. split; [by apply trim_stored|done].
Qed.

(** A world with tables is ready for them. *)
Lemma tables_ready c w T n : tables_in c w T n -> (forall oid o, buffer_pools_ w !! oid = Some o -> pool_wf o.1) -> objects_ready c w n.
Proof.
  intros [Hc (d & Hs & HT)] Hwf. split.
  - intros oid o Ho. split; [by eapply Hwf|by eapply st_room].
  - intros t Ht. destruct (st_heap _ _ _ _ Hs _ _ (stored_of_heap c d t T HT Ht)) as (o & Ho & [Hh _]). exists o. split; [done|]. apply (hw_ids _ Hh).
  - intros i Hi. destruct (index_table c i Hc Hi) as (t & Ht & Hit). destruct (HT t Ht) as [Hst _].
    destruct (sd_index _ _ _ _ Hst i Hit) as (es & Hes & _). destruct (st_tree _ _ _ _ Hs _ _ Hes) as (o & Ho & _). eauto.
  - apply Hs.
Qed.

End Tables.
