(* ===== verification/Autocommit.v ===== *)
(** * Autocommit: one statement, one transaction

    [Execute] of a statement outside a transaction begins one, runs it, and
    commits or aborts. Here the statements' contracts, which hold inside a
    transaction, and the contracts of [Begin], [Commit] and [Abort], which
    speak of pages, meet: the tables after [Execute] are those of the
    statement's effect, in memory and in the files. *)
From stdpp Require Import sorting.
From S2P Require Import Prelude Config DiskManager BufferPool LockManager LogManager Recovery TransactionManager CrashSafety TxnSystem.
From S2P Require Import Storage Text Catalog Ast RowCodec Planner Executor Query Tables Statements Update Select WorldStorage WorldTables Database Session.

(** ** What the steps of a transaction leave alone: page ids *)

Lemma ids_dom w w' : ids_of w' = ids_of w -> dom (buffer_pools_ w') =@{gset ObjectId} dom (buffer_pools_ w).
Proof. intros H. rewrite <- (dom_fmap_L snd (buffer_pools_ w')), <- (dom_fmap_L snd (buffer_pools_ w)). by unfold ids_of in H; rewrite H. Qed.

Lemma size_same w w' : dom (buffer_pools_ w') =@{gset ObjectId} dom (buffer_pools_ w) -> size (buffer_pools_ w') = size (buffer_pools_ w).
Proof. intros H. rewrite <- !size_dom. by rewrite H. Qed.

(** ** How many pages a transaction can dirty *)

(** All pages there can be: 2^32 in each object. *)
Definition page_budget (w : World) : Z := Z.of_nat (size (buffer_pools_ w)) * 2 ^ 32.

Lemma keys_of_NoDup l : NoDup l.*1 -> NoDup (keys_of l).
Proof.
  unfold keys_of. induction l as [|[oid s] l IH]; intros Hnd; [constructor|]. cbn in Hnd. apply NoDup_cons in Hnd as [Hoid Hnd].
  cbn. apply NoDup_app. split_and!; [|..|by apply IH].
  - apply NoDup_fmap; [intros a b; congruence|]. rewrite merge_sort_Permutation. apply NoDup_elements.
  - intros k (q & -> & _)%list_elem_of_fmap Hk. apply Hoid. apply list_elem_of_In, in_concat in Hk as (l' & Hl & Hin).
    apply list_elem_of_In, list_elem_of_fmap in Hl as ([o s'] & -> & Hos). apply list_elem_of_In, list_elem_of_fmap in Hin as (q' & [= -> _] & _).
    apply list_elem_of_fmap. by exists (o, s').
Qed.

Lemma commit_keys_bound t w rs : sys_ok w rs -> zlen (commit_keys t w) <= page_budget w.
Proof.
  intros Hs. set (all := concat ((fun x : ObjectId * (BufferPool * list PageId) => mkPageKey x.1 <$> seqZ 0 (2 ^ 32)) <$> map_to_list (buffer_pools_ w))).
  assert (commit_keys t w ⊆+ all) as Hsub.
  { apply NoDup_submseteq; [apply keys_of_NoDup, NoDup_fst_map_to_list|]. intros k Hk. apply elem_of_commit_keys in Hk.
    destruct (so_mem _ _ Hs t k Hk) as [p Hp]. unfold mem_of in Hp. destruct (buffer_pools_ w !! key_object k) as [o|] eqn:Ho; [|done]. cbn in Hp.
    destruct (wo_pools _ _ (so_world _ _ Hs) _ _ Ho) as [Hwf _]. apply mem_page_facts in Hp as [Hq _]; [|done].
    pose proof (dw_bound _ (pw_disk _ Hwf)). apply list_elem_of_In, in_concat. exists (mkPageKey (key_object k) <$> seqZ 0 (2 ^ 32)). split.
    - apply list_elem_of_In, list_elem_of_fmap. exists (key_object k, o). split; [done|by apply elem_of_map_to_list].
    - apply list_elem_of_In, list_elem_of_fmap. exists (key_page k). split; [by destruct k|]. apply elem_of_seqZ. lia. }
  apply submseteq_length in Hsub. unfold zlen, page_budget. rewrite <- length_map_to_list. etrans; [apply inj_le, Hsub|]. unfold all.
  generalize (map_to_list (buffer_pools_ w)). intros l. induction l as [|x l IH]; [done|]. cbn [fmap list_fmap concat length].
  rewrite length_app, length_fmap, length_seqZ, Nat2Z.inj_add. fold (fmap (M:=list) (fun x : ObjectId * (BufferPool * list PageId) => mkPageKey x.1 <$> seqZ 0 (2 ^ 32)) l). lia.
Qed.

(** ** Between statements *)

(** No transaction is running and no lock is held. *)
Record idle (w : World) : Prop := mkIdle {
  id_ok : exists rs, sys_ok w rs;
  id_none : active_txns_ w = ∅;
  id_locks : lm_wf (lock_manager_ w);
  id_free h k : ~ lm_holds (lock_manager_ w) h k
}.

(** Ids and log sequence numbers do not run out during the next transaction. *)
Definition counters_ok (w : World) : Prop :=
  next_txn_id_ w < 2 ^ 64 - 1 /\ next_lsn_ (log_manager_ w) + page_budget w + 3 < 2 ^ 64.

Lemma idle_mem w k : idle w -> mem_of w k = page_of (disks_of w) k.
Proof.
  intros [[rs Hs] Hn _ _]. destruct (so_dirty _ _ Hs k) as [?|[t Ht]]; [done|]. apply DirtiedPages_lookup in Ht as [x Hx].
  rewrite Hn in Hx. by rewrite lookup_empty in Hx.
Qed.

Lemma idle_current w th : idle w -> current_txn w !! th = None.
Proof.
  intros [[rs Hs] Hn _ _]. destruct (current_txn w !! th) as [t|] eqn:E; [|done]. destruct (so_txn _ _ Hs th t E) as [x Hx].
  rewrite Hn in Hx. by rewrite lookup_empty in Hx.
Qed.

Lemma calm_none th w : current_txn w !! th = None -> calm th w.
Proof. intros H o. unfold uncontended, view_of. cbn. by rewrite H. Qed.

Lemma sys_pools w rs oid o : sys_ok w rs -> buffer_pools_ w !! oid = Some o -> pool_wf o.1.
Proof. intros Hs Ho. by apply (wo_pools _ _ (so_world _ _ Hs) oid). Qed.

(** The objects stay ready when their pages and page ids do. *)
Lemma ready_pools th c w w' n :
  objects_ready th c w n -> (forall oid o, buffer_pools_ w !! oid = Some o -> pool_wf o.1) ->
  (forall oid o, buffer_pools_ w' !! oid = Some o -> pool_wf o.1) -> ids_of w' = ids_of w ->
  (forall k, is_Some (mem_of w' k) <-> is_Some (mem_of w k)) -> calm th w' -> objects_ready th c w' n.
Proof.
  intros Hr Hs Hs' Hids Hm Hcalm.
  assert (forall oid o', buffer_pools_ w' !! oid = Some o' -> exists o, buffer_pools_ w !! oid = Some o /\ o'.2 = o.2 /\
    next_page_id_ (disk_manager_ o'.1) = next_page_id_ (disk_manager_ o.1)) as Hback.
  { intros oid o' Ho'. assert (ids_of w !! oid = Some o'.2) as Hi by (by rewrite <- Hids, ids_of_lookup, Ho').
    rewrite ids_of_lookup in Hi. destruct (buffer_pools_ w !! oid) as [o|] eqn:Ho; [|done]. cbn in Hi. injection Hi as Hi.
    exists o. split; [done|]. split; [done|]. pose proof (Hs _ _ Ho) as Hwf. pose proof (Hs' _ _ Ho') as Hwf'.
    assert (forall q, 0 <= q < next_page_id_ (disk_manager_ o'.1) <-> 0 <= q < next_page_id_ (disk_manager_ o.1)) as Hq.
    { intros q. rewrite <- !mem_page_some by done. rewrite <- (mem_of_object _ _ _ q Ho'), <- (mem_of_object _ _ _ q Ho). apply Hm. }
    pose proof (dw_next _ (pw_disk _ Hwf)). pose proof (dw_next _ (pw_disk _ Hwf')). unfold zlen in *.
    pose proof (Hq (next_page_id_ (disk_manager_ o.1))). pose proof (Hq (next_page_id_ (disk_manager_ o'.1))). lia. }
  assert (forall oid, is_Some (buffer_pools_ w !! oid) -> is_Some (buffer_pools_ w' !! oid)) as Hfwd.
  { intros oid [o Ho]. assert (ids_of w' !! oid = Some o.2) as Hi by (by rewrite Hids, ids_of_lookup, Ho). rewrite ids_of_lookup in Hi.
    destruct (buffer_pools_ w' !! oid); [eauto|done]. }
  split; [|..|done].
  - intros oid o' Ho'. destruct (Hback oid o' Ho') as (o & Ho & _ & Hn). split; [by eapply Hs'|].
    destruct (or_pools _ _ _ _ Hr oid o Ho) as [_ Hroom]. unfold room, BTreeReads.BTreeReads.next, alone in *. cbn in *. by rewrite Hn.
  - intros t Ht. destruct (or_tables _ _ _ _ Hr t Ht) as (o & Ho & Hi). destruct (Hfwd _ (ex_intro _ o Ho)) as [o' Ho']. exists o'. split; [done|].
    destruct (Hback _ _ Ho') as (o0 & Ho0 & H1 & H2). rewrite Ho in Ho0. injection Ho0 as <-. by rewrite H1, H2.
  - intros i Hi. apply Hfwd. by apply (or_indexes _ _ _ _ Hr).
Qed.

Lemma ready_same th c w w' n rs rs' :
  objects_ready th c w n -> sys_ok w rs -> sys_ok w' rs' -> ids_of w' = ids_of w ->
  (forall k, is_Some (mem_of w' k) <-> is_Some (mem_of w k)) -> calm th w' -> objects_ready th c w' n.
Proof. intros Hr Hs Hs'. apply ready_pools; [done|by intros oid o; apply sys_pools with rs|by intros oid o; apply sys_pools with rs']. Qed.

Section Transaction.
Context (th : ThreadId).

(** Inside transaction [t], whose first state was [wb]. *)
Record in_txn (t : TxnId) (rs : list LogRecord) (wb w : World) : Prop := mkInTxn {
  it_ok : sys_ok w rs;
  it_current : current_txn w !! th = Some t;
  it_log : log_manager_ w = log_manager_ wb;
  it_next : next_txn_id_ w = next_txn_id_ wb;
  it_live t' : is_Some (active_txns_ w !! t') <-> t' = t;
  it_dom : dom (buffer_pools_ w) =@{gset ObjectId} dom (buffer_pools_ wb);
  it_disk : extends (page_of (disks_of wb)) (page_of (disks_of w))
}.

Lemma in_txn_kept t rs wb : kept_by_storage th (in_txn t rs wb).
Proof.
  intros oid o v w [H1 H2 H3 H4 H5 H6 H7] Ho Hf Hwf. split; try done.
  - by eapply storage_step_ok.
  - intros t'. rewrite <- H5. apply (fr_live _ _ Hf).
  - cbn. rewrite dom_insert_lookup_L by eauto. done.
  - assert (extends (page_of (disks_of w)) (page_of (disks_of (put_view oid v w)))) as Hstep.
    { intros k. rewrite page_of_put. case_decide as Hk; [|by left]. rewrite <- Hk in Ho. rewrite (page_of_lookup _ _ _ Ho).
      destruct (disk_page (disk_manager_ (v_pool v)) (key_page k)) as [p|] eqn:E.
      - destruct (fr_new _ _ Hf _ _ E) as [Hold| ->]; [left; by symmetry|]. cbn in *.
        destruct (disk_page (disk_manager_ o.1) (key_page k)) as [p|] eqn:E2; [left|by right]. apply (fr_disk _ _ Hf) in E2. congruence.
      - left. destruct (disk_page (disk_manager_ o.1) (key_page k)) as [p|] eqn:E2; [|done]. apply (fr_disk _ _ Hf) in E2. congruence. }
    intros k. destruct (H7 k) as [Heq|[Hn Hz]]; destruct (Hstep k) as [Heq2|[Hn2 Hz2]].
    + left. congruence.
    + right. split; congruence.
    + right. split; congruence.
    + congruence.
Qed.

Lemma begin_idle c w T n :
  idle w -> counters_ok w -> tables_in th c w T n ->
  exists t w1 rs, Begin th w = (Ret t, w1) /\ in_txn t rs w1 w1 /\ tables_in th c w1 T n /\ ids_of w1 = ids_of w /\
    (forall k, mem_of w1 k = page_of (disks_of w1) k) /\ next_lsn_ (log_manager_ w1) + page_budget w1 + 1 < 2 ^ 64.
Proof.
  intros Hid [Hid1 Hlsn] HT. pose proof Hid as [[rs Hs] Hnone Hlw Hfree]. pose proof (idle_current w th Hid) as Hcur.
  assert (0 <= page_budget w) as Hpb by (unfold page_budget; lia). pose proof (so_next _ _ Hs) as Hnx.
  destruct (Begin_run th w rs (so_world _ _ Hs) Hcur) as (w1 & H1 & Hok & Hm & Hp & Hl & Ha & Hn & Hc1 & Hob); [lia|lia|].
  destruct (begin_step_ok th (next_txn_id_ w) w w1 rs Hs) as [rs1 Hs1]; [lia|lia|done|].
  exists (next_txn_id_ w), w1, rs1. pose proof (ids_same _ _ _ _ (ids_Begin th) H1) as Hids.
  assert (size (buffer_pools_ w1) = size (buffer_pools_ w)) as Hsize by (by apply size_same, ids_dom).
  assert (calm th w1) as Hcalm.
  { intros o. unfold uncontended, view_of. cbn. rewrite Hc1, lookup_insert_eq, Hl. split; [done|]. intros h k Hh. by destruct (Hfree h k). }
  split_and!; [done|split; try done|..].
  - by rewrite Hc1, lookup_insert_eq.
  - intros t'. rewrite Ha, Hnone. rewrite lookup_insert_is_Some, lookup_empty. split; [intros [->|[_ [x Hx]]]; done|intros ->; by left].
  - intros k. by left.
  - eapply tables_transfer; [exact HT|intros k; left; apply Hm|]. eapply ready_same; [|exact Hs|exact Hs1|exact Hids| |exact Hcalm].
    + eapply tables_ready; [exact HT|]. intros oid o Ho. exact (sys_pools _ _ _ _ Hs Ho).
    + intros k. by rewrite Hm.
  - done.
  - intros k. by rewrite Hm, Hp, (idle_mem w k Hid).
  - unfold page_budget in *. rewrite Hsize.
    assert (next_lsn_ (log_manager_ w1) = next_lsn_ (log_manager_ w) + 1) as ->; [|lia].
    rewrite (lh_next _ _ (wo_log _ _ Hok)), (lh_next _ _ (wo_log _ _ (so_world _ _ Hs))), zlen_app. change (zlen [_]) with 1. lia.
Qed.

(** A state from which every end of the transaction is possible. *)
Record can_finish (t : TxnId) (rs : list LogRecord) (wb w : World) : Prop := mkCanFinish {
  cf_txn : in_txn t rs wb w;
  cf_base k : mem_of wb k = page_of (disks_of wb) k;
  cf_lsn : next_lsn_ (log_manager_ wb) + page_budget wb + 1 < 2 ^ 64
}.

Lemma finish_lsn t rs wb w : can_finish t rs wb w -> next_lsn_ (log_manager_ w) + zlen (commit_keys t w) + 1 < 2 ^ 64.
Proof.
  intros [[H1 H2 H3 H4 H5 H6 H7] _ Hl]. pose proof (commit_keys_bound t w rs H1) as Hk. unfold page_budget in *. rewrite (size_same _ _ H6) in Hk. rewrite H3. lia.
Qed.

(** With the transaction over, nothing runs and nothing is locked. *)
Lemma ended_idle t rs wb w w' rs' :
  in_txn t rs wb w -> calm th w -> sys_ok w' rs' -> active_txns_ w' = delete t (active_txns_ w) ->
  lock_manager_ w' = ReleaseAll t (lock_manager_ w) -> idle w'.
Proof.
  intros Hin Hcalm Hs Ha Hl. pose proof (Hcalm (mkPool (mkDisk [] 0) ∅ ∅ ∅, [])) as Hu. unfold uncontended, view_of in Hu. cbn in Hu.
  rewrite (it_current _ _ _ _ Hin) in Hu. destruct Hu as [Hwf Hown]. split.
  - eauto.
  - rewrite Ha. apply map_eq. intros t'. rewrite lookup_empty, lookup_delete. case_decide as Ht; [done|].
    destruct (active_txns_ w !! t') as [x|] eqn:E; [|done]. destruct Ht. symmetry. by apply (it_live _ _ _ _ Hin); rewrite E.
  - rewrite Hl. by apply ReleaseAll_wf.
  - intros h k. rewrite Hl. intros [Hh Hne]%ReleaseAll_holds; [|done]. apply Hne. by eapply Hown.
Qed.

(** The tables a transaction leaves to its end, and what the end makes of them. *)
Lemma commit_in_txn c t rs wb w T n :
  can_finish t rs wb w -> tables_in th c w T n ->
  exists w', Commit th true t w = (Ret tt, w') /\ idle w' /\ tables_in th c w' T n /\ ids_of w' = ids_of w.
Proof.
  intros Hcf HT. pose proof Hcf as [Hin _ _]. pose proof (it_ok _ _ _ _ Hin) as Hs. pose proof (it_current _ _ _ _ Hin) as Hcur.
  pose proof (finish_lsn _ _ _ _ Hcf) as Hl.
  destruct (Commit_run th t w rs (so_world _ _ Hs) (sys_committable _ _ _ _ Hs Hcur Hl)) as (w' & H & _ & _ & Hm & _ & Hlk & Ha & _ & Hc').
  pose proof (commit_step_ok th t w w' rs Hs Hl H) as Hs'. exists w'. assert (calm th w') as Hcalm' by (apply calm_none; by rewrite Hc', lookup_delete_eq).
  assert (objects_ready th c w n) as Hr by (eapply tables_ready; [exact HT|]; intros oid o Ho; exact (sys_pools _ _ _ _ Hs Ho)).
  split_and!; [done|..|exact (ids_same _ _ _ _ (ids_Commit th true t) H)].
  - eapply ended_idle; [exact Hin|apply (or_calm _ _ _ _ Hr)|exact Hs'|done|done].
  - eapply tables_transfer; [exact HT|intros k; left; apply Hm|]. eapply ready_same; [exact Hr|exact Hs|exact Hs'|exact (ids_same _ _ _ _ (ids_Commit th true t) H)| |done].
    intros k. by rewrite Hm.
Qed.

Lemma abort_in_txn c t rs wb w T0 n0 T n :
  can_finish t rs wb w -> tables_in th c wb T0 n0 -> tables_in th c w T n ->
  exists w', Abort th t w = (Ret tt, w') /\ idle w' /\ tables_in th c w' T0 n /\ ids_of w' = ids_of w.
Proof.
  intros Hcf HT0 HT. pose proof Hcf as [Hin Hbase _]. pose proof (it_ok _ _ _ _ Hin) as Hs. pose proof (it_current _ _ _ _ Hin) as Hcur.
  pose proof (finish_lsn _ _ _ _ Hcf) as Hl. pose proof (sys_committable _ _ _ _ Hs Hcur Hl) as Hcm.
  destruct (Abort_run th t w rs (so_world _ _ Hs) Hcm) as (w' & H & _ & _ & Hm & Hd & Hlk & Ha & _ & Hc').
  destruct (abort_step_ok th t w w' rs Hs Hl H) as [rs' Hs']. exists w'.
  assert (calm th w') as Hcalm' by (apply calm_none; by rewrite Hc', lookup_delete_eq).
  assert (objects_ready th c w n) as Hr by (eapply tables_ready; [exact HT|]; intros oid o Ho; exact (sys_pools _ _ _ _ Hs Ho)).
  assert (forall k, mem_of w' k = page_of (disks_of w) k) as Hmd.
  { intros k. rewrite Hm. case_decide as Hk; [done|]. destruct (so_dirty _ _ Hs k) as [?|[t' Ht']]; [done|]. exfalso. apply Hk.
    assert (t' = t) as -> by (apply (it_live _ _ _ _ Hin); by apply DirtiedPages_lookup in Ht'). by apply elem_of_commit_keys. }
  assert (extends (mem_of wb) (mem_of w')) as Hext by (intros k; rewrite Hmd, Hbase; apply (it_disk _ _ _ _ Hin)).
  split_and!; [done|..|exact (ids_same _ _ _ _ (ids_Abort th t) H)].
  - eapply ended_idle; [exact Hin|apply (or_calm _ _ _ _ Hr)|exact Hs'|done|done].
  - eapply tables_transfer; [exact HT0|exact Hext|]. eapply ready_same; [exact Hr|exact Hs|exact Hs'|exact (ids_same _ _ _ _ (ids_Abort th t) H)| |done].
    intros k. rewrite Hm. case_decide as Hk; [|done]. split; [intros _; by apply (cm_mem _ _ _ Hcm)|intros _].
    by destruct (commit_mem th t w rs (so_world _ _ Hs) Hcm k Hk) as (p & _ & _ & ?).
Qed.

End Transaction.

(** ** The statements on tables *)

(** What a data statement makes of the tables. *)
Definition statement_effect (c : Catalog) (T : contents) (stmt : Statement) (o : outcome ExecuteResult) (T' : contents) : Prop :=
  match stmt with
  | InsertStmt s => insert_effect c T s o T'
  | SelectStmt s => select_effect c T s o T'
  | UpdateStmt s => update_effect c T s o T'
  | DeleteStmt s => delete_effect c T s o T'
  | _ => False
  end.

(** Its literals are the parser's, and no key gets more rows than a leaf of an
    index holds. *)
Definition statement_fits (c : Catalog) (T : contents) (stmt : Statement) : Prop :=
  match stmt with
  | InsertStmt s => Forall literal_wf (in_values s) /\ insert_dups c T s
  | UpdateStmt s => Forall literal_wf (as_value <$> up_assignments s) /\ update_dups c T s
  | SelectStmt _ | DeleteStmt _ => True
  | _ => False
  end.

(** The insertions it takes. *)
Definition statement_room (c : Catalog) (T : contents) (stmt : Statement) : nat :=
  match stmt with InsertStmt s => insert_room c s | UpdateStmt s => update_room c T s | _ => 0 end.

Lemma statement_answers c T stmt o T' :
  statement_effect c T stmt o T' -> (exists r, o = Ret r) \/ (exists e, o = Throw e /\ T' = T).
Proof.
  destruct stmt as [s|s|s|s|s|s| | |]; cbn; try done.
  - unfold insert_effect. destruct (FindTable c _) as [t|]; [|by intros [-> ->]; right; eauto]. cbn zeta. case_decide.
    + intros (-> & _). left. eauto.
    + intros [-> ->]. right. eauto.
  - unfold select_effect. destruct (PlanSelect c s); [|by intros [-> ->]; right; eauto..]. intros [(out & -> & _) _]. left. eauto.
  - unfold update_effect. destruct (FindTable c _) as [t|]; [|by intros [-> ->]; right; eauto]. cbn zeta. intros [H1 H2].
    destruct (resolve_assignments_run t (up_assignments s)) as [(_ & _ & Hva & _)|[_ Hva]]; [|destruct H1 as [-> ->]; [tauto|right; eauto]].
    destruct (check_each_cases t (up_where_predicates s)) as [Hv|Hv]; [|destruct H1 as [-> ->]; [tauto|right; eauto]].
    specialize (H2 Hva Hv). case_decide; [destruct H2 as [-> _]; left; eauto|destruct H2 as [-> ->]; right; eauto].
  - unfold delete_effect. destruct (FindTable c _) as [t|]; [|by intros [-> ->]; right; eauto]. cbn zeta. intros [H1 H2].
    destruct (check_each_cases t (de_where_predicates s)) as [Hv|Hv]; [destruct (H2 Hv) as [-> _]; left; eauto|destruct (H1 Hv) as [-> ->]; right; eauto].
Qed.

Section Statement.
Context (th : ThreadId) (env : Env) (Hframes : (6 <= e_frames env)%nat).

(** Running the statement on the world. *)
Definition run_statement (c : Catalog) (stmt : Statement) : M World ExecuteResult :=
  match stmt with
  | InsertStmt s => ExecuteInsert (Storage0 := world_storage th (e_frames env)) c s
  | SelectStmt s => ExecuteSelect (Storage0 := world_storage th (e_frames env)) c s
  | UpdateStmt s => ExecuteUpdate (Storage0 := world_storage th (e_frames env)) c s
  | DeleteStmt s => ExecuteDelete (Storage0 := world_storage th (e_frames env)) c s
  | _ => throw LogicError
  end.

Lemma run_statement_run (I : World -> Prop) (HI : kept_by_storage th I) c w T n stmt :
  statement_fits c T stmt -> tables_in th c w T (statement_room c T stmt + n) -> I w ->
  exists o w' T', run_statement c stmt w = (o, w') /\ statement_effect c T stmt o T' /\ tables_in th c w' T' n /\ I w'.
Proof.
  intros Hfit HT Hi. pose (laws := world_storage_laws th (e_frames env) I HI Hframes).
  assert (forall m, tables_in th c w T m -> @database World _ laws c w T m) as Hdb by (intros m Hm; by apply database_world).
  assert (forall w' T' m, @database World _ laws c w' T' m -> tables_in th c w' T' m /\ I w') as Hback by (intros w' T' m; apply database_world).
  destruct stmt as [s|s|s|s|s|s| | |]; try done; cbn in Hfit, HT |- *.
  - destruct Hfit as [Hwf Hd]. destruct (ExecuteInsert_run c w T n s Hwf Hd (Hdb _ HT)) as (o & w' & T' & H1 & H2 & H3%Hback). eauto 7.
  - destruct (ExecuteSelect_run c w T n s (Hdb _ HT)) as (o & w' & T' & H1 & H2 & H3%Hback). eauto 7.
  - destruct Hfit as [Hwf Hd]. destruct (ExecuteUpdate_run c w T n s Hwf Hd (Hdb _ HT)) as (o & w' & T' & H1 & H2 & H3%Hback). eauto 7.
  - destruct (ExecuteDelete_run c w T n s (Hdb _ HT)) as (o & w' & T' & H1 & H2 & H3%Hback). eauto 7.
Qed.

End Statement.


(** ** The implicit transaction *)

(** Between statements: no transaction is running, and these are the tables. *)
Record serving (th : ThreadId) (c : Catalog) (db : Database) (T : contents) (n : nat) : Prop := mkServing {
  sv_catalog : GetCatalog db = c;
  sv_idle : idle (world db);
  sv_tables : tables_in th c (world db) T n;
  sv_registered oid : is_Some (buffer_pools_ (world db) !! oid) -> oid ∈ object_ids c
}.

Lemma registered_same c w w' :
  dom (buffer_pools_ w') =@{gset ObjectId} dom (buffer_pools_ w) ->
  (forall oid, is_Some (buffer_pools_ w !! oid) -> oid ∈ object_ids c) -> forall oid, is_Some (buffer_pools_ w' !! oid) -> oid ∈ object_ids c.
Proof. intros H Hr oid Ho. apply Hr. apply elem_of_dom. rewrite <- H. by apply elem_of_dom. Qed.

Definition set_world (w : World) (db : Database) : Database := mkDatabase (store db) w (objects_ db) (unopened db).

Lemma on_world_run {A} (m : M World A) db r w : m (world db) = (r, w) -> on_world m db = (r, set_world w db).
Proof. intros H. unfold on_world. by rewrite H. Qed.

(** The statements of data run on the world alone. *)
Definition data_statement (stmt : Statement) : bool :=
  match stmt with InsertStmt _ | SelectStmt _ | UpdateStmt _ | DeleteStmt _ => true | _ => false end.

Lemma effect_data c T stmt o T' : statement_effect c T stmt o T' -> data_statement stmt = true.
Proof. by destruct stmt. Qed.

Lemma current_run th env stmt db :
  data_statement stmt = true -> ExecuteInCurrentTransaction th env stmt db = on_world (run_statement th env (GetCatalog db) stmt) db.
Proof. by destruct stmt. Qed.

Lemma Execute_autocommit th env stmt db :
  data_statement stmt = true -> current_txn (world db) !! th = None -> Execute th env stmt db = autocommit th env stmt db.
Proof. intros Hd Hc. destruct stmt; try done; cbn; unfold mbind, M_bind, GetCurrentTransaction, gets; by rewrite Hc. Qed.

(** Up to the end of the statement. *)
Lemma statement_phase th env c w T n stmt :
  (6 <= e_frames env)%nat -> idle w -> counters_ok w -> tables_in th c w T (statement_room c T stmt + n) -> statement_fits c T stmt ->
  exists t w1 rs o w2 T', Begin th w = (Ret t, w1) /\ run_statement th env c stmt w1 = (o, w2) /\ statement_effect c T stmt o T' /\
    can_finish th t rs w1 w2 /\ tables_in th c w1 T (statement_room c T stmt + n) /\ tables_in th c w2 T' n /\
    dom (buffer_pools_ w2) =@{gset ObjectId} dom (buffer_pools_ w).
Proof.
  intros Hfr Hid Hcnt HT Hfit.
  destruct (begin_idle th c _ _ _ Hid Hcnt HT) as (t & w1 & rs & Hb & Hin & HT1 & Hi1 & Hbase & Hlsn).
  destruct (run_statement_run th env Hfr (in_txn th t rs w1) (in_txn_kept th t rs w1) c w1 T n stmt Hfit HT1 Hin)
    as (o & w2 & T' & Hrun & Heff & HT2 & Hin2).
  exists t, w1, rs, o, w2, T'. split_and!; try done. etrans; [apply (it_dom _ _ _ _ _ Hin2)|by apply ids_dom].
Qed.

Lemma autocommit_run th env c db T n stmt :
  (6 <= e_frames env)%nat -> e_fsync_ok env = true -> serving th c db T (statement_room c T stmt + n) ->
  statement_fits c T stmt -> counters_ok (world db) ->
  exists o w T', Execute th env stmt db = (o, set_world w db) /\ statement_effect c T stmt o T' /\
    serving th c (set_world w db) T' n.
Proof.
  intros Hfr Hfs [Hc Hid HT Hreg] Hfit Hcnt. pose proof (idle_current _ th Hid) as Hcur.
  destruct (statement_phase th env c _ T n stmt Hfr Hid Hcnt HT Hfit) as (t & w1 & rs & o & w2 & T' & Hb & Hrun & Heff & Hcf & HT1 & HT2 & Hdom).
  pose proof (effect_data _ _ _ _ _ Heff) as Hdata.
  assert (forall w3, ids_of w3 = ids_of w2 -> forall oid, is_Some (buffer_pools_ w3 !! oid) -> oid ∈ object_ids c) as Hreg3.
  { intros w3 Hi3. eapply registered_same; [|exact Hreg]. etrans; [by apply ids_dom|exact Hdom]. }
  rewrite Execute_autocommit by done. unfold autocommit. run (on_world_run _ _ _ _ Hb). unfold catch_rethrow.
  assert (ExecuteInCurrentTransaction th env stmt (set_world w1 db) = (o, set_world w2 db)) as Hstmt.
  { rewrite current_run by done. change (GetCatalog (set_world w1 db)) with (GetCatalog db). rewrite Hc. by rewrite (on_world_run _ (set_world w1 db) _ _ Hrun). }
  destruct (statement_answers _ _ _ _ _ Heff) as [[r ->]|(e & -> & ->)].
  - destruct (commit_in_txn th c t rs w1 w2 T' n Hcf HT2) as (w3 & Hcm & Hid3 & HT3 & Hi3).
    exists (Ret r), w3, T'. split_and!; [|done|split; [done..|by apply Hreg3]].
    run Hstmt. rewrite Hfs. by run (on_world_run _ (set_world w2 db) _ _ Hcm).
  - destruct (abort_in_txn th c t rs w1 w2 T _ T n Hcf HT1 HT2) as (w3 & Hab & Hid3 & HT3 & Hi3).
    exists (Throw e), w3, T. split_and!; [|done|split; [done..|by apply Hreg3]].
    erewrite bind_throw by exact Hstmt. by run (on_world_run _ (set_world w2 db) _ _ Hab).
Qed.
