(* ===== verification/Reopen.v ===== *)
(** * Reopen: what [Database]'s constructor finds after a crash

    The constructor on the files a crash left: it loads the schema, opens the
    data files, redoes the log and attaches every object. The tables are then
    those of the pages recovery produced. *)
From S2P Require Import Prelude Config DiskManager BufferPool HeapFile BTreeNode BTree BTreeSpec LogManager Recovery TransactionManager CrashSafety TxnSystem.
From S2P Require Import Storage Text Catalog Query Tables Statements WorldStorage WorldTables Database Autocommit.

(** ** Opening data files *)

(** The bytes of the object files are the pages of [ds]. *)
Definition held_by (objs : gmap ObjectId bytes) (ds : disks) : Prop :=
  forall oid, default [] (objs !! oid) = default [] ((fun d => concat (DiskManager.file d)) <$> ds !! oid).

Lemma pages_of_concat f : Forall (fun p : Page => zlen p = PAGE_SIZE) f -> pages_of (length f) (concat f) = f.
Proof.
  induction 1 as [|p f Hp _ IH]; [done|]. cbn [length pages_of concat].
  assert (Z.to_nat PAGE_SIZE = length p) as Hl by (unfold zlen in Hp; lia). by rewrite Hl, take_app_length, drop_app_length, IH.
Qed.

Lemma zlen_concat_pages f : Forall (fun p : Page => zlen p = PAGE_SIZE) f -> zlen (concat f) = zlen f * PAGE_SIZE.
Proof. induction 1 as [|p f Hp _ IH]; [done|]. cbn [concat]. rewrite zlen_app, IH, Hp. unfold zlen. cbn [length]. lia. Qed.

Lemma OpenDiskManager_concat d : disk_wf d -> OpenDiskManager (concat (DiskManager.file d)) = Ret d.
Proof.
  intros [Hn Hb Hp]. unfold OpenDiskManager. rewrite (zlen_concat_pages _ Hp), Z.mod_mul, Z.div_mul by done. cbn [negb Z.eqb].
  assert (0 <= zlen (DiskManager.file d)) by (unfold zlen; lia). rewrite u32_small by lia. unfold zlen at 1. rewrite Nat2Z.id, (pages_of_concat _ Hp), <- Hn. by destruct d.
Qed.

Definition empty_disk : DiskManager := mkDisk [] 0.

Lemma empty_disk_wf : disk_wf empty_disk.
Proof. split; cbn; [done|lia|constructor]. Qed.

Lemma open_files_run objs ids ds :
  (forall oid d, ds !! oid = Some d -> disk_wf d) -> held_by objs ds ->
  exists ds1, open_files objs ids = Ret ds1 /\ forall oid, ds1 !! oid = if decide (oid ∈ ids) then Some (default empty_disk (ds !! oid)) else None.
Proof.
  intros Hwf Hh. induction ids as [|id ids (ds1 & IH & H1)]; [exists ∅; split; [done|]; intros oid; by rewrite lookup_empty|].
  exists (<[id := default empty_disk (ds !! id)]> ds1). split.
  - cbn. assert (open_file objs id = Ret (default empty_disk (ds !! id))) as ->.
    { unfold open_file. rewrite (Hh id). destruct (ds !! id) as [d|] eqn:E; cbn; [by apply OpenDiskManager_concat, (Hwf id)|done]. }
    cbn. by rewrite IH.
  - intros oid. destruct (decide (oid = id)) as [->|Hne].
    + rewrite lookup_insert_eq, decide_True by (by left). done.
    + rewrite lookup_insert_ne, H1 by done. apply decide_ext. set_solver.
Qed.

(** The pages of the files opened. *)
Lemma opened_pages (ds ds1 : disks) (ids : list ObjectId) :
  (forall oid, ds1 !! oid = if decide (oid ∈ ids) then Some (default empty_disk (ds !! oid)) else None) ->
  (forall k, is_Some (page_of ds k) -> key_object k ∈ ids) -> forall k, page_of ds1 k = page_of ds k.
Proof.
  intros H1 Hids k. unfold page_of. rewrite H1. case_decide as Hin; cbn.
  - destruct (ds !! key_object k) as [d|]; [done|]. cbn. unfold disk_page, empty_disk. cbn. case_bool_decide; [lia|done].
  - destruct (ds !! key_object k ≫= _) as [p|] eqn:E; [|done]. destruct Hin. apply Hids. unfold page_of. rewrite E. eauto.
Qed.

(** ** Attaching the objects *)

Section Attach.
Context (th : ThreadId).

Definition opened (k : ObjectKind) (d : DiskManager) : BufferPool * list PageId :=
  (mkPool d ∅ ∅ ∅, match k with kHeap => seqZ 0 (next_page_id_ d) | kIndex => [] end).

Lemma opened_wf k d : disk_wf d -> pool_wf (opened k d).1.
Proof. intros H. split; [exact H|..]; intros pid p Hp; unfold opened in Hp; cbn in Hp; by rewrite lookup_empty in Hp. Qed.

(** [db] with more objects, of kind [k] over the files of [ds]. *)
Record attached (k : ObjectKind) (ids : list ObjectId) (ds : disks) (db db' : Database) : Prop := mkAttached {
  at_store : store db' = store db;
  at_unopened : unopened db' = unopened db;
  at_world : world db' = set_buffer_pools (buffer_pools_ (world db')) (world db);
  at_pools oid : buffer_pools_ (world db') !! oid = if decide (oid ∈ ids) then opened k <$> ds !! oid else buffer_pools_ (world db) !! oid;
  at_kinds oid : objects_ db' !! oid = if decide (oid ∈ ids) then Some (default k (objects_ db !! oid)) else objects_ db !! oid
}.

Lemma attach_run k open oid d ds db :
  ds !! oid = Some d ->
  (forall v, v_pool v = mkPool d ∅ ∅ ∅ -> v_page_ids v = [] -> open v = (Ret tt, set_page_ids (opened k d).2 v)) ->
  exists db', attach th k open oid d db = (Ret tt, db') /\ attached k [oid] ds db db'.
Proof.
  intros Hd Ho. assert (construct th open d (world db) = (Ret (opened k d), world db)) as Hc.
  { unfold construct. rewrite Ho by done. cbn. by destruct (world db). }
  eexists. split.
  - unfold attach. rewrite (bind_ret _ _ _ _ _ (on_world_run _ _ _ _ Hc)). cbn. reflexivity.
  - split; cbn; try done; intros o; destruct (decide (o = oid)) as [->|Hne].
    + rewrite lookup_insert_eq, decide_True by (by left). by rewrite Hd.
    + rewrite lookup_insert_ne, decide_False by set_solver. done.
    + rewrite lookup_insert_eq, decide_True by (by left). done.
    + rewrite lookup_insert_ne, decide_False by set_solver. done.
Qed.

Lemma attached_nil k ds db : attached k [] ds db db.
Proof. split; try done. by destruct (world db). Qed.

Lemma attached_cons k id ids ds db db1 db2 : attached k [id] ds db db1 -> attached k ids ds db1 db2 -> attached k (id :: ids) ds db db2.
Proof.
  intros [A1 A2 A3 A4 A5] [B1 B2 B3 B4 B5]. split; try congruence.
  - rewrite B3, A3. done.
  - intros oid. rewrite B4, A4. repeat case_decide; try done; set_solver.
  - intros oid. rewrite B5, A5. repeat case_decide; cbn; try done; set_solver.
Qed.

Lemma attach_list {A} k open (key : A -> ObjectId) (l : list A) ds db :
  (forall x, x ∈ l -> exists d, ds !! key x = Some d /\
    forall v, v_pool v = mkPool d ∅ ∅ ∅ -> v_page_ids v = [] -> open v = (Ret tt, set_page_ids (opened k d).2 v)) ->
  exists db', for_each (fun x => d ← lift (disk_at ds (key x)); attach th k open (key x) d) l db = (Ret tt, db') /\
    attached k (key <$> l) ds db db'.
Proof.
  revert db. induction l as [|x l IH]; intros db Hl; [exists db; split; [done|apply attached_nil]|].
  destruct (Hl x ltac:(by left)) as (d & Hd & Ho). destruct (attach_run k open (key x) d ds db Hd Ho) as (db1 & H1 & A1).
  destruct (IH db1) as (db2 & H2 & A2); [intros y Hy; apply Hl; by right|]. exists db2. split; [|by eapply attached_cons].
  cbn [for_each]. rewrite (bind_ret _ _ _ tt db1); [exact H2|]. unfold disk_at. rewrite Hd. by run (eq_refl : lift (Ret d) db = (Ret d, db)).
Qed.

Lemma heap_opens d v : v_pool v = mkPool d ∅ ∅ ∅ -> HeapFile.Open v = (Ret tt, set_page_ids (opened kHeap d).2 v).
Proof. intros H. unfold HeapFile.Open, NumPagesOnDisk. by rewrite H. Qed.

Lemma tree_opens d v : v_pool v = mkPool d ∅ ∅ ∅ -> v_page_ids v = [] -> next_page_id_ d <> 0 ->
  BTree.Open v = (Ret tt, set_page_ids (opened kIndex d).2 v).
Proof.
  intros H Hi Hn. unfold BTree.Open, NumPagesOnDisk, mbind, M_bind, gets. rewrite H. cbn. unfold NumPages.
  destruct (Z.eqb_spec (next_page_id_ d) 0); [done|]. destruct v. cbn in *. by subst.
Qed.

End Attach.

(** ** The same tables under the schema read back *)

Lemma find_filter {A} (p q : A -> bool) l : List.find (fun x => p x && q x) l = List.find q (List.filter p l).
Proof. induction l as [|x l IH]; [done|]. cbn. destruct (p x); cbn; [by destruct (q x)|done]. Qed.

Lemma PrimaryKeyIndex_on_table c t : PrimaryKeyIndex c t = List.find ix_is_primary_key (IndexesOnTable c t).
Proof. apply find_filter. Qed.

Lemma regrouped_tables th dir_path c w T n : tables_in th c w T n -> tables_in th (regrouped dir_path c) w T n.
Proof.
  intros [Hc (d & Hs & HT)]. destruct (regrouped_indexes dir_path c Hc) as [_ Hi]. split; [by apply regrouped_ok|]. exists d. split; [done|].
  intros t Ht. destruct (HT t Ht) as [[S1 S2 S3] Hpk]. split.
  - split; [done|done|]. intros i. rewrite Hi. apply S3.
  - unfold pk_distinct in *. by rewrite PrimaryKeyIndex_on_table, Hi, <- PrimaryKeyIndex_on_table.
Qed.

Lemma regrouped_ids dir_path c oid : catalog_ok c -> oid ∈ object_ids (regrouped dir_path c) <-> oid ∈ object_ids c.
Proof.
  intros Hc. destruct (regrouped_indexes dir_path c Hc) as [Hp _]. unfold object_ids. by rewrite !elem_of_app, Hp.
Qed.

(** ** The constructor *)

(** No page of [content] is beyond what leaves room for [n] insertions. *)
Definition content_room (content : PageKey -> option Page) (ids : list ObjectId) (n : nat) : Prop :=
  forall oid, oid ∈ ids -> exists m, (forall q, is_Some (content (mkPageKey oid q)) -> q < m) /\ 0 <= m /\ m + 7 * Z.of_nat n < 2 ^ 32.

Section Constructor.
Context (th : ThreadId) (c : Catalog) (w : World) (T : contents) (n0 : nat) (HT : tables_in th c w T n0).
Context (content : PageKey -> option Page) (Hext : extends (mem_of w) content).

(** The objects of the schema over the recovered files. *)
Lemma attach_all_run (ds : disks) db :
  (forall oid d, ds !! oid = Some d -> disk_wf d) -> (forall oid, oid ∈ object_ids c -> is_Some (ds !! oid)) ->
  (forall k, page_of ds k = content k) -> buffer_pools_ (world db) = ∅ ->
  exists db', attach_all th c ds db = (Ret tt, db') /\ store db' = store db /\ unopened db' = unopened db /\
    world db' = set_buffer_pools (buffer_pools_ (world db')) (world db) /\
    (forall oid, is_Some (objects_ db' !! oid) <-> oid ∈ object_ids c \/ is_Some (objects_ db !! oid)) /\
    forall oid, buffer_pools_ (world db') !! oid =
      if decide (oid ∈ (ix_object_id <$> indexes_ c)) then opened kIndex <$> ds !! oid else
      if decide (oid ∈ (tb_heap_object_id <$> tables_ c)) then opened kHeap <$> ds !! oid else None.
Proof.
  intros Hwf Hdom Hp Hempty. pose proof HT as [Hc (d0 & Hst & HTs)].
  destruct (attach_list th kHeap HeapFile.Open tb_heap_object_id (tables_ c) ds db) as (db1 & H1 & A1).
  { intros t Ht. destruct (Hdom (tb_heap_object_id t)) as [d Hd]; [apply elem_of_app; left; by apply list_elem_of_fmap_2|].
    exists d. split; [done|]. intros v Hv _. by apply heap_opens. }
  destruct (attach_list th kIndex BTree.Open ix_object_id (indexes_ c) ds db1) as (db2 & H2 & A2).
  { intros i Hi. destruct (Hdom (ix_object_id i)) as [d Hd]; [apply elem_of_app; right; by apply list_elem_of_fmap_2|].
    exists d. split; [done|]. intros v Hv Hids. apply tree_opens; [done..|].
    destruct (index_table c i Hc Hi) as (t & Ht & Hit). destruct (HTs t Ht) as [Hsd _]. destruct (sd_index _ _ _ _ Hsd i Hit) as (es & Hes & _).
    destruct (st_tree _ _ _ _ Hst _ _ Hes) as (o & Ho & [_ (hp & root & Hhp & _)]).
    assert (content (mkPageKey (ix_object_id i) 0) = Some hp) as Hcp.
    { eapply extends_Some; [exact Hext|]. rewrite (mem_of_object _ _ _ _ Ho). exact Hhp. }
    rewrite <- Hp in Hcp. unfold page_of in Hcp. cbn in Hcp. rewrite Hd in Hcp. cbn in Hcp. apply disk_page_range in Hcp. lia. }
  exists db2. split_and!.
  - unfold attach_all. by run H1.
  - by rewrite (at_store _ _ _ _ _ A2), (at_store _ _ _ _ _ A1).
  - by rewrite (at_unopened _ _ _ _ _ A2), (at_unopened _ _ _ _ _ A1).
  - by rewrite (at_world _ _ _ _ _ A2), (at_world _ _ _ _ _ A1).
  - intros oid. rewrite (at_kinds _ _ _ _ _ A2), (at_kinds _ _ _ _ _ A1). unfold object_ids. rewrite elem_of_app.
    repeat case_decide; cbn; (split; [try tauto|intros [?|?]; try tauto; eauto]).
  - intros oid. rewrite (at_pools _ _ _ _ _ A2), (at_pools _ _ _ _ _ A1), Hempty, lookup_empty. done.
Qed.

(** Its objects are ready, and their pages are those of [content]. *)
Lemma attached_ready (ds : disks) w' n :
  (forall oid d, ds !! oid = Some d -> disk_wf d) -> (forall oid, oid ∈ object_ids c <-> is_Some (ds !! oid)) ->
  (forall k, page_of ds k = content k) -> current_txn w' = ∅ -> content_room content (object_ids c) n ->
  (forall oid, buffer_pools_ w' !! oid =
      if decide (oid ∈ (ix_object_id <$> indexes_ c)) then opened kIndex <$> ds !! oid else
      if decide (oid ∈ (tb_heap_object_id <$> tables_ c)) then opened kHeap <$> ds !! oid else None) ->
  tables_in th c w' T n.
Proof.
  intros Hwf Hdom Hp Hcur Hroom Hb. pose proof HT as [Hc _]. pose proof (co_ids _ Hc) as Hnd. apply NoDup_app in Hnd as (_ & Hnd & _).
  assert (forall oid o, buffer_pools_ w' !! oid = Some o -> exists k d, ds !! oid = Some d /\ o = opened k d) as Hobj.
  { intros oid o. rewrite Hb. repeat case_decide; try done; destruct (ds !! oid) as [d|]; try done; intros [= <-]; eauto. }
  assert (forall k, mem_of w' k = content k) as Hmem.
  { intros k. rewrite <- Hp. unfold mem_of, page_of. rewrite Hb.
    repeat case_decide; try (by destruct (ds !! key_object k)). cbn. destruct (ds !! key_object k) as [d|] eqn:E; [|done].
    assert (key_object k ∈ object_ids c) as Hin by (apply Hdom; eauto). apply elem_of_app in Hin. tauto. }
  eapply tables_transfer; [exact HT| |].
  - intros k. rewrite Hmem. apply Hext.
  - split.
    + intros oid o Ho. destruct (Hobj oid o Ho) as (k & d & Hd & ->). assert (disk_wf d) as Hw by (by eapply Hwf).
      split; [by apply opened_wf|].
      destruct (Hroom oid) as (m & Hm & Hm0 & Hmn); [apply Hdom; eauto|]. unfold room, BTreeReads.BTreeReads.next. cbn.
      destruct (decide (next_page_id_ d <= m)); [lia|]. assert (next_page_id_ d - 1 < m); [|lia]. apply Hm. rewrite <- Hp. unfold page_of. cbn. rewrite Hd. cbn.
      apply disk_page_is_Some; [done|lia].
    + intros t Ht. assert (tb_heap_object_id t ∈ (tb_heap_object_id <$> tables_ c)) as Hin by (by apply list_elem_of_fmap_2).
      destruct (proj1 (Hdom (tb_heap_object_id t))) as [d Hd]; [apply elem_of_app; by left|].
      exists (opened kHeap d). rewrite Hb, decide_False by (by apply Hnd). rewrite decide_True, Hd by done. done.
    + intros i Hi. assert (ix_object_id i ∈ (ix_object_id <$> indexes_ c)) as Hin by (by apply list_elem_of_fmap_2).
      destruct (proj1 (Hdom (ix_object_id i))) as [d Hd]; [apply elem_of_app; by right|]. rewrite Hb, decide_True, Hd by done. eauto.
    + apply calm_none. by rewrite Hcur, lookup_empty.
Qed.

End Constructor.

(** ** The schema read back *)

Lemma regrouped_text dir_path c : catalog_ok c -> catalog_text (regrouped dir_path c) = catalog_text c.
Proof.
  intros Hc. destruct (regrouped_indexes dir_path c Hc) as [_ Hi]. unfold catalog_text. do 3 f_equal. change (tables_ (regrouped dir_path c)) with (tables_ c).
  f_equal. apply list_fmap_ext. intros j t _. unfold table_text. by rewrite Hi.
Qed.

Lemma regrouped_storable dir_path c : storable c -> storable (regrouped dir_path c).
Proof. intros [H1 H2 H3]. split; [by apply regrouped_ok|exact H2|exact H3]. Qed.

Lemma held_absent objs ds oid :
  held_by objs ds -> (forall oid d, ds !! oid = Some d -> disk_wf d) -> (forall q, page_of ds (mkPageKey oid q) = None) -> default [] (objs !! oid) = [].
Proof.
  intros Hh Hwf Hno. rewrite Hh. destruct (ds !! oid) as [d|] eqn:Ed; [|done]. cbn. pose proof (Hwf _ _ Ed) as [Hn Hb Hp].
  assert (zlen (DiskManager.file d) = 0) as Hz; [|by destruct (DiskManager.file d)].
  destruct (decide (zlen (DiskManager.file d) = 0)); [done|]. exfalso. specialize (Hno 0). unfold page_of in Hno. cbn in Hno. rewrite Ed in Hno. cbn in Hno.
  assert (is_Some (disk_page d 0)) as [p Hp']; [apply disk_page_is_Some; [by split|unfold zlen in *; lia]|congruence].
Qed.

(** The directory holds the schema: the metadata file, or none yet when there
    is nothing in the schema. *)
Definition holds_schema (d : Dir) (c : Catalog) : Prop :=
  match meta d with
  | Some f => Catalog.contents f = catalog_text c
  | None => c = empty_catalog (dir_path_ c)
  end.

Lemma holds_text d c : meta_text d = Some (catalog_text c) -> holds_schema d c.
Proof. unfold meta_text, holds_schema. destruct (meta d); [|done]. by intros [= ->]. Qed.

Lemma holds_open d c dir_path : storable c -> holds_schema d c -> OpenCatalog true dir_path d = Ret (regrouped dir_path c).
Proof.
  intros Hst. unfold holds_schema, OpenCatalog. destruct (meta d) as [f|]; [intros ->; by apply Load_text|]. by intros ->.
Qed.

Lemma crash_holds d d' c : meta_durable d -> crash_dir d d' -> holds_schema d c -> holds_schema d' c.
Proof.
  intros Hd Hcr. pose proof (crash_durable _ _ Hd Hcr) as Ht. unfold meta_text, holds_schema in *.
  destruct (meta d), (meta d'); try done. injection Ht as ->. done.
Qed.

Lemma regrouped_holds d c dir_path : catalog_ok c -> holds_schema d c -> holds_schema d (regrouped dir_path c).
Proof. intros Hc. unfold holds_schema. destruct (meta d) as [f|]; [by rewrite regrouped_text|]. by intros ->. Qed.

(** The data files as opened: those of the schema, with the pages the crash left. *)
Record opens_as (c : Catalog) (dir_path : bytes) (fs : Files) (ds ds1 : disks) : Prop := mkOpensAs {
  oa_open : open_files (f_objects fs) (object_ids (regrouped dir_path c)) = Ret ds1;
  oa_wf oid d : ds1 !! oid = Some d -> disk_wf d;
  oa_dom oid : oid ∈ object_ids (regrouped dir_path c) <-> is_Some (ds1 !! oid);
  oa_pages k : page_of ds1 k = page_of ds k
}.

(** The data files of objects outside the schema are empty or not there. *)
Definition no_leftovers (c : Catalog) (fs : Files) : Prop := forall oid, ~ (oid ∈ object_ids c) -> default [] (f_objects fs !! oid) = [].

Lemma files_open c dir_path fs ds :
  catalog_ok c -> held_by (f_objects fs) ds -> (forall oid d, ds !! oid = Some d -> disk_wf d) ->
  (forall k, is_Some (page_of ds k) -> key_object k ∈ object_ids c) -> exists ds1, opens_as c dir_path fs ds ds1 /\ no_leftovers c fs.
Proof.
  intros Hc Hheld Hwf Hids. destruct (open_files_run (f_objects fs) (object_ids (regrouped dir_path c)) ds Hwf Hheld) as (ds1 & Hof & Hds1).
  exists ds1. split; [split; [done|..]|].
  - intros oid d. rewrite Hds1. case_decide; [|done]. intros [= <-]. destruct (ds !! oid) as [d|] eqn:E; cbn; [by eapply Hwf|apply empty_disk_wf].
  - intros oid. rewrite Hds1. case_decide; split; eauto; [done|intros [? ?]; done].
  - eapply opened_pages; [exact Hds1|]. intros k Hk. by apply regrouped_ids, Hids.
  - intros oid Hoid. eapply held_absent; [done..|]. intros q. destruct (page_of ds (mkPageKey oid q)) eqn:E; [|done].
    destruct Hoid. apply (Hids (mkPageKey oid q)). eauto.
Qed.

(** What the constructor makes of the files, before any statement. *)
Record opened_database (c : Catalog) (fs : Files) (db : Database) : Prop := mkOpenedDatabase {
  od_store : store db = mkStore c (f_catalog fs);
  od_unopened : unopened db = filter (fun x => ~ (x.1 ∈ object_ids c)) (f_objects fs);
  od_world : world db = set_buffer_pools (buffer_pools_ (world db)) (OpenTransactionManager (OpenLogManager (f_wal fs)));
  od_pools oid o : buffer_pools_ (world db) !! oid = Some o -> oid ∈ object_ids c /\ exists k d, o = opened k d /\ disk_wf d;
  od_kinds oid : is_Some (objects_ db !! oid) <-> is_Some (buffer_pools_ (world db) !! oid);
  od_log : log_holds (OpenLogManager (f_wal fs)) (records_on_open_ (OpenLogManager (f_wal fs)));
  od_settled : settled (records_on_open_ (OpenLogManager (f_wal fs))) (disks_of (world db))
}.

Lemma open_run th c w T n0 n content dir_path fs ds ds1 :
  storable c -> holds_schema (f_catalog fs) c -> opens_as c dir_path fs ds ds1 -> recovers_to (f_wal fs) ds1 content ->
  tables_in th c w T n0 -> extends (mem_of w) content -> content_room content (object_ids c) n ->
  exists db, OpenDatabase th true dir_path fs = Ret db /\ opened_database (regrouped dir_path c) fs db /\
    tables_in th (regrouped dir_path c) (world db) T n.
Proof.
  intros Hst Hmeta [Hof Hwf1 Hdom1 Hp1] (Hlog & m & ds2 & Hrun & Hset & Hp2) HT Hext Hroom. pose proof (st_ok _ Hst) as Hc. pose proof (rc_disks _ _ _ (proj1 Hset)) as Hwf2. set (c' := regrouped dir_path c) in *.
  pose proof (regrouped_tables th dir_path c w T n0 HT) as HT'. fold c' in HT'.
  assert (OpenCatalog true dir_path (f_catalog fs) = Ret c') as Hopen.
    by apply holds_open.
  assert (forall oid, oid ∈ object_ids c' <-> is_Some (ds2 !! oid)) as Hdom2 by (intros oid; by rewrite (RunRecovery_dom _ _ _ _ oid Hrun)).
  set (db0 := mkDatabase (mkStore c' (f_catalog fs)) (OpenTransactionManager (OpenLogManager (f_wal fs))) ∅
    (filter (fun x => ~ (x.1 ∈ object_ids c')) (f_objects fs))).
  destruct (attach_all_run th c' w T n0 HT' content Hext ds2 db0) as (db & Hatt & Hstore & Hun & Hworld & Hkinds & Hpools); [done|by intros oid; rewrite Hdom2|done|done|].
  exists db. split_and!.
  - unfold OpenDatabase. rewrite Hopen. cbn [mbind outcome_bind]. fold (object_ids c'). rewrite Hof. cbn [mbind outcome_bind].
    rewrite Hrun. cbn [mbind outcome_bind]. fold db0. by rewrite Hatt.
  - split; [by rewrite Hstore|by rewrite Hun|done|..].
    + intros oid o. rewrite Hpools. destruct (ds2 !! oid) as [d|] eqn:Ed; [|by repeat case_decide].
      assert (oid ∈ object_ids c' /\ disk_wf d) as [Hin Hd] by (split; [apply Hdom2; eauto|by eapply Hwf2]).
      case_decide; [intros [= <-]; eauto|]. case_decide; [intros [= <-]; eauto|done].
    + intros oid. rewrite Hkinds. unfold db0. cbn [objects_]. rewrite lookup_empty, Hpools. unfold object_ids at 1. rewrite elem_of_app. split.
      * intros [Hin|[k Hk]]; [|done]. destruct (proj1 (Hdom2 oid)) as [d ->]; [by apply elem_of_app|].
        case_decide; [cbn; eauto|]. case_decide; [cbn; eauto|tauto].
      * left. repeat case_decide; [tauto..|by destruct H].
    + exact Hlog.
    + assert (disks_of (world db) = ds2) as ->; [|exact Hset]. apply map_eq. intros oid. rewrite disks_of_lookup, Hpools.
      destruct (ds2 !! oid) as [d|] eqn:Ed; [|by repeat case_decide]. assert (oid ∈ object_ids c') as Hin by (apply Hdom2; eauto).
      apply elem_of_app in Hin. repeat case_decide; [done..|tauto].
  - eapply (attached_ready th c' w T n0 HT' content Hext ds2); [done..|by rewrite Hworld| |done].
    intros oid Hoid. apply Hroom. by apply (regrouped_ids dir_path).
Qed.

(** ** After a crash *)

(** The schema is on disk. *)
Record schema_saved (db : Database) : Prop := mkSchemaSaved {
  ss_storable : storable (GetCatalog db);
  ss_durable : meta_durable (dir (store db));
  ss_text : holds_schema (dir (store db)) (GetCatalog db)
}.

(** What a crash can leave of the database directory, with world [w]: any
    prefix of the bytes of [wal.log] and [catalog.meta] past the last [fsync],
    and the data files as written, except possibly one page. *)
Record crash_files (db : Database) (w : World) (torn : option PageKey) (fs : Files) : Prop := mkCrashFiles {
  cs_catalog : crash_dir (dir (store db)) (f_catalog fs);
  cs_disks : exists ds, crash_of w torn (f_wal fs) ds /\ held_by (f_objects fs) ds
}.

(** What the constructor makes of the directory: the schema, as it is on disk,
    the tables, and no file but those of the schema. *)
Record reopened_as (th : ThreadId) (c : Catalog) (fs : Files) (T : contents) (n : nat) (db : Database) : Prop := mkReopenedAs {
  ra_database : opened_database c fs db;
  ra_saved : schema_saved db;
  ra_fresh oid : ~ (oid ∈ object_ids c) -> default [] (f_objects fs !! oid) = [];
  ra_tables : tables_in th c (world db) T n
}.

(** The crash lost nothing of the tables. *)
Definition reopens (th : ThreadId) (dir_path : bytes) (fs : Files) (c : Catalog) (T : contents) (n : nat) : Prop :=
  exists db, OpenDatabase th true dir_path fs = Ret db /\ GetCatalog db = regrouped dir_path c /\
    reopened_as th (regrouped dir_path c) fs T n db.

Lemma reopen_run th c w T n0 n content dir_path d fs ds ds1 :
  storable c -> meta_durable d -> holds_schema d c -> crash_dir d (f_catalog fs) -> opens_as c dir_path fs ds ds1 -> no_leftovers c fs ->
  recovers_to (f_wal fs) ds1 content -> tables_in th c w T n0 -> extends (mem_of w) content -> content_room content (object_ids c) n ->
  reopens th dir_path fs c T n.
Proof.
  intros H1 Hmd Hmt Hcat H3 Hno H4 H5 H6 H7. assert (holds_schema (f_catalog fs) c) as H2 by (by eapply crash_holds).
  destruct (open_run th c w T n0 n content dir_path fs ds ds1 H1 H2 H3 H4 H5 H6 H7) as (db & Ho & Hd & HT).
  assert (GetCatalog db = regrouped dir_path c) as Hg by (by unfold GetCatalog; rewrite (od_store _ _ _ Hd)).
  exists db. split_and!; [done..|]. split; [done| | |done].
  - split; rewrite ?Hg, ?(od_store _ _ _ Hd); [by apply regrouped_storable|by eapply crash_meta_durable|]. apply regrouped_holds; [apply H1|done].
  - intros oid Hoid. apply Hno. intros Hin. apply Hoid. by apply regrouped_ids; [apply H1|].
Qed.

(** The room the tables have is that of their pages. *)
Lemma tables_room th c w T n content :
  tables_in th c w T n -> (forall oid o, buffer_pools_ w !! oid = Some o -> pool_wf o.1) ->
  (forall oid, oid ∈ object_ids c -> is_Some (buffer_pools_ w !! oid)) ->
  (forall k, is_Some (content k) -> is_Some (mem_of w k)) -> content_room content (object_ids c) n.
Proof.
  intros HT Hwf Hreg Hm oid Hoid. destruct (Hreg oid Hoid) as [o Ho]. exists (next_page_id_ (disk_manager_ o.1)).
  pose proof (Hwf _ _ Ho) as Hw. pose proof (or_pools _ _ _ _ (tables_ready th c w T n HT Hwf) oid o Ho) as [_ Hroom].
  split_and!; [|pose proof (dw_next _ (pw_disk _ Hw)); unfold zlen in *; lia|exact Hroom].
  intros q Hq%Hm. rewrite (mem_of_object _ _ _ _ Ho) in Hq. apply mem_page_some in Hq; [lia|done].
Qed.

Lemma tables_registered th c w T n oid : tables_in th c w T n -> oid ∈ object_ids c -> is_Some (buffer_pools_ w !! oid).
Proof.
  intros [Hc (d & Hs & HT)] Hoid. apply elem_of_app in Hoid as [(t & -> & Ht)%list_elem_of_fmap|(i & -> & Hi)%list_elem_of_fmap].
  - destruct (st_heap _ _ _ _ Hs _ _ (stored_of_heap c d t T HT Ht)) as (o & Ho & _). eauto.
  - destruct (index_table c i Hc Hi) as (t & Ht & Hit). destruct (HT t Ht) as [Hst _].
    destruct (sd_index _ _ _ _ Hst i Hit) as (es & Hes & _). destruct (st_tree _ _ _ _ Hs _ _ Hes) as (o & Ho & _). eauto.
Qed.

Lemma pages_registered w k : is_Some (page_of (disks_of w) k) -> is_Some (buffer_pools_ w !! key_object k).
Proof. intros [p Hp]. unfold page_of in Hp. rewrite disks_of_lookup in Hp. destruct (buffer_pools_ w !! key_object k); [eauto|done]. Qed.

(** Between statements, any crash can be reopened. *)
Lemma serving_reopens th c db T n dir_path fs :
  serving th c db T n -> schema_saved db -> crash_files db (world db) None fs -> reopens th dir_path fs c T n.
Proof.
  intros [Hc Hid HT Hreg] [Hst Hmd Hmt] [Hcat (ds & Hcr & Hheld)]. rewrite Hc in *. pose proof Hid as [[rs Hs] _ _ _].
  assert (forall oid o, buffer_pools_ (world db) !! oid = Some o -> pool_wf o.1) as Hpools by (intros oid o Ho; exact (sys_pools _ _ _ _ Hs Ho)).
  destruct Hcr as [Hlog Hwf Hpg]. assert (forall k, page_of ds k = page_of (disks_of (world db)) k) as Hds by (intros k; by destruct (Hpg k) as [?|[? _]]).
  destruct (files_open c dir_path fs ds (st_ok _ Hst) Hheld Hwf) as (ds1 & Ho & Hno).
  { intros k Hk. apply Hreg, pages_registered. by rewrite <- Hds. }
  eapply (reopen_run th c (world db) T n n (page_of (disks_of (world db)))); [done|exact Hmd|exact Hmt|exact Hcat|exact Ho|exact Hno|..].
  - apply (recovers_quiet (log_manager_ (world db)) rs); [apply (so_world _ _ Hs)|by apply (wo_quiet _ _ (so_world _ _ Hs))|done|apply Ho|].
    intros k. by rewrite (oa_pages _ _ _ _ _ Ho), Hds.
  - exact HT.
  - intros k. left. by rewrite (idle_mem _ k Hid).
  - eapply tables_room; [exact HT|done|intros oid; by eapply tables_registered|]. intros k. by rewrite (idle_mem _ k Hid).
Qed.

(** *** Before the first checkpoint *)

Lemma opened_records data :
  log_holds (OpenLogManager data) (records_on_open_ (OpenLogManager data)) ->
  forall data', crash_wal (OpenLogManager data) data' -> records_on_open_ (OpenLogManager data') = records_on_open_ (OpenLogManager data).
Proof.
  intros H data' Hcr. eapply reopen_synced; [exact H| |exact Hcr]. unfold OpenLogManager. by destruct (scan _ _ _ _).
Qed.

(** What is true of a database just opened, whatever its log holds. *)
Lemma opened_clean c fs db : catalog_ok c -> opened_database c fs db ->
  (forall oid o, buffer_pools_ (world db) !! oid = Some o -> pool_wf o.1 /\ 0 <= oid < 2 ^ 32 /\ observers_by_thread_ o.1 = ∅) /\
  forall k, mem_of (world db) k = page_of (disks_of (world db)) k.
Proof.
  intros Hc Hd. assert (forall oid o, buffer_pools_ (world db) !! oid = Some o -> oid ∈ object_ids c /\ exists k d, o = opened k d /\ disk_wf d) as Hp by apply (od_pools _ _ _ Hd).
  split.
  - intros oid o [Hin (k & d & -> & Hwf)]%Hp. pose proof (co_bound _ Hc) as Hb. rewrite Forall_forall in Hb.
    specialize (Hb _ Hin). cbn in Hb. pose proof (co_next _ Hc). split_and!; [by apply opened_wf|lia|lia|done].
  - intros k. unfold mem_of, page_of. rewrite disks_of_lookup. destruct (buffer_pools_ (world db) !! key_object k) as [o|] eqn:Ho; [|done].
    destruct (Hp _ _ Ho) as [_ (kd & d & -> & _)]. cbn. unfold mem_page, opened. cbn. by rewrite lookup_empty.
Qed.

(** A process that dies before its first checkpoint is followed by one that
    finds the same tables: recovery has been done and is done again. *)
Lemma reopened_reopens th c fs T n db dir_path fs' :
  reopened_as th c fs T n db -> crash_files db (world db) None fs' -> reopens th dir_path fs' c T n.
Proof.
  intros [Hd [Hst Hmd Hmt] _ HT] [Hcat (ds & [Hwal Hwf Hpg] & Hheld)]. pose proof (proj1 HT) as Hok.
  assert (GetCatalog db = c) as Hc by (unfold GetCatalog; by rewrite (od_store _ _ _ Hd)). rewrite Hc in *.
  destruct (opened_clean c fs db Hok Hd) as [Hp Hm].
  assert (forall oid o, buffer_pools_ (world db) !! oid = Some o -> pool_wf o.1) as Hpools by (intros oid o Ho; apply (Hp _ _ Ho)).
  assert (forall k, page_of ds k = page_of (disks_of (world db)) k) as Hds by (intros k; by destruct (Hpg k) as [?|[? _]]).
  assert (forall k, is_Some (page_of ds k) -> key_object k ∈ object_ids c) as Hin.
  { intros k Hk. rewrite Hds in Hk. apply pages_registered in Hk as [o Ho]. by apply (od_pools _ _ _ Hd) in Ho as [? _]. }
  destruct (files_open c dir_path fs' ds Hok Hheld Hwf Hin) as (ds1 & Ho & Hno).
  pose proof (od_world _ _ _ Hd) as Hw. rewrite Hw in Hwal. cbn in Hwal.
  eapply (reopen_run th c (world db) T n n (page_of (disks_of (world db)))); [done|exact Hmd|exact Hmt|exact Hcat|exact Ho|exact Hno|..].
  - split; [eapply reopened_log; [apply (od_log _ _ _ Hd)|exact Hwal]|]. rewrite (opened_records _ (od_log _ _ _ Hd) _ Hwal).
    apply recover_old; [apply (od_settled _ _ _ Hd)|apply Ho|]. intros k. by rewrite (oa_pages _ _ _ _ _ Ho), Hds.
  - exact HT.
  - intros k. left. by rewrite Hm.
  - eapply tables_room; [exact HT|done|intros oid; by eapply tables_registered|]. intros k. by rewrite Hm.
Qed.

(** ** A crash that brings an older schema back *)

(** The constructor makes of the files a database with this schema, these
    rows, and room for [n] insertions. *)
Definition opens_with (th : ThreadId) (dir_path : bytes) (fs : Files) (c : Catalog) (T : contents) (n : nat) : Prop :=
  exists db, OpenDatabase th true dir_path fs = Ret db /\ GetCatalog db = regrouped dir_path c /\ schema_saved db /\
    tables_in th (regrouped dir_path c) (world db) T n.

Lemma open_files_ext objs1 objs2 ids :
  (forall id, id ∈ ids -> default [] (objs1 !! id) = default [] (objs2 !! id)) -> open_files objs1 ids = open_files objs2 ids.
Proof.
  induction ids as [|id ids IH]; intros H; [done|]. cbn. unfold open_file. rewrite (H id) by (by left).
  rewrite IH; [done|]. intros i Hi. apply H. by right.
Qed.

Definition restricted {A} (ids : list ObjectId) (m : gmap ObjectId A) : gmap ObjectId A := filter (fun x => x.1 ∈ ids) m.

Lemma restricted_lookup {A} ids (m : gmap ObjectId A) oid : restricted ids m !! oid = if decide (oid ∈ ids) then m !! oid else None.
Proof.
  unfold restricted. rewrite map_lookup_filter. destruct (m !! oid); cbn; [|by case_decide]. case_decide; case_guard; done.
Qed.

(** The files of the objects of [c] are as a crash of [db] leaves them; there
    may be others. *)
Lemma serving_opens_with th c db T n w' dir_path fs :
  serving th c db T n -> schema_saved db -> crash_dir (dir (store db)) (f_catalog fs) ->
  log_manager_ w' = log_manager_ (world db) -> (forall oid, oid ∈ object_ids c -> disks_of w' !! oid = disks_of (world db) !! oid) ->
  (exists ds, crash_of w' None (f_wal fs) ds /\ held_by (f_objects fs) ds) -> opens_with th dir_path fs c T n.
Proof.
  intros [Hc Hid HT Hreg] [Hst Hmd Hmt] Hcat Hlog Hold (ds & [Hwal Hwf Hpg] & Hheld). rewrite Hc in *. pose proof Hid as [[rs Hs] _ _ _].
  pose proof (st_ok _ Hst) as Hok. set (ids := object_ids c) in *.
  assert (forall oid o, buffer_pools_ (world db) !! oid = Some o -> pool_wf o.1) as Hpools by (intros oid o Ho; exact (sys_pools _ _ _ _ Hs Ho)).
  assert (forall k, page_of (restricted ids ds) k = page_of (disks_of (world db)) k) as Hds.
  { intros k. unfold page_of at 1. rewrite restricted_lookup. case_decide as Hin.
    - change (page_of ds k = page_of (disks_of (world db)) k). destruct (Hpg k) as [->|[? _]]; [|done]. unfold page_of. by rewrite Hold.
    - destruct (page_of (disks_of (world db)) k) eqn:E; [|done]. destruct Hin. apply Hreg, pages_registered. eauto. }
  destruct (files_open c dir_path (mkFiles (f_catalog fs) (f_wal fs) (restricted ids (f_objects fs))) (restricted ids ds) Hok) as (ds1 & [O1 O2 O3 O4] & _).
  - intros oid. cbn [f_objects]. rewrite !restricted_lookup. case_decide; [apply Hheld|done].
  - intros oid d. rewrite restricted_lookup. case_decide; [apply Hwf|done].
  - intros k Hk. apply Hreg, pages_registered. by rewrite <- Hds.
  - assert (opens_as c dir_path fs (restricted ids ds) ds1) as Ho.
    { split; [|done..]. rewrite <- O1. apply open_files_ext. intros oid Hin. cbn [f_objects]. rewrite restricted_lookup, decide_True; [done|].
      by apply (regrouped_ids dir_path). }
    destruct (open_run th c (world db) T n n (page_of (disks_of (world db))) dir_path fs (restricted ids ds) ds1) as (db2 & Hopen & Hd & HT2); try done.
    + by eapply crash_holds.
    + rewrite Hlog in Hwal. apply (recovers_quiet (log_manager_ (world db)) rs); [apply (so_world _ _ Hs)|by apply (wo_quiet _ _ (so_world _ _ Hs))|done|exact O2|].
      intros k. by rewrite O4, Hds.
    + intros k. left. by rewrite (idle_mem _ k Hid).
    + eapply tables_room; [exact HT|done|intros oid; by eapply tables_registered|]. intros k. by rewrite (idle_mem _ k Hid).
    + assert (GetCatalog db2 = regrouped dir_path c) as Hg by (by unfold GetCatalog; rewrite (od_store _ _ _ Hd)).
      exists db2. split_and!; [done..| |done]. split; rewrite ?Hg, ?(od_store _ _ _ Hd); [by apply regrouped_storable|by eapply crash_meta_durable|].
      apply regrouped_holds; [done|]. by eapply crash_holds.
Qed.
