(* ===== verification/Durability.v ===== *)
(** * Durability: statements and transactions under crashes

    The contract of the whole engine, for one session at a time: a statement
    outside a transaction, and a BEGIN ... COMMIT or ROLLBACK around several,
    do all of their work or none, and what was acknowledged survives any
    crash: the files it leaves open again with the tables it promised. *)
From S2P Require Import Prelude Config DiskManager BufferPool LockManager LogManager Recovery TransactionManager CrashSafety TxnSystem.
From S2P Require Import Storage Text Catalog Ast Planner Executor Query Tables Statements Update Select WorldStorage WorldTables Database Session Autocommit Reopen.

(** ** A crash during the commit *)

Section Crash.
Context (th : ThreadId) (c : Catalog) (t : TxnId) (rs : list LogRecord) (wb w : World) (Hcf : can_finish th t rs wb w).
Context (T0 : contents) (n0 : nat) (HT0 : tables_in th c wb T0 n0) (T : contents) (n : nat) (HT : tables_in th c w T n).
Context (Hreg : forall oid, is_Some (buffer_pools_ w !! oid) -> oid ∈ object_ids c).

Lemma finish_committable : committable th t w.
Proof.
  apply (sys_committable _ _ _ _ (it_ok _ _ _ _ _ (cf_txn _ _ _ _ _ Hcf)) (it_current _ _ _ _ _ (cf_txn _ _ _ _ _ Hcf))).
  by eapply finish_lsn.
Qed.

Lemma finish_pools oid o : buffer_pools_ w !! oid = Some o -> pool_wf o.1.
Proof. apply (sys_pools w rs). apply Hcf. Qed.

Lemma disk_in_mem k : is_Some (page_of (disks_of w) k) -> is_Some (mem_of w k).
Proof.
  intros [p Hp]. unfold page_of in Hp. rewrite disks_of_lookup in Hp. unfold mem_of. destruct (buffer_pools_ w !! key_object k) as [o|]; [|done].
  cbn in *. unfold mem_page. destruct (pages_ o.1 !! key_page k); eauto.
Qed.

(** The committed pages are those in memory. *)
Lemma overwrite_mem k : overwrite (mem_of w) (commit_keys t w) (disks_of w) k = mem_of w k.
Proof.
  unfold overwrite. case_decide as Hk; [done|]. destruct Hcf as [Hin _ _].
  destruct (so_dirty _ _ (it_ok _ _ _ _ _ Hin) k) as [?|[t' Ht']]; [done|]. exfalso. apply Hk.
  assert (t' = t) as -> by (apply (it_live _ _ _ _ _ Hin); by apply DirtiedPages_lookup in Ht'). by apply elem_of_commit_keys.
Qed.

(** No page the crash leaves is of an unknown object. *)
Lemma crashed_ids m data ds k :
  crash_of (commit_point th t m w).2 (torn_page t m w) data ds -> is_Some (page_of ds k) -> key_object k ∈ object_ids c.
Proof.
  intros [_ _ Hpg] Hk. apply Hreg. assert (forall k', is_Some (mem_of w k') -> is_Some (buffer_pools_ w !! key_object k')) as Hm.
  { intros k' [p Hp]. unfold mem_of in Hp. destruct (buffer_pools_ w !! key_object k'); [eauto|done]. }
  pose proof finish_committable as Hcm. apply Hm. destruct (commit_point_state th t m w rs (so_world _ _ (it_ok _ _ _ _ _ (cf_txn _ _ _ _ _ Hcf))) Hcm)
    as (wn & i & Hpt & _ & _ & _ & Hcase). rewrite Hpt in Hpg. cbn [snd] in Hpg.
  destruct (Hpg k) as [Heq|[Ht _]]; [|by apply (cm_mem _ _ _ Hcm), (torn_page_key t m)]. rewrite Heq in Hk.
  destruct Hcase as [[Hsame _]|(_ & _ & _ & _ & Hd)].
  - rewrite Hsame in Hk. by apply disk_in_mem.
  - destruct (Hd k) as [Hd'|[_ Hd']]; rewrite Hd' in Hk; [by apply disk_in_mem|done].
Qed.

(** What is found depends on how far the commit got. *)
Lemma commit_crash_phase m db dir_path fs :
  GetCatalog db = c -> schema_saved db -> crash_files db (commit_point th t m w).2 (torn_page t m w) fs ->
  exists kept : bool, may_find (commit_phase t w m) kept /\ reopens th dir_path fs c (if kept then T else T0) n.
Proof.
  intros Hc [Hst Hmd Hmt] [Hcat (ds & Hcr & Hheld)]. rewrite Hc in *. pose proof Hcf as [Hin Hbase _].
  pose proof (so_world _ _ (it_ok _ _ _ _ _ Hin)) as Hok. pose proof finish_committable as Hcm.
  destruct (files_open c dir_path fs ds (st_ok _ Hst) Hheld (cr_disks _ _ _ _ Hcr)) as (ds1 & Ho & Hno); [intros k; by eapply crashed_ids|].
  assert (crash_of (commit_point th t m w).2 (torn_page t m w) (f_wal fs) ds1) as Hcr1.
  { destruct Hcr as [H1 H2 H3]. split; [done|apply Ho|]. intros k. rewrite (oa_pages _ _ _ _ _ Ho). apply H3. }
  assert (forall content, (forall k, is_Some (content k) -> is_Some (mem_of w k)) -> content_room content (object_ids c) n) as Hroom.
  { intros content Hm. eapply tables_room; [exact HT|exact finish_pools|intros oid; by eapply tables_registered|done]. }
  assert (forall T1 w1 n1 content, tables_in th c w1 T1 n1 -> extends (mem_of w1) content -> (forall k, is_Some (content k) -> is_Some (mem_of w k)) ->
    recovers_to (f_wal fs) ds1 content -> reopens th dir_path fs c T1 n) as Hend.
  { intros T1 w1 n1 content HT1 Hext Hm Hrec. eapply (reopen_run th c w1 T1 n1 n content); [done|exact Hmd|exact Hmt|done..|by apply Hroom]. }
  destruct (crash_recovers_phase th t m w rs _ ds1 Hok Hcm Hcr1) as (kept & Hph & Hrec). exists kept. split; [done|]. destruct kept.
  - apply (Hend T w n (mem_of w)); [done|by left|done|]. eapply recovers_ext; [exact overwrite_mem|exact Hrec].
  - apply (Hend T0 wb n0 (page_of (disks_of w))); [done|..|exact disk_in_mem|done].
    intros k. rewrite Hbase. apply (it_disk _ _ _ _ _ Hin).
Qed.

Lemma commit_crash_reopens m db dir_path fs :
  GetCatalog db = c -> schema_saved db -> crash_files db (commit_point th t m w).2 (torn_page t m w) fs ->
  reopens th dir_path fs c T0 n \/ reopens th dir_path fs c T n.
Proof. intros H1 H2 H3. destruct (commit_crash_phase m db dir_path fs H1 H2 H3) as ([] & _ & H); [by right|by left]. Qed.

End Crash.
(** ** Statements inside a transaction *)

(** What several statements, errors among them, make of the tables. *)
Inductive script_effect (c : Catalog) (T : contents) : list Statement -> list (outcome ExecuteResult) -> contents -> Prop :=
| script_done : script_effect c T [] [] T
| script_step s o T1 l os T2 : statement_effect c T s o T1 -> script_effect c T1 l os T2 -> script_effect c T (s :: l) (o :: os) T2.

(** With room for [N] insertions every statement fits, and room for [n] is left. *)
Fixpoint script_fits (c : Catalog) (T : contents) (l : list Statement) (n N : nat) : Prop :=
  match l with
  | [] => N = n
  | s :: l' => exists m, N = (statement_room c T s + m)%nat /\ statement_fits c T s /\
      forall o T1, statement_effect c T s o T1 -> script_fits c T1 l' n m
  end.

(** One statement after another; the caller sees every answer. *)
Fixpoint Execute_all (th : ThreadId) (env : Env) (l : list Statement) (db : Database) : list (outcome ExecuteResult) * Database :=
  match l with
  | [] => ([], db)
  | s :: l' => let '(o, db1) := Execute th env s db in let '(os, db2) := Execute_all th env l' db1 in (o :: os, db2)
  end.

Section Sessions.
Context (th : ThreadId) (env : Env) (Hframes : (6 <= e_frames env)%nat).

Lemma Execute_joins stmt db t :
  data_statement stmt = true -> current_txn (world db) !! th = Some t ->
  Execute th env stmt db = on_world (run_statement th env (GetCatalog db) stmt) db.
Proof.
  intros Hd Hc. transitivity (ExecuteInCurrentTransaction th env stmt db); [|by apply current_run].
  destruct stmt; try done; cbn; unfold mbind, M_bind, GetCurrentTransaction, gets; by rewrite Hc.
Qed.

Lemma script_run c T l n N t rs wb w db :
  GetCatalog db = c -> script_fits c T l n N -> tables_in th c w T N -> in_txn th t rs wb w ->
  exists os w' T', Execute_all th env l (set_world w db) = (os, set_world w' db) /\ script_effect c T l os T' /\
    tables_in th c w' T' n /\ in_txn th t rs wb w'.
Proof.
  intros Hc. revert T N w. induction l as [|s l IH]; intros T N w Hfit HT Hin; cbn in Hfit.
  - subst N. exists [], w, T. split_and!; [done|constructor|done|done].
  - destruct Hfit as (m & -> & Hfit & Hrest).
    destruct (run_statement_run th env Hframes (in_txn th t rs wb) (in_txn_kept th t rs wb) c w T m s Hfit HT Hin) as (o & w1 & T1 & Hrun & Heff & HT1 & Hin1).
    destruct (IH T1 m w1 (Hrest o T1 Heff) HT1 Hin1) as (os & w' & T' & Hall & Heffs & HT' & Hin').
    exists (o :: os), w', T'. split_and!; [|by econstructor|done|done]. cbn [Execute_all].
    rewrite (Execute_joins s (set_world w db) t) by (by eapply effect_data || apply (it_current _ _ _ _ _ Hin)).
    change (GetCatalog (set_world w db)) with (GetCatalog db). rewrite Hc, (on_world_run _ (set_world w db) _ _ Hrun).
    change (set_world w1 (set_world w db)) with (set_world w1 db). by rewrite Hall.
Qed.

(** BEGIN and the statements after it, up to the end of the transaction. *)
Lemma script_phase c db T l n N :
  serving th c db T N -> script_fits c T l n N -> counters_ok (world db) ->
  exists t rs w1 os w2 T', Execute th env BeginStmt db = (Ret no_result, set_world w1 db) /\
    Execute_all th env l (set_world w1 db) = (os, set_world w2 db) /\ script_effect c T l os T' /\
    can_finish th t rs w1 w2 /\ tables_in th c w1 T N /\ tables_in th c w2 T' n /\
    dom (buffer_pools_ w2) =@{gset ObjectId} dom (buffer_pools_ (world db)).
Proof.
  intros [Hc Hid HT Hreg] Hfit Hcnt. destruct (begin_idle th c _ _ _ Hid Hcnt HT) as (t & w1 & rs & Hb & Hin & HT1 & Hi1 & Hbase & Hlsn).
  destruct (script_run c T l n N t rs w1 w1 db Hc Hfit HT1 Hin) as (os & w2 & T' & Hall & Heff & HT2 & Hin2).
  exists t, rs, w1, os, w2, T'. split_and!; try done.
  - cbn. unfold ExecuteBegin. by run (on_world_run _ _ _ _ Hb).
  - etrans; [apply (it_dom _ _ _ _ _ Hin2)|by apply ids_dom].
Qed.

(** COMMIT and ROLLBACK. *)
Lemma commit_statement c t rs wb w db T n :
  e_fsync_ok env = true -> GetCatalog db = c -> can_finish th t rs wb w -> tables_in th c w T n ->
  (forall oid, is_Some (buffer_pools_ w !! oid) -> oid ∈ object_ids c) ->
  exists w', Execute th env CommitStmt (set_world w db) = (Ret no_result, set_world w' db) /\ serving th c (set_world w' db) T n.
Proof.
  intros Hfs Hc Hcf HT Hreg. destruct (commit_in_txn th c t rs wb w T n Hcf HT) as (w' & H & Hid & HT' & Hids). exists w'. split.
  - cbn. unfold ExecuteCommit, GetCurrentTransaction. run (gets_run (fun db => current_txn (world db) !! th) (set_world w db)).
    cbn [world set_world]. rewrite (it_current _ _ _ _ _ (cf_txn _ _ _ _ _ Hcf)), Hfs. by run (on_world_run _ (set_world w db) _ _ H).
  - split; [done..|]. eapply registered_same; [by apply ids_dom|exact Hreg].
Qed.

Lemma rollback_statement c t rs wb w db T0 n0 T n :
  GetCatalog db = c -> can_finish th t rs wb w -> tables_in th c wb T0 n0 -> tables_in th c w T n ->
  (forall oid, is_Some (buffer_pools_ w !! oid) -> oid ∈ object_ids c) ->
  exists w', Execute th env RollbackStmt (set_world w db) = (Ret no_result, set_world w' db) /\ serving th c (set_world w' db) T0 n.
Proof.
  intros Hc Hcf HT0 HT Hreg. destruct (abort_in_txn th c t rs wb w T0 n0 T n Hcf HT0 HT) as (w' & H & Hid & HT' & Hids). exists w'. split.
  - cbn. unfold ExecuteRollback, GetCurrentTransaction. run (gets_run (fun db => current_txn (world db) !! th) (set_world w db)).
    cbn [world set_world]. rewrite (it_current _ _ _ _ _ (cf_txn _ _ _ _ _ Hcf)). by run (on_world_run _ (set_world w db) _ _ H).
  - split; [done..|]. eapply registered_same; [by apply ids_dom|exact Hreg].
Qed.

(** ** The contract *)

(** C3: a statement outside a transaction is durable. [Execute] wraps it in a
    transaction of its own: it returns, or throws and changes nothing, the
    tables then are those of the statement's effect, and whatever a crash
    after the answer loses (any unsynced part of the log or of the schema
    file), opening the directory again recovers exactly these tables. *)
Theorem autocommit_durable (c : Catalog) (db : Database) (T : contents) (n : nat) (stmt : Statement) :
  e_fsync_ok env = true -> serving th c db T (statement_room c T stmt + n) -> schema_saved db ->
  statement_fits c T stmt -> counters_ok (world db) ->
  exists o db' T', Execute th env stmt db = (o, db') /\ statement_effect c T stmt o T' /\ serving th c db' T' n /\
    forall dir_path fs, crash_files db' (world db') None fs -> reopens th dir_path fs c T' n.
Proof.
  intros Hfs Hsv Hss Hfit Hcnt. destruct (autocommit_run th env c db T n stmt Hframes Hfs Hsv Hfit Hcnt) as (o & w & T' & H1 & H2 & H3).
  exists o, (set_world w db), T'. split_and!; [done..|]. intros dir_path fs Hcr. by eapply serving_reopens; [exact H3|destruct Hss as [S1 S2 S3]; split|].
Qed.

(** C4: a statement that was not acknowledged is all or nothing. When the
    process dies during the commit of its transaction, after any number of
    its steps (logging a page, the Commit record, the [fsync], writing a page
    back, possibly torn), opening the directory again recovers the tables as
    they were before the statement or as the statement makes them. *)
Theorem autocommit_crash_atomic (c : Catalog) (db : Database) (T : contents) (n : nat) (stmt : Statement) :
  serving th c db T (statement_room c T stmt + n) -> schema_saved db -> statement_fits c T stmt -> counters_ok (world db) ->
  exists t w1 o w2 T', Begin th (world db) = (Ret t, w1) /\ run_statement th env c stmt w1 = (o, w2) /\ statement_effect c T stmt o T' /\
    forall m dir_path fs, crash_files db (commit_point th t m w2).2 (torn_page t m w2) fs ->
      reopens th dir_path fs c T n \/ reopens th dir_path fs c T' n.
Proof.
  intros [Hc Hid HT Hreg] Hss Hfit Hcnt.
  destruct (statement_phase th env c _ T n stmt Hframes Hid Hcnt HT Hfit) as (t & w1 & rs & o & w2 & T' & Hb & Hrun & Heff & Hcf & HT1 & HT2 & Hdom).
  exists t, w1, o, w2, T'. split_and!; [done..|]. intros m dir_path fs Hcr.
  eapply commit_crash_reopens; [exact Hcf|exact HT1|exact HT2| |exact Hc|exact Hss|exact Hcr]. by eapply registered_same.
Qed.

(** C2: a transaction is all or nothing. After BEGIN, any statements that fit
    run in order, each with its effect on what the ones before left, the ones
    that throw changing nothing. COMMIT then makes all of it permanent,
    ROLLBACK undoes all of it; after either, a crash loses nothing of the
    tables that resulted, and a crash during the COMMIT leaves everything the
    transaction did or nothing. *)
Theorem transaction_all_or_nothing (c : Catalog) (db : Database) (T : contents) (l : list Statement) (n N : nat) :
  e_fsync_ok env = true -> serving th c db T N -> schema_saved db -> script_fits c T l n N -> counters_ok (world db) ->
  exists db1 os db2 T', Execute th env BeginStmt db = (Ret no_result, db1) /\ Execute_all th env l db1 = (os, db2) /\ script_effect c T l os T' /\
    (exists db3, Execute th env CommitStmt db2 = (Ret no_result, db3) /\ serving th c db3 T' n /\
       forall dir_path fs, crash_files db3 (world db3) None fs -> reopens th dir_path fs c T' n) /\
    (exists db3, Execute th env RollbackStmt db2 = (Ret no_result, db3) /\ serving th c db3 T n /\
       forall dir_path fs, crash_files db3 (world db3) None fs -> reopens th dir_path fs c T n) /\
    exists t, current_txn (world db2) !! th = Some t /\ forall m dir_path fs,
      crash_files db2 (commit_point th t m (world db2)).2 (torn_page t m (world db2)) fs ->
      reopens th dir_path fs c T n \/ reopens th dir_path fs c T' n.
Proof.
  intros Hfs Hsv Hss Hfit Hcnt. destruct (script_phase c db T l n N Hsv Hfit Hcnt) as (t & rs & w1 & os & w2 & T' & H1 & H2 & H3 & Hcf & HT1 & HT2 & Hdom).
  pose proof Hsv as [Hc _ _ Hreg0]. pose proof (registered_same c _ _ Hdom Hreg0) as Hreg.
  assert (forall w, schema_saved (set_world w db)) as Hss' by (intros w; destruct Hss as [S1 S2 S3]; by split).
  exists (set_world w1 db), os, (set_world w2 db), T'. split_and!; [done..| | |].
  - destruct (commit_statement c t rs w1 w2 db T' n Hfs Hc Hcf HT2 Hreg) as (w3 & H4 & H5). exists (set_world w3 db).
    split_and!; [done..|]. intros dir_path fs Hcr. by eapply serving_reopens.
  - destruct (rollback_statement c t rs w1 w2 db T N T' n Hc Hcf HT1 HT2 Hreg) as (w3 & H4 & H5). exists (set_world w3 db).
    split_and!; [done..|]. intros dir_path fs Hcr. by eapply serving_reopens.
  - exists t. split; [apply (it_current _ _ _ _ _ (cf_txn _ _ _ _ _ Hcf))|]. intros m dir_path fs Hcr.
    eapply commit_crash_reopens; [exact Hcf|exact HT1|exact HT2|exact Hreg| |exact (Hss' w2)|exact Hcr]. exact Hc.
Qed.

End Sessions.
