(* ===== verification/PeopleSessions.v ===== *)
(** * PeopleSessions: sessions on a concrete database

    The database [people_db] is what CREATE TABLE and CREATE INDEX make of an
    empty directory. Statements and transactions run on it, and crashes of it
    are reopened. *)
From stdpp Require Import functions.
From S2P Require Import Prelude Config DiskManager BufferPool LockManager LogManager Recovery TransactionManager CrashSafety TxnSystem BTreeSpec BTreeContract.
From S2P Require Import Storage Text Catalog Ast Planner Executor Query Tables Statements WorldStorage WorldTables People Database Session Autocommit Reopen Durability.

(** Every call succeeds, with the six stack frames a tree needs. *)
Definition calm_env : Env := mkSessionEnv smooth true 6.

Definition no_files : Files := mkFiles (mkDir None None) [] ∅.

Definition make_people : list Statement :=
  [CreateTableStmt (mkCreateTable (str "people") people_columns (Some (str "id")));
   CreateIndexStmt (mkCreateIndex (str "by_age") (str "people") (str "age"))].

Definition people_store : Store := mkStore people (mkDir (Some (mkFile (catalog_text people) (zlen (catalog_text people)))) None).

Definition people_db : Database := mkDatabase people_store people_world (<[0 := kHeap]> (<[1 := kIndex]> {[2 := kIndex]})) ∅.

(** The DDL statements, run on an empty directory. *)
Example people_made :
  exists db, OpenDatabase 0 true (str "db") no_files = Ret db /\ Execute_all 0 calm_env make_people db = ([Ret no_result; Ret no_result], people_db).
Proof. eexists. split; [vm_compute; reflexivity|]. vm_compute. reflexivity. Qed.

Lemma people_idle : idle people_world.
Proof.
  assert (pool_wf (v_pool BTreeContract.fresh_index)) as Ht by apply BTreeContract.fresh_index_ok.
  assert (exists rs, sys_ok people_world rs) as Hs.
  { exists []. assert (forall bp, pool_wf bp -> bp = v_pool HeapFile.HeapFile.empty_view \/ bp = v_pool BTreeContract.fresh_index -> dirty_ bp = ∅ /\ observers_by_thread_ bp = ∅) as Hclean
      by (intros bp _ [->| ->]; split; vm_compute; reflexivity).
    set (tree := v_pool BTreeContract.fresh_index) in *. set (heap := v_pool HeapFile.HeapFile.empty_view) in *.
    assert (pool_wf heap) as Hh by apply HeapFile.HeapFile.empty_view_wf.
    pose proof (register_step_ok 2 tree [] new_world [] new_world_ok eq_refl eq_refl ltac:(done) Ht) as H2.
    destruct (Hclean tree Ht ltac:(by right)) as [Hd Ho]. specialize (H2 Hd Ho). set (w2 := set_buffer_pools _ new_world) in H2.
    pose proof (register_step_ok 1 tree [] w2 [] H2 eq_refl eq_refl ltac:(done) Ht Hd Ho) as H1. set (w1 := set_buffer_pools _ w2) in H1.
    destruct (Hclean heap Hh ltac:(by left)) as [Hd' Ho']. exact (register_step_ok 0 heap [] w1 [] H1 eq_refl eq_refl ltac:(done) Hh Hd' Ho'). }
  split; [exact Hs|done|apply empty_lm_wf|]. intros h k (e & He & _). done.
Qed.

Lemma people_serving n : 1 + 7 * Z.of_nat n < 2 ^ 32 -> serving 0 people people_db (fun _ => []) n.
Proof.
  intros Hn. split; [done|exact people_idle|..].
  - by destruct (proj1 (database_world 0 6 _ _ _ people people_world (fun _ => []) n) (people_empty n Hn)).
  - intros oid Ho. cbn in Ho. rewrite !lookup_insert_is_Some, lookup_empty in Ho.
    destruct Ho as [<-|[_ [<-|[_ [<-|[_ [x Hx]]]]]]]; [by apply (bool_decide_unpack _); vm_compute..|done].
Qed.

Lemma people_saved : schema_saved people_db.
Proof. split; [apply people_storable|by intros f [= <-]|done]. Qed.

(** Losing nothing is a crash too. *)
Definition all_files (db : Database) : Files :=
  mkFiles (dir (store db)) (wal (log_manager_ (world db))) ((fun o => concat (DiskManager.file (disk_manager_ o.1))) <$> buffer_pools_ (world db)).

Lemma all_meta_crash d : meta_durable d -> crash_dir d d.
Proof.
  intros Hd. destruct (meta d) as [f|] eqn:E; [|by apply crash_none]. eapply (crash_some _ _ f f); [done..|].
  split; [by apply Hd|]. exists (length (Catalog.contents f)). rewrite firstn_all. split; [|done]. rewrite (Hd f E). done.
Qed.

Lemma all_files_crash th c db T n : serving th c db T n -> schema_saved db -> crash_files db (world db) None (all_files db).
Proof.
  intros [_ [[rs Hs] _ _ _] _ _] [_ Hd Ht]. split; cbn.
  - apply (all_meta_crash _ Hd).
  - exists (disks_of (world db)). split.
    + split; [|by apply disks_wf, (world_pools_ok _ _ (so_world _ _ Hs))|by left].
      exists (zlen (wal (log_manager_ (world db)))). pose proof (lh_synced _ _ (wo_log _ _ (so_world _ _ Hs))). split; [lia|].
      unfold zlen. rewrite Nat2Z.id. symmetry. apply firstn_all.
    + intros oid. rewrite disks_of_lookup, lookup_fmap. by destruct (buffer_pools_ (world db) !! oid).
Qed.

Definition insert_ann : Statement := InsertStmt (mkInsert (str "people") ann).

Lemma ann_fits T : zlen (T (str "people")) <= 5 -> statement_fits people T insert_ann.
Proof.
  intros HT. split; [by apply literals_wf, (bool_decide_unpack _); vm_compute|]. unfold insert_dups, insert_ann.
  change (FindTable people _) with (Some people_table). cbn [in_values]. change (tb_name people_table) with (str "people").
  apply dups_small. rewrite zlen_app. unfold zlen in *. rewrite length_fmap. cbn [length]. assert (6 <= BTreeNode.BTreeNode.kLeafMaxKeys) by (vm_compute; discriminate). lia.
Qed.

Lemma ann_inserted (T : contents) o T' :
  T (str "people") = [] -> statement_effect people T insert_ann o T' ->
  o = Ret (mkResult [] [] 1) /\ exists rid, T' = <[str "people" := [(rid, ann)]]> T.
Proof.
  intros HT H. change (insert_effect people T (mkInsert (str "people") ann) o T') in H. unfold insert_effect in H.
  change (FindTable people _) with (Some people_table) in H. cbv iota zeta in H. change (tb_name people_table) with (str "people") in H. rewrite HT in H.
  rewrite decide_True in H by (split_and!; [by apply (bool_decide_unpack _); vm_compute..|by vm_compute]).
  destruct H as (-> & rid & _ & ->). split; [done|]. by exists rid.
Qed.

(** INSERT INTO people VALUES (1, 'ann', 30), answered, then a crash. *)
Lemma autocommit_durable_witness :
  exists db' rid, Execute 0 calm_env insert_ann people_db = (Ret (mkResult [] [] 1), db') /\
    reopens 0 (str "db") (all_files db') people (<[str "people" := [(rid, ann)]]> (fun _ => [])) 5.
Proof.
  destruct (autocommit_durable 0 calm_env (le_n 6) people people_db (fun _ => []) 5 insert_ann) as (o & db' & T' & H1 & H2 & H3 & H4).
  - reflexivity.
  - apply people_serving. vm_compute. reflexivity.
  - exact people_saved.
  - by apply ann_fits.
  - split; vm_compute; reflexivity.
  - destruct (ann_inserted _ o T' eq_refl H2) as (-> & rid & ->). exists db', rid. split; [exact H1|].
    apply H4. eapply all_files_crash; [exact H3|].
    assert (store db' = store people_db) as Hst; [|by destruct people_saved as [S1 S2 S3]; unfold GetCatalog in *; split; unfold GetCatalog; rewrite Hst].
    assert (Execute 0 calm_env insert_ann people_db = (Ret (mkResult [] [] 1), db')) as E by exact H1.
    assert (store (Execute 0 calm_env insert_ann people_db).2 = store people_db) as Es by (vm_compute; reflexivity). by rewrite E in Es.
Defined.

(** The same statement, interrupted while it commits. *)
Lemma autocommit_crash_atomic_witness :
  exists t w1 w2 rid, Begin 0 (world people_db) = (Ret t, w1) /\ run_statement 0 calm_env people insert_ann w1 = (Ret (mkResult [] [] 1), w2) /\
    forall m fs, crash_files people_db (commit_point 0 t m w2).2 (torn_page t m w2) fs ->
      reopens 0 (str "db") fs people (fun _ => []) 5 \/ reopens 0 (str "db") fs people (<[str "people" := [(rid, ann)]]> (fun _ => [])) 5.
Proof.
  destruct (autocommit_crash_atomic 0 calm_env (le_n 6) people people_db (fun _ => []) 5 insert_ann) as (t & w1 & o & w2 & T' & H1 & H2 & H3 & H4).
  - apply people_serving. vm_compute. reflexivity.
  - exact people_saved.
  - by apply ann_fits.
  - split; vm_compute; reflexivity.
  - destruct (ann_inserted _ o T' eq_refl H3) as (-> & rid & ->). exists t, w1, w2, rid. split; [exact H1|]. split; [exact H2|]. intros m fs. apply H4.
Defined.

(** The key is taken the second time. *)
Lemma ann_rejected rid o T' :
  statement_effect people (<[str "people" := [(rid, ann)]]> (fun _ => [])) insert_ann o T' ->
  o = Throw SqlSemanticError /\ T' = <[str "people" := [(rid, ann)]]> (fun _ => []).
Proof.
  intros H. change (insert_effect people (<[str "people" := [(rid, ann)]]> (fun _ => [])) (mkInsert (str "people") ann) o T') in H. unfold insert_effect in H.
  change (FindTable people _) with (Some people_table) in H. cbv iota zeta in H. change (tb_name people_table) with (str "people") in H.
  rewrite fn_lookup_insert in H. cbn [in_values fmap list_fmap snd app] in H.
  assert (~ pk_distinct people people_table [ann; ann]) as Hno by (apply (bool_decide_unpack _); vm_compute; exact I).
  rewrite !decide_False in H by tauto. exact H.
Qed.

Lemma script_ann : script_fits people (fun _ => []) [insert_ann; insert_ann] 5 11.
Proof.
  exists 8%nat. split; [reflexivity|]. split; [by apply ann_fits|]. intros o T1 (_ & rid & ->)%ann_inserted; [|done].
  exists 5%nat. split; [reflexivity|]. split; [apply ann_fits; by rewrite fn_lookup_insert|]. intros o2 T2 _. reflexivity.
Qed.

(** BEGIN; the INSERT twice; COMMIT or ROLLBACK. *)
Lemma transaction_all_or_nothing_witness :
  exists db1 db2 rid, Execute 0 calm_env BeginStmt people_db = (Ret no_result, db1) /\
    Execute_all 0 calm_env [insert_ann; insert_ann] db1 = ([Ret (mkResult [] [] 1); Throw SqlSemanticError], db2) /\
    (exists db3, Execute 0 calm_env CommitStmt db2 = (Ret no_result, db3) /\ serving 0 people db3 (<[str "people" := [(rid, ann)]]> (fun _ => [])) 5) /\
    (exists db3, Execute 0 calm_env RollbackStmt db2 = (Ret no_result, db3) /\ serving 0 people db3 (fun _ => []) 5).
Proof.
  destruct (transaction_all_or_nothing 0 calm_env (le_n 6) people people_db (fun _ => []) [insert_ann; insert_ann] 5 11)
    as (db1 & os & db2 & T' & H1 & H2 & H3 & (db3 & H4 & H5 & _) & (db4 & H6 & H7 & _) & _).
  - reflexivity.
  - apply people_serving. vm_compute. reflexivity.
  - exact people_saved.
  - exact script_ann.
  - split; vm_compute; reflexivity.
  - inversion H3 as [|? o1 T1 ? os1 ? E1 H3']. subst. destruct (ann_inserted _ _ _ eq_refl E1) as (-> & rid & ->).
    inversion H3' as [|? o2 T2 ? os2 ? E2 H3'']. subst. destruct (ann_rejected _ _ _ E2) as (-> & ->). inversion H3''. subst.
    exists db1, db2, rid. split_and!; [exact H1|exact H2|exists db3; split; [exact H4|exact H5]|exists db4; split; [exact H6|exact H7]].
Defined.
