(* ===== verification/Json.v ===== *)
(** * Json: the encoder of the command-line driver ([tools/flintdb_cli.cpp])

    [JsonEncodeString], [JsonEncodeLiteral], [EncodeSuccess] and
    [EncodeFailure] as they are, against a reader of JSON texts (RFC 8259,
    without white space): what is written reads back as the result. *)
From S2P Require Import Prelude Text Ast Executor.

(** ** The encoder *)

(** Two lower-case hexadecimal digits, as [snprintf] writes them. *)
Definition hex_digit (d : Z) : byte := byte_of_Z (if d <? 10 then 48 + d else 87 + d).

(** The cases of the switch. *)
Definition escape (c : byte) : bytes :=
  match c with
  | x22 => [x5c; x22]
  | x5c => [x5c; x5c]
  | x0a => str "\n"
  | x09 => str "\t"
  | x0d => str "\r"
  | x08 => str "\b"
  | x0c => str "\f"
  | _ => if Z_of_byte c <? 32 then str "\u00" ++ [hex_digit (Z_of_byte c / 16); hex_digit (Z_of_byte c mod 16)] else [c]
  end.

Definition JsonEncodeString (text : bytes) : bytes := x22 :: concat (escape <$> text) ++ [x22].

(** [std::to_string] of a signed integer. *)
Definition signed_decimal (n : Z) : bytes := if n <? 0 then "-"%byte :: decimal (- n) else decimal n.

Definition JsonEncodeLiteral (value : LiteralValue) : bytes :=
  match kind value with
  | LiteralKind.kInteger => signed_decimal (int_value value)
  | LiteralKind.kString => JsonEncodeString (string_value value)
  end.

(** The loops that put a comma before every element but the first. *)
Fixpoint separated (texts : list bytes) : bytes :=
  match texts with
  | [] => []
  | [t] => t
  | t :: texts' => t ++ ","%byte :: separated texts'
  end.

(** A JSON key: its name in quotes, and a colon. *)
Definition key (name : bytes) : bytes := x22 :: name ++ [x22; ":"%byte].

Definition EncodeSuccess (result : ExecuteResult) : bytes :=
  str "{" ++ key (str "ok") ++ str "true," ++ key (str "columns") ++ str "[" ++
  separated (JsonEncodeString <$> er_column_names result) ++
  str "]," ++ key (str "rows") ++ str "[" ++
  separated ((fun row => str "[" ++ separated (JsonEncodeLiteral <$> row) ++ str "]") <$> er_rows result) ++
  str "]," ++ key (str "rows_affected") ++ decimal (er_rows_affected result) ++ str "}".

Definition EncodeFailure (error_type message : bytes) : bytes :=
  str "{" ++ key (str "ok") ++ str "false," ++ key (str "error_type") ++ JsonEncodeString error_type ++
  str "," ++ key (str "error_message") ++ JsonEncodeString message ++ str "}".

(** ** A reader *)

Inductive json :=
| JBool (b : bool)
| JInt (n : Z)
| JString (s : bytes)
| JArray (l : list json)
| JObject (members : list (bytes * json)).

Definition hex_value (c : byte) : option Z :=
  if isdigit c then Some (Z_of_byte c - 48)
  else let v := Z_of_byte c - 87 in if (10 <=? v) && (v <? 16) then Some v else None.

Definition eqc (c c' : byte) : bool := Byte.eqb c c'.

(** The character a one-letter escape stands for. *)
Definition unescape (c : byte) : option byte :=
  match c with
  | x22 => Some x22 | x5c => Some x5c | "/"%byte => Some "/"%byte
  | "b"%byte => Some x08 | "f"%byte => Some x0c | "n"%byte => Some x0a | "r"%byte => Some x0d | "t"%byte => Some x09
  | _ => None
  end.

(** The character of four hexadecimal digits, if it is ASCII. *)
Definition unescape_hex (a b h l : byte) : option byte :=
  if eqc a "0"%byte && eqc b "0"%byte then
    x ← hex_value h; y ← hex_value l; if 16 * x + y <? 128 then Some (byte_of_Z (16 * x + y)) else None
  else None.

(** The characters of a string up to its closing quote. *)
Fixpoint read_chars (s : bytes) : option (bytes * bytes) :=
  match s with
  | [] => None
  | c :: s1 =>
      if eqc c x22 then Some ([], s1)
      else if eqc c x5c then
        match s1 with
        | [] => None
        | e :: s2 =>
            if eqc e "u"%byte then
              match s2 with
              | a :: b :: h :: l :: s3 => c' ← unescape_hex a b h l; '(t, rest) ← read_chars s3; Some (c' :: t, rest)
              | _ => None
              end
            else c' ← unescape e; '(t, rest) ← read_chars s2; Some (c' :: t, rest)
        end
      else if Z_of_byte c <? 32 then None
      else '(t, rest) ← read_chars s1; Some (c :: t, rest)
  end.

Definition read_string (s : bytes) : option (bytes * bytes) :=
  match s with c :: s' => if eqc c x22 then read_chars s' else None | [] => None end.

Definition read_number (s : bytes) : option (Z * bytes) :=
  let '(neg, s1) := match s with c :: s' => if eqc c "-"%byte then (true, s') else (false, s) | [] => (false, s) end in
  let '(ds, rest) := span isdigit s1 in
  match ds with
  | [] => None
  | _ => Some (if neg : bool then - digits_value ds else digits_value ds, rest)
  end.

(** Items separated by commas, up to [close]. *)
Fixpoint read_items {A} (fuel : nat) (item : bytes -> option (A * bytes)) (close : byte) (s : bytes) : option (list A * bytes) :=
  match fuel with
  | O => None
  | S fuel' =>
      '(x, s1) ← item s;
      match s1 with
      | c :: s2 =>
          if bool_decide (c = close) then Some ([x], s2)
          else if bool_decide (c = ","%byte) then '(l, rest) ← read_items fuel' item close s2; Some (x :: l, rest)
          else None
      | [] => None
      end
  end.

Definition read_list {A} (item : bytes -> option (A * bytes)) (close : byte) (s : bytes) : option (list A * bytes) :=
  match s with
  | c :: s' => if bool_decide (c = close) then Some ([], s') else read_items (length s) item close s
  | [] => None
  end.

Definition read_member (value : bytes -> option (json * bytes)) (s : bytes) : option (bytes * json * bytes) :=
  '(k, s1) ← read_string s;
  match s1 with
  | c :: s2 => if eqc c ":"%byte then '(v, rest) ← value s2; Some (k, v, rest) else None
  | [] => None
  end.

(** The rest after a given text. *)
Fixpoint after (t s : bytes) : option bytes :=
  match t, s with
  | [], _ => Some s
  | c :: t', c' :: s' => if eqc c c' then after t' s' else None
  | _, [] => None
  end.

(** [fuel] bounds the nesting. *)
Fixpoint read_json (fuel : nat) (s : bytes) : option (json * bytes) :=
  match fuel with
  | O => None
  | S fuel' =>
      match s with
      | [] => None
      | c :: s' =>
          if eqc c x22 then '(t, rest) ← read_string s; Some (JString t, rest)
          else if eqc c "["%byte then '(l, rest) ← read_list (read_json fuel') "]"%byte s'; Some (JArray l, rest)
          else if eqc c "{"%byte then '(l, rest) ← read_list (read_member (read_json fuel')) "}"%byte s'; Some (JObject l, rest)
          else if eqc c "t"%byte then rest ← after (str "true") s; Some (JBool true, rest)
          else if eqc c "f"%byte then rest ← after (str "false") s; Some (JBool false, rest)
          else '(n, rest) ← read_number s; Some (JInt n, rest)
      end
  end.

(** ** Reading back *)

Lemma escape_read c s : read_chars (escape c ++ s) = '(t, rest) ← read_chars s; Some (c :: t, rest).
Proof. by destruct c. Qed.

Lemma string_read text s : read_string (JsonEncodeString text ++ s) = Some (text, s).
Proof.
  change (read_chars ((concat (escape <$> text) ++ [x22]) ++ s) = Some (text, s)). rewrite <- app_assoc.
  induction text as [|c text IH]; [done|]. cbn [fmap list_fmap concat]. by rewrite <- app_assoc, escape_read, IH.
Qed.

(** What may follow a number. *)
Definition not_digit (s : bytes) : Prop := match s with c :: _ => isdigit c = false | [] => True end.

Lemma span_digits ds s : Forall (fun c => isdigit c = true) ds -> not_digit s -> span isdigit (ds ++ s) = (ds, s).
Proof.
  intros Hd Hs. destruct s as [|c s]; [rewrite app_nil_r; by apply span_all|by apply span_app].
Qed.

Lemma digit_char_cases c : isdigit c = true ->
  eqc c "-"%byte = false /\ eqc c x22 = false /\ eqc c "["%byte = false /\ eqc c "{"%byte = false /\ eqc c "t"%byte = false /\ eqc c "f"%byte = false.
Proof. by destruct c. Qed.

Lemma number_read n s : not_digit s -> read_number (signed_decimal n ++ s) = Some (n, s).
Proof.
  intros Hs. unfold signed_decimal, read_number. destruct (Z.ltb_spec n 0) as [Hn|Hn].
  - destruct (decimal_ok (- n)) as (Hv & Hd & Hne); [lia|]. cbn. rewrite span_digits by done. rewrite Hv.
    destruct (decimal (- n)); [done|]. do 2 f_equal. lia.
  - destruct (decimal_ok n Hn) as (Hv & Hd & Hne). destruct (decimal n) as [|d ds]; [done|].
    destruct (digit_char_cases d) as [Hm _]; [by apply Forall_cons in Hd as [? _]|]. cbn [app]. rewrite Hm.
    change (d :: ds ++ s) with ((d :: ds) ++ s). rewrite span_digits by done. by rewrite Hv.
Qed.

(** A text that does not close a list. *)
Definition starts (t : bytes) : Prop := match t with [] => False | c :: _ => c <> "]"%byte /\ c <> "}"%byte end.

(** The text [t] stands for the value [v], of nesting at most [d]. *)
Definition stands (d : nat) (t : bytes) (v : json) : Prop :=
  starts t /\ forall fuel s, (d <= fuel)%nat -> not_digit s -> read_json fuel (t ++ s) = Some (v, s).

Lemma string_stands text : stands 1 (JsonEncodeString text) (JString text).
Proof.
  split; [done|]. intros [|fuel] s Hf _; [lia|]. pose proof (string_read text s) as H. unfold JsonEncodeString in *. cbn [app read_json] in *. by rewrite H.
Qed.

Lemma number_stands n : stands 1 (signed_decimal n) (JInt n).
Proof.
  assert (exists c t, signed_decimal n = c :: t /\ (c = "-"%byte \/ isdigit c = true)) as (c & t & E & Hc).
  { unfold signed_decimal. destruct (Z.ltb_spec n 0); [eauto|]. destruct (decimal_ok n) as (_ & Hd & Hne); [lia|].
    destruct (decimal n) as [|d ds]; [done|]. apply Forall_cons in Hd as [Hd _]. eauto. }
  split; [rewrite E; destruct Hc as [->|Hc]; [done|by destruct c]|]. intros [|fuel] s Hf Hs; [lia|]. pose proof (number_read n s Hs) as H. rewrite E in *. cbn [app read_json] in *.
  destruct Hc as [->|Hc]; [by rewrite H|]. destruct (digit_char_cases c Hc) as (_ & -> & -> & -> & -> & ->). by rewrite H.
Qed.

Lemma bool_stands (b : bool) : stands 1 (if b then str "true" else str "false") (JBool b).
Proof. split; [by destruct b|]. intros [|fuel] s Hf _; [lia|]. by destruct b. Qed.

(** *** Lists *)

Definition reads_item {A} (item : bytes -> option (A * bytes)) (t : bytes) (x : A) : Prop :=
  starts t /\ forall s, not_digit s -> item (t ++ s) = Some (x, s).

Lemma items_read {A} (item : bytes -> option (A * bytes)) close ts xs fuel s :
  Forall2 (reads_item item) ts xs -> ts <> [] -> (length ts <= fuel)%nat -> isdigit close = false -> close <> ","%byte ->
  read_items fuel item close (separated ts ++ close :: s) = Some (xs, s).
Proof.
  intros H Hne Hf Hd Hc. revert fuel Hne Hf. induction H as [|t x ts xs [Ht Hi] H IH]; intros fuel Hne Hf; [done|].
  destruct fuel as [|fuel]; [cbn in Hf; lia|]. cbn [read_items]. destruct ts as [|t' ts].
  - inversion H. subst. cbn [separated]. rewrite Hi by done. cbn. by rewrite bool_decide_eq_true_2.
  - change (separated (t :: t' :: ts)) with (t ++ ","%byte :: separated (t' :: ts)). rewrite <- app_assoc. cbn [app]. rewrite Hi by done. cbn [mbind option_bind].
    rewrite bool_decide_eq_false_2 by done. rewrite bool_decide_eq_true_2 by done. by rewrite IH by (done || cbn in *; lia).
Qed.

Lemma separated_length ts : Forall starts ts -> (length ts <= length (separated ts))%nat.
Proof.
  induction 1 as [|t ts Ht _ IH]; [done|]. destruct t as [|c t]; [done|]. destruct ts as [|t' ts]; [cbn; lia|].
  change (separated ((c :: t) :: t' :: ts)) with ((c :: t) ++ ","%byte :: separated (t' :: ts)). rewrite length_app. cbn [length] in *. lia.
Qed.

Lemma list_read {A} (item : bytes -> option (A * bytes)) close ts xs s :
  Forall2 (reads_item item) ts xs -> close = "]"%byte \/ close = "}"%byte -> read_list item close (separated ts ++ close :: s) = Some (xs, s).
Proof.
  intros H Hc. assert (isdigit close = false /\ close <> ","%byte) as [Hd Hn] by (by destruct Hc as [->| ->]).
  destruct ts as [|t ts]; [inversion H; subst; cbn; by rewrite bool_decide_eq_true_2|].
  assert (Forall starts (t :: ts)) as Hs by (clear -H; induction H as [|? ? ? ? [? _] _ IH]; by constructor).
  pose proof (separated_length _ Hs) as Hl. assert (exists c r, separated (t :: ts) = c :: r /\ c <> close) as (c & r & E & Hcc).
  { apply Forall_cons in Hs as [Ht _]. destruct t as [|c t]; [done|]. exists c. destruct Ht as [H1 H2]. destruct ts; eexists; (split; [reflexivity|]); by destruct Hc as [->| ->]. }
  unfold read_list. rewrite E in *. cbn [app]. rewrite bool_decide_eq_false_2 by done.
  change (c :: r ++ close :: s) with ((c :: r) ++ close :: s). rewrite <- E. apply items_read; [done..| |done|done]. rewrite length_app, E. lia.
Qed.

Lemma array_stands d ts vs : Forall2 (stands d) ts vs -> stands (S d) (str "[" ++ separated ts ++ str "]") (JArray vs).
Proof.
  intros H. split; [done|]. intros [|fuel] s Hf _; [lia|]. rewrite <- !app_assoc.
  change (read_json (S fuel) (str "[" ++ separated ts ++ str "]" ++ s)) with ('(l, rest) ← read_list (read_json fuel) "]"%byte (separated ts ++ "]"%byte :: s); Some (JArray l, rest)).
  rewrite (list_read _ _ ts vs); [done| |by left]. eapply Forall2_impl; [exact H|]. intros t v [H1 H2]. split; [done|]. intros s' Hs. apply H2; [lia|done].
Qed.

(** A member of an object: its name needs no escape. *)
Definition member_text (m : bytes * bytes) : bytes := key m.1 ++ m.2.

Lemma object_stands d (ms : list (bytes * bytes)) (vs : list (bytes * json)) :
  Forall2 (fun m v => m.1 = v.1 /\ JsonEncodeString m.1 = x22 :: m.1 ++ [x22] /\ stands d m.2 v.2) ms vs ->
  stands (S d) (str "{" ++ separated (member_text <$> ms) ++ str "}") (JObject vs).
Proof.
  intros H. split; [done|]. intros [|fuel] s Hf _; [lia|]. rewrite <- !app_assoc.
  change (read_json (S fuel) (str "{" ++ separated (member_text <$> ms) ++ str "}" ++ s)) with
    ('(l, rest) ← read_list (read_member (read_json fuel)) "}"%byte (separated (member_text <$> ms) ++ "}"%byte :: s); Some (JObject l, rest)).
  rewrite (list_read _ _ (member_text <$> ms) vs); [done| |by right]. apply Forall2_fmap_l. eapply Forall2_impl; [exact H|].
  intros [k t] [k' v]. cbn [fst snd]. intros (<- & Hk & [_ Hv]). split; [done|]. intros s' Hs. unfold member_text, read_member. cbn [fst snd]. cbv beta.
  assert ((key k ++ t) ++ s' = JsonEncodeString k ++ ":"%byte :: t ++ s') as ->.
  { rewrite Hk. unfold key. cbn [app]. by rewrite <- !app_assoc. }
  rewrite string_read. cbn [mbind option_bind]. change (eqc ":"%byte ":"%byte) with true. cbv iota. by rewrite Hv by (done || lia).
Qed.

(** ** The replies *)

Definition literal_json (v : LiteralValue) : json :=
  match kind v with LiteralKind.kInteger => JInt (int_value v) | _ => JString (string_value v) end.

Definition success_json (r : ExecuteResult) : json :=
  JObject [(str "ok", JBool true); (str "columns", JArray (JString <$> er_column_names r));
           (str "rows", JArray ((fun row => JArray (literal_json <$> row)) <$> er_rows r)); (str "rows_affected", JInt (er_rows_affected r))].

Definition failure_json (error_type message : bytes) : json :=
  JObject [(str "ok", JBool false); (str "error_type", JString error_type); (str "error_message", JString message)].

Lemma stands_le d d' t v : stands d t v -> (d <= d')%nat -> stands d' t v.
Proof. intros [H1 H2] Hd. split; [done|]. intros fuel s Hf. apply H2. lia. Qed.

Lemma fmap_stands {A} d (f : A -> bytes) (g : A -> json) l : (forall x, stands d (f x) (g x)) -> Forall2 (stands d) (f <$> l) (g <$> l).
Proof. intros H. apply Forall2_fmap, Forall_Forall2_diag, Forall_forall. auto. Qed.

Lemma literal_stands v : stands 1 (JsonEncodeLiteral v) (literal_json v).
Proof. unfold JsonEncodeLiteral, literal_json. destruct (kind v); [apply number_stands|apply string_stands]. Qed.

(** Flattens nested appends, literals included. *)
Ltac flat := repeat progress (rewrite <- ?app_assoc; cbn [app str String.list_byte_of_string Ascii.byte_of_ascii]); cbn; rewrite <- ?app_assoc; reflexivity.

Lemma success_stands r : 0 <= er_rows_affected r -> stands 4 (EncodeSuccess r) (success_json r).
Proof.
  intros Hn.
  assert (EncodeSuccess r = str "{" ++ separated (member_text <$>
    [(str "ok", str "true"); (str "columns", str "[" ++ separated (JsonEncodeString <$> er_column_names r) ++ str "]");
     (str "rows", str "[" ++ separated ((fun row => str "[" ++ separated (JsonEncodeLiteral <$> row) ++ str "]") <$> er_rows r) ++ str "]");
     (str "rows_affected", decimal (er_rows_affected r))]) ++ str "}") as ->.
  { unfold EncodeSuccess, member_text. cbn [fmap list_fmap separated fst snd]. flat. }
  apply object_stands. repeat apply List.Forall2_cons; cbn [fst snd]; [..|constructor].
  - split; [done|]. split; [done|]. apply (stands_le 1); [apply (bool_stands true)|lia].
  - split; [done|]. split; [done|]. apply (stands_le 2); [|lia]. apply array_stands, fmap_stands, string_stands.
  - split; [done|]. split; [done|]. apply array_stands, fmap_stands. intros row. apply array_stands, fmap_stands, literal_stands.
  - split; [done|]. split; [done|]. apply (stands_le 1); [|lia]. pose proof (number_stands (er_rows_affected r)) as H.
    unfold signed_decimal in H. by rewrite (proj2 (Z.ltb_ge _ _)) in H.
Qed.

Lemma failure_stands error_type message : stands 2 (EncodeFailure error_type message) (failure_json error_type message).
Proof.
  assert (EncodeFailure error_type message = str "{" ++ separated (member_text <$>
    [(str "ok", str "false"); (str "error_type", JsonEncodeString error_type); (str "error_message", JsonEncodeString message)]) ++ str "}") as ->.
  { unfold EncodeFailure, member_text. cbn [fmap list_fmap separated fst snd]. flat. }
  apply object_stands. repeat apply List.Forall2_cons; cbn [fst snd]; [..|constructor].
  - split; [done|]. split; [done|]. apply (bool_stands false).
  - split; [done|]. split; [done|]. apply string_stands.
  - split; [done|]. split; [done|]. apply string_stands.
Qed.

(** *** One line each *)

Definition no_newline (s : bytes) : Prop := Forall (fun c => eqc c x0a = false) s.

Lemma no_newline_app a b : no_newline a -> no_newline b -> no_newline (a ++ b).
Proof. intros. by apply Forall_app. Qed.

Lemma no_newline_key name : no_newline name -> no_newline (key name).
Proof. intros H. constructor; [done|]. apply no_newline_app; [done|by repeat constructor]. Qed.

(** Literal text is checked by evaluation. *)
Ltac lines := repeat match goal with
  | |- no_newline (_ ++ _) => apply no_newline_app
  | |- no_newline (key _) => apply no_newline_key
  | |- no_newline (str _) => apply (bool_decide_unpack _); vm_compute; exact Logic.I
  end.

Lemma no_newline_string text : no_newline (JsonEncodeString text).
Proof.
  constructor; [done|]. apply Forall_app. split; [|by repeat constructor]. induction text as [|c text IH]; [constructor|].
  cbn [fmap list_fmap concat]. apply Forall_app. split; [|exact IH]. destruct c; vm_compute; by repeat constructor.
Qed.

Lemma no_newline_decimal n : 0 <= n -> no_newline (decimal n).
Proof. intros Hn. destruct (decimal_ok n Hn) as (_ & Hd & _). eapply Forall_impl; [exact Hd|]. intros c Hc. by destruct c. Qed.

Lemma no_newline_literal v : no_newline (JsonEncodeLiteral v).
Proof.
  unfold JsonEncodeLiteral, signed_decimal. destruct (kind v); [|apply no_newline_string].
  destruct (Z.ltb_spec (int_value v) 0); [constructor; [done|]|]; apply no_newline_decimal; lia.
Qed.

Lemma no_newline_separated ts : Forall no_newline ts -> no_newline (separated ts).
Proof.
  induction 1 as [|t ts Ht Hts IH]; [constructor|]. destruct ts as [|t' ts]; [done|].
  change (separated (t :: t' :: ts)) with (t ++ ","%byte :: separated (t' :: ts)). apply Forall_app. split; [done|]. by constructor.
Qed.

Lemma no_newline_fmap {A} (f : A -> bytes) l : (forall x, no_newline (f x)) -> no_newline (separated (f <$> l)).
Proof. intros H. apply no_newline_separated, Forall_fmap, Forall_forall. intros x _. apply H. Qed.

Lemma success_line r : 0 <= er_rows_affected r -> no_newline (EncodeSuccess r).
Proof.
  intros Hn. unfold EncodeSuccess. lines; [apply no_newline_fmap, no_newline_string|apply no_newline_fmap; intros row|by apply no_newline_decimal].
  lines. apply no_newline_fmap, no_newline_literal.
Qed.

Lemma failure_line error_type message : no_newline (EncodeFailure error_type message).
Proof. unfold EncodeFailure. lines; apply no_newline_string. Qed.

(** C35: the answers are JSON. What [EncodeSuccess] and [EncodeFailure] write,
    for any result, names, text and messages of any bytes included, is one
    JSON object on one line, and reading it gives back exactly the result:
    column names, rows with their integers and texts, and the count. *)
Theorem replies_roundtrip (r : ExecuteResult) (error_type message : bytes) :
  0 <= er_rows_affected r ->
  (read_json 4 (EncodeSuccess r) = Some (success_json r, []) /\ no_newline (EncodeSuccess r)) /\
  read_json 4 (EncodeFailure error_type message) = Some (failure_json error_type message, []) /\ no_newline (EncodeFailure error_type message).
Proof.
  intros Hn. split; (split; [|by first [apply success_line|apply failure_line]]).
  - rewrite <- (app_nil_r (EncodeSuccess r)). by apply success_stands.
  - rewrite <- (app_nil_r (EncodeFailure error_type message)). apply failure_stands; [lia|done].
Qed.

Lemma replies_roundtrip_witness :
  read_json 4 (EncodeSuccess (mkResult [[string_literal [x22; x0a; xc3; xa9]; int_literal (-7)]] [str "a"; str "b"] 0)) =
  Some (success_json (mkResult [[string_literal [x22; x0a; xc3; xa9]; int_literal (-7)]] [str "a"; str "b"] 0), []).
Proof. apply (replies_roundtrip (mkResult [[string_literal [x22; x0a; xc3; xa9]; int_literal (-7)]] [str "a"; str "b"] 0) [] []). cbn. lia. Defined.
