(* ===== verification/Shell.v ===== *)
(** * Shell: the command-line driver ([tools/flintdb_cli.cpp])

    [main] reads statements from its standard input, each after a line with
    its length, runs them, and answers each with one line of JSON. The text of
    an exception is a parameter. *)
From S2P Require Import Prelude Config BufferPool LogManager TransactionManager Storage Text Catalog Ast Parser Planner Executor WorldStorage Database Session Json.

(** ** The driver *)

(** The database, and the lines written so far. *)
Record Shell := mkShell { sh_db : Database; sh_out : list bytes }.

(** The tags of the handlers. *)
Definition error_type (e : exn) : bytes :=
  match e with
  | SqlSyntaxError _ => str "SqlSyntaxError"
  | SqlSemanticError => str "SqlSemanticError"
  | InvalidArgument => str "std::invalid_argument"
  | OutOfRange => str "std::out_of_range"
  | LogicError => str "std::logic_error"
  | RuntimeError | TransactionAborted _ => str "std::runtime_error"
  end.

(** [std::getline]: the text up to a newline, which is dropped. *)
Definition getline (input : bytes) : option (bytes * bytes) :=
  match input with
  | [] => None
  | _ => let '(l, rest) := span (fun c => negb (eqc c x0a)) input in Some (l, drop 1 rest)
  end.

Definition ReadExactBytes (length : Z) (input : bytes) : outcome (bytes * bytes) :=
  if zlen input <? length then Throw RuntimeError
  else Ret (take (Z.to_nat length) input, drop (Z.to_nat length) input).

Section Driver.
Context (what : bytes -> Database -> exn -> bytes) (th : ThreadId) (env : Env).

(** [Parse] and [Execute], and the handlers around them. *)
Definition answer (sql_text : bytes) : M Database bytes := fun db =>
  match (stmt ← lift (Parse sql_text); Execute th env stmt) db with
  | (Ret result, db') => (Ret (EncodeSuccess result), db')
  | (Throw e, db') => (Ret (EncodeFailure (error_type e) (what sql_text db e)), db')
  | (Sleep k, db') => (Sleep k, db')
  | (Undefined, db') => (Undefined, db')
  end.

(** The body of the loop, from the text of a statement. *)
Definition reply (sql_text : bytes) : M Shell unit := fun sh =>
  let '(o, db) := answer sql_text (sh_db sh) in
  match o with
  | Ret line => (Ret tt, mkShell db (sh_out sh ++ [line]))
  | Throw e => (Throw e, mkShell db (sh_out sh))
  | Sleep k => (Sleep k, mkShell db (sh_out sh))
  | Undefined => (Undefined, mkShell db (sh_out sh))
  end.

(** The loop, on the rest of the input; it ends with the exit status. *)
Fixpoint main_loop (fuel : nat) (input : bytes) : M Shell Z :=
  match fuel with
  | O => undefined
  | S fuel' =>
      match getline input with
      | None => mret 0
      | Some (length_line, input) =>
          match length_line with
          | [] => main_loop fuel' input
          | _ =>
              match extract_unsigned 64 length_line with
              | None => mret 2
              | Some (length, _) =>
                  '(sql_text, input) ← lift (ReadExactBytes length input);
                  reply sql_text;;
                  main_loop fuel' input
              end
          end
      end
  end.

(** What [main] is given: its arguments, the directory, its input. It ends
    with its exit status, or an exception it does not catch, and its output. *)
Definition main (args : list bytes) (fs : Files) (input : bytes) : outcome (outcome Z * list bytes) :=
  match args with
  | [_; dir_path] =>
      db ← OpenDatabase th true dir_path fs;
      let '(status, sh) := main_loop (S (length input)) input (mkShell db []) in
      Ret (status, sh_out sh)
  | _ => Ret (Ret 2, [])
  end.

End Driver.

(** ** Counts are not negative *)








Definition counts (r : ExecuteResult) : Prop := 0 <= er_rows_affected r.

Lemma no_result_counts : counts no_result.
Proof. done. Qed.


Section Counts.
Context (th : ThreadId) (env : Env).





End Counts.

(** ** The protocol *)

(** One statement as the driver reads it: its length in decimal, and its text. *)
Definition frame (sql : bytes) : bytes := decimal (zlen sql) ++ x0a :: sql.

(** Blank lines may come before a statement. *)
Definition framed (x : nat * bytes) : bytes := replicate x.1 x0a ++ frame x.2.


Section Protocol.
Context (what : bytes -> Database -> exn -> bytes) (th : ThreadId) (env : Env).





(** More fuel than input changes nothing. *)
Lemma span_rest_le p s : (length (span p s).2 <= length s)%nat.
Proof. pose proof (length_span p s). lia. Qed.









End Protocol.

(** Any prefix of digits may stand for the length: the number ends at the
    first other character. *)
Example length_line_prefix : extract_unsigned 64 (str "3 bytes") = Some (3, str " bytes").
Proof. reflexivity. Qed.

Definition no_message : bytes -> Database -> exn -> bytes := fun _ _ _ => [].

Definition sample_input : list (nat * bytes) :=
  [(0%nat, str "CREATE TABLE t (a INTEGER PRIMARY KEY, b TEXT);"); (0%nat, str "INSERT INTO t VALUES (1, 'x');"); (2%nat, str "INSERT INTO t VALUES (1, 'y');");
   (0%nat, str "SELECT * FROM t;"); (0%nat, str "SELEC")].

Definition sample_env : Env := mkSessionEnv smooth true 6.

(** A whole run, from an empty directory. *)
Example sample_run :
  main no_message 0 sample_env [str "flintdb_cli"; str "db"] (mkFiles (mkDir None None) [] ∅) (concat (framed <$> sample_input)) =
  Ret (Ret 0,
    [str "{" ++ key (str "ok") ++ str "true," ++ key (str "columns") ++ str "[]," ++ key (str "rows") ++ str "[]," ++ key (str "rows_affected") ++ str "0}";
     str "{" ++ key (str "ok") ++ str "true," ++ key (str "columns") ++ str "[]," ++ key (str "rows") ++ str "[]," ++ key (str "rows_affected") ++ str "1}";
     EncodeFailure (str "SqlSemanticError") [];
     EncodeSuccess (mkResult [[int_literal 1; string_literal (str "x")]] [str "a"; str "b"] 0);
     EncodeFailure (str "SqlSyntaxError") []]).
Proof. vm_compute. reflexivity. Qed.


