(* ===== verification/Ddl.v ===== *)
(** * Ddl: CREATE TABLE and CREATE INDEX

    The DDL statements outside any transaction: the new schema on disk, the
    storage of the new objects, and the entries of a new index for the rows
    its table has. Storage operations outside a transaction leave locks and
    transactions alone, which is shown first. *)
From stdpp Require Import functions.
From S2P Require Import Prelude Config Page DiskManager BufferPool LockManager HeapFile BTreeNode BTree BTreeSpec BTreeReads BTreeInsert BTreeContract LogManager Recovery TransactionManager CrashSafety TxnSystem.
From S2P Require Import Storage Text Catalog Ast RowCodec Planner Executor Query Tables Statements WorldStorage WorldTables Database Session Autocommit Reopen.

(** ** Outside a transaction *)

(** The thread, its transaction and observers; the locks if there is no
    transaction, and the transactions if no observer is set. *)
Definition context (v : View) : ThreadId * option TxnId * gmap ThreadId Observer * option LockManager * option Transactions :=
  (v_thread v, v_current v, observers_by_thread_ (v_pool v), if v_current v is None then Some (v_locks v) else None,
   if observers_by_thread_ (v_pool v) !! v_thread v is None then Some (v_txns v) else None).

Lemma context_disk {A} (m : M DiskManager A) : preserves context (on_disk m).
Proof. intros v. unfold on_disk. by destruct (m _). Qed.

Lemma context_page {A} ptr (m : M Page A) : preserves context (on_page ptr m).
Proof. intros v. unfold on_page. destruct (pages_ (v_pool v) !! ptr); [|done]. by destruct (m _). Qed.

Lemma context_LockPage oid pid mode : preserves context (LockPage oid pid mode).
Proof.
  intros v. unfold LockPage. destruct (v_current v) as [t|] eqn:E; [|done]. destruct (AcquireLock _ _ _ _); [|done..].
  unfold context. cbn. by rewrite E.
Qed.

Lemma context_MarkDirty pid : preserves context (MarkDirty pid).
Proof.
  intros v. unfold MarkDirty, MarkDirtyLocked. destruct (observers_by_thread_ (v_pool v) !! v_thread v) as [ob|] eqn:E; [|done].
  unfold context. cbn. by rewrite E.
Qed.

Lemma context_modify f : (forall v, context (f v) = context v) -> preserves context (modify f).
Proof. intros H v. apply H. Qed.

Create HintDb ctx.

#[local] Hint Resolve context_disk context_page context_LockPage context_MarkDirty : ctx.

(** Through binds, branches and loops. *)
Ltac staying := repeat first
  [ done | solve [auto with ctx] | apply preserves_bind; [|intros ?] | apply preserves_for_each; intros ?
  | apply context_modify; intros ?; done
  | match goal with |- preserves _ (match ?x with _ => _ end) => destruct x end ].

Lemma preserves_fold_m {W X A B} (f : W -> X) (body : B -> A -> M W B) l b :
  (forall b a, preserves f (body b a)) -> preserves f (fold_m body b l).
Proof. intros H. revert b. induction l as [|a l IH]; intros b; [done|]. cbn [fold_m]. apply preserves_bind; [apply H|intros ?; apply IH]. Qed.

Lemma context_NewPage : preserves context NewPage.
Proof. unfold NewPage. apply preserves_bind; [auto with ctx|]. intros pid. apply preserves_bind; [by apply context_modify|]. intros _. apply preserves_bind; [apply context_MarkDirty|done]. Qed.

Lemma context_FetchPage pid : preserves context (FetchPage pid).
Proof.
  intros v. unfold FetchPage. destruct (pages_ (v_pool v) !! pid); [done|].
  refine (preserves_bind context (on_disk (ReadPage pid)) _ _ _ v); [auto with ctx|]. intros p. by apply preserves_bind; [by apply context_modify|].
Qed.

Lemma context_flush_one pid : preserves context (flush_one pid).
Proof. intros v. unfold flush_one. destruct (pages_ (v_pool v) !! pid); [|done]. apply context_disk. Qed.

#[local] Hint Resolve context_NewPage context_FetchPage context_flush_one : ctx.

Lemma context_FlushAll : preserves context FlushAll.
Proof. unfold FlushAll. staying. Qed.

Lemma context_Scan oid : preserves context (HeapFile.Scan oid).
Proof.
  unfold HeapFile.Scan. apply preserves_bind; [done|]. intros l. apply preserves_fold_m. intros out pid. unfold HeapFile.scan_page. staying.
  apply preserves_fold_m. intros out' s. unfold HeapFile.scan_slot. staying.
Qed.

Lemma context_put_leaf page leaf : preserves context (BTree.put_leaf page leaf).
Proof. unfold BTree.put_leaf, BTree.set_data. staying. Qed.

Lemma context_put_internal page node : preserves context (BTree.put_internal page node).
Proof. unfold BTree.put_internal, BTree.set_data. staying. Qed.

Lemma context_GetRoot : preserves context BTree.GetRootPageId.
Proof. unfold BTree.GetRootPageId, BTree.data_of. staying. Qed.

Lemma context_SetRoot pid : preserves context (BTree.SetRootPageId pid).
Proof. unfold BTree.SetRootPageId, BTree.set_data. staying. Qed.

#[local] Hint Resolve context_put_leaf context_put_internal context_GetRoot context_SetRoot : ctx.

Lemma context_insert_leaf oid pid page buf key rid : preserves context (BTree.insert_leaf oid pid page buf key rid).
Proof. unfold BTree.insert_leaf. staying. Qed.

Lemma context_insert_internal oid pid page node idx s : preserves context (BTree.insert_internal oid pid page node idx s).
Proof. unfold BTree.insert_internal. staying. Qed.

#[local] Hint Resolve context_insert_leaf context_insert_internal : ctx.

Lemma context_InsertRecursive oid frames pid key rid : preserves context (BTree.InsertRecursive oid frames pid key rid).
Proof.
  revert pid. induction frames as [|frames IH]; intros pid; [done|]. cbn [BTree.InsertRecursive]. unfold BTree.data_of. staying.
Qed.

#[local] Hint Resolve context_InsertRecursive : ctx.

Lemma context_Insert oid frames key rid : preserves context (BTree.Insert oid frames key rid).
Proof. unfold BTree.Insert, BTree.LockRoot. staying. Qed.

Lemma context_run {A} (m : M View A) v r v' : preserves context m -> m v = (r, v') -> context v' = context v.
Proof. intros H E. specialize (H v). by rewrite E in H. Qed.

(** ** FlushAll *)

(** Pages [l] are on disk as in memory, and nothing else changed. *)
Record flushes (l : list PageId) (v v' : View) : Prop := mkFlushes {
  fl_wf : disk_wf (disk_manager_ (v_pool v'));
  fl_next : next_page_id_ (disk_manager_ (v_pool v')) = next_page_id_ (disk_manager_ (v_pool v));
  fl_pages : pages_ (v_pool v') = pages_ (v_pool v);
  fl_dirty : dirty_ (v_pool v') = dirty_ (v_pool v);
  fl_ids : v_page_ids v' = v_page_ids v;
  fl_disk q : disk_page (disk_manager_ (v_pool v')) q =
    if decide (q ∈ l) then mem_page (v_pool v) q else disk_page (disk_manager_ (v_pool v)) q
}.

Lemma flush_one_run pid v :
  disk_wf (disk_manager_ (v_pool v)) ->
  (forall q p, pages_ (v_pool v) !! q = Some p -> 0 <= q < next_page_id_ (disk_manager_ (v_pool v)) /\ zlen p = PAGE_SIZE) ->
  exists v', flush_one pid v = (Ret tt, v') /\ flushes [pid] v v'.
Proof.
  intros Hwf Hc. unfold flush_one. destruct (pages_ (v_pool v) !! pid) as [p|] eqn:Ep.
  - destruct (Hc _ _ Ep) as [Hrng Hlen]. destruct (WritePage_run _ pid p Hwf Hrng Hlen) as (d' & Hw & Hdwf & Hn & Hd').
    eexists. split; [unfold on_disk; by rewrite Hw|]. split; cbn; try done. intros q. rewrite Hd'.
    destruct (decide (q = pid)) as [->|Hq]; [rewrite decide_True by (by left); unfold mem_page; by rewrite Ep|by rewrite decide_False by set_solver].
  - exists v. split; [done|]. split; try done. intros q. case_decide as Hq; [|done]. apply list_elem_of_singleton in Hq as ->.
    unfold mem_page. by rewrite Ep.
Qed.

Lemma flush_all_loop l v :
  disk_wf (disk_manager_ (v_pool v)) ->
  (forall q p, pages_ (v_pool v) !! q = Some p -> 0 <= q < next_page_id_ (disk_manager_ (v_pool v)) /\ zlen p = PAGE_SIZE) ->
  exists v', for_each flush_one l v = (Ret tt, v') /\ flushes l v v'.
Proof.
  revert v. induction l as [|pid l IH]; intros v Hwf Hc; cbn [for_each].
  - exists v. split; [done|]. by split.
  - destruct (flush_one_run pid v Hwf Hc) as (v1 & H1 & [A1 A2 A3 A4 A5 A6]).
    destruct (IH v1 A1) as (v2 & H2 & [B1 B2 B3 B4 B5 B6]); [intros q p; rewrite A2, A3; apply Hc|].
    exists v2. split; [by run H1|]. split; try congruence. intros q.
    assert (mem_page (v_pool v1) q = mem_page (v_pool v) q) as Hm.
    { unfold mem_page. rewrite A3, A6. destruct (pages_ (v_pool v) !! q) eqn:E; [done|]. case_decide; [|done]. unfold mem_page. by rewrite E. }
    rewrite B6, Hm. destruct (decide (q ∈ l)) as [Hl|Hl]; [by rewrite decide_True by (by right)|]. rewrite A6.
    destruct (decide (q = pid)) as [->|Hq]; [by rewrite !decide_True by (by left)|].
    rewrite !decide_False; [done|intros [?|?]%elem_of_cons; done|intros ?%list_elem_of_singleton; done].
Qed.

Lemma FlushAll_run v :
  pool_wf (v_pool v) ->
  exists v', FlushAll v = (Ret tt, v') /\ pool_wf (v_pool v') /\ dirty_ (v_pool v') = ∅ /\ v_page_ids v' = v_page_ids v /\
    next_page_id_ (disk_manager_ (v_pool v')) = next_page_id_ (disk_manager_ (v_pool v)) /\
    (forall q, mem_page (v_pool v') q = mem_page (v_pool v) q) /\ forall q, disk_page (disk_manager_ (v_pool v')) q = mem_page (v_pool v) q.
Proof.
  intros Hwf. unfold FlushAll. run (gets_run (fun v => elements (dirty_ (v_pool v))) v).
  destruct (flush_all_loop (elements (dirty_ (v_pool v))) v (pw_disk _ Hwf) (pw_cached _ Hwf)) as (v1 & H1 & [A1 A2 A3 A4 A5 A6]).
  run H1. eexists. split; [reflexivity|]. cbn.
  assert (forall q, disk_page (disk_manager_ (v_pool v1)) q = mem_page (v_pool v) q) as Hd.
  { intros q. rewrite A6. destruct (decide (q ∈ elements (dirty_ (v_pool v)))) as [|Hq]; [done|]. rewrite elem_of_elements in Hq. by apply clean_page. }
  split_and!; [split; cbn; [done|..]|done|done|done|..|exact Hd].
  - intros q p. rewrite A2, A3. apply (pw_cached _ Hwf).
  - intros q p Hp _. rewrite Hd. unfold mem_page. rewrite A3 in Hp. by rewrite Hp.
  - intros q. unfold mem_page at 1. cbn. rewrite A3, Hd. unfold mem_page. by destruct (pages_ (v_pool v) !! q).
Qed.

(** ** The world, outside a transaction *)

(** Nothing observable changed: the invariant carries over. *)
Lemma same_world_ok w w' rs : same_world w w' -> obs_of w' = obs_of w -> sys_ok w rs -> sys_ok w' rs.
Proof.
  intros [[Hd Hm Hwf Hl Ha Hn Hc] Hlog] Hob [H1 H2 H3 H4 H5 H6 H7 H8]. destruct H1 as [L1 L2 L3 L4 L5 L6 L7].
  assert (forall oid, is_Some (buffer_pools_ w' !! oid) -> is_Some (buffer_pools_ w !! oid)) as Hreg.
  { intros oid [o Ho]. apply (f_equal (.!! oid)) in Hd. rewrite !disks_of_lookup, Ho in Hd. cbn in Hd. destruct (buffer_pools_ w !! oid); [eauto|done]. }
  split; rewrite ?Hn, ?Hc, ?Ha, ?Hob; try done.
  - split; rewrite ?Hlog, ?Hn, ?Ha, ?Hd; try done. intros oid o Ho. split; [apply (Hwf (fun i o' Hi => proj1 (L4 i o' Hi)) oid o Ho)|].
    destruct (Hreg oid (ex_intro _ o Ho)) as [o' Ho']. apply (L4 _ _ Ho').
  - intros t k Hk. rewrite Hm. by apply (H7 t).
  - intros k. rewrite Hm, Hd. apply H8.
Qed.

Lemma on_pool_outside {A} th oid (m : M View A) w o r v :
  buffer_pools_ w !! oid = Some o -> current_txn w !! th = None -> observers_by_thread_ o.1 = ∅ -> preserves context m ->
  m (view_of th o w) = (r, v) ->
  on_pool th oid m w = (r, set_buffer_pools (<[oid := (v_pool v, v_page_ids v)]> (buffer_pools_ w)) w) /\ observers_by_thread_ (v_pool v) = ∅ /\
  v_locks v = lock_manager_ w /\ v_txns v = active_txns_ w.
Proof.
  intros Ho Hc Hob Hm E. pose proof (context_run _ _ _ _ Hm E) as Hctx. unfold context, view_of in Hctx. cbn in Hctx.
  rewrite Hc, Hob, lookup_empty in Hctx. injection Hctx as H1 H2 H3 H4 H5. rewrite H2 in H4. rewrite H3, lookup_empty in H5. injection H4 as H4. injection H5 as H5.
  split_and!; [|done..]. unfold on_pool. rewrite Ho, E. unfold put_view, set_buffer_pools. by rewrite H4, H5.
Qed.

(** ** New objects *)

(** The index's constructor on a new file: its header page, written back. *)
Lemma Open_fresh txns lm cur th :
  BTree.Open (mkView (mkPool empty_disk ∅ ∅ ∅) [] txns lm cur th) = (Ret tt, mkView (v_pool BTreeContract.fresh_index) [] txns lm cur th).
Proof. vm_compute. reflexivity. Qed.

Definition new_heap : BufferPool * list PageId := (mkPool empty_disk ∅ ∅ ∅, []).
Definition new_tree : BufferPool * list PageId := (v_pool BTreeContract.fresh_index, []).

(** Registering a clean object. *)
Definition registered_object (oid : ObjectId) (k : ObjectKind) (o : BufferPool * list PageId) (db : Database) : Database :=
  mkDatabase (store db) (set_buffer_pools (<[oid := o]> (buffer_pools_ (world db))) (world db))
    (<[oid := default k (objects_ db !! oid)]> (objects_ db)) (delete oid (unopened db)).

(** No bytes are in the file of an object. *)
Definition absent (db : Database) (id : ObjectId) : Prop := default [] (unopened db !! id) = [].

Lemma absent_delete (objs : gmap ObjectId bytes) i id : default [] (objs !! id) = [] -> default [] (delete i objs !! id) = [].
Proof. intros H. rewrite lookup_delete. by case_decide. Qed.

(** A new file, and the heap or tree on it. *)
Lemma create_object th k open oid o db {B} (cont : M Database B) : absent db oid ->
  (forall w, construct th open empty_disk w = (Ret o, w)) ->
  (d ← create_file oid; attach th k open oid d;; cont) db = cont (registered_object oid k o db).
Proof.
  intros Hn Hc. set (db1 := mkDatabase (store db) (world db) (objects_ db) (delete oid (unopened db))).
  assert (create_file oid db = (Ret empty_disk, db1)) as H.
  { unfold create_file, open_file. unfold absent in Hn. by rewrite Hn. }
  run H.
  assert (attach th k open oid empty_disk db1 = (Ret tt, registered_object oid k o db)) as Ha; [|by run Ha].
  unfold attach. run (on_world_run _ db1 _ _ (Hc (world db1))). reflexivity.
Qed.

Lemma construct_heap th w : construct th HeapFile.Open empty_disk w = (Ret new_heap, w).
Proof. unfold construct, HeapFile.Open, view_of. cbn. by destruct w. Qed.

Lemma construct_tree th w : construct th BTree.Open empty_disk w = (Ret new_tree, w).
Proof. unfold construct, view_of. cbn [fst snd]. rewrite Open_fresh. cbn. by destruct w. Qed.

Lemma new_tree_facts : pool_wf new_tree.1 /\ dirty_ new_tree.1 = ∅ /\ observers_by_thread_ new_tree.1 = ∅ /\ tree_object new_tree [] /\
  next_page_id_ (disk_manager_ new_tree.1) = 1.
Proof.
  destruct BTreeContract.fresh_index_ok as (Hb & _ & Hn). split_and!; [apply Hb|vm_compute; reflexivity|vm_compute; reflexivity| |exact Hn].
  destruct Hb as [H1 H2]. split; [exact H1|exact H2].
Qed.

Lemma new_heap_facts : pool_wf new_heap.1 /\ heap_object new_heap [].
Proof.
  assert (pool_wf new_heap.1) as Hw by (split; cbn; [apply empty_disk_wf|by intros pid p ?%lookup_empty_Some..]).
  split; [done|]. split; [|done]. split; [done|done|]. intros pid Hp. by apply elem_of_nil in Hp.
Qed.

(** [w] with one more clean object. *)
Definition with_object (oid : ObjectId) (o : BufferPool * list PageId) (w : World) : World :=
  set_buffer_pools (<[oid := o]> (buffer_pools_ w)) w.

(** Idle worlds stay idle. *)
Lemma idle_with_object oid o w :
  idle w -> buffer_pools_ w !! oid = None -> 0 <= oid < 2 ^ 32 -> pool_wf o.1 -> dirty_ o.1 = ∅ -> observers_by_thread_ o.1 = ∅ ->
  idle (with_object oid o w).
Proof.
  intros [[rs Hs] Hn Hl Hf] Hno Hoid Hwf Hd Ho. destruct o as [bp ids]. split; [|done..]. exists rs. by apply register_step_ok.
Qed.

(** ** The tables under a larger schema *)

(** The data of one more object. *)
Lemma stores_with_heap th w d n oid o :
  stores th w d n -> buffer_pools_ w !! oid = None -> heap_object o [] -> room o n -> current_txn w !! th = None ->
  stores th (with_object oid o w) (set_heap oid [] d) n.
Proof.
  intros [S1 S2 S3 S4 S5] Hno Ho Hr Hc. assert (forall oid', is_Some (buffer_pools_ w !! oid') -> oid' <> oid) as Hne by (intros oid' [x Hx] ->; congruence). split; cbn.
  - by apply calm_none.
  - intros oid' o'. rewrite lookup_insert_Some. intros [[<- <-]|[_ H]]; [done|by eapply S2].
  - intros h rows. rewrite lookup_insert_Some. intros [[<- <-]|[Hhn Hh]]; [exists o; split; [by rewrite lookup_insert_eq|done]|].
    destruct (S3 h rows Hh) as (o' & Ho' & Hobj). exists o'. split; [|done]. by rewrite lookup_insert_ne.
  - intros t es Ht. destruct (S4 t es Ht) as (o' & Ho' & Hobj). exists o'. split; [|done]. rewrite lookup_insert_ne; [done|]. intros ->. congruence.
  - intros h rows. rewrite lookup_insert_Some. intros [[<- _]|[_ Hh]]; [|by eapply S5].
    destruct (trees d !! oid) as [es|] eqn:E; [|done]. destruct (S4 _ _ E) as (o' & Ho' & _). congruence.
Qed.

Lemma stores_with_tree th w d n oid o es :
  stores th w d n -> buffer_pools_ w !! oid = None -> tree_object o es -> room o n -> current_txn w !! th = None ->
  stores th (with_object oid o w) (set_tree oid es d) n.
Proof.
  intros [S1 S2 S3 S4 S5] Hno Ho Hr Hc. split; cbn.
  - by apply calm_none.
  - intros oid' o'. rewrite lookup_insert_Some. intros [[<- <-]|[_ H]]; [done|by eapply S2].
  - intros h rows Hh. destruct (S3 h rows Hh) as (o' & Ho' & Hobj). exists o'. split; [|done]. rewrite lookup_insert_ne; [done|]. intros ->. congruence.
  - intros t es'. rewrite lookup_insert_Some. intros [[<- <-]|[Hne Ht]]; [exists o; split; [by rewrite lookup_insert_eq|done]|].
    destruct (S4 t es' Ht) as (o' & Ho' & Hobj). exists o'. split; [|done]. by rewrite lookup_insert_ne.
  - intros h rows Hh. rewrite lookup_insert_ne; [by eapply S5|]. intros ->. destruct (S3 h rows Hh) as (o' & Ho' & _). congruence.
Qed.

Lemma IndexesOnTable_add c i n :
  IndexesOnTable (add_index c i) n = IndexesOnTable c n ++ (if bool_decide (ix_table_name i = n) then [i] else []).
Proof. unfold IndexesOnTable, add_index. cbn. rewrite List.filter_app. cbn. by case_bool_decide. Qed.

Lemma find_app {A} (p : A -> bool) l1 l2 : List.find p (l1 ++ l2) = match List.find p l1 with Some x => Some x | None => List.find p l2 end.
Proof. induction l1 as [|x l1 IH]; [done|]. cbn. by destruct (p x). Qed.

Lemma tables_add_table c d T t :
  catalog_ok c -> catalog_ok (add_table c t) -> ~ (tb_name t ∈ (tb_name <$> tables_ c)) -> tables_state c d T ->
  tables_state (add_table c t) (set_heap (tb_heap_object_id t) [] d) (<[tb_name t := []]> T).
Proof.
  intros Hc Hc' Hn HT t' Ht'. assert (forall n, IndexesOnTable (add_table c t) n = IndexesOnTable c n) as Hi by done.
  cbn [tables_ add_table] in Ht'. apply elem_of_app in Ht' as [Hin|Hin].
  - assert (tb_name t' <> tb_name t) as Hne by (intros E; apply Hn; rewrite <- E; by apply list_elem_of_fmap_2).
    rewrite fn_lookup_insert_ne by done. destruct (HT t' Hin) as [[S1 S2 S3] Hpk]. split; [split|exact Hpk].
    + cbn. rewrite lookup_insert_ne; [exact S1|]. intros E. apply Hne. f_equal. eapply (heap_id_inj (add_table c t)); [done|..|by symmetry].
      * cbn. apply elem_of_app. by left.
      * cbn. apply elem_of_app. right. by left.
    + done.
    + intros i. rewrite Hi. apply S3.
  - apply list_elem_of_singleton in Hin as ->. rewrite fn_lookup_insert.
    assert (IndexesOnTable c (tb_name t) = []) as Hnone.
    { destruct (IndexesOnTable c (tb_name t)) as [|i l] eqn:E; [done|]. destruct Hn. assert (i ∈ IndexesOnTable c (tb_name t)) as Hin by (rewrite E; by left).
      apply on_table_facts in Hin as [Hin <-]. by apply index_tables. }
    split; [split|].
    + cbn. apply lookup_insert_eq.
    + constructor.
    + intros i. rewrite Hi, Hnone. by intros ?%elem_of_nil.
    + unfold pk_distinct. rewrite PrimaryKeyIndex_on_table, Hi, Hnone. done.
Qed.

Lemma tables_add_index c d T i t es :
  catalog_ok c -> catalog_ok (add_index c i) -> t ∈ tables_ c -> ix_table_name i = tb_name t -> es ≡ₚ index_entries t i (T (tb_name t)) ->
  (ix_is_primary_key i = true -> T (tb_name t) = []) -> tables_state c d T ->
  tables_state (add_index c i) (set_tree (ix_object_id i) es d) T.
Proof.
  intros Hc Hc' Ht Hit Hes Hpk0 HT t' Ht'. change (tables_ (add_index c i)) with (tables_ c) in Ht'. destruct (HT t' Ht') as [[S1 S2 S3] Hpk]. split; [split; [exact S1|done|]|].
  - intros j. rewrite IndexesOnTable_add, elem_of_app. intros [Hj|Hj].
    + destruct (S3 j Hj) as (es' & Hes' & Hp). exists es'. split; [|done]. cbn. rewrite lookup_insert_ne; [done|]. intros E.
      assert (i = j) as <-.
      { eapply (index_id_inj (add_index c i)); [done|..|done]; cbn; apply elem_of_app; [right; by left|left; by apply on_table_facts in Hj as [? _]]. }
      pose proof (co_indexes _ Hc') as Hnd. cbn in Hnd. rewrite fmap_app in Hnd. apply NoDup_app in Hnd as (_ & Hnd & _).
      apply on_table_facts in Hj as [Hj _]. apply (Hnd (ix_name i)); [by apply list_elem_of_fmap_2|cbn; by left].
    + case_bool_decide as E; [|by apply elem_of_nil in Hj]. apply list_elem_of_singleton in Hj as ->.
      assert (t' = t) as -> by (eapply table_by_name; [done..|congruence]). exists es. split; [cbn; apply lookup_insert_eq|done].
  - unfold pk_distinct in *. rewrite PrimaryKeyIndex_on_table, IndexesOnTable_add, find_app, <- PrimaryKeyIndex_on_table.
    destruct (PrimaryKeyIndex c (tb_name t')); [done|]. case_bool_decide as E; [|done]. cbn. destruct (ix_is_primary_key i); [|done].
    assert (t' = t) as -> by (eapply table_by_name; [done..|congruence]). rewrite Hpk0 by done. constructor.
Qed.

(** ** Larger worlds *)

(** [serving], of a world. *)
Record running (th : ThreadId) (c : Catalog) (w : World) (T : contents) (n : nat) : Prop := mkRunning {
  ru_idle : idle w;
  ru_tables : tables_in th c w T n;
  ru_registered oid : is_Some (buffer_pools_ w !! oid) -> oid ∈ object_ids c
}.

Lemma serving_running th c db T n : serving th c db T n <-> GetCatalog db = c /\ running th c (world db) T n.
Proof. split; [intros [H1 H2 H3 H4]; split; [done|by split]|intros [H1 [H2 H3 H4]]; by split]. Qed.

(** No object has the next id. *)
Lemma next_unregistered th c w T n : running th c w T n -> buffer_pools_ w !! next_object_id_ c = None.
Proof.
  intros [_ [Hc _] Hreg]. destruct (buffer_pools_ w !! next_object_id_ c) as [o|] eqn:E; [|done].
  pose proof (Hreg (next_object_id_ c) ltac:(eauto)) as Hin. pose proof (co_bound _ Hc) as Hb. rewrite Forall_forall in Hb. specialize (Hb _ Hin). cbn in Hb. lia.
Qed.

Lemma running_table th c w T n t :
  running th c w T n -> catalog_ok (add_table c t) -> ~ (tb_name t ∈ (tb_name <$> tables_ c)) -> tb_heap_object_id t = next_object_id_ c ->
  7 * Z.of_nat n < 2 ^ 32 -> running th (add_table c t) (with_object (tb_heap_object_id t) new_heap w) (<[tb_name t := []]> T) n.
Proof.
  intros Hru Hc' Hname Hid Hn. pose proof (next_unregistered _ _ _ _ _ Hru) as Hno. rewrite <- Hid in Hno. destruct Hru as [Hidle [Hc (d & Hs & HT)] Hreg].
  destruct new_heap_facts as [Hwf Hobj]. pose proof (idle_current _ th Hidle) as Hcur. pose proof (co_next _ Hc). split.
  - apply idle_with_object; [done|done|lia|done|done|done].
  - split; [done|]. exists (set_heap (tb_heap_object_id t) [] d). split; [|by apply tables_add_table].
    apply stores_with_heap; [done|done|exact Hobj| |done]. unfold room, BTreeReads.BTreeReads.next. cbn. lia.
  - intros oid. cbn. unfold object_ids, add_table. cbn. rewrite fmap_app, !elem_of_app, lookup_insert_is_Some. intros [<-|[_ H1]].
    + left. right. cbn. by left.
    + pose proof (Hreg oid H1) as Hin. unfold object_ids in Hin. rewrite elem_of_app in Hin. tauto.
Qed.

Lemma running_index th c w T n i t o es :
  running th c w T n -> catalog_ok (add_index c i) -> t ∈ tables_ c -> ix_table_name i = tb_name t -> ix_object_id i = next_object_id_ c ->
  es ≡ₚ index_entries t i (T (tb_name t)) -> (ix_is_primary_key i = true -> T (tb_name t) = []) ->
  tree_object o es -> dirty_ o.1 = ∅ -> observers_by_thread_ o.1 = ∅ -> room o n ->
  running th (add_index c i) (with_object (ix_object_id i) o w) T n.
Proof.
  intros Hru Hc' Ht Hit Hid Hes Hpk Hobj Hd Hob Hroom. pose proof (next_unregistered _ _ _ _ _ Hru) as Hno. rewrite <- Hid in Hno.
  destruct Hru as [Hidle [Hc (d & Hs & HT)] Hreg]. pose proof (idle_current _ th Hidle) as Hcur. pose proof (co_next _ Hc). split.
  - apply idle_with_object; [done|done|lia|apply Hobj|done|done].
  - split; [done|]. exists (set_tree (ix_object_id i) es d). split; [by apply stores_with_tree|by apply (tables_add_index c d T i t)].
  - intros oid. cbn. unfold object_ids, add_index. cbn. rewrite fmap_app, !elem_of_app, lookup_insert_is_Some. intros [<-|[_ H1]].
    + right. right. cbn. by left.
    + pose proof (Hreg oid H1) as Hin. unfold object_ids in Hin. rewrite elem_of_app in Hin. tauto.
Qed.

(** ** CREATE TABLE *)

Lemma bind_bind {W A B C} (m : M W A) (f : A -> M W B) (g : B -> M W C) w : (a ← m; b ← f a; g b) w = (b ← (a ← m; f a); g b) w.
Proof. unfold mbind, M_bind. by destruct (m w) as [[] ?]. Qed.

(** The schema reaches the disk. *)
Definition persists (env : persist_env) (c : Catalog) : Prop := (persist_calls env (catalog_text c)).2 = Ret tt.

Lemma persisted_run {A} env (a : A) c d : persists env c ->
  exists d', persisted env a c d = (Ret a, mkStore c d') /\ meta_durable d' /\ meta_text d' = Some (catalog_text c).
Proof.
  unfold persists, persisted. intros H. pose proof (persist_calls_cases env (catalog_text c)) as Hc. destruct (persist_calls env (catalog_text c)) as [calls o].
  cbn in H. subst o. destruct Hc as [[_ ?]|(pre & _ & _ & _ & Hrun)]; [done|]. rewrite Hrun. eexists. split; [reflexivity|]. split; [by intros f [= <-]|done].
Qed.

(** The files of the objects to come are empty. *)
Definition fresh_files (c : Catalog) (db : Database) : Prop := forall id, next_object_id_ c <= id -> absent db id.

(** The log and the files of the objects of [c] as they were. *)
Definition old_files (c : Catalog) (w w' : World) : Prop :=
  log_manager_ w' = log_manager_ w /\ forall oid, oid ∈ object_ids c -> disks_of w' !! oid = disks_of w !! oid.

Lemma old_files_trans c w1 w2 w3 : old_files c w1 w2 -> old_files c w2 w3 -> old_files c w1 w3.
Proof. intros [H1 H2] [H3 H4]. split; [congruence|]. intros oid H. by rewrite H4, H2. Qed.

Lemma old_files_new c oid o w : ~ (oid ∈ object_ids c) -> old_files c w (with_object oid o w).
Proof. intros Hn. split; [done|]. intros i Hi. rewrite !disks_of_lookup. cbn. rewrite lookup_insert_ne; [done|set_solver]. Qed.

Lemma later_id c oid : catalog_ok c -> next_object_id_ c <= oid -> ~ (oid ∈ object_ids c).
Proof.
  intros Hc Hle Hin. pose proof (co_bound _ Hc) as Hb. rewrite Forall_forall in Hb. specialize (Hb _ Hin). cbn in Hb. lia.
Qed.

(** Every object of the database is registered. *)
Definition known (db : Database) : Prop := forall oid, is_Some (objects_ db !! oid) <-> is_Some (buffer_pools_ (world db) !! oid).

Lemma known_registered oid k o db : known db -> known (registered_object oid k o db).
Proof. intros H i. cbn. by rewrite !lookup_insert_is_Some', (H i). Qed.

(** A database between statements: it serves its tables, the schema is on
    disk, and objects and files are those of the schema. *)
Record at_rest (th : ThreadId) (c : Catalog) (db : Database) (T : contents) (n : nat) : Prop := mkAtRest {
  ar_serving : serving th c db T n;
  ar_saved : schema_saved db;
  ar_keys : pk_indexed c;
  ar_fresh : fresh_files c db;
  ar_known : known db
}.

Section Ddl.
Context (th : ThreadId) (env : Env).

Lemma no_active db : idle (world db) -> RequireNoActiveTransaction db = (Ret tt, db).
Proof.
  intros Hid. unfold RequireNoActiveTransaction. run (gets_run (fun db => HasActiveTransaction (world db)) db).
  unfold HasActiveTransaction. by rewrite (id_none _ Hid), bool_decide_eq_true_2.
Qed.

Lemma Execute_create_table s db : Execute th env (CreateTableStmt s) db = ExecuteCreateTable th env s db.
Proof. reflexivity. Qed.

Lemma Execute_create_index s db : Execute th env (CreateIndexStmt s) db = ExecuteCreateIndex th env s db.
Proof. reflexivity. Qed.

(** The database after the storage of a table was made. *)
Definition with_storage (id : ObjectId) (pk : option bytes) (db : Database) : Database :=
  let db2 := registered_object id kHeap new_heap db in
  match pk with None => db2 | Some _ => registered_object (u32 (id + 1)) kIndex new_tree db2 end.

Lemma pk_lookup c name columns col :
  catalog_ok c -> ~ (name ∈ (tb_name <$> tables_ c)) ->
  PrimaryKeyIndex (with_table c name columns (Some col)) name = Some (mkIndex (pk_index_name name col) name col (u32 (next_object_id_ c + 1)) true).
Proof.
  intros Hc Hn. rewrite PrimaryKeyIndex_on_table. cbn [with_table].
  change (mkCatalog _ _ _ _) with (add_index (add_table c (mkTable name columns (Some col) (next_object_id_ c))) (mkIndex (pk_index_name name col) name col (u32 (next_object_id_ c + 1)) true)).
  rewrite IndexesOnTable_add, find_app. cbn [ix_table_name]. rewrite bool_decide_eq_true_2 by done.
  assert (IndexesOnTable (add_table c (mkTable name columns (Some col) (next_object_id_ c))) name = []) as ->; [|done].
  destruct (IndexesOnTable (add_table _ _) name) as [|i l] eqn:E; [done|]. destruct Hn.
  assert (i ∈ IndexesOnTable c name) as Hin by (change (IndexesOnTable c name) with (IndexesOnTable (add_table c (mkTable name columns (Some col) (next_object_id_ c))) name); rewrite E; by left).
  apply on_table_facts in Hin as [Hin <-]. by apply index_tables.
Qed.

Lemma database_create_table c db name columns pk :
  GetCatalog db = c -> catalog_ok c -> fresh_files c db -> next_object_id_ c + 2 < 2 ^ 32 -> persists (e_persist env) (with_table c name columns pk) ->
  if table_accepted c name columns pk
  then exists d', Database.CreateTable th (e_persist env) name columns pk db =
    (Ret (next_object_id_ c), with_storage (next_object_id_ c) pk (mkDatabase (mkStore (with_table c name columns pk) d') (world db) (objects_ db) (unopened db))) /\
    meta_durable d' /\ meta_text d' = Some (catalog_text (with_table c name columns pk))
  else Database.CreateTable th (e_persist env) name columns pk db = (Throw InvalidArgument, db).
Proof.
  intros Hcat Hc Hfresh Hnext Hper. unfold Database.CreateTable. pose proof (co_next _ Hc) as Hnx.
  pose proof (CreateTable_run (e_persist env) name columns pk (store db)) as Hrun. change (catalog_ (store db)) with (GetCatalog db) in Hrun. rewrite Hcat in Hrun.
  destruct (table_accepted c name columns pk) eqn:Ha.
  2: { apply bind_throw. unfold on_catalog. rewrite Hrun. by destruct db. }
  destruct (table_accepted_facts _ _ _ _ Ha) as (Hfree & _). apply name_in_use_false in Hfree as [Hnt _].
  destruct (persisted_run (e_persist env) (next_object_id_ c) (with_table c name columns pk) (dir (store db)) Hper) as (d' & Hp & Hmd & Hmt). rewrite Hp in Hrun.
  exists d'. split; [|done]. set (db1 := mkDatabase (mkStore (with_table c name columns pk) d') (world db) (objects_ db) (unopened db)).
  assert (on_catalog (Catalog.CreateTable (e_persist env) name columns pk) db = (Ret (next_object_id_ c), db1)) as H1 by (unfold on_catalog; by rewrite Hrun).
  run H1. unfold AttachHeapStorage. rewrite (create_object th kHeap HeapFile.Open _ new_heap) by (by apply Hfresh || apply construct_heap).
  destruct pk as [col|]; [|done]. set (db2 := registered_object (next_object_id_ c) kHeap new_heap db1).
  rewrite <- bind_bind. run (gets_run GetCatalog db2). change (GetCatalog db2) with (with_table c name columns (Some col)). rewrite pk_lookup by done.
  rewrite <- bind_bind. cbn [ix_object_id]. unfold AttachIndexStorage.
  change ((a ← create_file (u32 (next_object_id_ c + 1)); attach th kIndex BTree.Open (u32 (next_object_id_ c + 1)) a;; mret (next_object_id_ c)) db2 =
    (Ret (next_object_id_ c), with_storage (next_object_id_ c) (Some col) db1)).
  rewrite (create_object th kIndex BTree.Open _ new_tree); [done| |apply construct_tree]. unfold absent. cbn. rewrite u32_small by lia. apply absent_delete, Hfresh. lia.
Qed.

Lemma accepted_add_table c name columns pk :
  catalog_ok c -> ident name -> Forall ident (col_name <$> columns) -> next_object_id_ c + 2 < 2 ^ 32 ->
  table_accepted c name columns pk = true -> catalog_ok (add_table c (mkTable name columns pk (next_object_id_ c))).
Proof.
  intros Hc Hid Hcols Hn (Hfree & Hne & Hnd & Hpk)%table_accepted_facts. apply add_table_ok; [done| |done|cbn; lia|done].
  split; [done..|]. by apply check_primary_key_ret.
Qed.

Lemma running_with_table c db T n name columns pk :
  running th c (world db) T n -> pk_indexed c -> ident name -> Forall ident (col_name <$> columns) -> next_object_id_ c + 2 < 2 ^ 32 ->
  table_accepted c name columns pk = true -> 1 + 7 * Z.of_nat n < 2 ^ 32 ->
  running th (with_table c name columns pk) (world (with_storage (next_object_id_ c) pk db)) (<[name := []]> T) n.
Proof.
  intros Hru Hpi Hid Hcols Hn Ha Hroom. pose proof (proj1 (ru_tables _ _ _ _ _ Hru)) as Hc. pose proof (co_next _ Hc) as Hnx.
  pose proof (accepted_add_table _ _ _ _ Hc Hid Hcols Hn Ha) as Hadd. pose proof (with_table_ok _ _ _ _ Hc Hpi Hid Hcols Hn Ha) as [Hwt _].
  destruct (table_accepted_facts _ _ _ _ Ha) as (Hfree & _). apply name_in_use_false in Hfree as [Hnt _].
  set (t := mkTable name columns pk (next_object_id_ c)) in *.
  pose proof (running_table th c _ T n t Hru Hadd Hnt eq_refl ltac:(lia)) as H1. destruct pk as [col|]; [|exact H1].
  destruct new_tree_facts as (_ & Hd & Hob & Hobj & Hnp).
  refine (running_index th (add_table c t) _ _ n (mkIndex (pk_index_name name col) name col (u32 (next_object_id_ c + 1)) true) t new_tree [] H1 Hwt _ _ _ _ _ Hobj Hd Hob _).
  - cbn. apply elem_of_app. right. by left.
  - done.
  - done.
  - cbn. by rewrite fn_lookup_insert.
  - intros _. cbn. apply fn_lookup_insert.
  - unfold room, BTreeReads.BTreeReads.next, alone. cbn [v_pool]. rewrite Hnp. lia.
Qed.

(** Files of later objects are still not there. *)
Lemma fresh_with_storage c id pk d db :
  fresh_files c db -> next_object_id_ c <= next_object_id_ d -> fresh_files d (with_storage id pk db).
Proof.
  intros H Hle k Hk. assert (absent db k) as Hn by (apply H; lia). unfold absent in *. destruct pk; cbn; by repeat apply absent_delete.
Qed.

Lemma with_table_next c name columns pk : next_object_id_ c + 2 < 2 ^ 32 -> 0 <= next_object_id_ c -> next_object_id_ c <= next_object_id_ (with_table c name columns pk).
Proof. intros H H0. assert (u32 (next_object_id_ c + 1) = next_object_id_ c + 1) as E by (apply u32_small; lia). destruct pk; cbn; rewrite E, ?u32_small; lia. Qed.

(** ** Reading a table *)

(** What a scan leaves alone: the file, the transactions, the observers. *)
Definition unread (v : View) : DiskManager * Transactions * gmap ThreadId Observer :=
  (disk_manager_ (v_pool v), v_txns v, observers_by_thread_ (v_pool v)).

Lemma unread_LockPage oid pid mode : preserves unread (LockPage oid pid mode).
Proof. intros v. unfold LockPage. destruct (v_current v); [|done]. by destruct (AcquireLock _ _ _ _). Qed.

Lemma unread_FetchPage pid : preserves unread (FetchPage pid).
Proof.
  intros v. unfold FetchPage. destruct (pages_ (v_pool v) !! pid); [done|]. unfold on_disk, ReadPage, mbind, M_bind. cbn.
  by repeat case_match; simplify_eq.
Qed.

Lemma unread_on_page {A} ptr (m : M Page A) : preserves unread (on_page ptr m).
Proof. intros v. unfold on_page. destruct (pages_ (v_pool v) !! ptr); [|done]. by destruct (m _). Qed.

Lemma unread_Scan oid : preserves unread (HeapFile.Scan oid).
Proof.
  unfold HeapFile.Scan. apply preserves_bind; [done|]. intros l. apply preserves_fold_m. intros out pid. unfold HeapFile.scan_page.
  do 3 (apply preserves_bind; [apply unread_LockPage || apply unread_FetchPage || apply unread_on_page|intros ?]).
  apply preserves_fold_m. intros out' s. unfold HeapFile.scan_slot.
  apply preserves_bind; [apply unread_on_page|]. intros []; [done|]. apply preserves_bind; [apply unread_on_page|done].
Qed.

(** [o'] caches other pages than [o]. *)
Record recached (o o' : BufferPool * list PageId) : Prop := mkRecached {
  rc_disk : disk_manager_ o'.1 = disk_manager_ o.1;
  rc_mem q : mem_page o'.1 q = mem_page o.1 q;
  rc_wf : pool_wf o'.1;
  rc_obs : observers_by_thread_ o'.1 = observers_by_thread_ o.1;
  rc_ids : o'.2 = o.2
}.

Lemma scan_object w h o rows :
  buffer_pools_ w !! h = Some o -> current_txn w !! th = None -> heap_object o rows ->
  exists o', on_pool th h (HeapFile.Scan h) w = (Ret rows, with_object h o' w) /\ recached o o'.
Proof.
  intros Ho Hc Hobj. destruct (heap_object_view th o w rows Hobj) as [Hwf Hr].
  destruct (HeapFile.Scan_run h (view_of th o w) Hwf (calm_none _ _ Hc o)) as (v & E & Hrd). rewrite Hr in E.
  pose proof (context_run _ _ _ _ (context_Scan h) E) as Hctx. pose proof (unread_Scan h (view_of th o w)) as Hun. rewrite E in Hun.
  unfold context, unread, view_of in Hctx, Hun. cbn in Hctx, Hun. rewrite Hc in Hctx. injection Hctx as _ H2 _ H4 _. rewrite H2 in H4. injection H4 as H4.
  injection Hun as U1 U2 U3. exists (v_pool v, v_page_ids v). split.
  - unfold on_pool. rewrite Ho, E. unfold put_view, with_object, set_buffer_pools. by rewrite H4, U2.
  - split; cbn; [done|apply (HeapFile.rd_mem _ _ Hrd)|apply (HeapFile.rd_pool _ _ Hrd), Hwf|done|apply (HeapFile.rd_page_ids _ _ Hrd)].
Qed.

Lemma running_recached c w T n h o o' :
  running th c w T n -> buffer_pools_ w !! h = Some o -> recached o o' -> running th c (with_object h o' w) T n.
Proof.
  intros [Hid HT Hreg] Ho [R1 R2 R3 R4 R5]. pose proof Hid as [[rs Hs] Hn Hl Hf].
  assert (same_world w (with_object h o' w)) as Hsame.
  { split; [|done]. pose proof (put_view_same h o (view_of th o' w) w Ho R1 R2 (fun _ => R3) eq_refl eq_refl) as H.
    unfold put_view in H. cbn in H. by destruct o', w. }
  assert (ids_of (with_object h o' w) = ids_of w) as Hids.
  { apply map_eq. intros i. rewrite !ids_of_lookup. cbn. destruct (decide (i = h)) as [->|]; [rewrite lookup_insert_eq, Ho; cbn; by rewrite R5|by rewrite lookup_insert_ne]. }
  assert (sys_ok (with_object h o' w) rs) as Hs'.
  { apply (same_world_ok w); [done| |done]. apply map_eq. intros i. unfold obs_of. rewrite !lookup_fmap. cbn.
    destruct (decide (i = h)) as [->|]; [rewrite lookup_insert_eq, Ho; cbn; by rewrite R4|by rewrite lookup_insert_ne]. }
  split; [split; [eauto|done..]| |].
  - eapply tables_transfer; [exact HT|intros k; left; apply Hsame|]. eapply ready_same; [|exact Hs|exact Hs'|exact Hids| |].
    + eapply tables_ready; [exact HT|]. intros oid o1 Ho1. exact (sys_pools _ _ _ _ Hs Ho1).
    + intros k. by rewrite (sp_mem _ _ (proj1 Hsame)).
    + apply calm_none. cbn. exact (idle_current _ th Hid).
  - intros oid. cbn. rewrite lookup_insert_is_Some. intros [<-|[_ H]]; apply Hreg; eauto.
Qed.

(** ** CREATE INDEX *)

#[local] Instance ddl_storage : Storage World := world_storage th (e_frames env).

(** A new index while it is filled. *)
Record filling (o : BufferPool * list PageId) (es : list BTreeSpec.entry) (n : nat) : Prop := mkFilling {
  fi_tree : tree_object o es;
  fi_obs : observers_by_thread_ o.1 = ∅;
  fi_room : room o n
}.

Lemma backfill_insert w id o es n key rid :
  (6 <= e_frames env)%nat -> current_txn w !! th = None -> filling o es (S n) -> BTreeNode.BTreeNode.entry_ok (key, rid) ->
  (forall k, BTreeSpec.key_count k ((key, rid) :: es) <= BTreeNode.BTreeNode.kLeafMaxKeys) ->
  exists o' es', tree_Insert id key rid (with_object id o w) = (Ret tt, with_object id o' w) /\ es' ≡ₚ (key, rid) :: es /\ filling o' es' n.
Proof.
  intros Hfr Hc [Hobj Hob Hroom] He Hd. set (w0 := with_object id o w). assert (current_txn w0 !! th = None) as Hc0 by done.
  assert (BTreeSpec.insert_entry key rid es ≡ₚ (key, rid) :: es) as Hp by apply BTreeSpec.insert_at_Permutation.
  destruct (BTreeInsert.tree_Insert_run id (e_frames env) key rid (view_of th o w0) es) as (v & E & Hst & Hnx & Hb);
    [by apply tree_object_view|by apply calm_none|done|done|unfold room, alone in Hroom; unfold BTreeReads.BTreeReads.next, view_of in *; cbn in *; lia| |].
  { intros k. etrans; [|apply (Hd k)]. unfold BTreeSpec.key_count, zlen. by rewrite Hp. }
  destruct (on_pool_outside th id _ w0 o _ v (lookup_insert_eq _ _ _) Hc0 Hob (context_Insert id _ key rid) E) as (H1 & H2 & _).
  exists (v_pool v, v_page_ids v), (BTreeSpec.insert_entry key rid es). split_and!; [|done|].
  - etrans; [exact H1|]. f_equal. unfold w0, with_object, set_buffer_pools. cbn. by rewrite insert_insert_eq.
  - split; [by apply tree_object_of|done|]. apply room_of. unfold room, alone in Hroom. unfold BTreeReads.BTreeReads.next, view_of in *. cbn in *. lia.
Qed.

Lemma backfill_loop c t i w id rows o es n :
  (6 <= e_frames env)%nat -> current_txn w !! th = None -> catalog_ok c -> t ∈ tables_ c -> i ∈ IndexesOnTable c (tb_name t) ->
  rows_ok t rows -> Forall BTreeNode.BTreeNode.rid_ok rows.*1 -> filling o es (length rows + n) ->
  (forall k, BTreeSpec.key_count k (index_entries t i rows ++ es) <= BTreeNode.BTreeNode.kLeafMaxKeys) ->
  exists j o' es', ColumnIndex t (ix_column_name i) = Ret j /\
    for_each (backfill_row th env t j id) (raw t rows) (with_object id o w) = (Ret tt, with_object id o' w) /\
    es' ≡ₚ index_entries t i rows ++ es /\ filling o' es' n.
Proof.
  intros Hfr Hc Hcat Ht Hi. revert o es. induction rows as [|x rows IH]; intros o es Hok Hrid Hfi Hd.
  - destruct (index_column c t i Hcat Ht Hi) as (cd & Hf & _). destruct (ColumnIndex_run t (ix_column_name i)) as [(j & _ & Hj & _)|[_ Hn]]; [|congruence].
    exists j, o, es. done.
  - unfold rows_ok in Hok. cbn in Hok, Hrid. apply Forall_cons in Hok as [Hx Hok], Hrid as [Hxr Hrid].
    destruct (index_value c t i x.2 Hcat Ht Hi Hx) as (v & Hv & Hkey & H64 & _).
    destruct (backfill_insert w id o es (length rows + n) (row_key t i x) x.1 Hfr Hc Hfi) as (o1 & es1 & E & Hp & Hfi1).
    { split; cbn; [unfold row_key; by rewrite <- Hkey|done]. }
    { intros k. etrans; [|apply (Hd k)]. unfold BTreeSpec.key_count, zlen. apply inj_le, submseteq_length, filter_submseteq.
      cbn. apply submseteq_skip. by apply submseteq_inserts_l. }
    destruct (IH o1 es1 Hok Hrid Hfi1) as (j & o' & es' & Hj & Hrun & Hp' & Hfi').
    { intros k. etrans; [|apply (Hd k)]. unfold BTreeSpec.key_count, zlen. rewrite Hp. cbn. by rewrite <- Permutation_middle. }
    exists j, o', es'. split_and!; [done| |rewrite Hp', Hp; cbn; by rewrite <- Permutation_middle|done].
    assert (backfill_row th env t j id (stored_row t x) (with_object id o w) = (Ret tt, with_object id o1 w)) as H1.
    { unfold backfill_row. rewrite DecodeRow_run by done. run (eq_refl : lift (Ret x.2) (with_object id o w) = (Ret x.2, with_object id o w)).
      unfold column_value in Hv. rewrite Hj in Hv. cbn [mbind outcome_bind] in Hv. rewrite Hv.
      run (eq_refl : lift (Ret v) (with_object id o w) = (Ret v, with_object id o w)). rewrite Hkey. exact E. }
    change (raw t (x :: rows)) with (stored_row t x :: raw t rows). cbn [for_each]. run H1. exact Hrun.
Qed.

Lemma finish_index w id o es n :
  current_txn w !! th = None -> filling o es n ->
  exists o', on_pool th id FlushAll (with_object id o w) = (Ret tt, with_object id o' w) /\ filling o' es n /\ dirty_ o'.1 = ∅.
Proof.
  intros Hc [Hobj Hob Hroom]. set (w0 := with_object id o w). assert (current_txn w0 !! th = None) as Hc0 by done.
  assert (pool_wf o.1) as Hwf by apply Hobj.
  destruct (FlushAll_run (view_of th o w0) Hwf) as (v & E & Hwf' & Hd & Hids & Hn & Hm & _).
  destruct (on_pool_outside th id _ w0 o _ v (lookup_insert_eq _ _ _) Hc0 Hob context_FlushAll E) as (H1 & H2 & _).
  exists (v_pool v, v_page_ids v). split_and!; [|split|done].
  - etrans; [exact H1|]. f_equal. unfold w0, with_object, set_buffer_pools. cbn. by rewrite insert_insert_eq.
  - eapply tree_extends; [exact Hobj|exact Hwf'|]. intros q. left. apply Hm.
  - done.
  - unfold room, BTreeReads.BTreeReads.next, alone in *. cbn in *. by rewrite Hn.
Qed.

Lemma table_object c w T n t :
  running th c w T n -> t ∈ tables_ c ->
  exists o, buffer_pools_ w !! tb_heap_object_id t = Some o /\ heap_object o (raw t (T (tb_name t))) /\
    rows_ok t (T (tb_name t)) /\ Forall BTreeNode.BTreeNode.rid_ok (T (tb_name t)).*1.
Proof.
  intros [_ [Hc (d & Hs & HT)] _] Ht. destruct (HT t Ht) as [[S1 S2 _] _]. destruct (st_heap _ _ _ _ Hs _ _ S1) as (o & Ho & Hobj).
  exists o. split_and!; [done..|]. pose proof (rids_ok _ (ho_wf _ _ Hobj)) as Hr. by rewrite (ho_rows _ _ Hobj), raw_rids in Hr.
Qed.

(** No key of the new index gets more rows than a leaf holds. *)
Definition index_fits (c : Catalog) (T : contents) (name table_name column_name : bytes) : Prop :=
  match FindTable c table_name with
  | Some t => forall k, key_uses t (mkIndex name table_name column_name (next_object_id_ c) false) k (T (tb_name t)).*2 <= BTreeNode.BTreeNode.kLeafMaxKeys
  | None => True
  end.

(** The rows the new index takes in. *)
Definition backfilled (c : Catalog) (T : contents) (table_name : bytes) : nat := length (T table_name).

(** The new index filled from the table, and the table's heap read. *)
Lemma backfill_run c t i w T n stmt db :
  (6 <= e_frames env)%nat -> running th c w T n -> catalog_ok (add_index c i) -> t ∈ tables_ c -> ix_table_name i = tb_name t ->
  ci_table_name stmt = tb_name t -> ci_column_name stmt = ix_column_name i -> buffer_pools_ w !! ix_object_id i = None ->
  GetCatalog db = add_index c i -> world db = with_object (ix_object_id i) new_tree w ->
  (forall k, key_uses t i k (T (tb_name t)).*2 <= BTreeNode.BTreeNode.kLeafMaxKeys) -> 1 + 7 * Z.of_nat (length (T (tb_name t)) + n) < 2 ^ 32 ->
  exists w' o es, backfill th env stmt (ix_object_id i) db = (Ret tt, set_world (with_object (ix_object_id i) o w') db) /\
    running th c w' T n /\ current_txn w' !! th = None /\ buffer_pools_ w' !! ix_object_id i = None /\
    (forall oid, is_Some (buffer_pools_ w !! oid) -> is_Some (buffer_pools_ w' !! oid)) /\ old_files c w w' /\ es ≡ₚ index_entries t i (T (tb_name t)) /\ filling o es n.
Proof.
  intros Hfr Hru Hc' Ht Hit Hst Hsc Hno Hcat Hw Hdup Hroom. set (id := ix_object_id i) in *. set (c' := add_index c i) in *.
  destruct (table_object _ _ _ _ _ Hru Ht) as (o & Ho & Hobj & Hok & Hrid). pose proof (idle_current _ th (ru_idle _ _ _ _ _ Hru)) as Hcur.
  set (h := tb_heap_object_id t) in *. assert (id <> h) as Hne by (intros E; rewrite E in Hno; congruence).
  assert (t ∈ tables_ c') as Ht' by done.
  assert (i ∈ IndexesOnTable c' (tb_name t)) as Hi by (apply on_table_facts; split; [cbn; apply elem_of_app; right; by left|done]).
  set (w0 := with_object id new_tree w) in *.
  assert (buffer_pools_ w0 !! h = Some o) as Ho0 by (cbn; by rewrite lookup_insert_ne).
  destruct (scan_object w0 h o _ Ho0 Hcur Hobj) as (o1 & Hscan & Hrc).
  assert (with_object h o1 w0 = with_object id new_tree (with_object h o1 w)) as Hcomm
    by (unfold w0, with_object, set_buffer_pools; cbn; f_equal; by apply insert_insert_ne).
  destruct new_tree_facts as (_ & _ & Hob & Htree & Hnp).
  destruct (backfill_loop c' t i (with_object h o1 w) id (T (tb_name t)) new_tree [] n Hfr Hcur Hc' Ht' Hi Hok Hrid) as (j & o2 & es & Hj & Hloop & Hp & Hfi).
  { split; [done|done|]. unfold room, BTreeReads.BTreeReads.next, alone. cbn [v_pool]. rewrite Hnp. exact Hroom. }
  { intros k. rewrite app_nil_r, key_count_entries. apply Hdup. }
  exists (with_object h o1 w), o2, es. split_and!; [|by eapply running_recached|done|cbn; by rewrite lookup_insert_ne|intros oid Hoid; cbn; rewrite lookup_insert_is_Some'; by right| |by rewrite app_nil_r in Hp|done].
  2: { split; [done|]. intros oid _. rewrite !disks_of_lookup. cbn. destruct (decide (oid = h)) as [->|]; [|by rewrite lookup_insert_ne].
    rewrite lookup_insert_eq, Ho. cbn. by rewrite (rc_disk _ _ Hrc). }
  unfold backfill. run (gets_run GetCatalog db). rewrite Hcat. apply on_world_run. rewrite Hw, Hst, Hsc.
  assert (deref (FindTable c' (tb_name t)) w0 = (Ret t, w0)) as H1 by (by rewrite FindTable_In). run H1. rewrite Hj.
  run (eq_refl : lift (Ret j) w0 = (Ret j, w0)). run (heap_of_run (W:=World) c' Hc' t Ht' w0). run Hscan. rewrite Hcomm. exact Hloop.
Qed.

Lemma index_accepted_facts c name table_name column_name :
  index_accepted c name table_name column_name = true ->
  exists t, FindTable c table_name = Some t /\ t ∈ tables_ c /\ tb_name t = table_name.
Proof.
  unfold index_accepted. rewrite andb_true_iff. intros [_ H]. destruct (FindTable c table_name) as [t|] eqn:Et; [|done]. exists t.
  destruct (FindTable_Some _ _ _ Et). done.
Qed.

Lemma create_index_run c db T n stmt :
  (6 <= e_frames env)%nat -> GetCatalog db = c -> running th c (world db) T n -> pk_indexed c -> fresh_files c db -> known db -> next_object_id_ c + 2 < 2 ^ 32 ->
  ident (ci_index_name stmt) -> persists (e_persist env) (with_index c (ci_index_name stmt) (ci_table_name stmt) (ci_column_name stmt)) ->
  index_fits c T (ci_index_name stmt) (ci_table_name stmt) (ci_column_name stmt) ->
  1 + 7 * Z.of_nat (backfilled c T (ci_table_name stmt) + n) < 2 ^ 32 ->
  let c' := with_index c (ci_index_name stmt) (ci_table_name stmt) (ci_column_name stmt) in
  if index_accepted c (ci_index_name stmt) (ci_table_name stmt) (ci_column_name stmt)
  then exists d' db', ExecuteCreateIndex th env stmt db = (Ret no_result, db') /\ store db' = mkStore c' d' /\
    meta_durable d' /\ meta_text d' = Some (catalog_text c') /\ running th c' (world db') T n /\ unopened db' = delete (next_object_id_ c) (unopened db) /\ known db' /\
    old_files c (world db) (world db')
  else ExecuteCreateIndex th env stmt db = (Throw InvalidArgument, db).
Proof.
  intros Hfr Hcat Hru Hpi Hfresh Hknown Hnext Hid Hper Hfit Hroom c'. pose proof (proj1 (ru_tables _ _ _ _ _ Hru)) as Hc.
  set (name := ci_index_name stmt) in *. set (tn := ci_table_name stmt) in *. set (cn := ci_column_name stmt) in *.
  unfold ExecuteCreateIndex, Database.CreateIndex. run (no_active db (ru_idle _ _ _ _ _ Hru)).
  pose proof (CreateIndex_run (e_persist env) name tn cn (store db)) as Hrun. change (catalog_ (store db)) with (GetCatalog db) in Hrun. rewrite Hcat in Hrun.
  destruct (index_accepted c name tn cn) eqn:Ha.
  2: { apply bind_throw. apply bind_throw. unfold on_catalog. fold name tn cn. rewrite Hrun. by destruct db. }
  destruct (persisted_run (e_persist env) (next_object_id_ c) c' (dir (store db)) Hper) as (d' & Hp & Hmd & Hmt). unfold c' in Hp. rewrite Hp in Hrun.
  set (db1 := mkDatabase (mkStore c' d') (world db) (objects_ db) (unopened db)).
  assert (on_catalog (Catalog.CreateIndex (e_persist env) name tn cn) db = (Ret (next_object_id_ c), db1)) as H1 by (unfold on_catalog; by rewrite Hrun).
  destruct (index_accepted_facts _ _ _ _ Ha) as (t & Hft & Ht & Htn). destruct (with_index_ok _ _ _ _ Hc Hpi Hid Hnext Ha) as [Hc' _].
  set (i := mkIndex name tn cn (next_object_id_ c) false). change c' with (add_index c i) in *.
  pose proof (next_unregistered _ _ _ _ _ Hru) as Hno. set (db2 := registered_object (next_object_id_ c) kIndex new_tree db1).
  unfold index_fits in Hfit. fold name tn cn in Hfit. rewrite Hft in Hfit. unfold backfilled in Hroom. rewrite <- Htn in Hroom.
  destruct (backfill_run c t i (world db) T n stmt db2 Hfr Hru Hc' Ht (eq_sym Htn) (eq_sym Htn) eq_refl Hno eq_refl eq_refl Hfit Hroom)
    as (w' & o & es & Hbf & Hru' & Hcur & Hno' & Hreg & Hsame & Hes & Hfi).
  destruct (finish_index w' (next_object_id_ c) o es n Hcur Hfi) as (o' & Hfl & [F1 F2 F3] & Hcl).
  exists d', (set_world (with_object (next_object_id_ c) o' w') db2). split_and!; [|done|done|done| |done| |].
  - assert (Database.CreateIndex th (e_persist env) name tn cn (Some (backfill th env stmt)) db =
      (Ret (next_object_id_ c), set_world (with_object (next_object_id_ c) o' w') db2)) as H2; [|unfold Database.CreateIndex in H2; by run H2].
    unfold Database.CreateIndex. run H1. unfold AttachIndexStorage.
    rewrite (create_object th kIndex BTree.Open _ new_tree) by (by apply Hfresh || apply construct_tree). fold db2. rewrite <- bind_bind. run Hbf.
    assert (on_world (on_pool th (next_object_id_ c) FlushAll) (set_world (with_object (next_object_id_ c) o w') db2) =
      (Ret tt, set_world (with_object (next_object_id_ c) o' w') db2)) as H3 by exact (on_world_run _ _ _ _ Hfl).
    by run H3.
  - apply (running_index th c w' T n i t o' es); done.
  - intros oid. cbn. rewrite !lookup_insert_is_Some', (Hknown oid). split; intros [?|Hk]; [by left|right; by apply Hreg|by left|right].
    eapply tables_registered; [apply (ru_tables _ _ _ _ _ Hru)|]. by apply (ru_registered _ _ _ _ _ Hru').
  - eapply old_files_trans; [exact Hsame|]. apply old_files_new, later_id; [done|lia].
Qed.

Lemma create_table_run c db T n stmt :
  GetCatalog db = c -> running th c (world db) T n -> pk_indexed c -> fresh_files c db -> known db -> next_object_id_ c + 2 < 2 ^ 32 ->
  ident (ct_table_name stmt) -> Forall ident (col_name <$> ct_columns stmt) ->
  persists (e_persist env) (with_table c (ct_table_name stmt) (ct_columns stmt) (ct_primary_key_column stmt)) -> 1 + 7 * Z.of_nat n < 2 ^ 32 ->
  let c' := with_table c (ct_table_name stmt) (ct_columns stmt) (ct_primary_key_column stmt) in
  if table_accepted c (ct_table_name stmt) (ct_columns stmt) (ct_primary_key_column stmt)
  then exists d' db', ExecuteCreateTable th env stmt db = (Ret no_result, db') /\ store db' = mkStore c' d' /\
    meta_durable d' /\ meta_text d' = Some (catalog_text c') /\ running th c' (world db') (<[ct_table_name stmt := []]> T) n /\ fresh_files c' db' /\ known db' /\ old_files c (world db) (world db')
  else ExecuteCreateTable th env stmt db = (Throw InvalidArgument, db).
Proof.
  intros Hcat Hru Hpi Hfresh Hknown Hnext Hid Hcols Hper Hroom c'. pose proof (proj1 (ru_tables _ _ _ _ _ Hru)) as Hc.
  unfold ExecuteCreateTable. run (no_active db (ru_idle _ _ _ _ _ Hru)).
  pose proof (database_create_table c db _ _ _ Hcat Hc Hfresh Hnext Hper) as Hrun.
  destruct (table_accepted c _ _ _) eqn:Ha; [|by apply bind_throw]. destruct Hrun as (d' & Hrun & Hmd & Hmt).
  set (db1 := mkDatabase (mkStore c' d') (world db) (objects_ db) (unopened db)) in *.
  exists d', (with_storage (next_object_id_ c) (ct_primary_key_column stmt) db1). split_and!; [by run Hrun| |done|done| | | |].
  - by destruct (ct_primary_key_column stmt).
  - by apply running_with_table.
  - apply (fresh_with_storage c); [exact Hfresh|]. apply with_table_next; [done|apply Hc].
  - unfold with_storage. destruct (ct_primary_key_column stmt); by repeat apply known_registered.
  - pose proof (co_next _ Hc). pose proof (old_files_new c (next_object_id_ c) new_heap (world db) (later_id _ _ Hc (Z.le_refl _))) as H1.
    unfold with_storage. destruct (ct_primary_key_column stmt); [|exact H1]. eapply old_files_trans; [exact H1|].
    apply old_files_new, later_id; [done|]. rewrite u32_small; lia.
Qed.

(** ** The statements *)

(** The schema a DDL statement asks for, whether it is granted, and the rows
    of its tables. *)
Definition ddl_schema (c : Catalog) (stmt : Statement) : Catalog :=
  match stmt with
  | CreateTableStmt s => with_table c (ct_table_name s) (ct_columns s) (ct_primary_key_column s)
  | CreateIndexStmt s => with_index c (ci_index_name s) (ci_table_name s) (ci_column_name s)
  | _ => c
  end.

Definition ddl_accepted (c : Catalog) (stmt : Statement) : bool :=
  match stmt with
  | CreateTableStmt s => table_accepted c (ct_table_name s) (ct_columns s) (ct_primary_key_column s)
  | CreateIndexStmt s => index_accepted c (ci_index_name s) (ci_table_name s) (ci_column_name s)
  | _ => false
  end.

Definition ddl_contents (T : contents) (stmt : Statement) : contents :=
  match stmt with CreateTableStmt s => <[ct_table_name s := []]> T | _ => T end.

(** The names are the parser's, object ids and pages are left, and a new index
    holds its rows. *)
Definition ddl_fits (c : Catalog) (T : contents) (stmt : Statement) (n : nat) : Prop :=
  next_object_id_ c + 2 < 2 ^ 32 /\
  match stmt with
  | CreateTableStmt s => ident (ct_table_name s) /\ Forall ident (col_name <$> ct_columns s) /\ 1 + 7 * Z.of_nat n < 2 ^ 32
  | CreateIndexStmt s => ident (ci_index_name s) /\ index_fits c T (ci_index_name s) (ci_table_name s) (ci_column_name s) /\
      1 + 7 * Z.of_nat (backfilled c T (ci_table_name s) + n) < 2 ^ 32
  | _ => False
  end.

Lemma ddl_run (c : Catalog) (db : Database) (T : contents) (n : nat) (stmt : Statement) :
  (6 <= e_frames env)%nat -> at_rest th c db T n -> ddl_fits c T stmt n -> persists (e_persist env) (ddl_schema c stmt) ->
  let c' := ddl_schema c stmt in
  let T' := ddl_contents T stmt in
  if ddl_accepted c stmt
  then exists db', Execute th env stmt db = (Ret no_result, db') /\ serving th c' db' T' n /\ (storable c' -> at_rest th c' db' T' n) /\
    old_files c (world db) (world db')
  else Execute th env stmt db = (Throw InvalidArgument, db).
Proof.
  intros Hfr [[Hcat Hru]%serving_running _ Hpi Hfresh Hkn] [Hnext Hfit] Hper c' T'. pose proof (proj1 (ru_tables _ _ _ _ _ Hru)) as Hc. pose proof (co_next _ Hc).
  assert (forall d' db', store db' = mkStore c' d' -> meta_durable d' -> meta_text d' = Some (catalog_text c') -> running th c' (world db') T' n ->
    fresh_files c' db' -> known db' -> pk_indexed c' -> old_files c (world db) (world db') ->
    serving th c' db' T' n /\ (storable c' -> at_rest th c' db' T' n) /\ old_files c (world db) (world db')) as Hdone.
  { intros d' db' Hst Hmd Hmt Hr Hf Hk Hp Ho. assert (GetCatalog db' = c') as Hg by (unfold GetCatalog; by rewrite Hst).
    assert (serving th c' db' T' n) as Hsv by (by apply serving_running). split_and!; [done| |done]. intros Hstor.
    assert (schema_saved db') as Hss by (split; rewrite ?Hg, ?Hst; [done..|by apply holds_text]). by split. }
  destruct stmt as [s|s| | | | | | |]; try done; cbn [ddl_accepted].
  - destruct Hfit as (Hid & Hcols & Hroom). pose proof (create_table_run c db T n s Hcat Hru Hpi Hfresh Hkn Hnext Hid Hcols Hper Hroom) as Hrun. rewrite Execute_create_table.
    destruct (table_accepted c _ _ _) eqn:Ha; [|done]. destruct Hrun as (d' & db' & H1 & H2 & H3 & H4 & H5 & H6 & H7 & H8).
    exists db'. split; [exact H1|]. apply (Hdone d'); try done. by apply with_table_ok.
  - destruct Hfit as (Hid & Hidx & Hroom). pose proof (create_index_run c db T n s Hfr Hcat Hru Hpi Hfresh Hkn Hnext Hid Hper Hidx Hroom) as Hrun. rewrite Execute_create_index.
    destruct (index_accepted c _ _ _) eqn:Ha; [|done]. destruct Hrun as (d' & db' & H1 & H2 & H3 & H4 & H5 & H6 & H7 & H8).
    exists db'. split; [exact H1|]. apply (Hdone d'); try done; [|by apply with_index_ok].
    intros k Hk. unfold absent. rewrite H6. apply absent_delete, Hfresh. unfold c' in Hk. cbn in Hk. rewrite u32_small in Hk; lia.
Qed.

(** A statement the schema does not allow. *)
Lemma ddl_rejected c db T n stmt : at_rest th c db T n -> ddl_fits c T stmt n -> ddl_accepted c stmt = false ->
  Execute th env stmt db = (Throw InvalidArgument, db).
Proof.
  intros [[Hcat Hid _ _] _ _ _ _] [_ Hfit] Ha. assert (forall s, mkDatabase s (world db) (objects_ db) (unopened db) = db <-> s = store db) as Hdb by (intros s; destruct db; cbn; split; congruence).
  destruct stmt as [s|s| | | | | | |]; try done; cbn [ddl_accepted] in Ha.
  - rewrite Execute_create_table. unfold ExecuteCreateTable. run (no_active db Hid). apply bind_throw. unfold Database.CreateTable. apply bind_throw.
    unfold on_catalog. rewrite CreateTable_run. change (catalog_ (store db)) with (GetCatalog db). rewrite Hcat, Ha. f_equal. by apply Hdb.
  - rewrite Execute_create_index. unfold ExecuteCreateIndex. run (no_active db Hid). apply bind_throw. unfold Database.CreateIndex. apply bind_throw.
    unfold on_catalog. rewrite CreateIndex_run. change (catalog_ (store db)) with (GetCatalog db). rewrite Hcat, Ha. f_equal. by apply Hdb.
Qed.

(** When a system call of [Persist] fails, the schema in memory is the new one
    all the same; the metadata file, the objects and the files are untouched. *)
Definition unpersisted (c' : Catalog) (db db' : Database) : Prop :=
  exists d', db' = mkDatabase (mkStore c' d') (world db) (objects_ db) (unopened db) /\ meta d' = meta (dir (store db)).

Lemma persisted_failed {A} e (a : A) c d : ~ persists e c ->
  exists d', persisted e a c d = (Throw RuntimeError, mkStore c d') /\ meta d' = meta d.
Proof.
  unfold persists, persisted. intros H. pose proof (persist_calls_cases e (catalog_text c)) as Hc. destruct (persist_calls e (catalog_text c)) as [calls o].
  cbn in H. destruct Hc as [[Hno ->]|(pre & _ & _ & -> & _)]; [|done]. exists (fs_runs calls d). split; [done|by apply fs_runs_meta].
Qed.

Lemma ddl_unpersisted (c : Catalog) (db : Database) (stmt : Statement) :
  GetCatalog db = c -> idle (world db) -> ddl_accepted c stmt = true -> ~ persists (e_persist env) (ddl_schema c stmt) ->
  exists db', Execute th env stmt db = (Throw RuntimeError, db') /\ unpersisted (ddl_schema c stmt) db db'.
Proof.
  intros Hcat Hid Ha Hper. pose proof (persisted_failed (e_persist env) (next_object_id_ c) _ (dir (store db)) Hper) as (d' & Hp & Hm).
  exists (mkDatabase (mkStore (ddl_schema c stmt) d') (world db) (objects_ db) (unopened db)). split; [|by exists d'].
  destruct stmt as [s|s| | | | | | |]; try done; cbn [ddl_accepted ddl_schema] in *.
  - rewrite Execute_create_table. unfold ExecuteCreateTable. run (no_active db Hid). apply bind_throw. unfold Database.CreateTable. apply bind_throw.
    unfold on_catalog. rewrite CreateTable_run. change (catalog_ (store db)) with (GetCatalog db). by rewrite Hcat, Ha, Hp.
  - rewrite Execute_create_index. unfold ExecuteCreateIndex. run (no_active db Hid). apply bind_throw. unfold Database.CreateIndex. apply bind_throw.
    unfold on_catalog. rewrite CreateIndex_run. change (catalog_ (store db)) with (GetCatalog db). by rewrite Hcat, Ha, Hp.
Qed.

Lemma unpersisted_crash c' db db' fs :
  unpersisted c' db db' -> crash_files db' (world db') None fs -> crash_files db (world db) None fs.
Proof.
  intros (d' & -> & Hm) [Hcat Hds]. split; [|exact Hds]. cbn in Hcat. by destruct Hcat as [H1 H2|f f' H1 H2 H3]; rewrite Hm in H1; [apply crash_none|eapply crash_some].
Qed.

(** What a crash after a schema change leaves when the new name of the
    metadata file does not survive it, the directory never being synced:
    [catalog.meta] is the one of [db], before the statement; the log and the
    data files are those of [db'], after it. *)
Record crash_without_rename (db db' : Database) (fs : Files) : Prop := mkCrashWithoutRename {
  cw_catalog : crash_dir (dir (store db)) (f_catalog fs);
  cw_disks : exists ds, crash_of (world db') None (f_wal fs) ds /\ held_by (f_objects fs) ds
}.

(** C6: CREATE TABLE and CREATE INDEX outside a transaction have three
    outcomes. A statement the schema does not allow throws [invalid_argument]
    and leaves the database as it was. One it allows answers, when the system
    calls of [Persist] succeed, and leaves the database serving the new
    schema: a new table is empty, all other tables have their rows, a new
    index has an entry for every row its table already had. When the schema
    can be stored, the database is again one between statements. A crash after
    the answer that keeps the renamed metadata file reopens to the new schema
    and the same tables; one that loses the rename opens with the old schema
    and the old rows, whatever the new objects left in the directory. When a
    system call of [Persist] fails the statement throws [runtime_error], with
    the new schema in memory but no object made and nothing changed on disk:
    after a crash the old tables are back. *)
Theorem ddl_serves (c : Catalog) (db : Database) (T : contents) (n : nat) (stmt : Statement) :
  (6 <= e_frames env)%nat -> at_rest th c db T n -> ddl_fits c T stmt n ->
  let c' := ddl_schema c stmt in
  let T' := ddl_contents T stmt in
  if ddl_accepted c stmt
  then
    (persists (e_persist env) c' ->
      exists db', Execute th env stmt db = (Ret no_result, db') /\ serving th c' db' T' n /\
        (storable c' -> at_rest th c' db' T' n /\
          forall dir_path fs, crash_files db' (world db') None fs -> reopens th dir_path fs c' T' n) /\
        (forall dir_path fs, crash_without_rename db db' fs -> opens_with th dir_path fs c T n)) /\
    (~ persists (e_persist env) c' ->
      exists db', Execute th env stmt db = (Throw RuntimeError, db') /\ unpersisted c' db db' /\
        forall dir_path fs, crash_files db' (world db') None fs -> reopens th dir_path fs c T n)
  else Execute th env stmt db = (Throw InvalidArgument, db).
Proof.
  intros Hfr Hr Hfit c' T'. pose proof (ddl_run c db T n stmt Hfr Hr Hfit) as H. cbn zeta in H. fold c' T' in H. pose proof Hr as [Hsv Hss _ _ _].
  pose proof (ddl_rejected c db T n stmt Hr Hfit) as Hrej. destruct (ddl_accepted c stmt) eqn:Ha; [|by apply Hrej]. split; intros Hper.
  - destruct (H Hper) as (db' & H1 & H2 & H3 & H4). exists db'. split_and!; [done..| |].
    + intros Hst. split; [by apply H3|]. intros dir_path fs. apply serving_reopens; [done|]. by apply (ar_saved _ _ _ _ _ (H3 Hst)).
    + intros dir_path fs [Hcat Hds]. destruct H4 as [Hlog Hold]. by apply (serving_opens_with th c db T n (world db')).
  - destruct (ddl_unpersisted c db stmt (sv_catalog _ _ _ _ _ Hsv) (sv_idle _ _ _ _ _ Hsv) Ha Hper) as (db' & H1 & H2). exists db'. split_and!; [done..|].
    intros dir_path fs Hcr. eapply serving_reopens; [done..|]. by eapply unpersisted_crash.
Qed.

End Ddl.

(** ** Other statements *)

(** Statements that only change the world leave a database at rest. *)
Lemma at_rest_world th c db w T T' n m : at_rest th c db T n -> serving th c (set_world w db) T' m -> at_rest th c (set_world w db) T' m.
Proof.
  intros [H1 H2 H3 H4 H5] Hs. split; [done|by destruct H2|done|done|]. intros oid. cbn. rewrite (H5 oid).
  split; intros Hk.
  - eapply (tables_registered th c w T' m); [apply (sv_tables _ _ _ _ _ Hs)|]. by apply (sv_registered _ _ _ _ _ H1).
  - eapply (tables_registered th c (world db) T n); [apply (sv_tables _ _ _ _ _ H1)|]. by apply (sv_registered _ _ _ _ _ Hs).
Qed.
