(* ===== verification/Cycle.v ===== *)
(** * Cycle: checkpoints and reopening

    A database between statements with everything a later session needs, and
    the way from one session to the next: [Checkpoint] writes every page back
    and empties the log, and the constructor makes of the files a database
    that serves the same tables. *)
From S2P Require Import Prelude Config DiskManager BufferPool LockManager LogManager Recovery TransactionManager CrashSafety TxnSystem.
From S2P Require Import Storage Text Catalog Ast Planner Executor Query Tables Statements WorldStorage WorldTables Database Session Autocommit Reopen Ddl.

(** ** Writing back *)

(** What a flush leaves alone outside the pool's pages. *)
Definition unflushed (v : View) : LockManager * Transactions := (v_locks v, v_txns v).

Lemma unflushed_FlushAll : preserves unflushed FlushAll.
Proof.
  unfold FlushAll. apply preserves_bind; [done|]. intros l. apply preserves_bind; [|done]. apply preserves_for_each. intros pid v.
  unfold flush_one, on_disk. destruct (pages_ (v_pool v) !! pid); [|done]. by destruct (WritePage _ _ _).
Qed.

Lemma observers_FlushAll : preserves pool_obs FlushAll.
Proof.
  unfold FlushAll. apply preserves_bind; [done|]. intros l. apply preserves_bind; [|done]. apply preserves_for_each. intros pid v.
  unfold flush_one, on_disk. destruct (pages_ (v_pool v) !! pid); [|done]. by destruct (WritePage _ _ _).
Qed.

(** Every page as before in memory; those of the objects [ids] are now on
    disk as they are in memory, the others are there as they were. *)
Record written_back (ids : list ObjectId) (w w' : World) : Prop := mkWrittenBack {
  wb_log : log_manager_ w' = log_manager_ w;
  wb_active : active_txns_ w' = active_txns_ w;
  wb_current : current_txn w' = current_txn w;
  wb_locks : lock_manager_ w' = lock_manager_ w;
  wb_next : next_txn_id_ w' = next_txn_id_ w;
  wb_obs : obs_of w' = obs_of w;
  wb_ids : ids_of w' = ids_of w;
  wb_mem k : mem_of w' k = mem_of w k;
  wb_disk k : page_of (disks_of w') k = if decide (key_object k ∈ ids) then mem_of w k else page_of (disks_of w) k;
  wb_wf : (forall oid o, buffer_pools_ w !! oid = Some o -> pool_wf o.1) -> forall oid o, buffer_pools_ w' !! oid = Some o -> pool_wf o.1
}.

Lemma written_back_nil w : written_back [] w w.
Proof. by split. Qed.

Lemma written_back_cons oid ids w w1 w2 : written_back [oid] w w1 -> written_back ids w1 w2 -> written_back (oid :: ids) w w2.
Proof.
  intros [] []. split; [congruence..|intros k; congruence| |by intros H; apply wb_wf1, wb_wf0].
  intros k. rewrite wb_disk1, wb_mem0, wb_disk0. repeat case_decide; set_solver.
Qed.

Lemma ids_registered w w' oid : ids_of w' = ids_of w -> is_Some (buffer_pools_ w !! oid) -> is_Some (buffer_pools_ w' !! oid).
Proof.
  intros H [o Ho]. assert (ids_of w' !! oid = Some o.2) as Hi by (by rewrite H, ids_of_lookup, Ho). rewrite ids_of_lookup in Hi.
  destruct (buffer_pools_ w' !! oid); [eauto|done].
Qed.

Lemma flush_object th oid w :
  (forall oid o, buffer_pools_ w !! oid = Some o -> pool_wf o.1) ->
  is_Some (buffer_pools_ w !! oid) -> exists w', on_pool th oid FlushAll w = (Ret tt, w') /\ written_back [oid] w w'.
Proof.
  intros Hwf [o Ho]. destruct (FlushAll_run (view_of th o w) (Hwf _ _ Ho)) as (v & E & Hwf' & _ & Hids & _ & Hm & Hd).
  exists (put_view oid v w). split; [by eapply on_pool_run|]. pose proof (unflushed_FlushAll (view_of th o w)) as Hun. rewrite E in Hun.
  injection Hun as Hl Ht. split; try done.
  - pose proof (preserves_on_pool th oid FlushAll observers_FlushAll w) as Hob. by rewrite (on_pool_run _ _ _ _ _ _ _ Ho E) in Hob.
  - apply map_eq. intros i. rewrite !ids_of_lookup. cbn [put_view buffer_pools_]. destruct (decide (i = oid)) as [->|]; [rewrite lookup_insert_eq, Ho; cbn; by rewrite Hids|by rewrite lookup_insert_ne].
  - intros [i q]. unfold mem_of. cbn [put_view buffer_pools_ key_object key_page]. destruct (decide (i = oid)) as [->|];
      [rewrite lookup_insert_eq, Ho; cbn; apply Hm|by rewrite lookup_insert_ne].
  - intros k. rewrite page_of_put. case_decide as Hk; [|by rewrite decide_False by set_solver]. rewrite decide_True by set_solver.
    rewrite Hd. unfold mem_of. by rewrite Hk, Ho.
  - intros Hall i o'. cbn. rewrite lookup_insert_Some. intros [[_ <-]|[_ H]]; [done|by eapply Hall].
Qed.

Lemma flush_objects th l db :
  (forall oid o, buffer_pools_ (world db) !! oid = Some o -> pool_wf o.1) ->
  (forall oid, oid ∈ l -> is_Some (buffer_pools_ (world db) !! oid)) ->
  exists w', for_each (fun oid => on_world (on_pool th oid FlushAll)) l db = (Ret tt, set_world w' db) /\ written_back l (world db) w'.
Proof.
  revert db. induction l as [|oid l IH]; intros db Hwf Hreg; [exists (world db); split; [by destruct db|apply written_back_nil]|].
  destruct (flush_object th oid (world db) Hwf) as (w1 & H1 & Hb1); [apply Hreg; by left|].
  destruct (IH (set_world w1 db)) as (w2 & H2 & Hb2).
  - by apply Hb1.
  - intros i Hi. cbn. eapply ids_registered; [apply Hb1|]. apply Hreg. by right.
  - exists w2. split; [|by eapply written_back_cons]. cbn [for_each]. by run (on_world_run _ db _ _ H1).
Qed.

(** The objects [Checkpoint] goes through. *)
Definition object_list (db : Database) : list ObjectId := (map_to_list (objects_ db)).*1.

Lemma in_object_list db oid : oid ∈ object_list db <-> is_Some (objects_ db !! oid).
Proof.
  unfold object_list. rewrite list_elem_of_fmap. split.
  - intros ([i k] & -> & Hin). apply elem_of_map_to_list in Hin. cbn. eauto.
  - intros [k Hk]. exists (oid, k). by rewrite elem_of_map_to_list.
Qed.

Lemma Checkpoint_run th db :
  active_txns_ (world db) = ∅ -> (forall oid o, buffer_pools_ (world db) !! oid = Some o -> pool_wf o.1) -> known db ->
  exists w', Checkpoint th db = (Ret tt, set_world (set_log (LogManager.Checkpoint (log_manager_ w')).2 w') db) /\
    written_back (object_list db) (world db) w' /\ forall k, page_of (disks_of w') k = mem_of (world db) k.
Proof.
  intros Hn Hwf Hk. unfold Checkpoint. run (gets_run (fun db => HasActiveTransaction (world db)) db).
  unfold HasActiveTransaction. rewrite Hn, bool_decide_eq_true_2 by done. cbn [negb].
  run (gets_run (fun db => (map_to_list (objects_ db)).*1) db). fold (object_list db).
  destruct (flush_objects th (object_list db) db Hwf) as (w' & H & Hb); [by intros oid Hin%in_object_list; apply Hk|].
  exists w'. split_and!; [by run H|exact Hb|]. intros k. rewrite (wb_disk _ _ _ Hb). case_decide as Hin; [done|]. rewrite in_object_list, (Hk _) in Hin.
  unfold page_of, mem_of. rewrite disks_of_lookup. destruct (buffer_pools_ (world db) !! key_object k); [|done]. destruct Hin; eauto.
Qed.

(** A checkpoint while a transaction runs throws and does nothing. *)
Lemma Checkpoint_refused th db : active_txns_ (world db) <> ∅ -> Checkpoint th db = (Throw LogicError, db).
Proof.
  intros Hn. unfold Checkpoint. run (gets_run (fun db => HasActiveTransaction (world db)) db). unfold HasActiveTransaction.
  by rewrite bool_decide_eq_false_2.
Qed.

(** ** An empty log *)

(** Nothing in the log, nothing running, nothing in memory only. *)
Record pristine (w : World) : Prop := mkPristine {
  pr_log : wal (log_manager_ w) = [];
  pr_synced : LogManager.synced (log_manager_ w) = 0;
  pr_next : next_lsn_ (log_manager_ w) = 1;
  pr_durable : durable_lsn_ (log_manager_ w) = 0;
  pr_flush : flush_in_progress_ (log_manager_ w) = false;
  pr_active : active_txns_ w = ∅;
  pr_current : current_txn w = ∅;
  pr_locks : lock_manager_ w = empty_lm;
  pr_ids : next_txn_id_ w = 1;
  pr_pools oid o : buffer_pools_ w !! oid = Some o -> pool_wf o.1 /\ 0 <= oid < 2 ^ 32 /\ observers_by_thread_ o.1 = ∅;
  pr_clean k : mem_of w k = page_of (disks_of w) k
}.

Lemma empty_log_holds : log_holds (OpenLogManager []) (records_on_open_ (OpenLogManager [])).
Proof.
  change (log_holds (mkLog [] 0 1 [] 0 false) []). split; [done|constructor|intros i r Hr; by rewrite lookup_nil in Hr|done|done|].
  vm_compute. split; discriminate.
Qed.

Lemma pristine_idle w : pristine w -> idle w.
Proof.
  intros [P1 P2 P3 P4 P5 P6 P7 P8 P9 P10 P11].
  assert (forall oid d, disks_of w !! oid = Some d -> disk_wf d) as Hwf.
  { intros oid d. rewrite disks_of_lookup. destruct (buffer_pools_ w !! oid) as [o|] eqn:Ho; [|done]. intros [= <-]. apply (P10 oid o Ho). }
  split; [exists []|done|rewrite P8; apply empty_lm_wf|intros h k; rewrite P8; by intros (e & He & _)].
  split; rewrite ?P6, ?P7, ?P9; [|done|by intros|by intros|by intros|..].
  - split; rewrite ?P1, ?P2, ?P3, ?P4, ?P5, ?P6; [|done|done|..].
    + split; rewrite ?P1, ?P2, ?P3; [done|constructor|intros i r Hi; by rewrite lookup_nil in Hi|done|done|]. vm_compute. split; discriminate.
    + intros oid o Ho. split; apply (P10 oid o Ho).
    + intros data (n & Hn & ->). rewrite P1. assert (take (Z.to_nat n) [] = @nil byte) as -> by exact (take_nil (A := byte) (Z.to_nat n)).
      cbn zeta. change (records_on_open_ (OpenLogManager [])) with (@nil LogRecord). split; [|done]. split; [done|].
      intros r Hr. by apply not_elem_of_nil in Hr.
    + by intros t [x Hx].
    + intros t _ r Hr. by apply not_elem_of_nil in Hr.
  - intros th oid obs ob. rewrite obs_of_lookup. destruct (buffer_pools_ w !! oid) as [o|] eqn:Ho; [|done]. intros [= <-].
    destruct (P10 oid o Ho) as (_ & _ & ->). by rewrite lookup_empty.
  - intros t k Hk. unfold DirtiedPages in Hk. rewrite lookup_empty in Hk. by apply elem_of_empty in Hk.
  - intros k. by left.
Qed.

Lemma opened_pristine c fs db : catalog_ok c -> opened_database c fs db -> f_wal fs = [] -> pristine (world db).
Proof.
  intros Hc Hd Hw. destruct (opened_clean c fs db Hc Hd) as [Hp Hm]. pose proof (od_world _ _ _ Hd) as E. rewrite Hw in E.
  split; try (by rewrite E); done.
Qed.

(** A first [Checkpoint] makes it like one opened on an empty log. *)
Lemma checkpointed_pristine th c fs db :
  catalog_ok c -> opened_database c fs db -> exists w, Checkpoint th db = (Ret tt, set_world w db) /\ pristine w /\
    ids_of w = ids_of (world db) /\ (forall k, mem_of w k = mem_of (world db) k).
Proof.
  intros Hc Hd. destruct (opened_clean c fs db Hc Hd) as [Hp Hm]. pose proof (od_world _ _ _ Hd) as E.
  destruct (Checkpoint_run th db) as (w & Hrun & Hb & Hdisk); [by rewrite E|by intros oid o Ho; apply (Hp _ _ Ho)|exact (od_kinds _ _ _ Hd)|].
  eexists. split; [exact Hrun|]. split; [|split; [exact (wb_ids _ _ _ Hb)|exact (wb_mem _ _ _ Hb)]]. destruct Hb as [B1 B2 B3 B4 B5 B6 B7 B8 B9 B10].
  split; cbn [LogManager.Checkpoint set_log log_manager_ snd set_next_lsn set_synced set_wal LogManager.wal LogManager.synced next_lsn_ durable_lsn_ flush_in_progress_ active_txns_ current_txn lock_manager_ next_txn_id_ buffer_pools_]; try done.
  - rewrite B1, E. unfold OpenLogManager. cbn. by destruct (scan _ _ _ _).
  - rewrite B1, E. unfold OpenLogManager. cbn. by destruct (scan _ _ _ _).
  - by rewrite B2, E.
  - by rewrite B3, E.
  - by rewrite B4, E.
  - by rewrite B5, E.
  - intros oid o Ho. assert (is_Some (buffer_pools_ (world db) !! oid)) as [o0 Ho0] by (eapply ids_registered; [symmetry; exact B7|eauto]).
    destruct (Hp _ _ Ho0) as (_ & Hi & Hob). split; [|split; [done|]].
    + eapply B10; [|exact Ho]. intros i o' Ho'. apply (Hp _ _ Ho').
    + apply (f_equal (.!! oid)) in B6. rewrite !obs_of_lookup, Ho, Ho0 in B6. cbn in B6. injection B6 as ->. done.
  - intros k. change (mem_of w k = page_of (disks_of w) k). by rewrite B8, Hdisk.
Qed.

(** ** The schema read back *)

Lemma regrouped_keys dir_path c : catalog_ok c -> pk_indexed c -> pk_indexed (regrouped dir_path c).
Proof.
  intros Hc Hp t m Ht Hm. destruct (Hp t m Ht Hm) as (i & Hi & Hr). exists i. destruct (regrouped_indexes dir_path c Hc) as [Hperm _].
  split; [by rewrite Hperm|done].
Qed.

(** ** Reopening *)

(** A world that has what the constructor found is one between statements. *)
Lemma reopened_rest th c fs T n db w :
  reopened_as th c fs T n db -> pk_indexed c -> pristine w -> ids_of w = ids_of (world db) -> (forall k, mem_of w k = mem_of (world db) k) ->
  at_rest th c (set_world w db) T n.
Proof.
  intros [Hd Hss Hfr HT] Hpk Hpr Hids Hm. pose proof (proj1 HT) as Hc. pose proof (od_store _ _ _ Hd) as Hst.
  destruct (opened_clean c fs db Hc Hd) as [Hp _]. assert (GetCatalog db = c) as Hg by (unfold GetCatalog; by rewrite Hst).
  split; [split|..].
  - exact Hg.
  - by apply pristine_idle.
  - eapply tables_transfer; [exact HT|intros k; left; apply Hm|].
    apply (ready_pools th c (world db)); [apply (tables_ready th c _ T n HT)|..]; [by intros oid o Ho; apply (Hp _ _ Ho)|by intros oid o Ho; apply (Hp _ _ Ho)| |done| |].
    + intros oid o Ho. apply (pr_pools _ Hpr _ _ Ho).
    + intros k. by rewrite Hm.
    + apply calm_none. cbn. by rewrite (pr_current _ Hpr).
  - intros oid Hoid. cbn in Hoid. apply (ids_registered _ _ _ (eq_sym Hids)) in Hoid as [o Ho]. apply (od_pools _ _ _ Hd _ _ Ho).
  - destruct Hss as [S1 S2 S3]. by split.
  - done.
  - intros id Hid. unfold absent. cbn [set_world unopened]. rewrite (od_unopened _ _ _ Hd), map_lookup_filter.
    pose proof (Hfr id) as Hf. destruct (f_objects fs !! id) as [b|]; [|done]. cbn in *. case_guard; [cbn|done]. apply Hf. done.
  - intros oid. cbn. rewrite (od_kinds _ _ _ Hd oid). split; apply ids_registered; [exact Hids|exact (eq_sym Hids)].
Qed.

(** The first thing a client does after an unclean end: open, and checkpoint. *)
Lemma checkpoint_first th c fs T n db :
  reopened_as th c fs T n db -> pk_indexed c -> exists db', Checkpoint th db = (Ret tt, db') /\ at_rest th c db' T n.
Proof.
  intros Hra Hpk. destruct (checkpointed_pristine th c fs db (proj1 (ra_tables _ _ _ _ _ _ Hra)) (ra_database _ _ _ _ _ _ Hra)) as (w & Hrun & Hpr & Hids & Hm).
  exists (set_world w db). split; [done|]. by eapply reopened_rest.
Qed.

(** A database with its tables in memory, and no transaction running. The data
    files may hold older versions of the pages, or nothing at all. *)
Record in_memory (th : ThreadId) (c : Catalog) (db : Database) (T : contents) (n : nat) : Prop := mkInMemory {
  im_catalog : GetCatalog db = c;
  im_alone : active_txns_ (world db) = ∅;
  im_pools oid o : buffer_pools_ (world db) !! oid = Some o -> pool_wf o.1;
  im_tables : tables_in th c (world db) T n;
  im_registered oid : is_Some (buffer_pools_ (world db) !! oid) -> oid ∈ object_ids c;
  im_saved : schema_saved db;
  im_keys : pk_indexed c;
  im_fresh : fresh_files c db;
  im_known : known db
}.

Lemma rest_in_memory th c db T n : at_rest th c db T n -> in_memory th c db T n.
Proof.
  intros [[Hc [[rs Hs] Hn _ _] HT Hreg] Hss Hpk Hfr Hk]. split; try done. intros oid o. by apply sys_pools with rs.
Qed.

(** The constructor on files that hold the pages in memory, beside an empty log. *)
Lemma reopen_clean th c db T n dir_path fs ds :
  in_memory th c db T n -> f_wal fs = [] -> crash_dir (dir (store db)) (f_catalog fs) -> held_by (f_objects fs) ds ->
  (forall oid d, ds !! oid = Some d -> disk_wf d) -> (forall k, page_of ds k = mem_of (world db) k) ->
  exists db', OpenDatabase th true dir_path fs = Ret db' /\ at_rest th (regrouped dir_path c) db' T n.
Proof.
  intros [Hc Hn Hpools HT Hreg [Hst Hmd Hmt] Hpk Hfr Hk] Hw Hcat Hheld Hwf Hds. rewrite Hc in *. pose proof (st_ok _ Hst) as Hok.
  assert (forall k, is_Some (page_of ds k) -> key_object k ∈ object_ids c) as Hin.
  { intros k Hpg. apply Hreg. rewrite Hds in Hpg. unfold mem_of in Hpg. destruct (buffer_pools_ (world db) !! key_object k); [eauto|by destruct Hpg]. }
  destruct (files_open c dir_path fs ds Hok Hheld Hwf Hin) as (ds1 & Ho & Hno).
  destruct (reopen_run th c (world db) T n n (page_of ds1) dir_path (dir (store db)) fs ds ds1 Hst Hmd Hmt Hcat Ho Hno) as (db' & Hopen & _ & Hra).
  - rewrite Hw. split; [exact empty_log_holds|]. exists 0, ds1. split; [reflexivity|]. split; [|done].
    split; [split; [apply Ho|]|]; [intros r Hr; by apply not_elem_of_nil in Hr|done].
  - exact HT.
  - intros k. left. by rewrite (oa_pages _ _ _ _ _ Ho), Hds.
  - eapply tables_room; [exact HT|done|intros oid; by eapply tables_registered|]. intros k. by rewrite (oa_pages _ _ _ _ _ Ho), Hds.
  - exists db'. split; [exact Hopen|]. replace db' with (set_world (world db') db') by (by destruct db').
    pose proof (opened_pristine _ _ _ (proj1 (ra_tables _ _ _ _ _ _ Hra)) (ra_database _ _ _ _ _ _ Hra) Hw) as Hpr.
    by eapply reopened_rest; [done|apply regrouped_keys|..].
Qed.

(** C5: [Checkpoint], and the end of the process. Whatever the data files hold
    (older pages, or none of them), with no transaction running [Checkpoint]
    returns, leaves memory as it is, and writes every page of every object to
    its file before it empties the log. When the process then ends and the
    operating system keeps what was written to the data files, the constructor
    opens the directory again on the files alone, the log being empty, and the
    new database is one between statements: it serves the same rows under the
    same schema, with no transaction running, no lock held and the schema on
    disk. While a transaction runs [Checkpoint] throws and does nothing. *)
Theorem checkpoint_reopens (th : ThreadId) (db : Database) :
  (forall c T n, in_memory th c db T n ->
    exists db1, Checkpoint th db = (Ret tt, db1) /\ wal (log_manager_ (world db1)) = [] /\
      (forall k, mem_of (world db1) k = mem_of (world db) k /\ page_of (disks_of (world db1)) k = mem_of (world db) k) /\
      forall dir_path fs, crash_files db1 (world db1) None fs ->
        exists db2, OpenDatabase th true dir_path fs = Ret db2 /\ at_rest th (regrouped dir_path c) db2 T n) /\
  (active_txns_ (world db) <> ∅ -> Checkpoint th db = (Throw LogicError, db)).
Proof.
  split; [|apply Checkpoint_refused]. intros c T n Hr. destruct (Checkpoint_run th db (im_alone _ _ _ _ _ Hr) (im_pools _ _ _ _ _ Hr) (im_known _ _ _ _ _ Hr)) as (w & Hrun & Hb & Hdisk).
  eexists. split; [exact Hrun|]. split; [done|]. split; [intros k; split; [apply (wb_mem _ _ _ Hb)|apply Hdisk]|]. intros dir_path fs [Hcat (ds & [(m & _ & Hlog) Hwf Hpg] & Hheld)].
  eapply (reopen_clean th c db T n dir_path fs ds); [done|rewrite Hlog; exact (take_nil (A := byte) (Z.to_nat m))|exact Hcat|exact Hheld|exact Hwf|].
  intros k. destruct (Hpg k) as [->|[? _]]; [apply Hdisk|done].
Qed.
