(* ===== verification/Lifetime.v ===== *)
(** * Lifetime: a database from its creation, over any number of processes

    The contract of the whole program, for one client: it asks statements, runs
    transactions, kills the process between statements or in the middle of a
    commit, and checkpoints once after every restart, before its first
    statement. It always sees the tables of an abstract SQL machine, whose
    state is a schema and the rows of each table.

    The checkpoint is the client's: neither the constructor nor the command
    line tool calls [Database::Checkpoint]. Without it the log of the process
    before is still there when transaction ids start again at 1, and with it
    later in a session the log is no longer synced; both are known to lose
    data, so the events allow it exactly there. *)
From S2P Require Import Prelude Config DiskManager BufferPool LockManager LogManager Recovery TransactionManager CrashSafety TxnSystem.
From S2P Require Import Storage Text Catalog Ast Planner Executor Query Tables Statements WorldStorage WorldTables Database Session Autocommit Reopen Durability Ddl Cycle.

(** ** What can happen *)

(** A statement outside a transaction, a whole transaction, a checkpoint, the
    end of the process between statements, and its end while a statement or a
    transaction commits, in the given phase of the commit; the last three with
    the directory the next process starts on and the files it finds. *)
Inductive Event :=
| Ask (env : Env) (stmt : Statement)
| Transact (env : Env) (l : list Statement) (commits : bool)
| CheckpointNow
| Restart (dir_path : bytes) (fs : Files)
| DieAsking (env : Env) (stmt : Statement) (ph : phase) (dir_path : bytes) (fs : Files)
| DieCommitting (env : Env) (l : list Statement) (ph : phase) (dir_path : bytes) (fs : Files).

Abbreviation answers := (list (outcome ExecuteResult)).

(** ** The program *)

Definition end_statement (commits : bool) : Statement := if commits then CommitStmt else RollbackStmt.

Inductive life_step (th : ThreadId) (db : Database) : Event -> answers -> Database -> Prop :=
| life_ask env stmt o db' :
    counters_ok (world db) -> Execute th env stmt db = (o, db') -> life_step th db (Ask env stmt) [o] db'
| life_transact env l commits os db' :
    counters_ok (world db) -> Execute_all th env (BeginStmt :: l ++ [end_statement commits]) db = (os, db') ->
    life_step th db (Transact env l commits) os db'
| life_checkpoint o db' : Checkpoint th db = (o, db') -> life_step th db CheckpointNow [_ ← o; Ret no_result] db'
| life_restart dir_path fs db' :
    crash_files db (world db) None fs -> OpenDatabase th true dir_path fs = Ret db' -> life_step th db (Restart dir_path fs) [] db'
| life_die_asking env stmt m dir_path fs t w1 o w2 db' :
    counters_ok (world db) -> Begin th (world db) = (Ret t, w1) -> run_statement th env (GetCatalog db) stmt w1 = (o, w2) ->
    crash_files db (commit_point th t m w2).2 (torn_page t m w2) fs -> OpenDatabase th true dir_path fs = Ret db' ->
    life_step th db (DieAsking env stmt (commit_phase t w2 m) dir_path fs) [] db'
| life_die_committing env l m dir_path fs os db1 t db' :
    counters_ok (world db) -> Execute_all th env (BeginStmt :: l) db = (os, db1) -> current_txn (world db1) !! th = Some t ->
    crash_files db1 (commit_point th t m (world db1)).2 (torn_page t m (world db1)) fs -> OpenDatabase th true dir_path fs = Ret db' ->
    life_step th db (DieCommitting env l (commit_phase t (world db1) m) dir_path fs) os db'.

(** ** The abstract machine *)

Inductive spec_step (c : Catalog) (T : contents) : Event -> answers -> Catalog -> contents -> Prop :=
| spec_data env stmt o T' : statement_effect c T stmt o T' -> spec_step c T (Ask env stmt) [o] c T'
| spec_ddl env stmt : data_statement stmt = false -> ddl_accepted c stmt = true ->
    spec_step c T (Ask env stmt) [Ret no_result] (ddl_schema c stmt) (ddl_contents T stmt)
| spec_ddl_rejected env stmt : data_statement stmt = false -> ddl_accepted c stmt = false ->
    spec_step c T (Ask env stmt) [Throw InvalidArgument] c T
| spec_transact env l commits os T' : script_effect c T l os T' ->
    spec_step c T (Transact env l commits) (Ret no_result :: os ++ [Ret no_result]) c (if commits then T' else T)
| spec_checkpoint : spec_step c T CheckpointNow [Ret no_result] c T
| spec_restart dir_path fs : spec_step c T (Restart dir_path fs) [] (regrouped dir_path c) T
| spec_die_asking env stmt ph dir_path fs o T' (kept : bool) : statement_effect c T stmt o T' -> may_find ph kept ->
    spec_step c T (DieAsking env stmt ph dir_path fs) [] (regrouped dir_path c) (if kept then T' else T)
| spec_die_committing env l ph dir_path fs os T' (kept : bool) : script_effect c T l os T' -> may_find ph kept ->
    spec_step c T (DieCommitting env l ph dir_path fs) (Ret no_result :: os) (regrouped dir_path c) (if kept then T' else T).

(** Whether the process has only opened the directory, or works. *)
Inductive status := Opening | Working.

Definition status_after (st : status) (ev : Event) : status :=
  match ev with
  | CheckpointNow => Working
  | Restart _ _ | DieAsking _ _ _ _ _ | DieCommitting _ _ _ _ _ => Opening
  | Ask _ _ | Transact _ _ _ => st
  end.

(** What the event asks for: a checkpoint before any statement and at no other
    time, the stack and the disk of its environment, and room, of which [n']
    is left. *)
Definition event_fits (st : status) (c : Catalog) (T : contents) (ev : Event) (n n' : nat) : Prop :=
  match ev with
  | Ask env stmt =>
      st = Working /\ (6 <= e_frames env)%nat /\ e_fsync_ok env = true /\
      if data_statement stmt then n = (statement_room c T stmt + n')%nat /\ statement_fits c T stmt
      else n = n' /\ ddl_fits c T stmt n /\ persists (e_persist env) (ddl_schema c stmt) /\ storable (ddl_schema c stmt)
  | Transact env l _ => st = Working /\ (6 <= e_frames env)%nat /\ e_fsync_ok env = true /\ script_fits c T l n' n
  | CheckpointNow => st = Opening /\ n = n'
  | Restart _ _ => n = n'
  | DieAsking env stmt _ _ _ => st = Working /\ (6 <= e_frames env)%nat /\ n = (statement_room c T stmt + n')%nat /\ statement_fits c T stmt
  | DieCommitting env l _ _ _ => st = Working /\ (6 <= e_frames env)%nat /\ script_fits c T l n' n
  end.

(** ** Runs *)

Inductive life (th : ThreadId) : Database -> list Event -> list answers -> Database -> Prop :=
| life_nil db : life th db [] [] db
| life_cons db ev os db1 evs tr db2 : life_step th db ev os db1 -> life th db1 evs tr db2 -> life th db (ev :: evs) (os :: tr) db2.

Inductive spec_run : Catalog -> contents -> list Event -> list answers -> Catalog -> contents -> Prop :=
| spec_nil c T : spec_run c T [] [] c T
| spec_cons c T ev os c1 T1 evs tr c2 T2 : spec_step c T ev os c1 T1 -> spec_run c1 T1 evs tr c2 T2 -> spec_run c T (ev :: evs) (os :: tr) c2 T2.

Fixpoint events_fit (st : status) (c : Catalog) (T : contents) (evs : list Event) (n n' : nat) : Prop :=
  match evs with
  | [] => n = n'
  | ev :: evs' => exists m, event_fits st c T ev n m /\
      forall os c1 T1, spec_step c T ev os c1 T1 -> events_fit (status_after st ev) c1 T1 evs' m n'
  end.

Lemma life_app th db evs1 tr1 db1 evs2 tr2 db2 : life th db evs1 tr1 db1 -> life th db1 evs2 tr2 db2 -> life th db (evs1 ++ evs2) (tr1 ++ tr2) db2.
Proof. intros H1 H2. induction H1; [done|]. cbn [app]. econstructor; eauto. Qed.

Lemma spec_run_inv c T ev os evs tr c2 T2 :
  spec_run c T (ev :: evs) (os :: tr) c2 T2 -> exists c1 T1, spec_step c T ev os c1 T1 /\ spec_run c1 T1 evs tr c2 T2.
Proof. intros H. inversion H. eauto. Qed.

Lemma spec_ddl_inv c T env stmt os c1 T1 :
  data_statement stmt = false -> ddl_accepted c stmt = true -> spec_step c T (Ask env stmt) os c1 T1 -> c1 = ddl_schema c stmt /\ T1 = ddl_contents T stmt.
Proof. intros Hd Ha H. inversion H; subst; [|done|congruence]. match goal with H : statement_effect _ _ _ _ _ |- _ => apply effect_data in H end. congruence. Qed.

Lemma spec_data_inv c T env stmt os c1 T1 :
  data_statement stmt = true -> spec_step c T (Ask env stmt) os c1 T1 -> c1 = c /\ exists o, statement_effect c T stmt o T1.
Proof. intros Hd H. inversion H; subst; [eauto|congruence..]. Qed.

(** ** Each event *)

Section Life.
Context (th : ThreadId).

Lemma rest_catalog c db T n : at_rest th c db T n -> GetCatalog db = c /\ catalog_ok c.
Proof. intros [[Hc _ HT _] _ _ _ _]. split; [done|apply HT]. Qed.

(** The invariant of a life. *)
Definition alive (st : status) (c : Catalog) (db : Database) (T : contents) (n : nat) : Prop :=
  match st with
  | Working => at_rest th c db T n
  | Opening => pk_indexed c /\ exists fs, reopened_as th c fs T n db
  end.

Lemma alive_catalog st c db T n : alive st c db T n -> catalog_ok c /\ pk_indexed c.
Proof.
  destruct st; cbn; [intros [Hpk (fs & [_ _ _ HT])]; split; [apply HT|done]|].
  intros Hr. destruct (rest_catalog _ _ _ _ Hr). split; [done|apply Hr].
Qed.

(** A directory that reopens does so in one way. *)
Lemma reopens_alive dir_path fs c T n db' :
  reopens th dir_path fs c T n -> catalog_ok c -> pk_indexed c -> OpenDatabase th true dir_path fs = Ret db' ->
  alive Opening (regrouped dir_path c) db' T n.
Proof.
  intros (db0 & Ho & _ & Hra) Hc Hpk Ho'. assert (db0 = db') as -> by congruence. split; [by apply regrouped_keys|eauto].
Qed.

Lemma alive_reopens st c db T n dir_path fs :
  alive st c db T n -> crash_files db (world db) None fs -> reopens th dir_path fs c T n.
Proof.
  destruct st; cbn; [intros [_ (fs0 & Hra)] Hcr; by eapply reopened_reopens|].
  intros [Hsv Hss _ _ _] Hcr. by eapply serving_reopens.
Qed.

Lemma Execute_all_app env l1 l2 db :
  Execute_all th env (l1 ++ l2) db =
    let '(os1, db1) := Execute_all th env l1 db in let '(os2, db2) := Execute_all th env l2 db1 in (os1 ++ os2, db2).
Proof.
  revert db. induction l1 as [|s l1 IH]; intros db; cbn [Execute_all app]; [by destruct (Execute_all th env l2 db)|].
  destruct (Execute th env s db) as [o db1]. rewrite IH. destruct (Execute_all th env l1 db1) as [os1 db2].
  by destruct (Execute_all th env l2 db2).
Qed.

Lemma step_ask c db T n n' env stmt o db' :
  at_rest th c db T n -> event_fits Working c T (Ask env stmt) n n' -> counters_ok (world db) -> Execute th env stmt db = (o, db') ->
  exists c' T', spec_step c T (Ask env stmt) [o] c' T' /\ at_rest th c' db' T' n'.
Proof.
  intros Hr (_ & Hfr & Hfs & Hfit) Hcnt Hx. destruct (data_statement stmt) eqn:Hd.
  - destruct Hfit as [-> Hfit].
    destruct (autocommit_run th env c db T n' stmt Hfr Hfs (ar_serving _ _ _ _ _ Hr) Hfit Hcnt) as (o' & w & T' & Hx' & Heff & Hsv).
    rewrite Hx in Hx'. injection Hx' as -> ->. exists c, T'. split; [by constructor|by eapply at_rest_world].
  - destruct Hfit as (<- & Hfit & Hper & Hst). pose proof (ddl_run th env c db T n stmt Hfr Hr Hfit Hper) as Hrun. cbn zeta in Hrun.
    destruct (ddl_accepted c stmt) eqn:Ha.
    + destruct Hrun as (db1 & Hx' & _ & Hr'). rewrite Hx in Hx'. injection Hx' as -> ->. eexists _, _. split; [by apply spec_ddl|by apply Hr'].
    + rewrite Hx in Hrun. injection Hrun as -> ->. exists c, T. split; [by apply spec_ddl_rejected|done].
Qed.

Lemma step_transact c db T n n' env l commits os db' :
  at_rest th c db T n -> event_fits Working c T (Transact env l commits) n n' -> counters_ok (world db) ->
  Execute_all th env (BeginStmt :: l ++ [end_statement commits]) db = (os, db') ->
  exists c' T', spec_step c T (Transact env l commits) os c' T' /\ at_rest th c' db' T' n'.
Proof.
  intros Hr (_ & Hfr & Hfs & Hfit) Hcnt Hx. pose proof (ar_serving _ _ _ _ _ Hr) as Hsv. destruct (rest_catalog _ _ _ _ Hr) as [Hg _].
  destruct (script_phase th env Hfr c db T l n' n Hsv Hfit Hcnt) as (t & rs & w1 & os1 & w2 & T' & H1 & H2 & Heff & Hcf & HT1 & HT2 & Hdom).
  pose proof (registered_same c _ _ Hdom (sv_registered _ _ _ _ _ Hsv)) as Hreg.
  cbn [Execute_all] in Hx. rewrite H1, Execute_all_app, H2 in Hx. cbn [Execute_all] in Hx.
  assert (exists w3, Execute th env (end_statement commits) (set_world w2 db) = (Ret no_result, set_world w3 db) /\
    serving th c (set_world w3 db) (if commits then T' else T) n') as (w3 & H3 & Hsv3).
  { destruct commits; [by eapply (commit_statement th env c t rs w1 w2)|by eapply (rollback_statement th env c t rs w1 w2)]. }
  rewrite H3 in Hx. injection Hx as <- <-. exists c, (if commits then T' else T). split; [by constructor|by eapply at_rest_world].
Qed.

Lemma step_die_asking c db T n n' env stmt m dir_path fs t w1 o w2 db' :
  at_rest th c db T n -> event_fits Working c T (DieAsking env stmt (commit_phase t w2 m) dir_path fs) n n' -> counters_ok (world db) ->
  Begin th (world db) = (Ret t, w1) -> run_statement th env (GetCatalog db) stmt w1 = (o, w2) ->
  crash_files db (commit_point th t m w2).2 (torn_page t m w2) fs -> OpenDatabase th true dir_path fs = Ret db' ->
  exists c' T', spec_step c T (DieAsking env stmt (commit_phase t w2 m) dir_path fs) [] c' T' /\ alive Opening c' db' T' n'.
Proof.
  intros Hr (_ & Hfr & -> & Hfit) Hcnt Hb Hrun Hcr Hst. pose proof Hr as [Hsv Hss Hpk _ _]. destruct (rest_catalog _ _ _ _ Hr) as [Hg Hc]. destruct Hsv as [_ Hid HT Hreg0].
  destruct (statement_phase th env c _ T n' stmt Hfr Hid Hcnt HT Hfit) as (t' & w1' & rs & o' & w2' & T' & Hb' & Hrun' & Heff & Hcf & HT1 & HT2 & Hdom).
  rewrite Hb in Hb'. injection Hb' as <- <-. rewrite Hg, Hrun' in Hrun. injection Hrun as -> ->.
  assert (forall oid, is_Some (buffer_pools_ w2 !! oid) -> oid ∈ object_ids c) as Hreg by (by eapply registered_same).
  destruct (commit_crash_phase th c t rs w1 w2 Hcf T _ HT1 T' n' HT2 Hreg m db dir_path fs Hg Hss Hcr) as (kept & Hph & Hre).
  eexists _, _. split; [by apply (spec_die_asking _ _ _ _ _ _ _ o T' kept)|by eapply reopens_alive].
Qed.

Lemma step_die_committing c db T n n' env l m dir_path fs os db1 t db' :
  at_rest th c db T n -> event_fits Working c T (DieCommitting env l (commit_phase t (world db1) m) dir_path fs) n n' -> counters_ok (world db) ->
  Execute_all th env (BeginStmt :: l) db = (os, db1) -> current_txn (world db1) !! th = Some t ->
  crash_files db1 (commit_point th t m (world db1)).2 (torn_page t m (world db1)) fs -> OpenDatabase th true dir_path fs = Ret db' ->
  exists c' T', spec_step c T (DieCommitting env l (commit_phase t (world db1) m) dir_path fs) os c' T' /\ alive Opening c' db' T' n'.
Proof.
  intros Hr (_ & Hfr & Hfit) Hcnt Hx Ht Hcr Hst. pose proof Hr as [Hsv [S1 S2 S3] Hpk _ _]. destruct (rest_catalog _ _ _ _ Hr) as [Hg Hc].
  destruct (script_phase th env Hfr c db T l n' n Hsv Hfit Hcnt) as (t' & rs & w1 & os1 & w2 & T' & H1 & H2 & Heff & Hcf & HT1 & HT2 & Hdom).
  pose proof (registered_same c _ _ Hdom (sv_registered _ _ _ _ _ Hsv)) as Hreg.
  cbn [Execute_all] in Hx. rewrite H1, H2 in Hx. injection Hx as <- <-. cbn [world set_world] in *.
  assert (t' = t) as -> by (pose proof (it_current _ _ _ _ _ (cf_txn _ _ _ _ _ Hcf)); congruence).
  destruct (commit_crash_phase th c t rs w1 w2 Hcf T _ HT1 T' n' HT2 Hreg m (set_world w2 db) dir_path fs Hg) as (kept & Hph & Hre);
    [by split|exact Hcr|].
  eexists _, _. split; [by apply (spec_die_committing _ _ _ _ _ _ _ os1 T' kept)|by eapply reopens_alive].
Qed.

Lemma step_checkpoint c db T n o db' :
  alive Opening c db T n -> Checkpoint th db = (o, db') -> o = Ret tt /\ at_rest th c db' T n.
Proof.
  intros [Hpk (fs & Hra)] Hck. destruct (checkpoint_first th c fs T n db Hra Hpk) as (db1 & Hck' & Hr).
  rewrite Hck in Hck'. by injection Hck' as -> ->.
Qed.

Lemma step_run st c db T n n' ev os db' :
  alive st c db T n -> event_fits st c T ev n n' -> life_step th db ev os db' ->
  exists c' T', spec_step c T ev os c' T' /\ alive (status_after st ev) c' db' T' n'.
Proof.
  intros Hr Hfit Hs. destruct Hs; cbn [status_after].
  1, 2, 5, 6: assert (st = Working) as -> by apply Hfit.
  - by eapply step_ask.
  - by eapply step_transact.
  - by eapply step_die_asking.
  - by eapply step_die_committing.
  - destruct Hfit as [-> <-]. destruct (step_checkpoint c db T n o db' Hr) as [-> Hr']; [done|]. exists c, T. split; [constructor|exact Hr'].
  - cbn in Hfit. subst n'. destruct (alive_catalog _ _ _ _ _ Hr) as [Hc Hpk]. eexists _, _. split; [constructor|].
    eapply reopens_alive; [by eapply alive_reopens|done..].
Qed.

Lemma life_run st c db T n n' evs tr db' :
  alive st c db T n -> events_fit st c T evs n n' -> life th db evs tr db' ->
  exists c' T', spec_run c T evs tr c' T' /\ alive (foldl status_after st evs) c' db' T' n'.
Proof.
  intros Hr Hfit Hl. revert st c T n Hr Hfit. induction Hl as [db|db ev os db1 evs tr db2 Hs _ IH]; intros st c T n Hr Hfit; cbn in Hfit.
  - subst n'. exists c, T. split; [constructor|done].
  - destruct Hfit as (k & Hev & Hrest). destruct (step_run st c db T n k ev os db1 Hr Hev Hs) as (c1 & T1 & Hsp & Hr1).
    destruct (IH _ c1 T1 k Hr1 (Hrest _ _ _ Hsp)) as (c2 & T2 & Hrun & Hr2). exists c2, T2. split; [by econstructor|done].
Qed.

(** *** A new directory *)

Lemma created_rest dir_path n :
  exists db, OpenDatabase th true dir_path (mkFiles (mkDir None None) [] ∅) = Ret db /\ at_rest th (empty_catalog dir_path) db (fun _ => []) n.
Proof.
  eexists. split; [reflexivity|]. destruct (empty_ok dir_path) as [Hok Hpk].
  assert (pristine new_world) as Hpr by (split; try done).
  split; [split|..].
  - done.
  - by apply pristine_idle.
  - split; [done|]. exists (mkData ∅ ∅). split; [by split|]. intros t Ht. by apply not_elem_of_nil in Ht.
  - intros oid [x Hx]. done.
  - split; [|by intros f|done]. split; [done|constructor|constructor].
  - done.
  - intros id _. done.
  - intros oid. by split; intros [x Hx].
Qed.

Lemma created_alive st dir_path n :
  exists db, OpenDatabase th true dir_path (mkFiles (mkDir None None) [] ∅) = Ret db /\ alive st (empty_catalog dir_path) db (fun _ => []) n.
Proof.
  destruct (created_rest dir_path n) as (db & Ho & Hr). exists db. split; [done|]. destruct st; [|exact Hr].
  pose proof Hr as [[Hg _ HT _] Hss Hpk _ _]. split; [done|]. exists (mkFiles (mkDir None None) [] ∅). injection Ho as <-.
  split; [|exact Hss|done|exact HT]. split; [done|done|done|by intros oid o Ho|intros oid; by split; intros [x Hx]|exact empty_log_holds|].
  split; [split|]; [done|intros r Hin; by apply not_elem_of_nil in Hin|done].
Qed.

(** ** The contract *)

(** What a client can rely on: in a process that works, a database between
    statements; in one that has only opened the directory, the schema and the
    tables, and a checkpoint that leads there. *)
Definition in_service (st : status) (c : Catalog) (db : Database) (T : contents) (n : nat) : Prop :=
  match st with
  | Working => at_rest th c db T n
  | Opening => GetCatalog db = c /\ tables_in th c (world db) T n /\ exists db', Checkpoint th db = (Ret tt, db') /\ at_rest th c db' T n
  end.

Lemma alive_in_service st c db T n : alive st c db T n -> in_service st c db T n.
Proof.
  destruct st; [|done]. intros [Hpk (fs & Hra)]. pose proof Hra as [Hd _ _ HT].
  split; [unfold GetCatalog; by rewrite (od_store _ _ _ Hd)|]. split; [done|]. by eapply checkpoint_first.
Qed.

(** C1: the database is an SQL machine, for a client that follows the protocol
    of [events_fit]: after a restart it checkpoints once, before its first
    statement, and at no other time. From the creation on, whatever it does
    that fits (statements, schema changes, transactions it commits or rolls
    back) and wherever the process dies, between statements, between the
    constructor and the checkpoint, or at any step of the commit of a
    statement or transaction, the log keeping any prefix of what no [fsync]
    covered and the data files and the renamed [catalog.meta] what was written:
    every answer is one the abstract machine gives, and the database has the
    machine's schema and rows. A commit cut off while it logs its pages has
    not happened, one cut off after the log was synced has, and one cut off in
    between either has or has not. A new process can always open what such a
    death leaves, checkpoint it, and go on with all of it. A death inside
    CREATE TABLE or CREATE INDEX is not among the events. *)
Theorem database_refines (st : status) (dir_path : bytes) (evs : list Event) (tr : list answers) (n n' : nat) (db0 db : Database) :
  OpenDatabase th true dir_path (mkFiles (mkDir None None) [] ∅) = Ret db0 ->
  events_fit st (empty_catalog dir_path) (fun _ => []) evs n n' -> life th db0 evs tr db ->
  exists c T, spec_run (empty_catalog dir_path) (fun _ => []) evs tr c T /\ in_service (foldl status_after st evs) c db T n' /\
    forall dir_path' fs, crash_files db (world db) None fs ->
      exists db', OpenDatabase th true dir_path' fs = Ret db' /\ in_service Opening (regrouped dir_path' c) db' T n'.
Proof.
  intros Hopen Hfit Hl. destruct (created_alive st dir_path n) as (db0' & Hopen' & Hr). rewrite Hopen in Hopen'. injection Hopen' as <-.
  destruct (life_run _ _ _ _ _ _ _ _ _ Hr Hfit Hl) as (c & T & Hrun & Hr'). exists c, T. split_and!; [done|by apply alive_in_service|].
  intros dir_path' fs Hcr. destruct (alive_catalog _ _ _ _ _ Hr') as [Hc Hpk].
  pose proof (alive_reopens _ _ _ _ _ dir_path' fs Hr' Hcr) as Hre. pose proof Hre as (db' & Ho & _ & _). exists db'. split; [done|].
  apply alive_in_service. by eapply reopens_alive.
Qed.

End Life.
