(* ===== verification/Typing.v ===== *)
(** * Typing: the types of a query's answer

    A query that the planner accepts has a type, read off the schema and the
    statement: the type of each column asked for. Whatever the tables hold,
    every row of the answer has it. *)
From S2P Require Import Prelude Config DiskManager HeapFile BTreeSpec Storage Text Catalog Ast RowCodec Planner Executor Query Tables Statements Select.
From S2P Require Import TransactionManager WorldStorage WorldTables Database Session Autocommit.

(** ** The type of a query *)

(** The column a reference means: a qualified name is of the table it says, a
    bare one of the table that has it. *)
Definition ref_column (o : TableInfo) (oi : option TableInfo) (r : ColumnRef) : option ColumnDef :=
  match oi with
  | None => FindColumn o (cr_column_name r)
  | Some i =>
      match cr_table_name r with
      | Some n => if bool_decide (n = tb_name o) then FindColumn o (cr_column_name r) else FindColumn i (cr_column_name r)
      | None => match FindColumn o (cr_column_name r) with Some cd => Some cd | None => FindColumn i (cr_column_name r) end
      end
  end.

Definition query_types (c : Catalog) (stmt : SelectStatement) : list ColumnType :=
  match FindTable c (se_from_table stmt) with
  | None => []
  | Some o =>
      let oi := se_join stmt ≫= fun j => FindTable c (jc_table_name j) in
      if se_select_star stmt
      then col_type <$> (tb_columns o ++ match oi with Some i => tb_columns i | None => [] end)
      else omap (fun r => col_type <$> ref_column o oi r) (se_select_list stmt)
  end.

Definition typed_row (types : list ColumnType) (values : list LiteralValue) : Prop := Forall2 literal_ok types values.

(** ** Lemmas *)

Lemma row_typed columns values : row_ok columns values -> typed_row (col_type <$> columns) values.
Proof. intros H. apply Forall2_fmap_l. exact H. Qed.

Lemma value_typed t n cd values :
  FindColumn t n = Some cd -> row_ok (tb_columns t) values -> exists v, value_of t values n = Some v /\ literal_ok (col_type cd) v.
Proof. intros Hf Hok. destruct (column_value_run t values n cd Hf Hok) as (v & _ & H). eauto. Qed.

(** References that all have a column and a value of its type. *)
Lemma refs_typed {A} (f : A -> option ColumnDef) (g : A -> option LiteralValue) l :
  Forall (fun r => exists cd v, f r = Some cd /\ g r = Some v /\ literal_ok (col_type cd) v) l ->
  typed_row (omap (fun r => col_type <$> f r) l) (omap g l).
Proof.
  induction 1 as [|r l (cd & v & Hf & Hg & Hv) _ IH]; [constructor|]. cbn [omap list_omap]. rewrite Hf, Hg. cbn. by constructor.
Qed.

Lemma omap_all_length {A B} (f : A -> option B) l : Forall (fun a => is_Some (f a)) l -> length (omap f l) = length l.
Proof. induction 1 as [|a l [b Hb] _ IH]; [done|]. cbn [omap list_omap]. rewrite Hb. cbn. by f_equal. Qed.

Lemma resolved_ref o i r side :
  ResolveColumnSide o i r = Ret side -> ref_column o (Some i) r = FindColumn (side_table o i side) (cr_column_name r).
Proof.
  unfold ResolveColumnSide, ref_column, RequireColumn. destruct (cr_table_name r) as [n|].
  - case_bool_decide; [|case_bool_decide; [|done]]; (destruct (FindColumn _ _) eqn:E; [|done]); intros [= <-]; by rewrite ?side_outer, ?side_inner, ?E.
  - destruct (FindColumn o _) eqn:Eo, (FindColumn i _) eqn:Ei; try done; intros [= <-]; by rewrite ?side_outer, ?side_inner, ?Eo, ?Ei.
Qed.

Lemma pair_typed o i r side vo vi :
  tb_name i <> tb_name o -> ResolveColumnSide o i r = Ret side -> row_ok (tb_columns o) vo -> row_ok (tb_columns i) vi ->
  exists cd v, ref_column o (Some i) r = Some cd /\ pair_value o i vo vi r = Some v /\ literal_ok (col_type cd) v.
Proof.
  intros Hne Hs Ho Hi. destruct (ResolveColumnSide_inv o i r side Hne Hs) as [[cd Hcd] Hv]. rewrite (resolved_ref _ _ _ _ Hs), Hcd, Hv.
  destruct side; cbn [on_side]; [destruct (value_typed o _ cd vo Hcd Ho) as (v & H1 & H2)|destruct (value_typed i _ cd vi Hcd Hi) as (v & H1 & H2)]; by exists cd, v.
Qed.

(** The references of a select list that was resolved. *)
Lemma resolved_sides o i l refs :
  map_outcome (resolve_joined o i) l = Ret refs -> Forall (fun r => exists side, ResolveColumnSide o i r = Ret side) l.
Proof.
  intros H%map_outcome_inv. induction H as [|r r' l refs Hr _ IH]; [constructor|]. constructor; [|done].
  unfold resolve_joined in Hr. apply outcome_bind_inv in Hr as (side & Hs & _). by exists side.
Qed.

Section Rows.
Context (c : Catalog) (Hc : catalog_ok c) (T : contents) (HT : forall t, t ∈ tables_ c -> rows_ok t (T (tb_name t))).

Lemma stored_typed t x : FindTable c (tb_name t) = Some t -> x ∈ T (tb_name t) -> row_ok (tb_columns t) x.2.
Proof.
  intros [Ht _]%FindTable_Some Hx. pose proof (HT t Ht) as H. unfold rows_ok in H. rewrite Forall_forall in H. apply H. by apply list_elem_of_fmap_2.
Qed.

Lemma single_typed stmt plan :
  se_join stmt = None -> PlanSelect c stmt = Ret plan ->
  length (query_types c stmt) = length (query_columns c stmt) /\ Forall (typed_row (query_types c stmt)) (query_rows c T stmt).
Proof.
  intros Hj Hp. destruct (plan_single c stmt plan Hj Hp) as (t & _ & Et & _ & _ & _ & Href & _). destruct (FindTable_Some _ _ _ Et) as [_ Hn].
  unfold query_types, query_columns, query_rows, select_rows, projected. rewrite Et, Hj. cbn [mbind option_bind].
  destruct (se_select_star stmt).
  - rewrite !app_nil_r, !length_fmap. split; [done|]. apply Forall_fmap, Forall_forall. intros x [_ Hx]%list_elem_of_filter.
    apply row_typed, stored_typed; [by rewrite Hn|done].
  - specialize (Href eq_refl). split.
    + rewrite omap_all_length, length_fmap; [done|]. eapply Forall_impl; [exact Href|]. intros r [cd Hcd]. cbn. rewrite Hcd. cbn. eauto.
    + apply Forall_fmap, Forall_forall. intros x [_ Hx]%list_elem_of_filter. cbn. apply refs_typed. eapply Forall_impl; [exact Href|].
      intros r [cd Hcd]. destruct (value_typed t _ cd x.2 Hcd) as (v & H1 & H2); [apply stored_typed; [by rewrite Hn|done]|]. by exists cd, v.
Qed.

Lemma join_typed stmt j plan :
  se_join stmt = Some j -> PlanSelect c stmt = Ret plan ->
  length (query_types c stmt) = length (query_columns c stmt) /\ Forall (typed_row (query_types c stmt)) (query_rows c T stmt).
Proof.
  intros Hj Hp. destruct (plan_join_select c stmt j plan Hc Hj Hp) as (o & i & jp & co & ci & os & refs & Eo & Ei & Hne & _ & _ & Href).
  destruct (FindTable_Some _ _ _ Eo) as [_ Hno]. destruct (FindTable_Some _ _ _ Ei) as [_ Hni].
  unfold query_types, query_columns, query_rows, join_rows, pair_output. rewrite Eo, Hj. cbn [mbind option_bind]. rewrite Ei.
  assert (forall (out : list LiteralValue -> list LiteralValue -> list LiteralValue) types,
    (forall vo vi, row_ok (tb_columns o) vo -> row_ok (tb_columns i) vi -> typed_row types (out vo vi)) ->
    Forall (typed_row types) (T (tb_name o) ≫= fun x : row => (fun y : row => out x.2 y.2) <$> filter (fun y : row => pair_selected o i stmt j x.2 y.2) (T (tb_name i)))) as Hpairs.
  { intros out types H. apply Forall_forall. intros v (x & Hv & Hx)%list_elem_of_bind. apply list_elem_of_fmap in Hv as (y & -> & [_ Hy]%list_elem_of_filter).
    apply H; apply stored_typed; [by rewrite Hno|done|by rewrite Hni|done]. }
  destruct (se_select_star stmt).
  - split; [by rewrite length_fmap, !length_app, !length_fmap|]. apply Hpairs. intros vo vi Ho Hi. apply row_typed, Forall2_app; done.
  - specialize (resolved_sides _ _ _ _ (Href eq_refl)) as Hs. split.
    + rewrite omap_all_length, length_fmap; [done|]. eapply Forall_impl; [exact Hs|]. intros r [side Hr]. rewrite (resolved_ref _ _ _ _ Hr).
      destruct (ResolveColumnSide_inv o i r side Hne Hr) as [[cd Hcd] _]. rewrite Hcd. cbn. eauto.
    + apply (Hpairs (fun vo vi => omap (pair_value o i vo vi) (se_select_list stmt))). intros vo vi Ho Hi. apply refs_typed. eapply Forall_impl; [exact Hs|]. intros r [side Hr]. by eapply pair_typed.
Qed.

End Rows.

(** ** The answer *)

Lemma tables_typed th c w T n : tables_in th c w T n -> forall t, t ∈ tables_ c -> rows_ok t (T (tb_name t)).
Proof. intros [_ (d & _ & HT)] t Ht. destruct (HT t Ht) as [[_ S2 _] _]. exact S2. Qed.

(** C20: a query has the type its schema gives it. [query_types] is read off
    the schema and the statement alone: the type of each column asked for,
    in either table of a join. When the planner accepts the statement, it
    answers, with one type for every column name, and every row of the answer
    has exactly those types: one value for each column, an integer of 64 bits
    for INTEGER and a string for TEXT, whatever the tables hold and whatever
    plan was chosen. *)
Theorem select_well_typed (th : ThreadId) (env : Env) (c : Catalog) (db : Database) (T : contents) (n : nat) (stmt : SelectStatement) (plan : SelectPlan) :
  (6 <= e_frames env)%nat -> e_fsync_ok env = true -> serving th c db T n -> counters_ok (world db) -> PlanSelect c stmt = Ret plan ->
  exists r w, Execute th env (SelectStmt stmt) db = (Ret r, set_world w db) /\
    length (query_types c stmt) = length (er_column_names r) /\ Forall (typed_row (query_types c stmt)) (er_rows r).
Proof.
  intros Hfr Hfs Hsv Hcnt Hplan. destruct (autocommit_run th env c db T n (SelectStmt stmt) Hfr Hfs Hsv I Hcnt) as (o & w & T' & Hrun & Heff & _).
  change (select_effect c T stmt o T') in Heff. unfold select_effect in Heff. rewrite Hplan in Heff. destruct Heff as [(out & -> & Hp) _].
  exists (mkResult out (query_columns c stmt) 0), w. split; [exact Hrun|]. cbn [er_column_names er_rows]. rewrite Hp.
  pose proof (sv_tables _ _ _ _ _ Hsv) as HT. pose proof (tables_typed _ _ _ _ _ HT) as Hty. destruct (se_join stmt) as [j|] eqn:Hj.
  - eapply join_typed; [apply HT|exact Hty|exact Hj|exact Hplan].
  - eapply single_typed; [exact Hty|exact Hj|exact Hplan].
Qed.
