(* ===== verification/PeopleLife.v ===== *)
(** * PeopleLife: later in the life of a database

    CREATE INDEX on a table with rows, run and interrupted; the type of an
    answer; a checkpoint and what is opened after it. *)
From stdpp Require Import functions.
From S2P Require Import Prelude Config DiskManager BufferPool LogManager Recovery TransactionManager CrashSafety TxnSystem BTreeSpec BTreeContract.
From S2P Require Import Storage Text Catalog Ast Planner Executor Query Tables Statements Select WorldStorage WorldTables People Database Session Autocommit Reopen Durability.
From S2P Require Import PeopleSessions Ddl Cycle Lifetime Typing.

Definition index_ids : Statement := CreateIndexStmt (mkCreateIndex (str "by_id") (str "people") (str "id")).

Lemma people_at_rest n : 1 + 7 * Z.of_nat n < 2 ^ 32 -> at_rest 0 people people_db (fun _ => []) n.
Proof.
  intros Hn. split; [by apply people_serving|exact people_saved|apply people_ok|done|].
  intros oid. cbn. rewrite !lookup_insert_is_Some', lookup_singleton_is_Some.
  rewrite (lookup_empty (M:=gmap ObjectId)). pose proof (is_Some_None (A:=BufferPool * list PageId)). tauto.
Qed.

(** A second index on id, for a table with one row. *)
Lemma ddl_serves_witness :
  exists db1 rid db2, Execute 0 calm_env insert_ann people_db = (Ret (mkResult [] [] 1), db1) /\
    Execute 0 calm_env index_ids db1 = (Ret no_result, db2) /\
    serving 0 (with_index people (str "by_id") (str "people") (str "id")) db2 (<[str "people" := [(rid, ann)]]> (fun _ => [])) 5.
Proof.
  destruct (autocommit_run 0 calm_env people people_db (fun _ => []) 5 insert_ann) as (o & w & T' & H1 & H2 & H3);
    [done|done|apply people_serving; vm_compute; reflexivity|by apply ann_fits|split; vm_compute; reflexivity|].
  destruct (ann_inserted _ o T' eq_refl H2) as (-> & rid & ->). exists (set_world w people_db), rid.
  destruct (ddl_serves 0 calm_env people (set_world w people_db) (<[str "people" := [(rid, ann)]]> (fun _ => [])) 5 index_ids (le_n 6)) as [Hok _].
  - exact (at_rest_world _ _ _ _ _ _ _ _ (people_at_rest 5 eq_refl) H3).
  - split; [vm_compute; reflexivity|]. split; [by apply (bool_decide_unpack _); vm_compute|].
    unfold index_fits, backfilled. change (FindTable people _) with (Some people_table). change (tb_name people_table) with (str "people").
    change (ci_table_name _) with (str "people"). rewrite fn_lookup_insert. split; [|vm_compute; reflexivity].
    intros k. unfold key_uses, zlen. cbn [fmap list_fmap]. etrans; [apply inj_le, length_filter|]. vm_compute. discriminate.
  - destruct (Hok ltac:(vm_compute; reflexivity)) as (db2 & E & Hsv & _). exists db2. split; [exact H1|]. split; [exact E|exact Hsv].
Defined.

(** ** The type of an answer *)

(** SELECT name, age FROM people. *)
Definition select_names : SelectStatement :=
  mkSelect false [mkColumnRef None (str "name"); mkColumnRef None (str "age")] (str "people") None [].

Lemma select_well_typed_witness :
  exists r w, Execute 0 calm_env (SelectStmt select_names) people_db = (Ret r, set_world w people_db) /\
    query_types people select_names = [ColumnType.kText; ColumnType.kInteger] /\
    Forall (typed_row [ColumnType.kText; ColumnType.kInteger]) (er_rows r).
Proof.
  assert (exists plan, PlanSelect people select_names = Ret plan) as [plan Hp] by (eexists; vm_compute; reflexivity).
  destruct (select_well_typed 0 calm_env people people_db (fun _ => []) 5 select_names plan) as (r & w & H1 & _ & H2);
    [exact (le_n 6)|reflexivity|by apply people_serving|split; vm_compute; reflexivity|exact Hp|].
  exists r, w. split; [exact H1|]. split; [reflexivity|exact H2].
Defined.

(** ** An interrupted CREATE INDEX

    The schema is on disk before the entries of the new index are: a crash in
    between leaves an index without them, and queries that use it miss rows. *)

Definition make_unindexed : list Statement :=
  [CreateTableStmt (mkCreateTable (str "people") people_columns (Some (str "id"))); insert_ann].

(** SELECT * FROM people WHERE age = 30. *)
Definition select_thirty : Statement :=
  SelectStmt (mkSelect true [] (str "people") None [mkPredicate (mkColumnRef None (str "age")) Comparator.kEq (int_literal 30)]).

(** The files when CREATE INDEX by_age ON people (age) has stored the schema. *)
Definition interrupted (db : Database) : Files :=
  let '(_, s) := Catalog.CreateIndex smooth (str "by_age") (str "people") (str "age") (store db) in
  all_files (mkDatabase s (world db) (objects_ db) (unopened db)).

Lemma interrupted_create_index :
  exists db0 db db', OpenDatabase 0 true (str "db") no_files = Ret db0 /\ (Execute_all 0 calm_env make_unindexed db0).2 = db /\
    (exists r, (Execute 0 calm_env select_thirty db).1 = Ret r /\ er_rows r = [ann]) /\
    OpenDatabase 0 true (str "db") (interrupted db) = Ret db' /\
    exists r, (Execute 0 calm_env select_thirty db').1 = Ret r /\ er_rows r = [].
Proof.
  eexists _, _, _. split; [vm_compute; reflexivity|]. split; [reflexivity|]. split; [eexists; split; vm_compute; reflexivity|].
  split; [vm_compute; reflexivity|]. eexists. split; vm_compute; reflexivity.
Qed.

(** ** From the creation on

    CREATE TABLE, CREATE INDEX and INSERT, a restart, and the row is there. *)

Definition select_all : Statement := SelectStmt (mkSelect true [] (str "people") None []).

Definition created_db : Database := match OpenDatabase 0 true (str "db") no_files with Ret db => db | _ => people_db end.
Definition tabled_db : Database := (Execute 0 calm_env (CreateTableStmt (mkCreateTable (str "people") people_columns (Some (str "id")))) created_db).2.
Definition ann_db : Database := (Execute 0 calm_env insert_ann people_db).2.
Definition opened_db : Database := match OpenDatabase 0 true (str "db") (all_files ann_db) with Ret db => db | _ => people_db end.
Definition restarted_db : Database := (Checkpoint 0 opened_db).2.

Definition first_life : list Event := Ask calm_env <$> make_people ++ [insert_ann].
Definition second_life : list Event := [Restart (str "db") (all_files ann_db); CheckpointNow; Ask calm_env select_all].

Lemma answers_fst {A B} (x : A * B) a : x.1 = a -> x = (a, x.2).
Proof. intros <-. apply surjective_pairing. Qed.

Lemma tabled_answers : Execute 0 calm_env (CreateTableStmt (mkCreateTable (str "people") people_columns (Some (str "id")))) created_db = (Ret no_result, tabled_db).
Proof. unfold tabled_db. apply answers_fst. vm_compute. reflexivity. Qed.

Lemma ann_answers : Execute 0 calm_env insert_ann people_db = (Ret (mkResult [] [] 1), ann_db).
Proof. unfold ann_db. apply answers_fst. vm_compute. reflexivity. Qed.

Lemma tabled_made : Execute 0 calm_env (CreateIndexStmt (mkCreateIndex (str "by_age") (str "people") (str "age"))) tabled_db = (Ret no_result, people_db).
Proof. vm_compute. reflexivity. Qed.

Lemma first_life_run : life 0 created_db first_life [[Ret no_result]; [Ret no_result]; [Ret (mkResult [] [] 1)]] ann_db.
Proof.
  eapply life_cons; [|eapply life_cons; [|eapply life_cons; [|constructor]]].
  - apply (life_ask _ _ _ _ _ tabled_db); [split; vm_compute; reflexivity|exact tabled_answers].
  - apply (life_ask _ _ _ _ _ people_db); [split; vm_compute; reflexivity|exact tabled_made].
  - apply (life_ask _ _ _ _ _ ann_db); [split; vm_compute; reflexivity|exact ann_answers].
Qed.

Definition unindexed : Catalog := with_table (empty_catalog (str "db")) (str "people") people_columns (Some (str "id")).

Lemma unindexed_storable : storable unindexed.
Proof.
  destruct (empty_ok (str "db")) as [H1 H2]. split; [|by repeat constructor|by repeat constructor].
  by apply with_table_ok; [..|by apply (bool_decide_unpack _); vm_compute|by apply (bool_decide_unpack _); vm_compute|done|].
Qed.

Definition no_rows : contents := <[str "people" := []]> (fun _ => []).

Lemma first_life_fits evs n n' :
  1 + 7 * Z.of_nat (statement_room people no_rows insert_ann + n) < 2 ^ 32 ->
  (forall rid, events_fit Working people (<[str "people" := [(rid, ann)]]> no_rows) evs n n') ->
  events_fit Working (empty_catalog (str "db")) (fun _ => []) (first_life ++ evs) (statement_room people no_rows insert_ann + n) n'.
Proof.
  intros Hn Hevs. set (room := (_ + n)%nat) in *. exists room. split.
  { split; [done|]. split; [exact (le_n 6)|]. split; [done|]. cbn [data_statement]. split; [done|]. split; [|split; [by vm_compute|exact unindexed_storable]].
    split; [done|]. split; [by apply (bool_decide_unpack _); vm_compute|]. split; [by apply (bool_decide_unpack _); vm_compute|done]. }
  intros os c1 T1 [-> ->]%spec_ddl_inv; [|done|by vm_compute]. exists room. split.
  { split; [done|]. split; [exact (le_n 6)|]. split; [done|]. cbn [data_statement]. split; [done|]. split; [|split; [by vm_compute|exact people_storable]].
    split; [done|]. split; [by apply (bool_decide_unpack _); vm_compute|]. split.
    - intros k. vm_compute. discriminate.
    - exact Hn. }
  intros os2 c2 T2 [-> ->]%spec_ddl_inv; [|done|by vm_compute]. exists n. split.
  { split; [done|]. split; [exact (le_n 6)|]. split; [done|]. split; [done|]. by apply ann_fits. }
  intros os3 c3 T3 [-> (o & He)]%spec_data_inv; [|done]. apply ann_inserted in He as (_ & rid & ->); [|done]. apply Hevs.
Qed.

Lemma created_opened : OpenDatabase 0 true (str "db") no_files = Ret created_db.
Proof. vm_compute. reflexivity. Qed.

Lemma ann_room : 1 + 7 * Z.of_nat (statement_room people no_rows insert_ann + 5) < 2 ^ 32.
Proof. vm_compute. reflexivity. Qed.

Lemma ann_db_rest : exists c T, at_rest 0 c ann_db T 5.
Proof.
  destruct (created_rest 0 (str "db") (statement_room people no_rows insert_ann + 5)) as (db0 & Ho & Hr).
  assert (db0 = created_db) as -> by (pose proof created_opened; unfold no_files in *; congruence).
  destruct (life_run 0 Working _ _ _ _ 5 _ _ _ Hr (first_life_fits [] 5 5 ann_room (fun _ => eq_refl)) first_life_run) as (c & T & _ & Hr'). exists c, T. exact Hr'.
Qed.

Lemma opened_default (o : outcome Database) d db : o = Ret db -> o = Ret (match o with Ret x => x | _ => d end).
Proof. by intros ->. Qed.

Lemma restart_opens : OpenDatabase 0 true (str "db") (all_files ann_db) = Ret opened_db.
Proof.
  destruct ann_db_rest as (c & T & Hr). pose proof Hr as [Hsv Hss _ _ _].
  destruct (serving_reopens 0 c ann_db T 5 (str "db") (all_files ann_db) Hsv Hss) as (db & Ho & _); [by eapply all_files_crash|].
  unfold opened_db. exact (opened_default _ people_db db Ho).
Qed.

Lemma restart_checkpoints : Checkpoint 0 opened_db = (Ret tt, restarted_db).
Proof. unfold restarted_db. apply answers_fst. vm_compute. reflexivity. Qed.

Lemma restart_answers : Execute 0 calm_env select_all restarted_db = (Ret (mkResult [ann] [str "id"; str "name"; str "age"] 0), (Execute 0 calm_env select_all restarted_db).2).
Proof. apply answers_fst. vm_compute. reflexivity. Qed.

Lemma second_life_run :
  life 0 ann_db second_life [[]; [Ret no_result]; [Ret (mkResult [ann] [str "id"; str "name"; str "age"] 0)]] (Execute 0 calm_env select_all restarted_db).2.
Proof.
  eapply life_cons; [|eapply life_cons; [|eapply life_cons; [|constructor]]].
  - apply (life_restart _ _ _ _ opened_db); [|exact restart_opens]. destruct ann_db_rest as (c & T & [Hsv Hss _ _ _]). by eapply all_files_crash.
  - exact (life_checkpoint 0 opened_db (Ret tt) restarted_db restart_checkpoints).
  - apply life_ask; [split; vm_compute; reflexivity|exact restart_answers].
Qed.

Lemma second_life_fits T : events_fit Working people T second_life 5 5.
Proof.
  exists 5%nat. split; [done|]. intros os c1 T1 H. inversion H. subst. exists 5%nat. split; [done|].
  intros os2 c2 T2 H2. inversion H2. subst. exists 5%nat. split; [|done].
  split; [done|]. split; [exact (le_n 6)|]. split; [done|]. by split.
Qed.

Lemma lives_spec os1 os2 os3 os4 os5 os6 c T :
  spec_run (empty_catalog (str "db")) (fun _ => []) (first_life ++ second_life) [os1; os2; os3; os4; os5; os6] c T ->
  exists rid, T = <[str "people" := [(rid, ann)]]> no_rows.
Proof.
  intros (c1 & T1 & [-> ->]%spec_ddl_inv & H)%spec_run_inv; [|done|by vm_compute].
  apply spec_run_inv in H as (c2 & T2 & [-> ->]%spec_ddl_inv & H); [|done|by vm_compute].
  apply spec_run_inv in H as (c3 & T3 & [-> (o & He)]%spec_data_inv & H); [|done]. apply ann_inserted in He as (_ & rid & ->); [|done]. exists rid.
  apply spec_run_inv in H as (c4 & T4 & H4 & H). inversion H4. subst.
  apply spec_run_inv in H as (c5 & T5 & H5 & H). inversion H5. subst.
  apply spec_run_inv in H as (c6 & T6 & [-> (o' & He)]%spec_data_inv & H); [|done]. inversion H. subst.
  change (select_effect (regrouped (str "db") people) (<[str "people" := [(rid, ann)]]> no_rows) (mkSelect true [] (str "people") None []) o' T) in He.
  unfold select_effect in He. destruct (PlanSelect _ _); [by destruct He|by destruct He as [_ ->]..].
Qed.

Lemma database_refines_witness :
  exists db c rid, life 0 created_db (first_life ++ second_life)
      [[Ret no_result]; [Ret no_result]; [Ret (mkResult [] [] 1)]; []; [Ret no_result]; [Ret (mkResult [ann] [str "id"; str "name"; str "age"] 0)]] db /\
    at_rest 0 c db (<[str "people" := [(rid, ann)]]> no_rows) 5.
Proof.
  pose proof (life_app _ _ _ _ _ _ _ _ first_life_run second_life_run) as Hl.
  destruct (database_refines 0 Working (str "db") _ _ _ 5 _ _ created_opened (first_life_fits second_life 5 5 ann_room (fun rid => second_life_fits _)) Hl) as (c & T & Hspec & Hr & _).
  destruct (lives_spec _ _ _ _ _ _ _ _ Hspec) as [rid ->]. eexists _, c, rid. split; [exact Hl|exact Hr].
Defined.

(** ** A checkpoint of pages that are only in memory *)

(** A pool whose pages are all cached and dirty, over a file of zeros. *)
Definition blank (d : DiskManager) : DiskManager := mkDisk (replicate (length (DiskManager.file d)) zero_page) (next_page_id_ d).
Definition stale_pool (o : BufferPool * list PageId) : BufferPool * list PageId :=
  (mkPool (blank (disk_manager_ o.1)) (pages_ o.1) (dom (pages_ o.1)) (observers_by_thread_ o.1), o.2).
Definition stale_db (db : Database) : Database :=
  mkDatabase (store db) (set_buffer_pools (stale_pool <$> buffer_pools_ (world db)) (world db)) (objects_ db) (unopened db).

(** Every page of every file is cached. *)
Definition all_cached (w : World) : Prop :=
  map_Forall (fun _ (o : BufferPool * list PageId) => Forall (fun q => is_Some (pages_ o.1 !! q)) (seqZ 0 (next_page_id_ (disk_manager_ o.1)))) (buffer_pools_ w).

Lemma blank_wf d : disk_wf d -> disk_wf (blank d).
Proof.
  intros [Hn Hb Hp]. split; cbn; [rewrite Hn; unfold zlen; by rewrite length_replicate|done|].
  apply Forall_replicate, zlen_zero_page.
Qed.

Lemma stale_mem o q :
  pool_wf o.1 -> Forall (fun q => is_Some (pages_ o.1 !! q)) (seqZ 0 (next_page_id_ (disk_manager_ o.1))) ->
  mem_page (stale_pool o).1 q = mem_page o.1 q.
Proof.
  intros Hwf Hc. unfold mem_page, stale_pool. cbn. destruct (pages_ o.1 !! q) eqn:Eq; [done|]. unfold disk_page. cbn. case_bool_decide as Hq; [|done].
  rewrite Forall_forall in Hc. destruct (Hc q) as [x Hx]; [by apply elem_of_seqZ|congruence].
Qed.

Lemma stale_in_memory th c db T n : at_rest th c db T n -> all_cached (world db) -> in_memory th c (stale_db db) T n.
Proof.
  intros Hr Hall. destruct (rest_in_memory _ _ _ _ _ Hr) as [I1 I2 I3 I4 I5 I6 I7 I8 I9].
  assert (forall oid o', buffer_pools_ (world (stale_db db)) !! oid = Some o' -> exists o, buffer_pools_ (world db) !! oid = Some o /\ o' = stale_pool o) as Hpools.
  { intros oid o'. cbn. rewrite lookup_fmap. destruct (buffer_pools_ (world db) !! oid) as [o|] eqn:E; [|done]. intros [= <-]. eauto. }
  assert (forall oid o, buffer_pools_ (world (stale_db db)) !! oid = Some o -> pool_wf o.1) as Hwf.
  { intros oid o' (o & Ho & ->)%Hpools. destruct (I3 _ _ Ho) as [P1 P2 P3]. split; cbn; [by apply blank_wf|exact P2|].
    intros pid p Hp Hnd. destruct Hnd. apply elem_of_dom. eauto. }
  assert (forall k, mem_of (world (stale_db db)) k = mem_of (world db) k) as Hm.
  { intros k. unfold mem_of. cbn. rewrite lookup_fmap. destruct (buffer_pools_ (world db) !! key_object k) as [o|] eqn:Ho; [|done].
    apply stale_mem; [by eapply I3|by eapply Hall]. }
  pose proof (tables_ready th c (world db) T n I4 I3) as [R1 R2 R3 R4].
  split; try done.
  - eapply tables_transfer; [exact I4|intros k; left; apply Hm|]. split.
    + intros oid o' Ho'. split; [by eapply Hwf|]. destruct (Hpools _ _ Ho') as (o & Ho & ->). apply (R1 _ _ Ho).
    + intros t Ht. destruct (R2 t Ht) as (o & Ho & Hids). exists (stale_pool o). split; [|exact Hids].
      cbn. rewrite lookup_fmap. by rewrite Ho.
    + intros i Hi. cbn. rewrite lookup_fmap. apply fmap_is_Some. by apply R3.
    + exact R4.
  - intros oid. cbn. rewrite lookup_fmap, fmap_is_Some. apply I5.
  - by destruct I6 as [S1 S2 S3].
  - intros oid. cbn. rewrite lookup_fmap, fmap_is_Some. apply I9.
Qed.

(** An exit right after a checkpoint. *)
Lemma checkpoint_left th c db T n db1 :
  in_memory th c db T n -> Checkpoint th db = (Ret tt, db1) -> crash_files db1 (world db1) None (all_files db1).
Proof.
  intros Him Hc. destruct (Checkpoint_run th _ (im_alone _ _ _ _ _ Him) (im_pools _ _ _ _ _ Him) (im_known _ _ _ _ _ Him)) as (w & Hrun & Hb & _).
  rewrite Hrun in Hc. injection Hc as <-. pose proof (wb_wf _ _ _ Hb (im_pools _ _ _ _ _ Him)) as Hwf.
  split; [apply all_meta_crash, (ss_durable _ (im_saved _ _ _ _ _ Him))|]. exists (disks_of w). split.
  - split; [by exists 0|intros oid d; rewrite disks_of_lookup; destruct (buffer_pools_ w !! oid) eqn:E; [intros [= <-]; by eapply pw_disk, Hwf|done]|by left].
  - intros oid. cbn. rewrite disks_of_lookup, lookup_fmap. by destruct (buffer_pools_ w !! oid).
Qed.

(** INSERT; the files lose every page; a checkpoint, an exit, and a new
    session. The row's page was a page of zeros on disk before. *)
Lemma checkpoint_reopens_witness :
  exists rid db2 db3, page_of (disks_of (world (stale_db ann_db))) (mkPageKey 0 0) = Some zero_page /\
    Checkpoint 0 (stale_db ann_db) = (Ret tt, db2) /\ page_of (disks_of (world db2)) (mkPageKey 0 0) <> Some zero_page /\
    OpenDatabase 0 true (str "db") (all_files db2) = Ret db3 /\
    at_rest 0 (regrouped (str "db") people) db3 (<[str "people" := [(rid, ann)]]> (fun _ => [])) 5.
Proof.
  destruct (autocommit_run 0 calm_env people people_db (fun _ => []) 5 insert_ann) as (o & w & T' & H1 & H2 & H3);
    [done|done|apply people_serving; vm_compute; reflexivity|by apply ann_fits|split; vm_compute; reflexivity|].
  destruct (ann_inserted _ o T' eq_refl H2) as (-> & rid & ->).
  pose proof (at_rest_world _ _ _ _ _ _ _ _ (people_at_rest 5 eq_refl) H3) as Hr.
  assert (set_world w people_db = ann_db) as Hdb by exact (eq_sym (f_equal snd H1)). rewrite Hdb in Hr.
  assert (all_cached (world ann_db)) as Hall by (apply (bool_decide_unpack _); vm_compute; exact I).
  pose proof (stale_in_memory _ _ _ _ _ Hr Hall) as Him.
  destruct (checkpoint_reopens 0 (stale_db ann_db)) as [Hck _]. destruct (Hck _ _ _ Him) as (db2 & Hc & Hlog & Hpg & Hre).
  destruct (Hre (str "db") (all_files db2) (checkpoint_left _ _ _ _ _ _ Him Hc)) as (db3 & Ho & Hr3).
  exists rid, db2, db3. split; [vm_compute; reflexivity|]. split; [exact Hc|]. split; [|split; [exact Ho|exact Hr3]].
  rewrite (proj2 (Hpg _)). vm_compute. discriminate.
Defined.

(** ** A schema change whose rename is lost

    CREATE TABLE, INSERT, and a crash that brings the metadata file of before
    back: the synced log has the row of a table nobody knows, and the
    constructor throws. *)

Lemma lost_rename_unopenable :
  let db2 := (Execute 0 calm_env insert_ann tabled_db).2 in
  Execute 0 calm_env (CreateTableStmt (mkCreateTable (str "people") people_columns (Some (str "id")))) created_db = (Ret no_result, tabled_db) /\
  (Execute 0 calm_env insert_ann tabled_db).1 = Ret (mkResult [] [] 1) /\
  OpenDatabase 0 true (str "db") (mkFiles (dir (store created_db)) (f_wal (all_files db2)) (f_objects (all_files db2))) = Throw OutOfRange.
Proof. split; [exact tabled_answers|]. split; vm_compute; reflexivity. Qed.
